(* ===== verification/_CoqProject ===== *)
-Q . S2P
Prelude.v
GoStrings.v
Url.v
External.v
Spec.v
SshConfig.v
Auth.v
Dial.v
World.v
Ledger.v
Session.v
Forward.v
Shell.v
Manager.v
ManagerProps.v
Lifecycle.v
Socks.v
ShellRace.v
Docker.v
DockerProps.v
State.v
Files.v
Store.v
Paths.v
Duration.v
Containers.v
Disk.v
Copy.v
Sftp.v
Records.v
Registry.v
DRegistry.v
DaemonLock.v
Daemon.v
Tools.v
ToolsSsh.v
ToolsDocker.v
Catalogue.v
Persistence.v
Flush.v
Life.v
Resume.v
Restart.v
ToolRegistry.v
Setup.v
Cli.v
Launcher.v
Proxy.v
Bridge.v
Main.v
Mcpd.v
CommandLine.v
DaemonMain.v
