(* ===== verification/Prelude.v ===== *)
(** * A model of remote-shell-mcp, and what holds of it

    remote-shell-mcp keeps ssh sessions, port forwards, shells and Docker
    connections open in a daemon and offers them as tools of the Model Context
    Protocol.  This library models the daemon as executable functions and proves
    what makes it correct.  This first file holds the header, the state and error
    monad, and the generic lemmas and tactics.

    ** The program and the files that model it

    - internal/sshx/spec.go, auth.go, connect.go, sshconfig.go: the specs a client
      hands over and the way they are dialed.  Spec.v (records; slices name arrays
      of a store, because the code writes through shared ones), Duration.v (the
      JSON syntax of durations, in int64 arithmetic), SshConfig.v, Auth.v, Dial.v.
    - internal/sshx/session.go, forward.go, shell.go, manager.go: World.v is the
      state, a heap of sessions, forwards and shells with the manager's map;
      Session.v, Forward.v, Shell.v, Manager.v and Socks.v are the operations, one
      definition per Go function.  ManagerProps.v: calls one after the other;
      Registry.v: what they amount to, an abstract registry.
      Lifecycle.v (Connect, Disconnect and Reconnect) and ShellRace.v (a shell's two
      pumps, any number of Reads, the waiter and Close): the same functions cut at
      their locks and interleaved.
    - internal/sshx/sftp.go, internal/dockerx/copy.go: files over SFTP (Sftp.v) and
      in and out of containers (Copy.v), next to the local disk (Disk.v), on Go's
      slash-separated paths (Paths.v).
    - internal/dockerx/connect.go, manager.go, shell.go: Docker.v, DockerProps.v for
      the interleavings and DRegistry.v for the registry of hosts that they amount
      to; container.go, image.go, run.go: Containers.v.
    - internal/state: State.v (Capture and Restore) and Store.v (the state file), on
      a file system with crashes (Files.v).
    - internal/daemon: DaemonLock.v (the lock file) and Daemon.v (bearer token, rpc
      endpoint, handle file).
    - internal/mcptools: Tools.v (what handlers share), ToolsSsh.v and ToolsDocker.v
      (the handlers), Catalogue.v (their registration), ToolRegistry.v (what each
      tool does to the two registries), Persistence.v and Flush.v (when the state is
      written).
    - cmd/remote-shell-mcpd/main.go: Life.v (loading the state, and the shutdown),
      Resume.v (what a session that comes back connects to), Restart.v (the two ends
      composed), Mcpd.v (the process: lock, port, handle file, the routes of the
      server, exits) and DaemonMain.v (all of it, from the start to the exit, with
      tool calls in between).
    - internal/launcher: Launcher.v (spawn.go), Proxy.v (the event stream, the
      watchdog and the requests of proxy.go) and Bridge.v (the goroutines that carry
      the lines of the standard input, over any number of [Run]s).
    - cmd/remote-shell-mcp: Main.v (main.go) and Cli.v (cli.go); CommandLine.v: the
      flags of both programs and of setup, read as Go's package flag reads them.
    - internal/setup: Setup.v.

    A tool call is a handler of ToolsSsh.v or ToolsDocker.v, which runs operations
    of the two managers on the [Server] of Tools.v and asks for a flush; the
    flusher captures both managers (State.v) and saves (Store.v).  World.v,
    Docker.v and the disk each have a network [Net] of open resources.  A client
    process finds the daemon by the handle file that Mcpd.v writes and Launcher.v
    reads; Bridge.v and Cli.v are its users.

    ** How code becomes definitions

    Fallible, stateful code is the monad [M S A]: it returns a value, an error or a
    panic, and the state in every case; [defer] is [finally], a dropped error is
    [ignore].  Code outside the repository (the operating system, x/crypto/ssh,
    pkg/sftp, the Docker client) is the type [ext] of External.v: each call is
    answered by an environment [Env] that no theorem restricts, except by a named
    hypothesis about what a library documents.  What a call opens is a resource
    whose closing is accounted for.  Go's strings, numbers and URLs are in
    GoStrings.v and Url.v.  A loop over a map visits it in the order of
    [map_to_list].  Ledger.v, Spec.v's views and Records.v are proof devices: who
    owns which resource, and which operations change what is persisted.

    ** The theorems

    - Resources: every open connection has a holder, however Connects and
      Disconnects interleave ([lifecycle_accounts]), after any sequence of manager
      calls and then exactly one ([manager_no_leak]), and however Docker calls
      interleave ([docker_accounts]); a failed dial and a file transfer leave nothing
      open ([dialFinal_no_leak], [sftp_leaves_nothing_open],
      [docker_calls_keep_world], [CloseAll_closes_everything]).  The interleavings
      that break this: [connect_race_orphans_session], a failed Connect that deletes
      another's entry (the steps of Lifecycle.v have it under the flag [race]),
      [reconnect_race_leaks_transport] and [docker_exit_leaks].
    - The managers: the ssh manager refines a registry of sessions and forwards
      ([manager_refines_registry]), the Docker manager a registry of hosts, with its
      calls interleaved ([docker_refines_registry]); [Connect_atomic], [Reconnect_keeps_session],
      [reconnect_schedule], [dialFinal_first_reachable]; shells:
      [shell_read_no_lost_wakeup], [pump_chunks_suffix].
    - Parsers and encodings: SOCKS5 requests, ssh_config (termination and the cycle
      that does not terminate), durations, port specifications, addresses.
    - Persistence: what a snapshot holds ([capture_records], [capture_no_secrets]),
      that saving is atomic and loading its inverse, that no tool forgets to ask
      for a write ([tools_persist]; the one that does is in [cancel_error_forgotten]),
      that in every interleaving of calls, flusher and Stop the state file is
      current, or a write is to come, or one went wrong ([flush_no_lost_update]),
      when the writes happen ([flusher_exact]), and the two ends of a run
      ([shutdown_saves_first], [restart_restores], [daemon_after_daemon],
      [restart_drops_unrestored]): [brought_back] says what the next daemon has, less
      exactly as many records as it counts as failed.
    - Transfers: an uploaded tree arrives ([copy_roundtrip], [sftp_upload_mirrors],
      [sftp_download_lands]); where a download may write ([download_contained]).
    - The door: [front_door], [handle_published]; one daemon at a time
      ([lock_refines_mutex], [start_race_exclusive], [release_race_two_daemons]).
    - The process: [daemon_start_exact], [daemon_finish_clean], and what a start that
      failed leaves behind ([failed_start_signals]).
    - The launcher: [launcher_exact].  The proxy: [sse_messages_whole],
      [watchdog_exact], [lines_accounted], [bridge_can_finish], [reconnect_forever],
      and the two ways to lose a line ([dead_run_eats_line], [eof_overtakes_line]).
    - The other faces of the client: [install_exact], [setup_consent];
      [kv_args_roundtrip], [splitKVOp_exact], [cli_exit_codes]; the flags:
      [command_line_exact], [flag_beats_environment], [bad_command_line].
    - The tools: [tool_is_one_step], [required_enforced], [out_of_range_refused],
      [tool_times_bounded].

    ** Fuel and bounds

    [resolveFromSSHConfig] recurses through ProxyJump: [fuel] is the depth, and
    [resolve_terminates] gives one that is enough when the aliases are ranked.
    [attemptReconnect] retries without limit; its fuel counts attempts, and every
    fuel gives a prefix of the same schedule.  [WaitUntilListening] looks at most
    [total / 150ms + 2] times ([wait_terminates]); the waits of the launcher pause
    100 ms between looks, so 21 looks are enough for a process to go and 101 for a
    handle to appear ([launcher_exact]).  [watchdog] counts ticks of five seconds.
    [ParseDuration] consumes a byte per item, so the length of its input is enough.  int64 and uint64 arithmetic is
    wrapped where the code can overflow (Duration.v); counters of bytes and file
    sizes are unbounded integers.

    ** Not modelled

    - The logger, the usage texts and what setup prints; the HTTP server and client,
      and the detaching of the process that the launcher starts.  In DaemonMain.v tool
      calls follow one another and end before the shutdown; Lifecycle.v,
      DockerProps.v, DRegistry.v and Flush.v are about calls that overlap, Flush.v
      also about those that outlive the server's [Shutdown].
    - Timers that are late: [flusher] is the debounce loop in ideal time.
    - The cancellation of main's context by a signal: it ends the process of the
      proxy and all its goroutines.
    - The text of JSON and TOON, which [encoding/json] and toon-go make.
    - Symbolic links on the side that is written to; the modes of files there.
    - Windows: LockFileEx has flock's contract. *)

From stdpp Require Export base tactics list strings gmap sets fin_maps fin_sets.
From Stdlib Require Export ZArith Lia.
From Stdlib Require Import Ascii.

#[global] Open Scope string_scope.
#[global] Open Scope list_scope.
#[global] Open Scope Z_scope.

(** ** Errors and outcomes

    A Go [error] is kept as the call that built it: [Msg] for [errors.New],
    [Fmt] for [fmt.Errorf] with its format string and its string arguments,
    [Wrap] for a [fmt.Errorf] whose last argument is an error ([%w] or [%v]).
    The text that [fmt] would render is not computed. *)
Inductive error :=
  | Msg (s : string)
  | Fmt (f : string) (args : list string)
  | Wrap (f : string) (args : list string) (cause : error).

(** A call returns, fails with an error, or panics (which ends the daemon). *)
Inductive outcome (A : Type) :=
  | Ret (a : A)
  | Err (e : error)
  | Panic (why : string).
Arguments Ret {A} a.
Arguments Err {A} e.
Arguments Panic {A} why.

Definition is_panic {A} (o : outcome A) : bool :=
  match o with Panic _ => true | _ => false end.

(** ** The monad of stateful code that may fail

    [if err != nil { return err }] is the bind: the state changes made before
    the error stay. *)
Definition M (S A : Type) : Type := S → outcome A * S.

#[export] Instance M_ret S : MRet (M S) := λ A a s, (Ret a, s).
#[export] Instance M_bind S : MBind (M S) := λ A B k m s,
  match m s with
  | (Ret a, s') => k a s'
  | (Err e, s') => (Err e, s')
  | (Panic p, s') => (Panic p, s')
  end.

Definition fail {S A} (e : error) : M S A := λ s, (Err e, s).
Definition panic {S A} (p : string) : M S A := λ s, (Panic p, s).
Definition get {S} : M S S := λ s, (Ret s, s).
Definition gets {S A} (f : S → A) : M S A := λ s, (Ret (f s), s).
Definition modify {S} (f : S → S) : M S unit := λ s, (Ret tt, f s).

(** [x, err := m]: the error becomes a value the caller inspects. *)
Definition try {S A} (m : M S A) : M S (error + A) := λ s,
  match m s with
  | (Ret a, s') => (Ret (inr a), s')
  | (Err e, s') => (Ret (inl e), s')
  | (Panic p, s') => (Panic p, s')
  end.

(** [_ = m]: the error is dropped. *)
Definition ignore {S A} (m : M S A) : M S unit := try m ≫= λ _, mret tt.

(** [defer d()] around [m]: [d] runs after [m] on every path that returns. *)
Definition finally {S A} (m : M S A) (d : M S unit) : M S A :=
  try m ≫= λ r, d ≫= λ _, match r with inr a => mret a | inl e => fail e end.

Definition of_sum {S A} (r : error + A) : M S A :=
  match r with inr a => mret a | inl e => fail e end.

(** [for _, x := range l { f(x) }] *)
Fixpoint forM_ {S A} (l : list A) (f : A → M S unit) : M S unit :=
  match l with
  | [] => mret tt
  | x :: l' => f x ≫= λ _, forM_ l' f
  end.

(** Run [m] on a part of a larger state. *)
Definition zoom {S T A} (g : S → T) (p : T → S → S) (m : M T A) : M S A := λ s,
  let '(r, t) := m (g s) in (r, p t s).

Lemma bind_ret {S A B} (m : M S A) (k : A → M S B) s a s' :
  m s = (Ret a, s') → (m ≫= k) s = k a s'.
Proof. intros H. unfold mbind, M_bind. by rewrite H. Qed.
Lemma bind_err {S A B} (m : M S A) (k : A → M S B) s e s' :
  m s = (Err e, s') → (m ≫= k) s = (Err e, s').
Proof. intros H. unfold mbind, M_bind. by rewrite H. Qed.

Lemma finally_ret {S A} (m : M S A) d s a s1 s2 :
  m s = (Ret a, s1) → d s1 = (Ret tt, s2) → finally m d s = (Ret a, s2).
Proof. intros Hm Hd. unfold finally, try, mbind, M_bind. by rewrite Hm, Hd. Qed.

(** ** Record update: [r <| f := v |>] for a field [f] with a [Setter]. *)
Class Setter {R T : Type} (f : R → T) := upd : (T → T) → R → R.
Arguments upd {R T} f {_} g r : simpl nomatch.

Declare Scope record_scope.
Set Warnings "-postfix-notation-not-level-1".
Notation "r <| f := v |>" := (upd f (λ _, v) r)
  (at level 12, left associativity) : record_scope.
Notation "r <| f ::= g |>" := (upd f g r)
  (at level 12, left associativity) : record_scope.
#[global] Open Scope record_scope.

(** [mk_setter eta] builds the setter of the field whose instance is wanted,
    from [eta r], the constructor of the record applied to every field of [r]. *)
Ltac mk_setter eta :=
  lazymatch goal with
  | |- @Setter ?R ?T ?f =>
    let g := fresh "g" in let r := fresh "r" in
    intros g r;
    let body := eval cbv beta delta [eta] in (eta r) in
    let abs := eval pattern (f r) in body in
    lazymatch abs with ?h _ => let t := eval cbv beta in (h (g (f r))) in exact t end
  end.

(** ** Weakest preconditions of [M] *)
Definition wp {S A} (m : M S A) (Q : outcome A → S → Prop) : S → Prop := λ s,
  Q (m s).1 (m s).2.

Section wp.
Context {S : Type}.
Implicit Types s : S.

Lemma wp_ret {A} (a : A) Q s : Q (Ret a) s → wp (mret a : M S A) Q s.
Proof. done. Qed.
Lemma wp_fail {A} e (Q : outcome A → S → Prop) s : Q (Err e) s → wp (fail e) Q s.
Proof. done. Qed.
Lemma wp_panic {A} p (Q : outcome A → S → Prop) s : Q (Panic p) s → wp (panic p) Q s.
Proof. done. Qed.
Lemma wp_gets {A} (f : S → A) Q s : Q (Ret (f s)) s → wp (gets f) Q s.
Proof. done. Qed.
Lemma wp_get Q s : Q (Ret s) s → wp get Q s.
Proof. done. Qed.
Lemma wp_modify (f : S → S) Q s : Q (Ret tt) (f s) → wp (modify f) Q s.
Proof. done. Qed.

Lemma wp_bind {A B} (m : M S A) (k : A → M S B) Q s :
  wp m (λ o s', match o with
                | Ret a => wp (k a) Q s'
                | Err e => Q (Err e) s'
                | Panic p => Q (Panic p) s'
                end) s →
  wp (m ≫= k) Q s.
Proof. unfold wp, mbind, M_bind. destruct (m s) as [[] ?]; done. Qed.

Lemma wp_mono {A} (m : M S A) (P Q : outcome A → S → Prop) s :
  wp m P s → (∀ o s', P o s' → Q o s') → wp m Q s.
Proof. unfold wp. auto. Qed.

Lemma wp_try {A} (m : M S A) Q s :
  wp m (λ o s', match o with
                | Ret a => Q (Ret (inr a)) s'
                | Err e => Q (Ret (inl e)) s'
                | Panic p => Q (Panic p) s'
                end) s →
  wp (try m) Q s.
Proof. unfold wp, try. destruct (m s) as [[] ?]; done. Qed.

Lemma wp_ignore {A} (m : M S A) Q s :
  wp m (λ o s', match o with Panic p => Q (Panic p) s' | _ => Q (Ret tt) s' end) s →
  wp (ignore m) Q s.
Proof.
  intros H. apply wp_bind, wp_try. eapply wp_mono; [exact H|].
  intros [] ?; done.
Qed.

Lemma wp_zoom {T A} (g : S → T) (p : T → S → S) (m : M T A) Q s :
  wp m (λ o t, Q o (p t s)) (g s) → wp (zoom g p m) Q s.
Proof. unfold wp, zoom. by destruct (m (g s)). Qed.

Lemma wp_forM {A} (l : list A) (f : A → M S unit) (I : list A → S → Prop) Q s :
  I l s →
  (∀ x l' s, I (x :: l') s →
     wp (f x) (λ o s', match o with
                       | Ret _ => I l' s'
                       | Err e => Q (Err e) s'
                       | Panic p => Q (Panic p) s'
                       end) s) →
  (∀ s, I [] s → Q (Ret tt) s) →
  wp (forM_ l f) Q s.
Proof.
  intros HI Hstep Hend. revert s HI. induction l as [|x l IH]; intros s HI; simpl.
  - by apply wp_ret, Hend.
  - apply wp_bind. eapply wp_mono; [by apply Hstep|].
    intros [[]| |] s'; auto.
Qed.
End wp.

(** A pair is its two halves under [wp]: what [wp] says of the run [m s]. *)
Lemma wp_run {S A} (m : M S A) Q s : wp m Q s ↔ Q (m s).1 (m s).2.
Proof. done. Qed.

(** ** Code that only moves the state along a preorder *)
Definition stays {S A} (R : S → S → Prop) (m : M S A) : Prop := ∀ s, R s (m s).2.

Section stays.
Context {S : Type} (R : S → S → Prop) `{!PreOrder R}.

Lemma stays_ret {A} (a : A) : stays R (mret a : M S A).
Proof. intros s. simpl. reflexivity. Qed.
Lemma stays_fail {A} e : stays R (fail e : M S A).
Proof. intros s. simpl. reflexivity. Qed.
Lemma stays_panic {A} e : stays R (panic e : M S A).
Proof. intros s. simpl. reflexivity. Qed.
Lemma stays_gets {A} (f : S → A) : stays R (gets f).
Proof. intros s. simpl. reflexivity. Qed.
Lemma stays_get : stays R get.
Proof. intros s. simpl. reflexivity. Qed.
Lemma stays_of_sum {A} (r : error + A) : stays R (of_sum r : M S A).
Proof. intros s. destruct r; simpl; reflexivity. Qed.
Lemma stays_modify (f : S → S) : (∀ s, R s (f s)) → stays R (modify f).
Proof. intros H s. apply H. Qed.
Lemma stays_bind {A B} (m : M S A) (k : A → M S B) :
  stays R m → (∀ a, stays R (k a)) → stays R (m ≫= k).
Proof.
  intros Hm Hk s. unfold mbind, M_bind. specialize (Hm s).
  destruct (m s) as [[a| |] s']; simpl in *; [|done|done].
  etrans; [exact Hm|apply Hk].
Qed.
Lemma stays_try {A} (m : M S A) : stays R m → stays R (try m).
Proof. intros Hm s. unfold try. specialize (Hm s). by destruct (m s) as [[] ?]. Qed.
Lemma stays_ignore {A} (m : M S A) : stays R m → stays R (ignore m).
Proof. intros Hm. apply stays_bind; [by apply stays_try|]. intros; apply stays_ret. Qed.
Lemma stays_finally {A} (m : M S A) d : stays R m → stays R d → stays R (finally m d).
Proof.
  intros Hm Hd. apply stays_bind; [by apply stays_try|]. intros r.
  apply stays_bind; [done|]. intros _. destruct r; [apply stays_fail|apply stays_ret].
Qed.
Lemma stays_forM {A} (l : list A) f : (∀ x, stays R (f x)) → stays R (forM_ l f).
Proof.
  intros Hf. induction l; simpl; [apply stays_ret|]. apply stays_bind; auto.
Qed.
End stays.

Create HintDb stays discriminated.
#[export] Hint Resolve stays_ret stays_fail stays_panic stays_gets stays_get
  stays_of_sum stays_try stays_ignore stays_finally stays_forM : stays.

(** Walk the structure of a monadic definition, closing leaves with [stays]. *)
Ltac solve_stays :=
  repeat first
    [ progress intros
    | solve [eauto with stays]
    | first [apply stays_ret | apply stays_fail | apply stays_panic | apply stays_gets
            | apply stays_get | apply stays_of_sum]; typeclasses eauto
    | apply stays_modify; solve [intros; repeat split; reflexivity]
    | apply stays_try
    | apply stays_bind; [typeclasses eauto| |]
    | apply stays_finally; [typeclasses eauto| |]
    | apply stays_try; [typeclasses eauto|]
    | apply stays_ignore; [typeclasses eauto|]
    | apply stays_forM; [typeclasses eauto|]
    | case_match ].

(** ** Code that reports no error (it may still panic) *)
Definition noerr {S A} (m : M S A) : Prop := ∀ s e, (m s).1 ≠ Err e.

Section noerr.
Context {S : Type}.
Lemma noerr_ret {A} (a : A) : noerr (mret a : M S A). Proof. done. Qed.
Lemma noerr_panic {A} p : noerr (panic p : M S A). Proof. done. Qed.
Lemma noerr_gets {A} (f : S → A) : noerr (gets f). Proof. done. Qed.
Lemma noerr_modify (f : S → S) : noerr (modify f). Proof. done. Qed.
Lemma noerr_try {A} (m : M S A) : noerr (try m).
Proof. intros s e. unfold try. by destruct (m s) as [[] ?]. Qed.
Lemma noerr_bind {A B} (m : M S A) (k : A → M S B) :
  noerr m → (∀ a, noerr (k a)) → noerr (m ≫= k).
Proof.
  intros Hm Hk s e. unfold mbind, M_bind. specialize (Hm s e).
  destruct (m s) as [[a|e'|p] s']; simpl in *; [apply Hk|congruence|done].
Qed.
Lemma noerr_forM {A} (l : list A) (f : A → M S unit) : (∀ x, noerr (f x)) → noerr (forM_ l f).
Proof.
  intros Hf. induction l; simpl; [apply noerr_ret|]. by apply noerr_bind.
Qed.
Lemma noerr_zoom {T A} (g : S → T) p (m : M T A) : noerr m → noerr (zoom g p m).
Proof. intros Hm s e. unfold zoom. specialize (Hm (g s) e). by destruct (m (g s)). Qed.
End noerr.
Create HintDb noerr discriminated.
#[export] Hint Resolve noerr_ret noerr_panic noerr_gets noerr_modify noerr_try noerr_forM
  noerr_zoom : noerr.
Ltac solve_noerr :=
  repeat first
    [ progress intros | solve [eauto with noerr] | apply noerr_bind | apply noerr_forM
    | apply noerr_try | apply noerr_zoom | case_match ].
