(* ===== verification/GoStrings.v ===== *)
(** * Strings the way Go's standard library treats them

    Go strings are byte strings: [String.string].  This file holds the functions
    of [strings], [strconv] and [net] that the program calls ([TrimSpace],
    [TrimPrefix], [Split], [ParseUint], [Itoa], [SplitHostPort],
    [JoinHostPort], ...) with the lemmas the components use. *)

From S2P Require Import Prelude.
From Stdlib Require Import Ascii String.

#[global] Arguments String.append !_ _ : simpl nomatch.

Notation "a +:+ b" := (String.append a b) (at level 60, right associativity) : string_scope.
#[global] Open Scope string_scope.
#[global] Open Scope list_scope.
#[global] Open Scope Z_scope.

(** ** Shape of strings *)
Fixpoint In_str (c : ascii) (s : string) : bool :=
  match s with
  | "" => false
  | String a s' => bool_decide (a = c) || In_str c s'
  end.

Fixpoint has_prefix (p s : string) : bool :=
  match p, s with
  | "", _ => true
  | String a p', String b s' => bool_decide (a = b) && has_prefix p' s'
  | _, "" => false
  end.

(** [strings.TrimPrefix] *)
Fixpoint strip (p s : string) : option string :=
  match p, s with
  | "", _ => Some s
  | String a p', String b s' => if decide (a = b) then strip p' s' else None
  | _, "" => None
  end.
Definition TrimPrefix (s p : string) : string := default s (strip p s).

Fixpoint drop_str (n : nat) (s : string) : string :=
  match n, s with
  | O, _ => s
  | S n', String _ s' => drop_str n' s'
  | _, "" => ""
  end.
Fixpoint take_str (n : nat) (s : string) : string :=
  match n, s with
  | S n', String a s' => String a (take_str n' s')
  | _, _ => ""
  end.

(** The text around the first and the last occurrence of a byte. *)
Fixpoint cut (c : ascii) (s : string) : option (string * string) :=
  match s with
  | "" => None
  | String a s' =>
    if decide (a = c) then Some ("", s')
    else match cut c s' with Some (l, r) => Some (String a l, r) | None => None end
  end.
Fixpoint cut_last (c : ascii) (s : string) : option (string * string) :=
  match s with
  | "" => None
  | String a s' =>
    match cut_last c s' with
    | Some (l, r) => Some (String a l, r)
    | None => if decide (a = c) then Some ("", s') else None
    end
  end.

(** [strings.Split] on a one-byte separator *)
Fixpoint Split (c : ascii) (s : string) : list string :=
  match s with
  | "" => [""]
  | String a s' =>
    if decide (a = c) then "" :: Split c s'
    else match Split c s' with h :: t => String a h :: t | [] => [String a ""] end
  end.

(** [strings.Join] *)
Fixpoint Join (l : list string) (sep : string) : string :=
  match l with
  | [] => ""
  | [x] => x
  | x :: l' => (x +:+ sep +:+ Join l' sep)%string
  end.

(** ** Case *)
Definition code (a : ascii) : Z := Z.of_N (N_of_ascii a).
Definition lower_ascii (a : ascii) : ascii :=
  if bool_decide (65 ≤ code a ≤ 90) then ascii_of_N (Z.to_N (code a + 32)) else a.
Fixpoint ToLower (s : string) : string :=
  match s with "" => "" | String a s' => String (lower_ascii a) (ToLower s') end.
(** [strings.EqualFold] on ASCII text *)
Definition EqualFold (a b : string) : bool := bool_decide (ToLower a = ToLower b).

(** ** [strings.TrimSpace]: [unicode.IsSpace] as UTF-8 byte sequences *)
Definition sp1 (a : ascii) : bool := bool_decide (9 ≤ code a ≤ 13 ∨ code a = 32).
Definition sp2 (a b : ascii) : bool :=
  bool_decide (code a = 0xC2 ∧ (code b = 0x85 ∨ code b = 0xA0)).
Definition sp3 (a b c : ascii) : bool :=
  bool_decide ((code a = 0xE1 ∧ code b = 0x9A ∧ code c = 0x80)
    ∨ (code a = 0xE2 ∧ code b = 0x80 ∧ (0x80 ≤ code c ≤ 0x8A ∨ code c = 0xA8 ∨ code c = 0xA9 ∨ code c = 0xAF))
    ∨ (code a = 0xE2 ∧ code b = 0x81 ∧ code c = 0x9F)
    ∨ (code a = 0xE3 ∧ code b = 0x80 ∧ code c = 0x80)).

(** Drop leading spaces; [f2], [f3] recognise a two- or three-byte space. *)
Fixpoint trim_l (f2 : ascii → ascii → bool) (f3 : ascii → ascii → ascii → bool)
    (s : string) : string :=
  match s with
  | "" => ""
  | String a s1 =>
    if sp1 a then trim_l f2 f3 s1 else
    match s1 with
    | "" => s
    | String b s2 =>
      if f2 a b then trim_l f2 f3 s2 else
      match s2 with
      | "" => s
      | String c s3 => if f3 a b c then trim_l f2 f3 s3 else s
      end
    end
  end.
Definition trim_left (s : string) : string := trim_l sp2 sp3 s.
Definition trim_right (s : string) : string :=
  String.rev (trim_l (λ a b, sp2 b a) (λ a b c, sp3 c b a) (String.rev s)).
Definition TrimSpace (s : string) : string := trim_right (trim_left s).

(** ** Numbers *)
Definition digit (a : ascii) : option Z :=
  if bool_decide (48 ≤ code a ≤ 57) then Some (code a - 48) else None.

(** Value of a digit string in a base of at most ten, most significant digit
    first; [None] on any other byte. *)
Fixpoint digits_val (base acc : Z) (s : string) : option Z :=
  match s with
  | "" => Some acc
  | String a s' =>
    match digit a with
    | Some d => if bool_decide (d < base) then digits_val base (acc * base + d) s' else None
    | None => None
    end
  end.

(** [strconv.ParseUint(s, base, bits)]; [None] is a syntax or range error. *)
Definition ParseUint (s : string) (base bits : Z) : option Z :=
  if decide (s = "") then None else
  match digits_val base 0 s with
  | Some n => if bool_decide (n < 2 ^ bits) then Some n else None
  | None => None
  end.

Definition digit_char (d : Z) : ascii := ascii_of_N (Z.to_N (d + 48)).
Fixpoint itoa_go (fuel : nat) (n : Z) (acc : string) : string :=
  match fuel with
  | O => acc
  | S f =>
    let acc' := String (digit_char (n mod 10)) acc in
    if bool_decide (n < 10) then acc' else itoa_go f (n / 10) acc'
  end.
(** [strconv.Itoa] *)
Definition utoa (n : Z) : string := itoa_go (S (Z.to_nat (Z.log2 n))) n "".
Definition Itoa (n : Z) : string :=
  if bool_decide (n < 0) then String "-" (utoa (- n)) else utoa n.

(** ** [net.SplitHostPort] and [net.JoinHostPort] *)
Definition colon : ascii := ":"%char.
Definition lbrack : ascii := "["%char.
Definition rbrack : ascii := "]"%char.

Definition AddrError (why addr : string) : error := Fmt why [addr].

Definition SplitHostPort (hostport : string) : error + (string * string) :=
  match cut_last colon hostport with
  | None => inl (AddrError "missing port in address" hostport)
  | Some (pre, port) =>
    match hostport with
    | String a tl =>
      if decide (a = lbrack) then
        match cut rbrack tl with
        | None => inl (AddrError "missing ']' in address" hostport)
        | Some (host, rest) =>
          match rest with
          | "" => inl (AddrError "missing port in address" hostport)
          | String b p =>
            if decide (b = colon) then
              if In_str colon p then inl (AddrError "too many colons in address" hostport)
              else if In_str lbrack tl then inl (AddrError "unexpected '[' in address" hostport)
              else if In_str rbrack rest then inl (AddrError "unexpected ']' in address" hostport)
              else inr (host, p)
            else inl (AddrError "missing port in address" hostport)
          end
        end
      else
        if In_str colon pre then inl (AddrError "too many colons in address" hostport)
        else if In_str lbrack hostport then inl (AddrError "unexpected '[' in address" hostport)
        else if In_str rbrack hostport then inl (AddrError "unexpected ']' in address" hostport)
        else inr (pre, port)
    | "" => inl (AddrError "missing port in address" hostport)
    end
  end.

Definition JoinHostPort (host port : string) : string :=
  if In_str colon host then (String lbrack (host +:+ String rbrack (String colon port)))%string
  else (host +:+ String colon port)%string.

(** ** Lemmas *)

Lemma app_nil_r_str s : s +:+ "" = s.
Proof. induction s; simpl; congruence. Qed.
Lemma app_assoc_str a b c : (a +:+ b) +:+ c = a +:+ b +:+ c.
Proof. induction a; simpl; congruence. Qed.
Lemma length_app_str s t : String.length (s +:+ t) = (String.length s + String.length t)%nat.
Proof. induction s as [|a s IH]; simpl; [done|]. by rewrite IH. Qed.
Lemma app_cons_str a s t : String a s +:+ t = String a (s +:+ t).
Proof. done. Qed.

Lemma In_str_app c s t : In_str c (s +:+ t) = In_str c s || In_str c t.
Proof. induction s; simpl; [done|]. rewrite IHs. by destruct (bool_decide _). Qed.

Lemma cut_Some c s l r : cut c s = Some (l, r) → s = l +:+ String c r ∧ In_str c l = false.
Proof.
  revert l. induction s as [|a s IH]; intros l; simpl; [done|].
  destruct (decide (a = c)) as [->|Hne]; [intros [= <- <-]; done|].
  destruct (cut c s) as [[l' r']|]; [|done]. intros [= <- <-].
  destruct (IH l' eq_refl) as [-> Hl]. split; [done|]. simpl.
  by rewrite bool_decide_false.
Qed.

Lemma cut_app c l r : In_str c l = false → cut c (l +:+ String c r) = Some (l, r).
Proof.
  induction l as [|a l IH]; simpl; intros H; [by rewrite decide_True|].
  apply orb_false_iff in H as [H1 H2]. apply bool_decide_eq_false in H1.
  by rewrite decide_False, IH by done.
Qed.

Lemma Split_no c s : In_str c s = false → Split c s = [s].
Proof.
  induction s as [|a s IH]; simpl; [done|]. intros [Ha Hs]%orb_false_elim.
  apply bool_decide_eq_false in Ha. rewrite decide_False by done. by rewrite IH.
Qed.
Lemma Split_app c l r : In_str c l = false → Split c (l +:+ String c r) = l :: Split c r.
Proof.
  induction l as [|a l IH]; simpl; [by rewrite decide_True|]. intros [Ha Hs]%orb_false_elim.
  apply bool_decide_eq_false in Ha. rewrite decide_False by done. by rewrite IH.
Qed.
Lemma cut_None c s : cut c s = None ↔ In_str c s = false.
Proof.
  induction s as [|a s IH]; simpl; [done|].
  destruct (decide (a = c)) as [->|Hne]; [by rewrite bool_decide_true|].
  rewrite bool_decide_false by done. simpl.
  destruct (cut c s) as [[??]|]; naive_solver.
Qed.

Lemma cut_last_None c s : cut_last c s = None ↔ In_str c s = false.
Proof.
  induction s as [|a s IH]; simpl; [done|].
  destruct (cut_last c s) as [[??]|]; simpl.
  - split; [done|]. intros [_ H]%orb_false_iff. by apply IH in H.
  - destruct (decide (a = c)) as [->|Hne]; [by rewrite bool_decide_true|].
    rewrite bool_decide_false by done. simpl. by rewrite <- IH.
Qed.

Lemma cut_last_Some c s l r :
  cut_last c s = Some (l, r) → s = l +:+ String c r ∧ In_str c r = false.
Proof.
  revert l. induction s as [|a s IH]; intros l; simpl; [done|].
  destruct (cut_last c s) as [[l' r']|] eqn:E.
  - intros [= <- <-]. destruct (IH l' eq_refl) as [-> Hl]. done.
  - destruct (decide (a = c)) as [->|]; [|done]. intros [= <- <-].
    split; [done|]. by apply cut_last_None.
Qed.

Lemma cut_last_app c l r : In_str c r = false → cut_last c (l +:+ String c r) = Some (l, r).
Proof.
  intros H. induction l as [|a l IH]; simpl.
  - apply cut_last_None in H. by rewrite H, decide_True.
  - by rewrite IH.
Qed.

(** What [JoinHostPort] builds, [SplitHostPort] takes apart, for a host and a
    port without brackets and a port without colons. *)
Lemma Split_JoinHostPort h p :
  In_str lbrack h = false → In_str rbrack h = false →
  In_str colon p = false → In_str lbrack p = false → In_str rbrack p = false →
  SplitHostPort (JoinHostPort h p) = inr (h, p).
Proof.
  intros Hl Hr Hc Hpl Hpr. unfold JoinHostPort.
  destruct (In_str colon h) eqn:Eh.
  - unfold SplitHostPort.
    replace (cut_last colon _) with (Some (String lbrack (h +:+ String rbrack ""), p)).
    2:{ symmetry. change (String lbrack (h +:+ String rbrack (String colon p)))
          with (String lbrack h +:+ String rbrack "" +:+ String colon p).
        rewrite <- (app_assoc_str (String lbrack h)). by apply cut_last_app. }
    rewrite decide_True by done. rewrite cut_app by done. cbn iota beta.
    rewrite decide_True by done. rewrite Hc.
    rewrite In_str_app, Hl. simpl. rewrite Hpl. simpl. by rewrite Hpr.
  - unfold SplitHostPort. rewrite cut_last_app by done.
    destruct h as [|a h]; simpl; simpl in Hl, Hr, Eh.
    + by rewrite Hpl, Hpr.
    + apply orb_false_iff in Hl as [Ha%bool_decide_eq_false Hl].
      apply orb_false_iff in Hr as [Hb Hr].
      rewrite decide_False by done. rewrite Eh, !In_str_app, Hl, Hr, Hb. simpl.
      rewrite Hpl, Hpr. by rewrite bool_decide_false by done.
Qed.

Lemma has_prefix_strip p s : has_prefix p s = true ↔ is_Some (strip p s).
Proof.
  revert s. induction p as [|a p IH]; intros [|b s]; simpl; [naive_solver..|].
  destruct (decide (a = b)) as [->|]; [|rewrite bool_decide_false by done].
  - rewrite bool_decide_true by done. apply IH.
  - simpl. split; [done|]. by intros [? ?].
Qed.
Lemma strip_Some p s r : strip p s = Some r ↔ s = p +:+ r.
Proof.
  revert s. induction p as [|a p IH]; intros [|b s]; simpl; [naive_solver..|].
  destruct (decide (a = b)) as [->|Hne]; [rewrite IH|]; naive_solver.
Qed.
Lemma has_prefix_app p s : has_prefix p (p +:+ s) = true.
Proof. apply has_prefix_strip. exists s. by apply strip_Some. Qed.

(** ** Trimming is idempotent *)
Definition tok (f2 : ascii → ascii → bool) (f3 : ascii → ascii → ascii → bool) (s : string) : bool :=
  match s with
  | "" => false
  | String a s1 => sp1 a ||
    match s1 with
    | "" => false
    | String b s2 => f2 a b ||
      match s2 with "" => false | String c _ => f3 a b c end
    end
  end.

Lemma trim_l_tok f2 f3 s : tok f2 f3 (trim_l f2 f3 s) = false.
Proof.
  remember (String.length s) as n eqn:Hn. revert s Hn.
  induction n as [n IH] using lt_wf_ind. intros s ->.
  destruct s as [|a s1]; simpl; [done|].
  destruct (sp1 a) eqn:E1; [eapply IH; [|done]; simpl; lia|].
  destruct s1 as [|b s2]; simpl; [by rewrite E1|].
  destruct (f2 a b) eqn:E2; [eapply IH; [|done]; simpl; lia|].
  destruct s2 as [|c s3]; simpl; [by rewrite E1, E2|].
  destruct (f3 a b c) eqn:E3; [eapply IH; [|done]; simpl; lia|].
  simpl. by rewrite E1, E2, E3.
Qed.
Lemma trim_l_id f2 f3 s : tok f2 f3 s = false → trim_l f2 f3 s = s.
Proof.
  destruct s as [|a [|b [|c s]]]; simpl; [done|..];
  repeat (destruct (sp1 _); simpl; [done|]); [done|..];
  destruct (f2 a b); simpl; [done|done|done|]. by intros ->.
Qed.
Lemma tok_app_false f2 f3 p q : tok f2 f3 (p +:+ q) = false → tok f2 f3 p = false.
Proof.
  destruct p as [|a [|b [|c p]]]; simpl; [done|..];
  destruct (sp1 a); simpl; [done|done|done| |done|done].
  by destruct (f2 a b).
Qed.
Lemma trim_l_suffix f2 f3 s : ∃ p, s = p +:+ trim_l f2 f3 s.
Proof.
  remember (String.length s) as n eqn:Hn. revert s Hn.
  induction n as [n IH] using lt_wf_ind. intros s ->.
  destruct s as [|a s1]; simpl; [by exists ""|].
  destruct (sp1 a).
  { destruct (IH (String.length s1)) with (s := s1) as [p Hp]; [simpl; lia|done|].
    exists (String a p). simpl. congruence. }
  destruct s1 as [|b s2]; [by exists ""|].
  destruct (f2 a b).
  { destruct (IH (String.length s2)) with (s := s2) as [p Hp]; [simpl; lia|done|].
    exists (String a (String b p)). simpl. congruence. }
  destruct s2 as [|c s3]; [by exists ""|].
  destruct (f3 a b c); [|by exists ""].
  destruct (IH (String.length s3)) with (s := s3) as [p Hp]; [simpl; lia|done|].
  exists (String a (String b (String c p))). simpl. congruence.
Qed.

Lemma rev_app_spec s t : String.rev_app s t = String.rev s +:+ t.
Proof.
  unfold String.rev. revert t. induction s as [|a s IH]; intros t; simpl; [done|].
  rewrite IH, (IH (String a "")), app_assoc_str. done.
Qed.
Lemma rev_cons_str a s : String.rev (String a s) = String.rev s +:+ String a "".
Proof. unfold String.rev at 1. simpl. apply rev_app_spec. Qed.
Lemma rev_app_str s t : String.rev (s +:+ t) = String.rev t +:+ String.rev s.
Proof.
  induction s as [|a s IH]; simpl; [by rewrite app_nil_r_str|].
  by rewrite !rev_cons_str, IH, app_assoc_str.
Qed.
Lemma rev_rev_str s : String.rev (String.rev s) = s.
Proof. induction s as [|a s IH]; [done|]. by rewrite rev_cons_str, rev_app_str, IH. Qed.

Lemma trim_right_prefix s : ∃ q, s = trim_right s +:+ q.
Proof.
  unfold trim_right. destruct (trim_l_suffix (λ a b, sp2 b a) (λ a b c, sp3 c b a) (String.rev s)) as [p Hp].
  exists (String.rev p). rewrite <- rev_app_str, <- Hp. by rewrite rev_rev_str.
Qed.
Lemma trim_right_idem s : trim_right (trim_right s) = trim_right s.
Proof. unfold trim_right. rewrite rev_rev_str, (trim_l_id _ _ (trim_l _ _ _)); [done|]. apply trim_l_tok. Qed.

Lemma TrimSpace_idem s : TrimSpace (TrimSpace s) = TrimSpace s.
Proof.
  unfold TrimSpace. set (t := trim_left s).
  assert (trim_left (trim_right t) = trim_right t) as ->; [|apply trim_right_idem].
  apply trim_l_id. destruct (trim_right_prefix t) as [q Hq].
  apply (tok_app_false _ _ _ q). rewrite <- Hq. apply trim_l_tok.
Qed.
(** A trimmed string does not start with a space. *)
Lemma TrimSpace_front s : TrimSpace s = s → tok sp2 sp3 s = false.
Proof.
  intros H. destruct (trim_right_prefix (trim_left s)) as [q Hq].
  unfold TrimSpace in H. rewrite H in Hq. apply (tok_app_false _ _ _ q).
  rewrite <- Hq. apply trim_l_tok.
Qed.

(** ** Prefixes and suffixes by length *)
Lemma take_str_all s : take_str (String.length s) s = s.
Proof. induction s as [|a s IH]; simpl; [done|]. by rewrite IH. Qed.
Lemma take_drop_str n s : take_str n s +:+ drop_str n s = s.
Proof. revert s. induction n as [|n IH]; intros [|a s]; simpl; try done. by rewrite IH. Qed.
Lemma length_take_str n s : (n ≤ String.length s)%nat → String.length (take_str n s) = n.
Proof. revert s. induction n as [|n IH]; intros [|a s] H; simpl in *; try lia. rewrite IH; lia. Qed.
Lemma length_take_str_le n s : (String.length (take_str n s) ≤ n)%nat.
Proof. revert s. induction n as [|n IH]; intros [|a s]; simpl; [lia..|]. specialize (IH s). lia. Qed.
Lemma take_app_str s t : take_str (String.length s) (s +:+ t) = s.
Proof. induction s as [|a s IH]; simpl; [done|]. by rewrite IH. Qed.
Lemma drop_app_str s t : drop_str (String.length s) (s +:+ t) = t.
Proof. induction s as [|a s IH]; simpl; [done|]. by rewrite IH. Qed.

(** ** Decimal numerals *)
Lemma digit_range a d : digit a = Some d → 0 ≤ d < 10.
Proof. unfold digit. case_bool_decide; [|done]. intros [= <-]. lia. Qed.
Lemma digit_char_val d : 0 ≤ d < 10 → digit (digit_char d) = Some d.
Proof.
  intros H. unfold digit, digit_char, code. rewrite N_ascii_embedding by lia.
  case_bool_decide; [f_equal|]; lia.
Qed.

Lemma digits_val_le acc s n : 0 ≤ acc → digits_val 10 acc s = Some n → acc ≤ n.
Proof.
  revert acc. induction s as [|a s IH]; intros acc Ha; simpl; [intros [= ->]; lia|].
  destruct (digit a) as [d|] eqn:Hd; [|done]. apply digit_range in Hd. case_bool_decide; [|done].
  intros Hs. apply IH in Hs; lia.
Qed.
Lemma digits_val_not_In c acc s n : digit c = None → digits_val 10 acc s = Some n → In_str c s = false.
Proof.
  intros Hc. revert acc. induction s as [|a s IH]; intros acc; simpl; [done|].
  destruct (digit a) as [d|] eqn:Hd; [|done]. case_bool_decide; [|done]. intros Hs.
  rewrite (IH _ Hs). case_bool_decide; [congruence|done].
Qed.

Lemma itoa_go_val f n acc : 0 ≤ n < 10 ^ Z.of_nat (S f) →
  digits_val 10 0 (itoa_go (S f) n acc) = digits_val 10 n acc.
Proof.
  revert n acc. induction f as [|f IH]; intros n acc Hn.
  - change (10 ^ Z.of_nat 1) with 10 in Hn. cbn [itoa_go]. rewrite bool_decide_eq_true_2 by lia.
    cbn [digits_val]. rewrite Z.mod_small, digit_char_val by lia.
    rewrite bool_decide_eq_true_2 by lia. f_equal; lia.
  - assert (Hm : 0 ≤ n mod 10 < 10) by (apply Z.mod_pos_bound; lia).
    rewrite Nat2Z.inj_succ, Z.pow_succ_r in Hn by lia.
    change (itoa_go (S (S f)) n acc) with
      (let acc' := String (digit_char (n mod 10)) acc in
       if bool_decide (n < 10) then acc' else itoa_go (S f) (n / 10) acc').
    cbv zeta. case_bool_decide as H10.
    + cbn [digits_val]. rewrite digit_char_val by done. rewrite bool_decide_eq_true_2 by lia.
      f_equal. rewrite Z.mod_small; lia.
    + rewrite IH by (split; [apply Z.div_pos; lia|apply Z.div_lt_upper_bound; lia]).
      cbn [digits_val]. rewrite digit_char_val by done. rewrite bool_decide_eq_true_2 by lia.
      f_equal. rewrite (Z.div_mod n 10) at 3 by lia. lia.
Qed.
Lemma itoa_go_len f n acc k : 0 ≤ n < 10 ^ Z.of_nat k → (0 < k)%nat →
  (String.length (itoa_go f n acc) ≤ k + String.length acc)%nat.
Proof.
  revert n acc k. induction f as [|f IH]; intros n acc k Hn Hk; simpl; [lia|].
  case_bool_decide; simpl; [lia|]. destruct k as [|k]; [lia|].
  destruct k as [|k]; [change (10 ^ Z.of_nat 1) with 10 in Hn; lia|].
  rewrite Nat2Z.inj_succ, Z.pow_succ_r in Hn by lia.
  etrans; [apply (IH _ _ (S k)); [|lia]|simpl; lia].
  split; [apply Z.div_pos; lia|apply Z.div_lt_upper_bound; lia].
Qed.

(** A number is what its decimal text says. *)
Lemma utoa_val n : 0 ≤ n → digits_val 10 0 (utoa n) = Some n.
Proof.
  intros Hn. unfold utoa. rewrite itoa_go_val; [done|]. split; [done|].
  destruct (decide (n = 0)) as [->|]; [done|].
  apply Z.lt_le_trans with (2 ^ Z.of_nat (S (Z.to_nat (Z.log2 n)))).
  - rewrite Nat2Z.inj_succ, Z2Nat.id by apply Z.log2_nonneg. apply Z.log2_spec. lia.
  - apply Z.pow_le_mono_l. lia.
Qed.
Lemma utoa_len n k : 0 ≤ n < 10 ^ Z.of_nat k → (0 < k)%nat → (String.length (utoa n) ≤ k)%nat.
Proof. intros Hn Hk. unfold utoa. etrans; [by apply itoa_go_len|simpl; lia]. Qed.
Lemma utoa_nonempty n : 0 ≤ n → utoa n ≠ "".
Proof.
  intros Hn H. unfold utoa in H. cbn [itoa_go] in H. case_bool_decide; [done|].
  assert (∀ f n acc, acc ≠ "" → itoa_go f n acc ≠ "") as Hg; [|by eapply Hg in H].
  clear. induction f as [|f IH]; intros n acc Ha; simpl; [done|]. case_bool_decide; [done|]. by apply IH.
Qed.
Lemma ParseUint_utoa n bits : 0 ≤ n < 2 ^ bits → ParseUint (utoa n) 10 bits = Some n.
Proof.
  intros Hn. unfold ParseUint. rewrite decide_False by (apply utoa_nonempty; lia).
  rewrite utoa_val by lia. by rewrite bool_decide_eq_true_2 by lia.
Qed.
Lemma utoa_no c n : 0 ≤ n → digit c = None → In_str c (utoa n) = false.
Proof. intros Hn Hc. eapply digits_val_not_In; [done|by apply utoa_val]. Qed.
