(* ===== verification/Url.v ===== *)
(** * [net/url.Parse] for the URLs the program reads

    [dialDockerOverSSH] takes [ssh://user@host:port/socket] apart with
    [net/url].  This file holds the part of [url.Parse] that such a URL reaches:
    fragment, query, authority, user info, host, optional port, path, with the
    percent-decoding of each part.  The scheme is fixed by the caller. *)

From S2P Require Import Prelude GoStrings.
From Stdlib Require Import Ascii String.

Record URL := mkURL {
  u_Username : string;      (* [u.User.Username()], empty without user info *)
  u_Host : string;
  u_Path : string;
}.

Definition slash : ascii := "/"%char.
Definition percent : ascii := "%"%char.

Definition is_digit (a : ascii) : bool := bool_decide (48 ≤ code a ≤ 57).
Definition is_alpha (a : ascii) : bool :=
  bool_decide (65 ≤ code a ≤ 90 ∨ 97 ≤ code a ≤ 122).
Definition is_alnum (a : ascii) : bool := is_digit a || is_alpha a.
Definition is_ctl (a : ascii) : bool := bool_decide (code a < 32 ∨ code a = 127).

Fixpoint forall_str (p : ascii → bool) (s : string) : bool :=
  match s with "" => true | String a s' => p a && forall_str p s' end.

Definition unhex (a : ascii) : option Z :=
  if bool_decide (48 ≤ code a ≤ 57) then Some (code a - 48)
  else if bool_decide (97 ≤ code a ≤ 102) then Some (code a - 87)
  else if bool_decide (65 ≤ code a ≤ 70) then Some (code a - 55)
  else None.

(** What [unescape] decodes: a user name, path or fragment, or a host. *)
Inductive encoding := EncText | EncHost | EncZone.

(** The ASCII bytes a host may hold as they are. *)
Definition host_char (a : ascii) : bool :=
  is_alnum a || In_str a "!$&'()*+,;=:[]<>-_.~" || bool_decide (code a = 34).

Definition byte_of (h l : Z) : ascii := ascii_of_N (Z.to_N (h * 16 + l)).

Fixpoint unescape (mode : encoding) (s : string) : option string :=
  match s with
  | "" => Some ""
  | String a s1 =>
    if decide (a = percent) then
      match s1 with
      | String h (String l s2) =>
        match unhex h, unhex l with
        | Some hv, Some lv =>
          let v := hv * 16 + lv in
          let refused :=
            match mode with
            | EncText => false
            | EncHost => bool_decide (hv < 8 ∧ v ≠ 37)
            | EncZone => bool_decide (v ≠ 37 ∧ v ≠ 32) && negb (host_char (byte_of hv lv))
            end in
          if refused then None else
          r ← unescape mode s2; Some (String (byte_of hv lv) r)
        | _, _ => None
        end
      | _ => None
      end
    else
      let refused :=
        match mode with EncText => false | _ => bool_decide (code a < 128) && negb (host_char a) end in
      if refused then None else r ← unescape mode s1; Some (String a r)
  end.

(** [":"] and digits, or nothing *)
Definition validOptionalPort (s : string) : bool :=
  match s with
  | "" => true
  | String a p => bool_decide (a = colon) && forall_str is_digit p
  end.

Definition validUserinfo (s : string) : bool :=
  forall_str (λ a, is_alnum a || In_str a "-._:~!$&'()*+,;=%@") s.

Fixpoint cut_str (p s : string) : option (string * string) :=
  match strip p s with
  | Some r => Some ("", r)
  | None =>
    match s with
    | "" => None
    | String a s' =>
      match cut_str p s' with Some (l, r) => Some (String a l, r) | None => None end
    end
  end.

(** [s[:strings.Index(s, c)]] and the rest from [c] on; the whole of [s] without [c]. *)
Definition before (c : ascii) (s : string) : string :=
  match cut c s with Some (l, _) => l | None => s end.
Definition from (c : ascii) (s : string) : string :=
  match cut c s with Some (_, r) => String c r | None => "" end.

Definition urlError (why : string) : error := Msg why.

Definition parseHost (host : string) : error + string :=
  if has_prefix "[" host then
    match cut_last rbrack host with
    | None => inl (urlError "missing ']' in host")
    | Some (inner, colonPort) =>
      if negb (validOptionalPort colonPort) then inl (urlError "invalid port after host") else
      match cut_str "%25" inner with
      | Some (h1, zone) =>
        match unescape EncHost h1, unescape EncZone ("%25" +:+ zone)%string,
              unescape EncHost (String rbrack colonPort) with
        | Some a, Some b, Some c => inr (a +:+ b +:+ c)%string
        | _, _, _ => inl (urlError "invalid URL escape")
        end
      | None =>
        match unescape EncHost host with
        | Some h => inr h
        | None => inl (urlError "invalid URL escape")
        end
      end
    end
  else
    match cut_last colon host with
    | Some (_, port) =>
      if negb (validOptionalPort (String colon port)) then inl (urlError "invalid port after host") else
      match unescape EncHost host with Some h => inr h | None => inl (urlError "invalid URL escape") end
    | None =>
      match unescape EncHost host with Some h => inr h | None => inl (urlError "invalid URL escape") end
    end.

Definition parseAuthority (authority : string) : error + (string * string) :=
  match cut_last "@"%char authority with
  | None => match parseHost authority with inr h => inr ("", h) | inl e => inl e end
  | Some (userinfo, host) =>
    match parseHost host with
    | inl e => inl e
    | inr h =>
      if negb (validUserinfo userinfo) then inl (urlError "net/url: invalid userinfo") else
      let name := before colon userinfo in
      let pw := match cut colon userinfo with Some (_, p) => p | None => "" end in
      match unescape EncText name, unescape EncText pw with
      | Some u, Some _ => inr (u, h)
      | _, _ => inl (urlError "invalid URL escape")
      end
    end
  end.

(** [url.Parse(scheme ++ "://" ++ rest)] *)
Definition ParseHier (rest : string) : error + URL :=
  let u := before "#"%char rest in
  let frag := match cut "#"%char rest with Some (_, f) => f | None => "" end in
  if negb (forall_str (λ a, negb (is_ctl a)) u)
  then inl (urlError "net/url: invalid control character in URL") else
  let u := before "?"%char u in
  match parseAuthority (before slash u), unescape EncText (from slash u), unescape EncText frag with
  | inl e, _, _ => inl e
  | inr (name, host), Some path, Some _ => inr (mkURL name host path)
  | inr _, _, _ => inl (urlError "invalid URL escape")
  end.

(** [u.Hostname()] and [u.Port()] *)
Definition url_split (host : string) : string * string :=
  let '(h, p) :=
    match cut_last colon host with
    | Some (h, p) => if validOptionalPort (String colon p) then (h, p) else (host, "")
    | None => (host, "")
    end in
  (match strip "[" h with
   | Some h' => match cut_last rbrack h' with Some (inner, "") => inner | _ => h end
   | None => h
   end, p).
Definition Hostname (u : URL) : string := (url_split (u_Host u)).1.
Definition Port (u : URL) : string := (url_split (u_Host u)).2.

(** ** Plain text is decoded to itself *)
Definition plain_text (s : string) : bool := forall_str is_alnum s.
(** Host names and IPv4 addresses *)
Definition name_char (a : ascii) : bool := is_alnum a || In_str a "-._".
Definition plain_host (s : string) : bool := forall_str name_char s.
(** Paths of plain names *)
Definition path_char (a : ascii) : bool := name_char a || bool_decide (a = slash).

Lemma forall_str_impl (p q : ascii → bool) s :
  (∀ a, p a = true → q a = true) → forall_str p s = true → forall_str q s = true.
Proof.
  intros H. induction s as [|a s IH]; simpl; [done|].
  intros [H1 H2]%andb_prop. by rewrite H, IH.
Qed.
Lemma forall_str_app p s t : forall_str p (s +:+ t) = forall_str p s && forall_str p t.
Proof. induction s as [|a s IH]; simpl; [done|]. by rewrite IH, andb_assoc. Qed.
Lemma forall_str_not_In p c s : p c = false → forall_str p s = true → In_str c s = false.
Proof.
  intros Hc. induction s as [|a s IH]; simpl; [done|]. intros [H1 H2]%andb_prop.
  rewrite IH by done. rewrite bool_decide_false by congruence. done.
Qed.

(** Facts about all bytes, checked on each of them. *)
Definition all_ascii (p : ascii → bool) : bool :=
  forallb p (map (λ n, ascii_of_nat n) (seq 0 256)).
Lemma all_ascii_spec p : all_ascii p = true → ∀ a, p a = true.
Proof.
  intros H a. unfold all_ascii in H. rewrite forallb_forall in H. apply H.
  apply in_map_iff. exists (nat_of_ascii a). split; [apply ascii_nat_embedding|].
  apply in_seq. pose proof (nat_ascii_bounded a). lia.
Qed.
Ltac by_bytes := apply all_ascii_spec; vm_compute; reflexivity.

Lemma name_ok a : implb (name_char a) (host_char a && negb (bool_decide (a = percent))) = true.
Proof. revert a. by_bytes. Qed.
Lemma text_ok a : implb (is_alnum a) (negb (bool_decide (a = percent))) = true.
Proof. revert a. by_bytes. Qed.
Lemma path_ok a : implb (path_char a) (negb (bool_decide (a = percent))) = true.
Proof. revert a. by_bytes. Qed.
Lemma digit_name a : implb (is_digit a) (name_char a) = true.
Proof. revert a. by_bytes. Qed.

Lemma unescape_text s :
  forall_str (λ a, negb (bool_decide (a = percent))) s = true → unescape EncText s = Some s.
Proof.
  induction s as [|a s IH]; simpl; [done|]. intros [H1 H2]%andb_prop.
  apply negb_true_iff, bool_decide_eq_false in H1. by rewrite decide_False, IH.
Qed.
Lemma unescape_host s :
  forall_str (λ a, host_char a && negb (bool_decide (a = percent))) s = true →
  unescape EncHost s = Some s.
Proof.
  induction s as [|a s IH]; simpl; [done|]. intros [[H0 H1]%andb_prop H2]%andb_prop.
  apply negb_true_iff, bool_decide_eq_false in H1. rewrite decide_False by done.
  by rewrite H0, andb_false_r, IH.
Qed.

Lemma before_app c l r : In_str c l = false → before c (l +:+ String c r) = l.
Proof. intros H. unfold before. by rewrite cut_app. Qed.
Lemma before_none c s : In_str c s = false → before c s = s.
Proof. intros H. unfold before. by apply cut_None in H as ->. Qed.
Lemma from_app c l r : In_str c l = false → from c (l +:+ String c r) = String c r.
Proof. intros H. unfold from. by rewrite cut_app. Qed.

(** [host] or [host:port] as a URL spells it. *)
Definition url_host (host port : string) : string :=
  if decide (port = "") then host else (host +:+ String colon port)%string.

Lemma url_split_host host port :
  plain_host host = true → forall_str is_digit port = true →
  url_split (url_host host port) = (host, port).
Proof.
  intros Hh Hp. unfold url_split, url_host.
  assert (Hc : In_str colon host = false) by (eapply forall_str_not_In; [|exact Hh]; done).
  assert (Hb : strip "[" host = None).
  { destruct host as [|a h]; [done|]. simpl in *. apply andb_prop in Hh as [Ha _].
    destruct (decide ("["%char = a)) as [<-|]; [done|done]. }
  destruct (decide (port = "")) as [->|Hne].
  - apply cut_last_None in Hc as ->. by rewrite Hb.
  - rewrite cut_last_app by (eapply forall_str_not_In; [|exact Hp]; done).
    cbn [validOptionalPort]. rewrite bool_decide_true, Hp by done. cbn [andb]. by rewrite Hb.
Qed.

Lemma parseHost_plain host port :
  plain_host host = true → forall_str is_digit port = true → host ≠ "" →
  parseHost (url_host host port) = inr (url_host host port).
Proof.
  intros Hh Hp Hne. unfold parseHost.
  assert (Hb : has_prefix "[" (url_host host port) = false).
  { destruct host as [|a h]; [done|]. unfold url_host. simpl in *. apply andb_prop in Hh as [Ha _].
    assert (a ≠ "["%char) by (by intros ->).
    destruct (decide _); simpl; rewrite bool_decide_false; done. }
  rewrite Hb.
  assert (Hu : unescape EncHost (url_host host port) = Some (url_host host port)).
  { apply unescape_host. unfold url_host.
    assert (Hh' : forall_str (λ a, host_char a && negb (bool_decide (a = percent))) host = true).
    { eapply forall_str_impl; [|exact Hh]. intros a Ha. pose proof (name_ok a) as Hn.
      by rewrite Ha in Hn. }
    destruct (decide _); [done|]. rewrite forall_str_app, Hh'. simpl.
    eapply forall_str_impl; [|exact Hp]. intros a Ha. pose proof (digit_name a) as Hd.
    rewrite Ha in Hd. pose proof (name_ok a) as Hn. simpl in Hd. by rewrite Hd in Hn. }
  rewrite Hu. destruct (cut_last colon _) as [[l r]|] eqn:Hcut; [|done].
  destruct (decide (port = "")) as [->|Hpne].
  - unfold url_host in Hcut. rewrite decide_True in Hcut by done.
    assert (Hc : In_str colon host = false) by (eapply forall_str_not_In; [|exact Hh]; done).
    apply cut_last_None in Hc. by rewrite Hc in Hcut.
  - unfold url_host in Hcut. rewrite decide_False in Hcut by done.
    rewrite cut_last_app in Hcut by (eapply forall_str_not_In; [|exact Hp]; done).
    injection Hcut as <- <-. cbn [validOptionalPort]. by rewrite bool_decide_true, Hp.
Qed.

Definition hostport_char (a : ascii) : bool := name_char a || bool_decide (a = colon).
Lemma plain_hostport host port :
  plain_host host = true → forall_str is_digit port = true →
  forall_str hostport_char (url_host host port) = true.
Proof.
  intros Hh Hp. unfold url_host.
  assert (H : forall_str hostport_char host = true).
  { eapply forall_str_impl; [|exact Hh]. unfold hostport_char. by intros a ->. }
  destruct (decide _); [done|]. rewrite forall_str_app, H. simpl.
  eapply forall_str_impl; [|exact Hp]. intros a Ha. pose proof (digit_name a) as Hd.
  rewrite Ha in Hd. simpl in Hd. unfold hostport_char. by rewrite Hd.
Qed.

Lemma parseAuthority_plain user host port :
  plain_text user = true → plain_host host = true → forall_str is_digit port = true → host ≠ "" →
  parseAuthority (user +:+ String "@"%char (url_host host port)) = inr (user, url_host host port).
Proof.
  intros Hu Hh Hp Hne. unfold parseAuthority. rewrite cut_last_app.
  2:{ eapply forall_str_not_In; [|by apply plain_hostport]. done. }
  rewrite parseHost_plain by done. unfold validUserinfo.
  rewrite (forall_str_impl is_alnum _ user); [|by intros a ->|done]. cbn [negb].
  assert (Hc : In_str colon user = false) by (eapply forall_str_not_In; [|exact Hu]; done).
  rewrite before_none by done. apply cut_None in Hc as ->. simpl.
  rewrite unescape_text; [done|]. eapply forall_str_impl; [|exact Hu].
  intros a Ha. pose proof (text_ok a) as Hn. by rewrite Ha in Hn.
Qed.

(** The bytes of a plain URL after its scheme *)
Definition url_char (a : ascii) : bool :=
  path_char a || bool_decide (a = colon) || bool_decide (a = "@"%char).
Lemma path_url a : implb (path_char a) (url_char a) = true.
Proof. revert a. by_bytes. Qed.
Lemma hostport_url a : implb (hostport_char a) (url_char a) = true.
Proof. revert a. by_bytes. Qed.
Lemma alnum_url a : implb (is_alnum a) (url_char a) = true.
Proof. revert a. by_bytes. Qed.
Lemma url_ctl a : implb (url_char a) (negb (is_ctl a)) = true.
Proof. revert a. by_bytes. Qed.
Lemma url_chars user host port path :
  plain_text user = true → plain_host host = true → forall_str is_digit port = true →
  forall_str path_char path = true →
  forall_str url_char (user +:+ String "@"%char (url_host host port +:+ String slash path)) = true.
Proof.
  intros Hu Hh Hp Hpath. rewrite forall_str_app. cbn [forall_str]. rewrite forall_str_app.
  cbn [forall_str]. rewrite (forall_str_impl is_alnum), (forall_str_impl hostport_char),
    (forall_str_impl path_char); try done.
  - intros a Ha. pose proof (path_url a) as Hn. by rewrite Ha in Hn.
  - intros a Ha. pose proof (hostport_url a) as Hn. by rewrite Ha in Hn.
  - by apply plain_hostport.
  - intros a Ha. pose proof (alnum_url a) as Hn. by rewrite Ha in Hn.
Qed.

(** What a client writes as [user@host:port/path] is what [ParseHier] reads. *)
Lemma ParseHier_plain user host port path :
  plain_text user = true → plain_host host = true → forall_str is_digit port = true →
  forall_str path_char path = true → host ≠ "" →
  ParseHier (user +:+ String "@"%char (url_host host port +:+ String slash path))
  = inr (mkURL user (url_host host port) (String slash path)).
Proof.
  intros Hu Hh Hp Hpath Hne. unfold ParseHier.
  pose proof (url_chars user host port path Hu Hh Hp Hpath) as Hall.
  set (s := (user +:+ String "@"%char (url_host host port +:+ String slash path))%string) in *.
  assert (H1 : In_str "#"%char s = false) by (by apply (forall_str_not_In url_char)).
  rewrite (before_none "#"%char) by done. apply cut_None in H1 as ->.
  assert (H2 : In_str "?"%char s = false) by (by apply (forall_str_not_In url_char)).
  rewrite (before_none "?"%char) by done.
  rewrite (forall_str_impl url_char); [cbn [negb]| |done].
  2:{ intros a Ha. pose proof (url_ctl a) as Hn. by rewrite Ha in Hn. }
  assert (Hsl : In_str slash (user +:+ String "@"%char (url_host host port)) = false).
  { rewrite In_str_app. cbn [In_str]. rewrite (forall_str_not_In is_alnum), (forall_str_not_In hostport_char);
      try done. by apply plain_hostport. }
  assert (Es : s = (user +:+ String "@"%char (url_host host port)) +:+ String slash path)
    by (unfold s; by rewrite app_assoc_str).
  rewrite Es, before_app, from_app by done. rewrite parseAuthority_plain by done.
  rewrite unescape_text; [done|]. simpl. eapply forall_str_impl; [|exact Hpath].
  intros a Ha. pose proof (path_ok a) as Hn. by rewrite Ha in Hn.
Qed.
