(* ===== verification/External.v ===== *)
(** * The world outside the repository

    Calls the program makes to the operating system, to [golang.org/x/crypto/ssh],
    to [pkg/sftp] and to the Docker client are not code of this repository.  They
    are the constructors of [ext], and an environment [Env] answers them: the
    [n]-th call made gets the answer [env T n c], so that two calls with the same
    arguments may be answered differently.  No theorem assumes anything about the
    answers beyond what its hypotheses say.

    What a call opens (an SSH client, a listener, a socket, a channel) is a
    resource [rid]; [Net] remembers the resources that are open. *)

From S2P Require Import Prelude.
From Stdlib Require Strings.Byte.

Abbreviation bytes := (list Byte.byte).
#[export] Instance byte_eq_decision : EqDecision Byte.byte := Byte.byte_eq_dec.
Abbreviation rid := positive.

(** [ssh.AuthMethod] *)
Inductive AuthMethod :=
  | AgentSigners (conn : rid)             (* ssh.PublicKeysCallback(agent.NewClient(conn).Signers) *)
  | PublicKeys (data : string) (passphrase : string)
  | PasswordAuth (p : string).

(** [ssh.HostKeyCallback] *)
Inductive HostKey :=
  | InsecureIgnoreHostKey
  | KnownHosts (path : string).

(** [ssh.ClientConfig] *)
Record ClientConfig := mkClientConfig {
  cfg_User : string;
  cfg_Auth : list AuthMethod;
  cfg_HostKey : HostKey;
  cfg_Timeout : Z;
  cfg_HostKeyAlgorithms : list string;
}.

(** How a remote command run under a context ends: [select] saw the context done,
    or [session.Run] returned (no error, an exit status, another error). *)
Inductive RunEnd :=
  | RunOk (stdout stderr : string)
  | RunExit (stdout stderr : string) (code : Z)
  | RunFail (stdout stderr : string) (e : error)
  | CtxDone (e : error).

(** One [select] of a shell's [Read]: the output that the pump appended while it
    waited, and what ended it: a wake-up with the time that remains, the timer, or
    the end of the shell. *)
Inductive ShellWait :=
  | Woken (chunks : list bytes) (remaining : Z)
  | TimerFired (chunks : list bytes)
  | DoneClosed (chunks : list bytes).

(** What the Docker API returns, as far as the program reads it. *)
Record ImageItem := mkImageItem {
  im_ID : string;
  im_RepoTags : list string;
  im_RepoDigests : list string;
  im_Created : Z;
  im_Size : Z;
  im_Labels : list (string * string);
}.
Record PortItem := mkPortItem {
  pi_IP : option string;        (* the text of a valid address *)
  pi_PrivatePort : Z;
  pi_PublicPort : Z;
  pi_Type : string;
}.
Record ContainerItem := mkContainerItem {
  ci_ID : string;
  ci_Names : list string;
  ci_Image : string;
  ci_Command : string;
  ci_State : string;
  ci_Status : string;
  ci_Created : Z;
  ci_Ports : list PortItem;
  ci_Labels : list (string * string);
}.
(** [network.Port] and [network.PortBinding] *)
Definition DockerPort : Type := Z * string.
Record PortBinding := mkPortBinding { pb_HostIP : string; pb_HostPort : string }.
(** [ContainerCreateOptions]: the configuration, the host configuration and the name *)
Record CreateOptions := mkCreateOptions {
  co_Image : string;
  co_Cmd : list string;
  co_Entrypoint : list string;
  co_Env : list string;
  co_WorkingDir : string;
  co_User : string;
  co_Hostname : string;
  co_Labels : list (string * string);
  co_Tty : bool;
  co_ExposedPorts : list DockerPort;
  co_PortBindings : list (DockerPort * list PortBinding);
  co_Binds : list string;
  co_AutoRemove : bool;
  co_NetworkMode : string;
  co_RestartPolicy : option string;
  co_Name : string;
}.
(** One message of the pull progress stream *)
Record PullMsg := mkPullMsg { pm_Status : string; pm_Error : string; pm_Detail : string }.
(** [select] between the context and the end of the demultiplexed copy, whose
    error is [None] when there is none or it is [io.EOF] *)
Inductive CopyEnd :=
  | Copied (stdout stderr : string) (err : option error)
  | CopyCtxDone (e : error).

(** [archive/tar]: one entry of a stream *)
Inductive TarType := TypeReg | TypeRegA | TypeDir | TypeSymlink | TypeLink | TypeOther (flag : Z).
Record TarEntry := mkTarEntry {
  te_Name : string;
  te_Mode : Z;
  te_Size : Z;
  te_Type : TarType;
  te_Body : string;
}.
(** What [os.Lstat], [filepath.Walk] and [os.Open] find below a local path: a file
    that can be read or not, a directory with its children in lexical order, a
    symbolic link (its own size, and what opening it reads), or an entry that
    cannot be examined. *)
Inductive node :=
  | NFile (perm : Z) (content : error + string)
  | NDir (perm : Z) (kids : list (string * node))
  | NLink (perm size : Z) (target : error + string)
  | NBad (e : error).

(** [os.FileInfo], as far as the program reads it *)
Record FileInfo := mkFileInfo {
  st_Name : string;
  st_Size : Z;
  st_Mode : string;
  st_ModTime : Z;
  st_IsDir : bool;
  st_IsLink : bool;
}.

Inductive ext : Type → Type :=
  (* os, time, net *)
  | Getenv (key : string) : ext string
  | UserHomeDir : ext string
  | ReadFile (path : string) : ext string
  | Stat (path : string) : ext unit
  | Now : ext Z
  | NetDial (network addr : string) : ext unit
  | NetListen (network addr : string) : ext Z          (* the TCP port bound *)
  (* golang.org/x/crypto/ssh *)
  | ParsePrivateKey (data passphrase : string) : ext unit
  | SshDial (network addr : string) (cfg : ClientConfig) : ext unit
  | ClientDial (client : rid) (network addr : string) : ext unit
  | NewClientConn (conn : rid) (addr : string) (cfg : ClientConfig) : ext unit
  | ClientListen (client : rid) (network addr : string) : ext (option Z)
  | SendRequest (client : rid) (name : string) : ext unit
  | NewSession (client : rid) : ext unit
  | RequestPty (chan : rid) (term : string) (rows cols : Z) : ext unit
  | StdinPipe (chan : rid) : ext unit
  | StdoutPipe (chan : rid) : ext unit
  | StderrPipe (chan : rid) : ext unit
  | Setenv (chan : rid) (k v : string) : ext unit
  | RequestAgentForwarding (chan : rid) : ext unit
  | RunCmd (chan : rid) (command stdin : string) : ext RunEnd
  | Signal (chan : rid) (name : string) : ext unit
  | Accept (listener : rid) : ext unit
  | ListenerClose (listener : rid) : ext unit          (* the error of [Close] *)
  | ShellWaits (timeout : Z) : ext (list ShellWait)    (* what the selects of one [Read] see *)
  | NumGoroutine : ext Z
  | Copy (dst src : rid) : ext unit                    (* io.Copy *)
  | CloseWrite (c : rid) : ext bool                    (* [false]: the connection has no CloseWrite *)
  | StartCmd (chan : rid) (command : string) : ext unit
  | StartShell (chan : rid) : ext unit
  | WindowChange (chan : rid) (rows cols : Z) : ext unit
  | WriteTo (r : rid) (data : string) : ext Z
  | NewSftpClient (client : rid) : ext unit
  | KnownHostsNew (path : string) : ext unit
  | ForwardToAgent (client conn : rid) : ext unit
  (* github.com/moby/moby/client *)
  | DockerNew (host apiVersion tlsCA tlsCert tlsKey : string) (via : option (rid * string)) : ext unit
  | DockerPing (c : rid) : ext unit
  (* [console]: the size of the TTY, if one is asked for *)
  | ExecCreate (c : rid) (container : string) (cmd env : list string) (user wd : string)
      (stdin : bool) (console : option (Z * Z)) : ext string
  | ExecAttach (c : rid) (execID : string) (console : option (Z * Z)) : ext unit
  | ExecResize (c : rid) (execID : string) (rows cols : Z) : ext unit
  | ExecInspect (c : rid) (execID : string) : ext Z
  | StdCopyUntil (attach : rid) : ext CopyEnd
  | ImageList (c : rid) (all : bool) (reference : string) : ext (list ImageItem)
  | ImagePull (c : rid) (ref : string) : ext unit
  | PullProgress (stream : rid) : ext (list PullMsg * option error)
  | ImageRemove (c : rid) (ref : string) (force prune : bool) : ext unit
  | ContainerList (c : rid) (all : bool) (limit : Z) (filters : list (string * list string))
      : ext (list ContainerItem)
  | ContainerInspect (c : rid) (id : string) : ext (option bool)   (* [Config.Tty]; [None]: no [Config] *)
  | ContainerCreate (c : rid) (o : CreateOptions) : ext (string * list string)
  | ContainerStart (c : rid) (id : string) : ext unit
  | ContainerStop (c : rid) (id : string) (timeout : option Z) : ext unit
  | ContainerRestart (c : rid) (id : string) (timeout : option Z) : ext unit
  | ContainerKill (c : rid) (id signal : string) : ext unit
  | ContainerRemove (c : rid) (id : string) (force volumes : bool) : ext unit
  | ContainerLogs (c : rid) (id : string) (stdout stderr timestamps : bool) (tail since until : string)
      : ext unit
  | ReadAll (r : rid) : ext string
  | StdCopy (r : rid) : ext (string * string)
  | CopyToContainer (c : rid) (id dir : string) (tar : list TarEntry * option error) : ext unit
  | CopyFromContainer (c : rid) (id path : string) : ext bool          (* [Stat.Mode.IsDir()] *)
  | TarEntries (stream : rid) : ext (list TarEntry * option error)     (* [None]: ended by [io.EOF] *)
  (* github.com/pkg/sftp *)
  | SftpReadDir (c : rid) (path : string) : ext (list FileInfo)
  | SftpReadLink (c : rid) (path : string) : ext string
  | SftpStat (c : rid) (path : string) : ext FileInfo
  | SftpLstat (c : rid) (path : string) : ext FileInfo
  | SftpOpen (c : rid) (path : string) : ext unit
  | SftpOpenFile (c : rid) (path : string) (append trunc : bool) : ext unit   (* O_WRONLY|O_CREATE *)
  | SftpSeek (f : rid) (offset : Z) : ext unit
  | SftpRead (f : rid) (limit : Z) : ext (string * option error)   (* [None]: [limit] bytes, or the end *)
  | SftpWrite (f : rid) (data : string) : ext unit
  | SftpRemove (c : rid) (path : string) : ext unit
  | SftpMkdir (c : rid) (path : string) : ext unit
  | SftpMkdirAll (c : rid) (path : string) : ext unit
  | SftpChmod (c : rid) (path : string) (mode : Z) : ext unit
  | SftpRename (c : rid) (from to : string) : ext unit
  | SftpWalk (c : rid) (root : string) : ext (list (error + (string * FileInfo)))
  | IoCopyFrom (dst src : rid) : ext (string * option error)       (* what was copied, why it stopped *)
  (* the local disk *)
  | LocalTree (path : string) : ext node
  | OsMkdirAll (path : string) (perm : Z) : ext unit
  | OsOpenFile (path : string) (perm : Z) : ext unit                   (* O_WRONLY|O_CREATE|O_TRUNC *)
  | IoCopy (dst : rid) (len : Z) : ext (Z * option error).             (* bytes copied, and why it stopped *)

Class Env := env : ∀ T, nat → ext T → error + T.

Record Net := mkNet {
  n_tick : nat;                (* external calls made so far *)
  n_next : rid;                (* the next resource *)
  n_open : gset rid;           (* the resources open now *)
}.
Definition eta_Net (n : Net) := mkNet (n_tick n) (n_next n) (n_open n).
#[export] Instance upd_tick : Setter n_tick. Proof. mk_setter eta_Net. Defined.
#[export] Instance upd_next : Setter n_next. Proof. mk_setter eta_Net. Defined.
#[export] Instance upd_open : Setter n_open. Proof. mk_setter eta_Net. Defined.

Definition net0 : Net := mkNet 0 1%positive ∅.

Section calls.
Context {E : Env}.

Definition call {T} (c : ext T) : M Net T := λ n,
  (match env T (n_tick n) c with inr x => Ret x | inl e => Err e end,
   n <| n_tick ::= S |>).

(** A call whose success opens a resource. *)
Definition acquire {T} (c : ext T) : M Net (rid * T) :=
  x ← call c;
  r ← gets n_next;
  modify (λ n, n <| n_next ::= Pos.succ |> <| n_open ::= λ o, {[r]} ∪ o |>);;
  mret (r, x).
End calls.

(** [_ = r.Close()] *)
Definition closeR (r : rid) : M Net unit := modify (λ n, n <| n_open ::= λ o, o ∖ {[r]} |>).
Definition closeAllR (l : list rid) : M Net unit := forM_ l closeR.

(** ** Facts about resources *)

(** The identities handed out so far are below [n_next]. *)
Definition net_wf (n : Net) : Prop := ∀ r, r ∈ n_open n → (r < n_next n)%positive.

(** What a run may do to the resources it is not responsible for: nothing. *)
Definition net_le (n n' : Net) : Prop :=
  (n_tick n ≤ n_tick n')%nat ∧ (n_next n ≤ n_next n')%positive.
#[export] Instance net_le_pre : PreOrder net_le.
Proof. split; [intros n; split; lia|]. intros a b c [] []; split; lia. Qed.

Section facts.
Context {E : Env}.

Lemma wp_call {T} (c : ext T) Q n :
  (∀ x, env T (n_tick n) c = inr x → Q (Ret x) (n <| n_tick ::= S |>)) →
  (∀ e, env T (n_tick n) c = inl e → Q (Err e) (n <| n_tick ::= S |>)) →
  wp (call c) Q n.
Proof. intros Hr He. unfold wp, call. destruct (env _ _ _) eqn:Hx; simpl; auto. Qed.

(** Only the set of open resources matters to most callers. *)
Lemma wp_call_open {T} (c : ext T) Q n :
  (∀ o n', n_open n' = n_open n → n_next n' = n_next n → is_panic o = false → Q o n') →
  wp (call c) Q n.
Proof. intros H. apply wp_call; intros; apply H; done. Qed.

Lemma wp_acquire {T} (c : ext T) Q n :
  (∀ x, env T (n_tick n) c = inr x →
     Q (Ret (n_next n, x))
       (mkNet (S (n_tick n)) (Pos.succ (n_next n)) ({[n_next n]} ∪ n_open n))) →
  (∀ e, env T (n_tick n) c = inl e → Q (Err e) (n <| n_tick ::= S |>)) →
  wp (acquire c) Q n.
Proof.
  intros Hr He. apply wp_bind, wp_call; [|done].
  intros x Hx. apply wp_bind, wp_gets, wp_bind, wp_modify, wp_ret. by apply Hr.
Qed.

Lemma stays_call {T} (c : ext T) : stays net_le (call c).
Proof. intros n. split; simpl; lia. Qed.
Lemma stays_acquire {T} (c : ext T) : stays net_le (acquire c).
Proof.
  apply stays_bind; [typeclasses eauto|apply stays_call|intros x].
  apply stays_bind; [typeclasses eauto|apply stays_gets; typeclasses eauto|intros r].
  apply stays_bind; [typeclasses eauto| |intros; apply stays_ret; typeclasses eauto].
  apply stays_modify. intros n. split; simpl; lia.
Qed.
End facts.

Lemma wp_closeR r Q n : Q (Ret tt) (n <| n_open ::= λ o, o ∖ {[r]} |>) → wp (closeR r) Q n.
Proof. done. Qed.

Lemma stays_closeR r : stays net_le (closeR r).
Proof. intros n. split; simpl; lia. Qed.
#[export] Hint Resolve stays_call stays_acquire stays_closeR : stays.

Lemma closeAllR_run l n :
  closeAllR l n = (Ret tt, n <| n_open ::= λ o, o ∖ list_to_set l |>).
Proof.
  revert n. induction l as [|r l IH]; intros [t x o]; unfold closeAllR; simpl.
  - unfold mret, M_ret. unfold upd, upd_open; simpl.
    replace (o ∖ ∅) with o by (apply set_eq; set_solver). done.
  - unfold closeR, modify, mbind, M_bind. simpl. unfold closeAllR in IH. rewrite IH.
    unfold upd, upd_open; simpl.
    replace (o ∖ ({[r]} ∪ list_to_set l)) with (o ∖ {[r]} ∖ list_to_set l)
      by (apply set_eq; set_solver). done.
Qed.
Lemma wp_closeAllR l Q n :
  Q (Ret tt) (n <| n_open ::= λ o, o ∖ list_to_set l |>) → wp (closeAllR l) Q n.
Proof. intros H. unfold wp. by rewrite closeAllR_run. Qed.

(** ** An environment for the examples: every call succeeds *)
Definition env_ok : Env := λ T _ c,
  match c in ext T return error + T with
  | Getenv _ => inr "" | UserHomeDir => inr "/home/u" | ReadFile _ => inr "" | Stat _ => inr tt
  | Now => inr 0 | NetDial _ _ => inr tt | NetListen _ _ => inr 40000
  | ParsePrivateKey _ _ => inr tt | SshDial _ _ _ => inr tt | ClientDial _ _ _ => inr tt
  | NewClientConn _ _ _ => inr tt | ClientListen _ _ _ => inr (Some 40001) | SendRequest _ _ => inr tt
  | NewSession _ => inr tt | RequestPty _ _ _ _ => inr tt | StdinPipe _ => inr tt
  | StdoutPipe _ => inr tt | StderrPipe _ => inr tt | Setenv _ _ _ => inr tt
  | RequestAgentForwarding _ => inr tt | RunCmd _ _ _ => inr (RunOk "" "") | Signal _ _ => inr tt
  | ListenerClose _ => inr tt | ShellWaits _ => inr [] | NumGoroutine => inr 1
  | Accept _ => inr tt | Copy _ _ => inr tt | CloseWrite _ => inr true | StartCmd _ _ => inr tt
  | StartShell _ => inr tt | WindowChange _ _ _ => inr tt
  | WriteTo _ d => inr (Z.of_nat (String.length d))
  | NewSftpClient _ => inr tt | KnownHostsNew _ => inr tt | ForwardToAgent _ _ => inr tt
  | DockerNew _ _ _ _ _ _ => inr tt | DockerPing _ => inr tt
  | ExecCreate _ _ _ _ _ _ _ _ => inr "exec" | ExecAttach _ _ _ => inr tt
  | ExecResize _ _ _ _ => inr tt | ExecInspect _ _ => inr 0 | StdCopyUntil _ => inr (Copied "" "" None)
  | ImageList _ _ _ => inr [] | ImagePull _ _ => inr tt | PullProgress _ => inr ([], None)
  | ImageRemove _ _ _ _ => inr tt | ContainerList _ _ _ _ => inr []
  | ContainerInspect _ _ => inr (Some false) | ContainerCreate _ _ => inr ("cid", [])
  | ContainerStart _ _ => inr tt | ContainerStop _ _ _ => inr tt | ContainerRestart _ _ _ => inr tt
  | ContainerKill _ _ _ => inr tt | ContainerRemove _ _ _ _ => inr tt
  | ContainerLogs _ _ _ _ _ _ _ _ => inr tt | ReadAll _ => inr "" | StdCopy _ => inr ("", "")
  | CopyToContainer _ _ _ _ => inr tt | CopyFromContainer _ _ _ => inr true
  | SftpReadDir _ _ => inr [] | SftpReadLink _ _ => inr ""
  | SftpStat _ p => inr (mkFileInfo p 0 "-rw-r--r--" 0 false false)
  | SftpLstat _ p => inr (mkFileInfo p 0 "-rw-r--r--" 0 false false)
  | SftpOpen _ _ => inr tt | SftpOpenFile _ _ _ _ => inr tt | SftpSeek _ _ => inr tt
  | SftpRead _ _ => inr ("", None) | SftpWrite _ _ => inr tt | SftpRemove _ _ => inr tt
  | SftpMkdir _ _ => inr tt | SftpMkdirAll _ _ => inr tt | SftpChmod _ _ _ => inr tt
  | SftpRename _ _ _ => inr tt | SftpWalk _ _ => inr [] | IoCopyFrom _ _ => inr ("", None)
  | TarEntries _ => inr ([], None) | LocalTree _ => inr (NDir 493 [])
  | OsMkdirAll _ _ => inr tt | OsOpenFile _ _ => inr tt | IoCopy _ n => inr (n, None)
  end.
