(* ===== verification/Spec.v ===== *)
(** * Connection specs (internal/sshx/spec.go, internal/sshx/auth.go, internal/dockerx/spec.go)

    The data a client hands over to connect.  Two fields of [ConnectSpec] are Go
    slices, and copying the struct copies the slice headers but not the backing
    arrays.  Code of this repository writes through both ([resolveFromSSHConfig]
    to [Addresses[0]], [ScrubSSH] to the elements of [JumpHosts]), so the backing
    arrays live in a store [Mem] and a slice is the name of its array ([None] is
    the nil slice).  Every slice here covers its whole array: the code only
    appends to empty slices, which allocates. *)

From S2P Require Import Prelude.

Abbreviation loc := positive.
Definition slice := option loc.

Record AuthSpec := mkAuthSpec {
  KeyPath : string;
  KeyPassphrase : string;
  UseAgent : bool;
  AgentSocket : string;
  Password : string;
}.
Definition eta_AuthSpec a :=
  mkAuthSpec (KeyPath a) (KeyPassphrase a) (UseAgent a) (AgentSocket a) (Password a).
#[export] Instance upd_KeyPath : Setter KeyPath. Proof. mk_setter eta_AuthSpec. Defined.
#[export] Instance upd_KeyPassphrase : Setter KeyPassphrase. Proof. mk_setter eta_AuthSpec. Defined.
#[export] Instance upd_UseAgent : Setter UseAgent. Proof. mk_setter eta_AuthSpec. Defined.
#[export] Instance upd_AgentSocket : Setter AgentSocket. Proof. mk_setter eta_AuthSpec. Defined.
#[export] Instance upd_Password : Setter Password. Proof. mk_setter eta_AuthSpec. Defined.

(** [AuthSpec{}] *)
Definition AuthSpec0 : AuthSpec := mkAuthSpec "" "" false "" "".

Record JumpHost := mkJumpHost {
  jh_User : string;
  jh_Addresses : list string;
  jh_Auth : AuthSpec;
  jh_KnownHostsPath : string;
  jh_Insecure : bool;
  jh_Timeout : Z;              (* Duration: int64 nanoseconds *)
}.
Definition eta_JumpHost j := mkJumpHost (jh_User j) (jh_Addresses j) (jh_Auth j)
  (jh_KnownHostsPath j) (jh_Insecure j) (jh_Timeout j).
#[export] Instance upd_jh_Auth : Setter jh_Auth. Proof. mk_setter eta_JumpHost. Defined.

Record ConnectSpec := mkConnectSpec {
  User : string;
  Addresses : slice;
  JumpHosts : slice;
  Auth : AuthSpec;
  KnownHostsPath : string;
  Insecure : bool;
  Timeout : Z;
  Keepalive : Z;
  AutoReconnect : bool;
  Persistent : bool;
  ForwardAgent : bool;
  DisableSSHConfig : bool;
}.
Definition eta_ConnectSpec c := mkConnectSpec (User c) (Addresses c) (JumpHosts c) (Auth c)
  (KnownHostsPath c) (Insecure c) (Timeout c) (Keepalive c) (AutoReconnect c) (Persistent c)
  (ForwardAgent c) (DisableSSHConfig c).
#[export] Instance upd_User : Setter User. Proof. mk_setter eta_ConnectSpec. Defined.
#[export] Instance upd_Addresses : Setter Addresses. Proof. mk_setter eta_ConnectSpec. Defined.
#[export] Instance upd_JumpHosts : Setter JumpHosts. Proof. mk_setter eta_ConnectSpec. Defined.
#[export] Instance upd_Auth : Setter Auth. Proof. mk_setter eta_ConnectSpec. Defined.

(** internal/dockerx/spec.go *)
Record DockerSpec := mkDockerSpec {
  d_Host : string;
  d_TLSCertPath : string;
  d_TLSKeyPath : string;
  d_TLSCAPath : string;
  d_APIVersion : string;
  d_KeyPath : string;
  d_KeyPassphrase : string;
  d_UseAgent : bool;
  d_AgentSocket : string;
  d_Password : string;
  d_KnownHostsPath : string;
  d_SSHInsecure : bool;
  d_Persistent : bool;
}.
Definition eta_DockerSpec d := mkDockerSpec (d_Host d) (d_TLSCertPath d) (d_TLSKeyPath d)
  (d_TLSCAPath d) (d_APIVersion d) (d_KeyPath d) (d_KeyPassphrase d) (d_UseAgent d)
  (d_AgentSocket d) (d_Password d) (d_KnownHostsPath d) (d_SSHInsecure d) (d_Persistent d).
#[export] Instance upd_d_Password : Setter d_Password. Proof. mk_setter eta_DockerSpec. Defined.
#[export] Instance upd_d_KeyPassphrase : Setter d_KeyPassphrase.
Proof. mk_setter eta_DockerSpec. Defined.

(** ** The store of backing arrays *)
Record Mem := mkMem {
  m_addrs : gmap loc (list string);      (* []string arrays *)
  m_jumps : gmap loc (list JumpHost);    (* []JumpHost arrays *)
  m_next : loc;
}.
Definition eta_Mem m := mkMem (m_addrs m) (m_jumps m) (m_next m).
#[export] Instance upd_m_addrs : Setter m_addrs. Proof. mk_setter eta_Mem. Defined.
#[export] Instance upd_m_jumps : Setter m_jumps. Proof. mk_setter eta_Mem. Defined.
#[export] Instance upd_m_next : Setter m_next. Proof. mk_setter eta_Mem. Defined.

Definition mem0 : Mem := mkMem ∅ ∅ 1%positive.

(** Reading a slice. *)
Definition addrs_at (m : Mem) (s : slice) : list string :=
  match s with Some l => default [] (m_addrs m !! l) | None => [] end.
Definition jumps_at (m : Mem) (s : slice) : list JumpHost :=
  match s with Some l => default [] (m_jumps m !! l) | None => [] end.

(** [s[0] = x] (the code checks [len(s) > 0] first). *)
Definition set_addr0 (x : string) (s : slice) (m : Mem) : Mem :=
  match s with
  | Some l => m <| m_addrs ::= alter (λ a, <[0%nat := x]> a) l |>
  | None => m
  end.

(** A fresh slice holding [a]: a literal, or [append] to an empty slice. *)
Definition new_addrs (a : list string) (m : Mem) : slice * Mem :=
  (Some (m_next m), m <| m_addrs ::= <[m_next m := a]> |> <| m_next ::= Pos.succ |>).
Definition new_jumps (a : list JumpHost) (m : Mem) : slice * Mem :=
  (Some (m_next m), m <| m_jumps ::= <[m_next m := a]> |> <| m_next ::= Pos.succ |>).

(** Nothing is allocated above [m_next]. *)
Definition mem_wf (m : Mem) : Prop :=
  (∀ l, is_Some (m_addrs m !! l) → (l < m_next m)%positive) ∧
  (∀ l, is_Some (m_jumps m !! l) → (l < m_next m)%positive).
Definition slice_ok (m : Mem) (s : slice) : Prop :=
  match s with Some l => (l < m_next m)%positive | None => True end.

(** A spec with its slices read out: what the spec says, without the aliasing. *)
Record SpecView := mkView {
  v_spec : ConnectSpec;          (* with both slices nil *)
  v_addrs : list string;
  v_jumps : list JumpHost;
}.
Definition view (m : Mem) (c : ConnectSpec) : SpecView :=
  mkView (c <| Addresses := None |> <| JumpHosts := None |>)
    (addrs_at m (Addresses c)) (jumps_at m (JumpHosts c)).

Lemma addrs_new a m m' s : new_addrs a m = (s, m') → addrs_at m' s = a.
Proof. intros [= <- <-]. simpl. by rewrite lookup_insert_eq. Qed.
Lemma jumps_new a m m' s : new_jumps a m = (s, m') → jumps_at m' s = a.
Proof. intros [= <- <-]. simpl. by rewrite lookup_insert_eq. Qed.
Lemma addrs_new_other a m m' s s' :
  slice_ok m s' → new_addrs a m = (s, m') → addrs_at m' s' = addrs_at m s'.
Proof.
  destruct s' as [l|]; [|done]. intros Hl [= <- <-]. simpl in *.
  rewrite lookup_insert_ne by lia. done.
Qed.
Lemma jumps_new_other a m m' s s' :
  slice_ok m s' → new_jumps a m = (s, m') → jumps_at m' s' = jumps_at m s'.
Proof.
  destruct s' as [l|]; [|done]. intros Hl [= <- <-]. simpl in *.
  rewrite lookup_insert_ne by lia. done.
Qed.
