(* ===== verification/SshConfig.v ===== *)
(** * ssh_config resolution (internal/sshx/sshconfig.go)

    [resolveFromSSHConfig] fills the blanks of a spec from [~/.ssh/config].  The
    lookup [ssh_config.Get] is a third-party function and a parameter.  The
    recursion through [ProxyJump] hops is not structural: [fuel] bounds its depth
    and [None] is a recursion deeper than that (in Go, a stack overflow ends the
    process).  [resolve_terminates] and [resolve_cycle_diverges] say when
    some fuel is enough. *)

From S2P Require Import Prelude GoStrings Spec.
From Stdlib Require Import Ascii String.

Definition dquote : ascii := "034"%char.
Definition comma : ascii := ","%char.

(** [nonEmpty]: trim, then drop one pair of surrounding double quotes. *)
Definition nonEmpty (v : string) : string :=
  let v := TrimSpace v in
  match v with
  | String a tl =>
    if decide (a = dquote) then
      match cut_last dquote tl with
      | Some (inner, "") => inner
      | _ => v
      end
    else v
  | "" => v
  end.

Definition splitHostPort (s : string) : string * string :=
  match SplitHostPort s with
  | inr (h, p) => (h, p)
  | inl _ => (s, "")
  end.

Fixpoint keep_nonblank (parts : list string) : list string :=
  match parts with
  | [] => []
  | p :: rest =>
    let p := TrimSpace p in
    if decide (p = "") then keep_nonblank rest else p :: keep_nonblank rest
  end.
Definition splitCommaList (s : string) : list string := keep_nonblank (Split comma s).

Section resolve.
Variable Get : string → string → string.     (* ssh_config.Get *)
Variable home : option string.                (* os.UserHomeDir *)

Definition expandHome (p : string) : string :=
  let p := TrimSpace p in
  if has_prefix "~/" p then
    match home with
    | Some h => (h +:+ drop_str 1 p)%string
    | None => p
    end
  else p.

(** The host part of the first address, as [resolveFromSSHConfig] reads it. *)
Definition alias_of (raw : string) : string * string := splitHostPort (TrimSpace raw).

(** lines 44-60: rewrite [spec.Addresses[0]] in place *)
Definition resolve_address (alias explicitPort : string) (spec : ConnectSpec) (m : Mem) : Mem :=
  let hostname := nonEmpty (Get alias "Hostname") in
  if bool_decide (hostname ≠ "" ∧ hostname ≠ alias) then
    let port :=
      if decide (explicitPort = "") then
        let p := nonEmpty (Get alias "Port") in
        if decide (p = "") then "22" else p
      else explicitPort in
    set_addr0 (JoinHostPort hostname port) (Addresses spec) m
  else if decide (explicitPort = "") then
    let port := nonEmpty (Get alias "Port") in
    if bool_decide (port ≠ "" ∧ port ≠ "22")
    then set_addr0 (JoinHostPort alias port) (Addresses spec) m
    else m
  else m.

(** lines 62-66 *)
Definition resolve_user (alias : string) (spec : ConnectSpec) : ConnectSpec :=
  if decide (User spec = "") then
    let u := nonEmpty (Get alias "User") in
    if decide (u = "") then spec else spec <| User := u |>
  else spec.

(** lines 70-77 *)
Definition resolve_auth (alias : string) (spec : ConnectSpec) : ConnectSpec :=
  if bool_decide (KeyPath (Auth spec) = "" ∧ UseAgent (Auth spec) = false
                  ∧ Password (Auth spec) = "") then
    let ag := nonEmpty (Get alias "IdentityAgent") in
    if bool_decide (ag ≠ "") then
      spec <| Auth := Auth spec <| UseAgent := true |> <| AgentSocket := expandHome ag |> |>
    else
      let id := nonEmpty (Get alias "IdentityFile") in
      if bool_decide (id ≠ "") then
        spec <| Auth := Auth spec <| KeyPath := expandHome id |> |>
      else spec
  else spec.

(** [user@host:port] with its optional parts *)
Definition hop_user_host (s : string) : string * string :=
  match cut "@"%char s with
  | Some (u, r) => (u, r)
  | None => ("", s)
  end.
Definition hop_addr (s : string) : string :=
  let '(host, port) := splitHostPort s in
  let host := if decide (host = "") then s else host in
  if decide (port = "") then host else JoinHostPort host port.

Definition ConnectSpec_of (user : string) (addrs : slice) : ConnectSpec :=
  mkConnectSpec user addrs None AuthSpec0 "" false 0 0 false false false false.

Definition parseJumpHopFromConfig
    (resolve : ConnectSpec → Mem → option (ConnectSpec * Mem))
    (s : string) (m : Mem) : option (JumpHost * Mem) :=
  let '(user, s) := hop_user_host s in
  let addr := hop_addr s in
  let '(addrs, m) := new_addrs [addr] m in
  '(jhSpec, m) ← resolve (ConnectSpec_of user addrs) m;
  Some (mkJumpHost (User jhSpec) (addrs_at m (Addresses jhSpec)) (Auth jhSpec) "" false 0, m).

Fixpoint parseHops (resolve : ConnectSpec → Mem → option (ConnectSpec * Mem))
    (hops : list string) (m : Mem) : option (list JumpHost * Mem) :=
  match hops with
  | [] => Some ([], m)
  | hop :: rest =>
    '(jh, m) ← parseJumpHopFromConfig resolve hop m;
    '(jhs, m) ← parseHops resolve rest m;
    Some (jh :: jhs, m)
  end.

(** The body of [resolveFromSSHConfig] with its recursive call as an argument. *)
Definition resolve_body (resolve : ConnectSpec → Mem → option (ConnectSpec * Mem))
    (spec : ConnectSpec) (m : Mem) : option (ConnectSpec * Mem) :=
  if DisableSSHConfig spec then Some (spec, m) else
  match addrs_at m (Addresses spec) with
  | [] => Some (spec, m)
  | raw :: _ =>
    let '(alias, explicitPort) := alias_of raw in
    if decide (alias = "") then Some (spec, m) else
    let m := resolve_address alias explicitPort spec m in
    let spec := resolve_user alias spec in
    let spec := resolve_auth alias spec in
    match jumps_at m (JumpHosts spec) with
    | [] =>
      let pj := nonEmpty (Get alias "ProxyJump") in
      if decide (pj = "") then Some (spec, m) else
      '(jhs, m) ← parseHops resolve (splitCommaList pj) m;
      match jhs with
      | [] => Some (spec, m)
      | _ =>
        let '(js, m) := new_jumps jhs m in
        Some (spec <| JumpHosts := js |>, m)
      end
    | _ => Some (spec, m)
    end
  end.

Fixpoint resolveFromSSHConfig (fuel : nat) (spec : ConnectSpec) (m : Mem)
    : option (ConnectSpec * Mem) :=
  match fuel with
  | O => None
  | S fuel => resolve_body (resolveFromSSHConfig fuel) spec m
  end.
End resolve.

(** ** What resolution may write *)

(** Everything allocated before is as it was, apart from the array of [s]. *)
Definition mem_frame (s : slice) (m m' : Mem) : Prop :=
  (m_next m ≤ m_next m')%positive ∧
  (∀ l, (l < m_next m)%positive → Some l ≠ s → m_addrs m' !! l = m_addrs m !! l) ∧
  (∀ l, (l < m_next m)%positive → m_jumps m' !! l = m_jumps m !! l).

Lemma mem_frame_refl s m : mem_frame s m m.
Proof. split_and!; [lia|done..]. Qed.
Lemma mem_frame_trans s m1 m2 m3 : mem_frame s m1 m2 → mem_frame s m2 m3 → mem_frame s m1 m3.
Proof.
  intros (Hn1 & Ha1 & Hj1) (Hn2 & Ha2 & Hj2). split_and!; [lia|..].
  - intros l Hl Hs. rewrite Ha2, Ha1 by (done || lia). done.
  - intros l Hl. rewrite Hj2, Hj1 by lia. done.
Qed.
Lemma mem_frame_set s x m : mem_frame s m (set_addr0 x s m).
Proof.
  destruct s as [l|]; [|apply mem_frame_refl]. split_and!; simpl; [lia| |done].
  intros l' _ Hne. rewrite lookup_alter_ne; [done|]. intros ->. done.
Qed.
Lemma mem_frame_new_jumps s a m : mem_frame s m (new_jumps a m).2.
Proof. split_and!; simpl; [lia|done|]. intros l Hl. by rewrite lookup_insert_ne by lia. Qed.
Lemma mem_frame_new_addrs s a m : mem_frame s m (new_addrs a m).2.
Proof. split_and!; simpl; [lia| |done]. intros l Hl _. by rewrite lookup_insert_ne by lia. Qed.
(** Writes to an array allocated meanwhile are invisible from before. *)
Lemma mem_frame_fresh s l m m1 m2 :
  (m_next m ≤ l)%positive → mem_frame s m m1 → mem_frame (Some l) m1 m2 → mem_frame s m m2.
Proof.
  intros Hl (Hn1 & Ha1 & Hj1) (Hn2 & Ha2 & Hj2). split_and!; [lia|..].
  - intros l' Hl' Hs. rewrite Ha2, Ha1; [done|lia|done|lia|]. intros [= ->]. lia.
  - intros l' Hl'. rewrite Hj2, Hj1 by lia. done.
Qed.

Lemma mem_frame_addrs s m m' s' :
  mem_frame s m m' → slice_ok m s' → s' ≠ s → addrs_at m' s' = addrs_at m s'.
Proof.
  intros (_ & Ha & _) Hok Hne. destruct s' as [l|]; [|done]. simpl in *. by rewrite Ha.
Qed.
Lemma mem_frame_jumps s m m' s' :
  mem_frame s m m' → slice_ok m s' → jumps_at m' s' = jumps_at m s'.
Proof. intros (_ & _ & Hj) Hok. destruct s' as [l|]; [|done]. simpl in *. by rewrite Hj. Qed.
Lemma set_addr0_read x s m :
  addrs_at (set_addr0 x s m) s = match addrs_at m s with [] => [] | _ :: r => x :: r end.
Proof.
  destruct s as [l|]; [|done]. simpl. rewrite lookup_alter_eq.
  destruct (m_addrs m !! l) as [[|]|]; done.
Qed.

Section resolve_facts.
Context (Get : string → string → string) (home : option string).

Lemma resolve_address_frame alias port spec m :
  mem_frame (Addresses spec) m (resolve_address Get alias port spec m).
Proof.
  unfold resolve_address. repeat case_match; try apply mem_frame_refl; apply mem_frame_set.
Qed.
Lemma resolve_address_jumps alias port spec m s :
  jumps_at (resolve_address Get alias port spec m) s = jumps_at m s.
Proof.
  destruct s as [l|]; [|done].
  unfold resolve_address. repeat case_match; try done; destruct (Addresses spec); done.
Qed.

Lemma resolve_user_other alias spec : resolve_user Get alias spec =
  spec <| User := User (resolve_user Get alias spec) |>.
Proof. unfold resolve_user. repeat case_match; by destruct spec. Qed.
Lemma resolve_auth_other alias spec : resolve_auth Get home alias spec =
  spec <| Auth := Auth (resolve_auth Get home alias spec) |>.
Proof. unfold resolve_auth. repeat case_match; by destruct spec. Qed.

Lemma parseHops_frame r s hops m jhs m' :
  (∀ spec m spec' m', r spec m = Some (spec', m') → mem_frame (Addresses spec) m m') →
  parseHops r hops m = Some (jhs, m') → mem_frame s m m'.
Proof.
  intros Hr. revert m jhs m'. induction hops as [|hop hops IH]; intros m jhs m'; simpl.
  { intros [= <- <-]. apply mem_frame_refl. }
  unfold parseJumpHopFromConfig. destruct (hop_user_host hop) as [user h].
  destruct (new_addrs [hop_addr h] m) as [addrs m1] eqn:Hnew.
  destruct (r (ConnectSpec_of user addrs) m1) as [[jhSpec m2]|] eqn:Hres; simpl; [|done].
  destruct (parseHops r hops m2) as [[jhs' m3]|] eqn:Hrest; simpl; [|done].
  intros [= <- <-].
  pose proof (mem_frame_new_addrs s [hop_addr h] m) as Hn1. rewrite Hnew in Hn1. simpl in Hn1.
  apply Hr in Hres. simpl in Hres. injection Hnew as <- <-.
  eapply mem_frame_trans; [|by eapply IH].
  eapply mem_frame_fresh; [|exact Hn1|exact Hres]. lia.
Qed.

(** What one pass of the body does to the spec and to the store. *)
Lemma resolve_body_shape r spec m spec' m' :
  (∀ spec m spec' m', r spec m = Some (spec', m') → mem_frame (Addresses spec) m m') →
  resolve_body Get home r spec m = Some (spec', m') →
  mem_frame (Addresses spec) m m' ∧
  spec' = spec <| User := User spec' |> <| Auth := Auth spec' |> <| JumpHosts := JumpHosts spec' |> ∧
  (User spec ≠ "" → User spec' = User spec) ∧
  (KeyPath (Auth spec) ≠ "" ∨ UseAgent (Auth spec) = true ∨ Password (Auth spec) ≠ "" →
     Auth spec' = Auth spec) ∧
  (jumps_at m (JumpHosts spec) ≠ [] → JumpHosts spec' = JumpHosts spec).
Proof.
  intros Hr. unfold resolve_body.
  assert (Hself : ∀ s : ConnectSpec, s = s <| User := User s |> <| Auth := Auth s |> <| JumpHosts := JumpHosts s |>)
    by (intros []; done).
  destruct (DisableSSHConfig spec).
  { intros [= <- <-]. split_and!; auto using mem_frame_refl. }
  destruct (addrs_at m (Addresses spec)) as [|raw ?].
  { intros [= <- <-]. split_and!; auto using mem_frame_refl. }
  destruct (alias_of raw) as [alias port].
  destruct (decide (alias = "")).
  { intros [= <- <-]. split_and!; auto using mem_frame_refl. }
  set (m1 := resolve_address Get alias port spec m).
  set (spec2 := resolve_auth Get home alias (resolve_user Get alias spec)).
  assert (Hs2 : spec2 = spec <| User := User spec2 |> <| Auth := Auth spec2 |> <| JumpHosts := JumpHosts spec |>).
  { unfold spec2. rewrite resolve_auth_other, resolve_user_other. by destruct spec. }
  assert (HJ : JumpHosts spec2 = JumpHosts spec) by (by rewrite Hs2).
  rewrite <- HJ in Hs2.
  assert (HU : User spec ≠ "" → User spec2 = User spec).
  { intros Hu. unfold spec2. rewrite resolve_auth_other. simpl. unfold resolve_user.
    by rewrite decide_False. }
  assert (HA : KeyPath (Auth spec) ≠ "" ∨ UseAgent (Auth spec) = true ∨ Password (Auth spec) ≠ "" →
     Auth spec2 = Auth spec).
  { intros Ha. unfold spec2. unfold resolve_auth. rewrite (resolve_user_other alias spec).
    simpl. rewrite bool_decide_false; [done|]. intros (?&?&?).
    destruct Ha as [?|[?|?]]; congruence. }
  assert (Hj1 : jumps_at m1 (JumpHosts spec2) = jumps_at m (JumpHosts spec)).
  { unfold m1. by rewrite resolve_address_jumps, HJ. }
  rewrite Hj1.
  assert (Hm1 : mem_frame (Addresses spec) m m1) by apply resolve_address_frame.
  clearbody m1. clearbody spec2.
  destruct (jumps_at m (JumpHosts spec)) as [|j js] eqn:Hj.
  2:{ intros [= <- <-]. split_and!; auto. }
  destruct (decide (nonEmpty (Get alias "ProxyJump") = "")).
  { intros [= <- <-]. split_and!; auto. }
  destruct (parseHops _ _ m1) as [[jhs m2]|] eqn:Hp; simpl; [|done].
  assert (Hm2 : mem_frame (Addresses spec) m m2).
  { eapply mem_frame_trans; [done|]. by eapply parseHops_frame. }
  destruct jhs as [|jh jhs].
  { intros [= <- <-]. split_and!; auto. }
  intros [= <- <-]. split_and!; auto; [| |done].
  - eapply mem_frame_trans; [done|]. apply (mem_frame_new_jumps _ (jh :: jhs)).
  - simpl. rewrite Hs2 at 1. by destruct spec.
Qed.

Lemma resolve_shape fuel spec m spec' m' :
  resolveFromSSHConfig Get home fuel spec m = Some (spec', m') →
  mem_frame (Addresses spec) m m' ∧
  spec' = spec <| User := User spec' |> <| Auth := Auth spec' |> <| JumpHosts := JumpHosts spec' |> ∧
  (User spec ≠ "" → User spec' = User spec) ∧
  (KeyPath (Auth spec) ≠ "" ∨ UseAgent (Auth spec) = true ∨ Password (Auth spec) ≠ "" →
     Auth spec' = Auth spec) ∧
  (jumps_at m (JumpHosts spec) ≠ [] → JumpHosts spec' = JumpHosts spec).
Proof.
  revert spec m spec' m'. induction fuel as [|fuel IH]; intros spec m spec' m'; simpl; [done|].
  apply resolve_body_shape. intros. by edestruct IH as [? ?].
Qed.
End resolve_facts.

Section resolve_theorems.
Context (Get : string → string → string) (home : option string).
Abbreviation resolve := (resolveFromSSHConfig Get home).

Lemma resolve_address_cases alias port spec m :
  resolve_address Get alias port spec m = m ∨
  ∃ h p, resolve_address Get alias port spec m = set_addr0 (JoinHostPort h p) (Addresses spec) m ∧
    (port ≠ "" → p = port).
Proof.
  unfold resolve_address. repeat case_match; try (by left); right; eexists _, _; done.
Qed.

(** The first address keeps an explicit port; the others are untouched. *)
Lemma resolve_addresses fuel spec m spec' m' :
  slice_ok m (Addresses spec) →
  resolve fuel spec m = Some (spec', m') →
  addrs_at m' (Addresses spec') = addrs_at m (Addresses spec) ∨
  ∃ raw rest h p, addrs_at m (Addresses spec) = raw :: rest ∧
    addrs_at m' (Addresses spec') = JoinHostPort h p :: rest ∧
    ((alias_of raw).2 ≠ "" → p = (alias_of raw).2).
Proof.
  intros Hok Hres. assert (HA : Addresses spec' = Addresses spec).
  { destruct (resolve_shape _ _ _ _ _ _ _ Hres) as (_ & -> & _). done. }
  rewrite HA. clear HA.
  destruct fuel as [|fuel]; [done|]. simpl in Hres. unfold resolve_body in Hres.
  destruct (DisableSSHConfig spec); [injection Hres as <- <-; by left|].
  destruct (addrs_at m (Addresses spec)) as [|raw rest] eqn:Hraw;
    [injection Hres as <- <-; by left|].
  destruct (alias_of raw) as [alias port] eqn:Hal.
  destruct (decide (alias = "")); [injection Hres as <- <-; by left|].
  assert (Hkeep : addrs_at m' (Addresses spec)
                  = addrs_at (resolve_address Get alias port spec m) (Addresses spec)).
  { pose proof (resolve_address_frame Get alias port spec m) as (Hn & _).
    assert (Hok1 : slice_ok (resolve_address Get alias port spec m) (Addresses spec))
      by (destruct (Addresses spec); simpl in *; [lia|done]).
    clear Hn. set (m1 := resolve_address Get alias port spec m) in *. clearbody m1.
    destruct (jumps_at m1 _); [|by injection Hres as <- <-].
    destruct (decide _); [by injection Hres as <- <-|].
    destruct (parseHops _ _ m1) as [[jhs m2]|] eqn:Hp; simpl in Hres; [|done].
    eapply (parseHops_frame _ None) in Hp; [|intros ???? Hq; by apply resolve_shape in Hq as []].
    assert (Hk : mem_frame None m1 m').
    { destruct jhs; injection Hres as <- <-; [done|].
      eapply mem_frame_trans; [done|]. apply (mem_frame_new_jumps _ (_ :: _)). }
    destruct (Addresses spec) as [l|]; [|done].
    by apply (mem_frame_addrs None). }
  rewrite Hkeep. destruct (resolve_address_cases alias port spec m) as [->|(h & p & -> & Hp)].
  { left. done. }
  right. exists raw, rest, h, p. by rewrite set_addr0_read, Hraw, Hal.
Qed.

(** ** Depth of the recursion *)

(** The hops the config chains [alias] through, and the alias each one is
    resolved under. *)
Definition hops_of (alias : string) : list string :=
  splitCommaList (nonEmpty (Get alias "ProxyJump")).
Definition hop_alias (hop : string) : string :=
  (alias_of (hop_addr (hop_user_host hop).2)).1.
Definition spec_alias (m : Mem) (spec : ConnectSpec) : string :=
  match addrs_at m (Addresses spec) with [] => "" | raw :: _ => (alias_of raw).1 end.

Lemma parseHop_new user h m spec' m' :
  new_addrs [hop_addr h] m = (Addresses (ConnectSpec_of user spec'), m') →
  spec_alias m' (ConnectSpec_of user spec') = (alias_of (hop_addr h)).1.
Proof. intros Hn. unfold spec_alias. by rewrite (addrs_new _ _ _ _ Hn). Qed.

Lemma resolve_total (rank : string → nat) :
  (∀ a hop, hop ∈ hops_of a → (rank (hop_alias hop) < rank a)%nat) →
  ∀ fuel spec m, (rank (spec_alias m spec) < fuel)%nat → is_Some (resolve fuel spec m).
Proof.
  intros Hrank. induction fuel as [|fuel IH]; intros spec m Hf; [lia|]. simpl.
  unfold resolve_body. destruct (DisableSSHConfig spec); [done|].
  unfold spec_alias in Hf. destruct (addrs_at m (Addresses spec)) as [|raw ?]; [done|].
  destruct (alias_of raw) as [alias port]. simpl in Hf.
  destruct (decide (alias = "")); [done|].
  destruct (jumps_at _ _); [|done]. destruct (decide _); [done|].
  change (splitCommaList _) with (hops_of alias).
  assert (Hh : ∀ hop, hop ∈ hops_of alias → (rank (hop_alias hop) < fuel)%nat).
  { intros hop Hin. specialize (Hrank alias hop Hin). lia. }
  match goal with |- context [parseHops _ _ ?x] => generalize x end. intros m1.
  assert (is_Some (parseHops (resolve fuel) (hops_of alias) m1)) as [[jhs m2] Hp].
  { revert m1. induction (hops_of alias) as [|hop hops IHh]; intros m1; simpl; [done|].
    unfold parseJumpHopFromConfig. destruct (hop_user_host hop) as [user h] eqn:Huh.
    destruct (new_addrs [hop_addr h] m1) as [addrs m3] eqn:Hnew.
    destruct (IH (ConnectSpec_of user addrs) m3) as [[s4 m4] ->].
    { rewrite (parseHop_new user h m1 addrs m3 Hnew).
      assert (Hq := Hh hop ltac:(apply list_elem_of_here)). unfold hop_alias in Hq.
      by rewrite Huh in Hq. }
    simpl. destruct (IHh ltac:(intros; apply Hh; by apply list_elem_of_further) m4)
      as [[? ?] ->]. done. }
  rewrite Hp. simpl. by destruct jhs.
Qed.

Lemma resolve_diverges (C : string → Prop) :
  (∀ a, C a → a ≠ "" ∧ nonEmpty (Get a "ProxyJump") ≠ "" ∧ ∃ hop, hop ∈ hops_of a ∧ C (hop_alias hop)) →
  ∀ fuel spec m, DisableSSHConfig spec = false → jumps_at m (JumpHosts spec) = [] →
    C (spec_alias m spec) → resolve fuel spec m = None.
Proof.
  intros HC. induction fuel as [|fuel IH]; intros spec m Hd Hj Ha; [done|]. simpl.
  unfold resolve_body. rewrite Hd. destruct (HC _ Ha) as (Hne & Hpj & hop & Hin & Hhop).
  unfold spec_alias in *. destruct (addrs_at m (Addresses spec)) as [|raw ?]; [done|].
  destruct (alias_of raw) as [alias port]. simpl in *.
  rewrite decide_False by done.
  replace (jumps_at _ _) with (@nil JumpHost).
  2:{ rewrite resolve_address_jumps, <- Hj. f_equal.
      rewrite resolve_auth_other, resolve_user_other. by destruct spec. }
  rewrite decide_False by done. change (splitCommaList _) with (hops_of alias).
  match goal with |- context [parseHops _ _ ?x] => generalize x end. intros m1.
  assert (parseHops (resolve fuel) (hops_of alias) m1 = None) as ->; [|done].
  revert m1. revert Hin. generalize (hops_of alias). intros hops Hin.
  induction Hin as [hop hops|hop hop' hops Hin IHin]; intros m1; simpl.
  - unfold parseJumpHopFromConfig. destruct (hop_user_host hop) as [user h] eqn:Huh.
    destruct (new_addrs [hop_addr h] m1) as [addrs m3] eqn:Hnew.
    rewrite IH; [done..|]. unfold hop_alias in Hhop. rewrite Huh in Hhop. simpl in Hhop.
    pose proof (parseHop_new user h m1 addrs m3 Hnew) as Hp. unfold spec_alias in Hp.
    by rewrite Hp.
  - destruct (parseJumpHopFromConfig _ _ _) as [[? ?]|]; simpl; [|done].
    by rewrite IHin by done.
Qed.
End resolve_theorems.

(** ** Properties *)

(** What the caller set explicitly wins over [~/.ssh/config]: a non-empty
    user, any explicit auth method, an explicit jump chain and an explicit port
    on the first address are kept, every address after the first is kept, and
    the fields that have no ssh_config counterpart are never changed. *)
Theorem resolve_explicit_wins Get home fuel spec m spec' m'
    (Hok : slice_ok m (Addresses spec))
    (Hres : resolveFromSSHConfig Get home fuel spec m = Some (spec', m')) :
  (User spec ≠ "" → User spec' = User spec) ∧
  (KeyPath (Auth spec) ≠ "" ∨ UseAgent (Auth spec) = true ∨ Password (Auth spec) ≠ "" →
     Auth spec' = Auth spec) ∧
  (jumps_at m (JumpHosts spec) ≠ [] → JumpHosts spec' = JumpHosts spec) ∧
  (addrs_at m' (Addresses spec') = addrs_at m (Addresses spec) ∨
   ∃ raw rest h p, addrs_at m (Addresses spec) = raw :: rest ∧
     addrs_at m' (Addresses spec') = JoinHostPort h p :: rest ∧
     ((alias_of raw).2 ≠ "" → p = (alias_of raw).2)) ∧
  (KnownHostsPath spec', Insecure spec', Timeout spec', Keepalive spec', AutoReconnect spec',
   Persistent spec', ForwardAgent spec', DisableSSHConfig spec')
  = (KnownHostsPath spec, Insecure spec, Timeout spec, Keepalive spec, AutoReconnect spec,
     Persistent spec, ForwardAgent spec, DisableSSHConfig spec).
Proof.
  pose proof (resolve_addresses _ _ _ _ _ _ _ Hok Hres) as Haddr.
  destruct (resolve_shape _ _ _ _ _ _ _ Hres) as (_ & Hs & HU & HA & HJ).
  split_and!; [done..|]. by rewrite Hs.
Qed.

(** A small [~/.ssh/config]: [web] is an alias behind [bastion]. *)
Definition cfg_web (alias key : string) : string :=
  if decide (alias = "web") then
    if decide (key = "Hostname") then "10.0.0.7" else
    if decide (key = "ProxyJump") then "ops@bastion:2222" else ""
  else if decide (alias = "bastion") then
    if decide (key = "IdentityAgent") then "~/agent.sock" else ""
  else "".
Definition spec_web : ConnectSpec :=
  mkConnectSpec "root" (Some 1%positive) None AuthSpec0 "" false 0 0 false false false false.
Definition mem_web : Mem := mkMem {[1%positive := ["web:2200"]]} ∅ 2%positive.

Lemma resolve_explicit_wins_witness :
  ∃ spec' m', resolveFromSSHConfig cfg_web (Some "/home/u") 3 spec_web mem_web = Some (spec', m') ∧
    User spec' = "root" ∧ addrs_at m' (Addresses spec') = ["10.0.0.7:2200"].
Proof.
  eexists _, _. split; [vm_compute; reflexivity|]. split.
  - refine (proj1 (resolve_explicit_wins cfg_web (Some "/home/u") 3 spec_web mem_web _ _ _ _) _);
      [done|vm_compute; reflexivity|done].
  - vm_compute. reflexivity.
Defined.

(** C30: resolution terminates on every config whose ProxyJump chains are ranked:
    when each hop's alias ranks below the alias it serves, a recursion depth one
    above the rank of the spec's own alias is enough for every spec. *)
Theorem resolve_terminates Get home (rank : string → nat) fuel spec m
    (Hrank : ∀ a hop, hop ∈ hops_of Get a → (rank (hop_alias hop) < rank a)%nat)
    (Hfuel : (rank (spec_alias m spec) < fuel)%nat) :
  is_Some (resolveFromSSHConfig Get home fuel spec m).
Proof. by eapply resolve_total. Qed.

Definition rank_web (a : string) : nat := if decide (a = "web") then 1 else 0.

Lemma hops_of_web a : hops_of cfg_web a = if decide (a = "web") then ["ops@bastion:2222"] else [].
Proof.
  unfold hops_of, cfg_web. destruct (decide (a = "web")); [by vm_compute|].
  destruct (decide (a = "bastion")); by vm_compute.
Qed.

Lemma resolve_terminates_witness :
  is_Some (resolveFromSSHConfig cfg_web None 2 spec_web mem_web).
Proof.
  apply (resolve_terminates cfg_web None rank_web).
  - intros a hop. rewrite hops_of_web. unfold rank_web. destruct (decide (a = "web")) as [->|].
    + intros ->%list_elem_of_singleton. vm_compute. lia.
    + by intros ?%not_elem_of_nil.
  - vm_compute. lia.
Defined.

(** When the ProxyJump hops of a set of aliases stay in that set (the usual
    [Host *] / [ProxyJump bastion] makes [bastion] its own hop), no recursion
    depth is enough: resolving a spec for such an alias never returns. *)
Theorem resolve_cycle_diverges Get home (C : string → Prop) fuel spec m
    (HC : ∀ a, C a → a ≠ "" ∧ nonEmpty (Get a "ProxyJump") ≠ "" ∧
                ∃ hop, hop ∈ hops_of Get a ∧ C (hop_alias hop))
    (Hd : DisableSSHConfig spec = false) (Hj : jumps_at m (JumpHosts spec) = [])
    (Ha : C (spec_alias m spec)) :
  resolveFromSSHConfig Get home fuel spec m = None.
Proof. by eapply resolve_diverges. Qed.

(** [Host *] with [ProxyJump bastion]. *)
Definition cfg_star (alias key : string) : string :=
  if decide (key = "ProxyJump") then "bastion" else "".

Lemma resolve_cycle_diverges_witness :
  resolveFromSSHConfig cfg_star None 1000 spec_web mem_web = None.
Proof.
  apply (resolve_cycle_diverges cfg_star None (λ a, a ≠ "")); [|done|done|done].
  intros a Ha. split_and!; [done|done|]. exists "bastion". split; [|done].
  apply list_elem_of_here.
Defined.
