(* ===== verification/Auth.v ===== *)
(** * Authentication and host keys (internal/sshx/auth.go)

    [Build] turns an [AuthSpec] into auth methods; it may open the ssh-agent
    socket, which it hands over as a list of closers or closes itself on every
    error path.  [ssh.ParseKnownHosts] is third-party: a parameter that returns
    the hosts, the key type and the rest of the file, or [None] for its error. *)

From S2P Require Import Prelude GoStrings External Spec.
From Stdlib Require Import Ascii String.

(** [strings.Index...; s[1:]]: a leading [~/] replaced by the home directory. *)
Definition wrapE {S A} (f : string) (m : M S A) : M S A :=
  r ← try m; match r with inr a => mret a | inl e => fail (Wrap f [] e) end.

(** [os.Getenv] has no error: an unset variable is the empty string. *)
Definition getenv {E : Env} (key : string) : M Net string :=
  r ← try (call (Getenv key)); mret (match r with inr v => v | inl _ => "" end).

Definition expandTilde {E : Env} (sock : string) : M Net string :=
  if has_prefix "~/" sock then
    r ← try (call UserHomeDir);
    mret (match r with inr home => (home +:+ drop_str 1 sock)%string | inl _ => sock end)
  else mret sock.

(** The agent part of [Build]: at most one socket, handed over as a closer. *)
Definition Build_agent {E : Env} (a : AuthSpec) : M Net (list AuthMethod * list rid) :=
  if UseAgent a then
    sock ← (if decide (AgentSocket a = "") then getenv "SSH_AUTH_SOCK" else mret (AgentSocket a));
    if decide (sock = "") then
      fail (Msg "ssh-agent requested but neither agent_socket nor SSH_AUTH_SOCK is set")
    else
      sock ← expandTilde sock;
      '(conn, _) ← wrapE "dial ssh-agent: %w" (acquire (NetDial "unix" sock));
      mret ([AgentSigners conn], [conn])
  else mret ([], []).

(** The key file, the password, and the check that some method remains. *)
Definition Build_keys {E : Env} (a : AuthSpec) (methods : list AuthMethod) (closers : list rid)
    : M Net (list AuthMethod * list rid) :=
  methods ←
    (if decide (KeyPath a = "") then mret methods
     else
       r ← try (call (ReadFile (KeyPath a)));
       match r with
       | inl e => closeAllR closers;; fail (Wrap "read private key: %w" [] e)
       | inr data =>
         r ← try (call (ParsePrivateKey data (KeyPassphrase a)));
         match r with
         | inl e => closeAllR closers;; fail (Wrap "parse private key: %w" [] e)
         | inr _ => mret (methods ++ [PublicKeys data (KeyPassphrase a)])
         end
       end);
  let methods := if decide (Password a = "") then methods else methods ++ [PasswordAuth (Password a)] in
  match methods with
  | [] => closeAllR closers;;
          fail (Msg "no authentication method provided (set key_path, use_agent, or password)")
  | _ => mret (methods, closers)
  end.

Definition Build {E : Env} (a : AuthSpec) : M Net (list AuthMethod * list rid) :=
  '(methods, closers) ← Build_agent a; Build_keys a methods closers.

(** ** known_hosts *)
Definition knownHostsHostMatches (pattern host : string) : bool :=
  if decide (pattern = "") then false
  else if has_prefix "|" pattern then false
  else if has_prefix "[" pattern then
    match cut "]"%char pattern with
    | Some (inner, _) => bool_decide (drop_str 1 inner = host)
    | None => bool_decide (pattern = host)
    end
  else bool_decide (pattern = host).

Section known_hosts.
(* ssh.ParseKnownHosts *)
Variable ParseKnownHosts : string → option (list string * option string * string).

(** The loop of [HostKeyAlgorithmsFor]; one iteration per line. *)
Fixpoint keyTypes (fuel : nat) (rest host : string) (seen : gset string) : gset string :=
  match fuel with
  | O => seen
  | S fuel =>
    if decide (rest = "") then seen else
    match ParseKnownHosts rest with
    | None => seen
    | Some (hosts, None, next) => keyTypes fuel next host seen
    | Some (hosts, Some t, next) =>
      keyTypes fuel next host
        (if existsb (λ h, knownHostsHostMatches h host) hosts then {[t]} ∪ seen else seen)
    end
  end.

Definition HostKeyAlgorithmsFor {E : Env} (knownHostsPath host : string) : M Net (list string) :=
  if decide (host = "") then mret [] else
  path ← (if decide (knownHostsPath = "") then
            r ← try (call UserHomeDir);
            mret (match r with inr home => Some (home +:+ "/.ssh/known_hosts")%string | inl _ => None end)
          else mret (Some knownHostsPath));
  match path with
  | None => mret []
  | Some path =>
    r ← try (call (ReadFile path));
    match r with
    | inl _ => mret []
    | inr data => mret (elements (keyTypes (S (String.length data)) data host ∅))
    end
  end.
End known_hosts.

Definition HostKeyCallback {E : Env} (insecure : bool) (knownHostsPath : string) : M Net HostKey :=
  if insecure then mret InsecureIgnoreHostKey else
  path ← (if decide (knownHostsPath = "") then
            home ← wrapE "locate home dir: %w" (call UserHomeDir);
            mret (home +:+ "/.ssh/known_hosts")%string
          else mret knownHostsPath);
  r ← try (call (Stat path));
  match r with
  | inl e => fail (Wrap "known_hosts file is not readable: %w (pass insecure=true to skip host key verification)" [] e)
  | inr _ => _ ← call (KnownHostsNew path); mret (KnownHosts path)
  end.

(** ** Resources *)

(** [m] opens nothing and closes nothing, and does not panic. *)
Definition quiet {A} (m : M Net A) : Prop := ∀ n,
  n_open (m n).2 = n_open n ∧ n_next (m n).2 = n_next n ∧ is_panic (m n).1 = false.

Lemma quiet_wp {A} (m : M Net A) Q n :
  quiet m →
  (∀ o n', n_open n' = n_open n → n_next n' = n_next n → is_panic o = false → Q o n') → wp m Q n.
Proof. intros Hm HQ. destruct (Hm n) as (? & ? & ?). by apply HQ. Qed.

Lemma quiet_ret {A} (a : A) : quiet (mret a). Proof. done. Qed.
Lemma quiet_fail {A} e : quiet (fail e : M Net A). Proof. done. Qed.
Lemma quiet_call {E : Env} {T} (c : ext T) : quiet (call c).
Proof. intros n. unfold call. simpl. by destruct (env _ _ _). Qed.
Lemma quiet_bind {A B} (m : M Net A) (k : A → M Net B) :
  quiet m → (∀ a, quiet (k a)) → quiet (m ≫= k).
Proof.
  intros Hm Hk n. specialize (Hm n). unfold mbind, M_bind.
  destruct (m n) as [[a| |] n']; simpl in *; [|done|done].
  destruct (Hk a n') as (-> & -> & ->). naive_solver.
Qed.
Lemma quiet_try {A} (m : M Net A) : quiet m → quiet (try m).
Proof. intros Hm n. specialize (Hm n). unfold try. by destruct (m n) as [[] ?]. Qed.
Create HintDb quiet discriminated.
#[export] Hint Resolve quiet_ret quiet_fail quiet_call quiet_try : quiet.
Ltac solve_quiet :=
  repeat first [ progress intros | solve [eauto with quiet] | apply quiet_bind
               | apply quiet_try | case_match ].

Lemma quiet_wrapE {A} f (m : M Net A) : quiet m → quiet (wrapE f m).
Proof. intros. unfold wrapE. solve_quiet. Qed.
#[export] Hint Resolve quiet_wrapE : quiet.
Lemma quiet_HostKeyAlgorithmsFor {E : Env} P path host : quiet (HostKeyAlgorithmsFor P path host).
Proof. unfold HostKeyAlgorithmsFor. solve_quiet. Qed.
Lemma quiet_HostKeyCallback {E : Env} i path : quiet (HostKeyCallback i path).
Proof. unfold HostKeyCallback. solve_quiet. Qed.
Lemma quiet_getenv {E : Env} k : quiet (getenv k).
Proof. unfold getenv. solve_quiet. Qed.
Lemma quiet_expandTilde {E : Env} s : quiet (expandTilde s).
Proof. unfold expandTilde. solve_quiet. Qed.
#[export] Hint Resolve quiet_HostKeyAlgorithmsFor quiet_HostKeyCallback quiet_getenv
  quiet_expandTilde : quiet.

(** Quiet code that cannot fail either. *)
Definition harmless {A} (m : M Net A) : Prop := ∀ n,
  n_open (m n).2 = n_open n ∧ n_next (m n).2 = n_next n ∧ ∃ a, (m n).1 = Ret a.
Lemma harmless_ret {A} (a : A) : harmless (mret a). Proof. intros n. naive_solver. Qed.
Lemma harmless_bind {A B} (m : M Net A) (k : A → M Net B) :
  harmless m → (∀ a, harmless (k a)) → harmless (m ≫= k).
Proof.
  intros Hm Hk n. specialize (Hm n). unfold mbind, M_bind.
  destruct (m n) as [r n']; simpl in *. destruct Hm as (Ho & Hn & a & ->).
  destruct (Hk a n') as (-> & -> & ?). done.
Qed.
Lemma harmless_try {A} (m : M Net A) : quiet m → harmless (try m).
Proof.
  intros Hm n. specialize (Hm n). unfold try.
  destruct (m n) as [[] ?]; simpl in *; naive_solver.
Qed.
Lemma harmless_HostKeyAlgorithmsFor {E : Env} P path host :
  harmless (HostKeyAlgorithmsFor P path host).
Proof.
  unfold HostKeyAlgorithmsFor.
  repeat first [ progress intros | apply harmless_ret | apply harmless_bind
               | apply harmless_try; solve_quiet | case_match ].
Qed.
Lemma harmless_wp {A} (m : M Net A) Q n :
  harmless m → (∀ a n', n_open n' = n_open n → n_next n' = n_next n → Q (Ret a) n') → wp m Q n.
Proof. intros Hm HQ. unfold wp. destruct (Hm n) as (? & ? & a & ->). by apply HQ. Qed.

(** The contract of code that opens resources and hands them to its caller:
    an error leaves nothing open, a result owns exactly [res], all new. *)
Definition opens {A} (res : A → list rid) (m : M Net A) : Prop := ∀ n, net_wf n →
  wp m (λ o n', net_wf n' ∧ (n_next n ≤ n_next n')%positive ∧
    match o with
    | Ret a => n_open n' = list_to_set (res a) ∪ n_open n ∧ NoDup (res a) ∧
               (∀ r, r ∈ res a → (n_next n ≤ r < n_next n')%positive)
    | Err _ => n_open n' = n_open n
    | Panic _ => False
    end) n.

(** ** Facts *)
Lemma wp_wrapE {S A} f (m : M S A) Q s :
  wp m (λ o s', match o with
                | Err e => Q (Err (Wrap f [] e)) s'
                | _ => Q o s'
                end) s → wp (wrapE f m) Q s.
Proof.
  intros H. unfold wrapE. apply wp_bind, wp_try. eapply wp_mono; [exact H|].
  intros [a|e|p] s'; simpl; auto.
Qed.

(** Run quiet code and keep only what it says about the resources. *)
Ltac quiet_step :=
  lazymatch goal with
  | |- wp (_ ≫= _) _ _ => apply wp_bind; quiet_step
  | |- wp (try _) _ _ => apply wp_try; quiet_step
  | |- wp ?m _ ?n =>
    apply quiet_wp; [solve_quiet|];
    let o := fresh "o" in let n' := fresh "n" in
    let H1 := fresh "Hopen" in let H2 := fresh "Hnext" in
    intros o n' H1 H2; destruct o; [intros _|intros _|done]
  end.

Lemma net_wf_same n n' : n_open n' = n_open n → n_next n' = n_next n → net_wf n → net_wf n'.
Proof. unfold net_wf. by intros -> ->. Qed.
Lemma net_wf_acquire n t : net_wf n →
  net_wf (mkNet t (Pos.succ (n_next n)) ({[n_next n]} ∪ n_open n)).
Proof. intros Hwf r. simpl. intros [->%elem_of_singleton|Hr%Hwf]%elem_of_union; lia. Qed.

Lemma wf_next_fresh n r : net_wf n → (n_next n ≤ r)%positive → r ∉ n_open n.
Proof. intros Hwf Hr Hin. apply Hwf in Hin. lia. Qed.

(** Closing what was opened restores the set. *)
Lemma close_undoes (l : list rid) (o : gset rid) :
  (∀ r, r ∈ l → r ∉ o) → (list_to_set l ∪ o) ∖ list_to_set l = o.
Proof.
  intros H. apply set_eq. intros x. rewrite elem_of_difference, elem_of_union, elem_of_list_to_set.
  split; [tauto|]. intros Hx. split; [by right|]. intros Hl. by apply (H x).
Qed.

(** [opens] for an [acquire] whose result is its resource. *)
Lemma opens_acquire {E : Env} {T} (c : ext T) : opens (λ p, [p.1]) (acquire c).
Proof.
  intros n Hwf. apply wp_acquire; simpl; intros x Hx.
  - split_and!; [by apply net_wf_acquire|lia|set_solver|apply NoDup_singleton|].
    intros r ->%list_elem_of_singleton. lia.
  - split_and!; [done|lia|done].
Qed.

Lemma opens_try {A} (res : A → list rid) (m : M Net A) :
  opens res m → opens (λ r, match r with inr a => res a | inl _ => [] end) (try m).
Proof.
  intros Hm n Hwf. apply wp_try. eapply wp_mono; [by apply Hm|].
  intros [a|e|p] n'; [done| |done]. intros (? & ? & ->). split_and!; [done|done|set_solver|constructor|].
  by intros ? ?%elem_of_nil.
Qed.

Definition opens_none {A} (m : M Net A) : Prop := opens (λ _, []) m.
Lemma quiet_opens {A} (m : M Net A) : quiet m → opens_none m.
Proof.
  intros Hm n Hwf. apply quiet_wp; [done|]. intros o n' Ho Hn Hp.
  split_and!; [by eapply net_wf_same|by rewrite Hn|].
  destruct o; [|done|done]. split_and!; [set_solver|constructor|by intros ? ?%elem_of_nil].
Qed.

(** The error path of a caller that already owns [l]: close it, then fail. *)
Lemma wp_close_fail {A} l e (Q : outcome A → Net → Prop) n :
  Q (Err e) (n <| n_open ::= λ o, o ∖ list_to_set l |>) → wp (closeAllR l;; fail e) Q n.
Proof. intros H. apply wp_bind, wp_closeAllR, wp_fail, H. Qed.

Section Build_facts.
Context {E : Env}.

Lemma Build_keys_opens a methods closers n0 n :
  net_wf n0 → net_wf n → (n_next n0 ≤ n_next n)%positive →
  n_open n = list_to_set closers ∪ n_open n0 → NoDup closers →
  (∀ r, r ∈ closers → (n_next n0 ≤ r < n_next n)%positive) →
  wp (Build_keys a methods closers)
    (λ o n', net_wf n' ∧ (n_next n0 ≤ n_next n')%positive ∧
      match o with
      | Ret a => n_open n' = list_to_set a.2 ∪ n_open n0 ∧ NoDup a.2 ∧
             (∀ r, r ∈ a.2 → (n_next n0 ≤ r < n_next n')%positive)
      | Err _ => n_open n' = n_open n0
      | Panic _ => False
      end) n.
Proof.
  intros Hwf0 Hwf Hle Ho Hnd Hcl.
  assert (Hfresh : ∀ r, r ∈ closers → r ∉ n_open n0).
  { intros r Hr. apply wf_next_fresh; [done|]. apply Hcl in Hr. lia. }
  assert (Hclose : ∀ n' : Net, n_open n' = n_open n → n_next n' = n_next n →
    net_wf (n' <| n_open ::= λ o, o ∖ list_to_set closers |>) ∧
    (n_next n0 ≤ n_next (n' <| n_open ::= λ o, o ∖ list_to_set closers |>))%positive ∧
    n_open (n' <| n_open ::= λ o, o ∖ list_to_set closers |>) = n_open n0).
  { intros n' Ho' Hn'. simpl. split_and!; [|lia|].
    - intros r. simpl. rewrite Ho', Hn'. intros [Hr _]%elem_of_difference. by apply Hwf.
    - rewrite Ho', Ho. by apply close_undoes. }
  unfold Build_keys. apply wp_bind.
  apply (wp_mono _ (λ o n', match o with
    | Ret _ => n_open n' = n_open n ∧ n_next n' = n_next n
    | Err _ => net_wf n' ∧ (n_next n0 ≤ n_next n')%positive ∧ n_open n' = n_open n0
    | Panic _ => False end)).
  - destruct (decide _); [done|]. quiet_step.
    + quiet_step.
      * apply wp_ret. split; congruence.
      * apply wp_close_fail, Hclose; congruence.
    + apply wp_close_fail, Hclose; congruence.
  - intros [ms|e|p] n'; [|done|done]. intros [Ho' Hn'].
    destruct (if decide _ then _ else _).
    + apply wp_close_fail, Hclose; congruence.
    + apply wp_ret. simpl. split_and!; [by eapply net_wf_same|lia|by rewrite Ho'|done|].
      intros r Hr. apply Hcl in Hr. lia.
Qed.

Lemma opens_Build a : opens snd (Build a).
Proof.
  intros n Hwf. unfold Build, Build_agent. apply wp_bind. destruct (UseAgent a).
  2:{ apply wp_ret. apply Build_keys_opens; [done|done|lia|set_solver|constructor|].
      by intros ? ?%elem_of_nil. }
  assert (Hq : ∀ n', n_open n' = n_open n → n_next n' = n_next n →
    net_wf n' ∧ (n_next n ≤ n_next n')%positive ∧ n_open n' = n_open n).
  { intros n' H1 H2. split_and!; [by eapply net_wf_same|lia|done]. }
  quiet_step; [|by apply Hq].
  destruct (decide _); [apply wp_fail; by apply Hq|].
  quiet_step; [|apply Hq; congruence].
  apply wp_bind, wp_wrapE, wp_acquire; cbn beta iota.
  2:{ intros e _. apply Hq; simpl; congruence. }
  intros x _. apply wp_ret. apply Build_keys_opens; simpl.
  - done.
  - apply net_wf_acquire. eapply net_wf_same; [..|done]; congruence.
  - lia.
  - set_solver.
  - apply NoDup_singleton.
  - intros r ->%list_elem_of_singleton. lia.
Qed.
End Build_facts.
