(* ===== verification/Dial.v ===== *)
(** * Dialing (internal/sshx/connect.go)

    [dialFinal] normalises the addresses, builds the auth methods, dials the jump
    chain and then tries the addresses in order.  A client is the resource that
    [ssh.Dial] or [ssh.NewClientConn] opened.  What [dialFinal] owns when it
    returns is stated by [opens]: the client and its jump clients, or nothing. *)

From S2P Require Import Prelude GoStrings External Spec Auth.
From Stdlib Require Import Ascii String.

Definition second : Z := 1000000000.
Definition defaultPort : Z := 22.

(** [normalizeAddrs]'s loop: trim, skip blanks, add the default port. *)
Fixpoint normalizeLoop (addrs : list string) : list string :=
  match addrs with
  | [] => []
  | a :: rest =>
    let a := TrimSpace a in
    if decide (a = "") then normalizeLoop rest else
    (match SplitHostPort a with
     | inl _ => JoinHostPort a (Itoa defaultPort)
     | inr _ => a
     end) :: normalizeLoop rest
  end.

Definition normalizeAddrs (addrs : list string) : error + list string :=
  match addrs with
  | [] => inl (Msg "at least one address is required")
  | _ =>
    match normalizeLoop addrs with
    | [] => inl (Msg "addresses cannot be empty")
    | out => inr out
    end
  end.

Section dial.
Context {E : Env}.
Variable ParseKnownHosts : string → option (list string * option string * string).

Definition dialThrough (chain : list rid) (addr : string) (cfg : ClientConfig) : M Net rid :=
  match last chain with
  | None => '(c, _) ← acquire (SshDial "tcp" addr cfg); mret c
  | Some parent =>
    '(conn, _) ← acquire (ClientDial parent "tcp" addr);
    r ← try (call (NewClientConn conn addr cfg));
    match r with
    | inl e => closeR conn;; fail e
    | inr _ => mret conn
    end
  end.

(** The loop over the addresses of one jump host. *)
Fixpoint dialFirst (chain : list rid) (cfg : ClientConfig) (addrs : list string) (lastErr : error)
    : M Net rid :=
  match addrs with
  | [] => fail (Wrap "dial failed: %w" [] lastErr)
  | addr :: rest =>
    r ← try (dialThrough chain addr cfg);
    match r with
    | inr dialed => mret dialed
    | inl e => dialFirst chain cfg rest e
    end
  end.

Definition dialOneJump (j : JumpHost) (chain : list rid) : M Net rid :=
  addrs ← of_sum (normalizeAddrs (jh_Addresses j));
  '(methods, closers) ← Build (jh_Auth j);
  finally (
    hostKey ← HostKeyCallback (jh_Insecure j) (jh_KnownHostsPath j);
    let timeout := if decide (jh_Timeout j = 0) then 15 * second else jh_Timeout j in
    let cfg := {| cfg_User := jh_User j; cfg_Auth := methods; cfg_HostKey := hostKey;
                  cfg_Timeout := timeout; cfg_HostKeyAlgorithms := [] |} in
    dialFirst chain cfg addrs (Msg "nil"))
  (closeAllR closers).

(** [dialJumpChain]: each hop is dialed through the clients before it. *)
Fixpoint dialJumpChain (jumps : list JumpHost) (clients : list rid) : M Net (list rid) :=
  match jumps with
  | [] => mret clients
  | j :: rest =>
    r ← try (dialOneJump j clients);
    match r with
    | inl e => closeAllR clients;; fail (Wrap "jump host %s: %w" [jh_User j] e)
    | inr dialed => dialJumpChain rest (clients ++ [dialed])
    end
  end.

(** The per-address loop of [dialFinal]. *)
Fixpoint dialAddrs (spec : ConnectSpec) (methods : list AuthMethod) (hostKey : HostKey)
    (timeout : Z) (jumpClients : list rid) (addrs : list string) (lastErr : error)
    : M Net (rid * string) :=
  match addrs with
  | [] => closeAllR jumpClients;; fail (Wrap "all addresses failed: %w" [] lastErr)
  | addr :: rest =>
    algos ←
      (if Insecure spec then mret [] else
       match SplitHostPort addr with
       | inr (host, _) => HostKeyAlgorithmsFor ParseKnownHosts (KnownHostsPath spec) host
       | inl _ => mret []
       end);
    let cfg := {| cfg_User := User spec; cfg_Auth := methods; cfg_HostKey := hostKey;
                  cfg_Timeout := timeout; cfg_HostKeyAlgorithms := algos |} in
    r ← try (dialThrough jumpClients addr cfg);
    match r with
    | inr client => mret (client, addr)
    | inl e => dialAddrs spec methods hostKey timeout jumpClients rest e
    end
  end.

(** The result is the client, the jump clients under it, and the address. *)
Definition dialFinal (m : Mem) (spec : ConnectSpec) : M Net (rid * list rid * string) :=
  addrs ← of_sum (normalizeAddrs (addrs_at m (Addresses spec)));
  '(methods, authClosers) ← Build (Auth spec);
  finally (
    hostKey ← HostKeyCallback (Insecure spec) (KnownHostsPath spec);
    let timeout := if decide (Timeout spec = 0) then 15 * second else Timeout spec in
    jumpClients ← dialJumpChain (jumps_at m (JumpHosts spec)) [];
    '(client, addr) ← dialAddrs spec methods hostKey timeout jumpClients addrs (Msg "nil");
    mret (client, jumpClients, addr))
  (closeAllR authClosers).
End dial.

(** ** Address normalisation *)
Lemma normalizeLoop_in a l : a ∈ normalizeLoop l →
  ∃ x, x ∈ l ∧ TrimSpace x ≠ "" ∧
    match SplitHostPort (TrimSpace x) with
    | inr _ => a = TrimSpace x
    | inl _ => a = JoinHostPort (TrimSpace x) "22"
    end.
Proof.
  induction l as [|x l IH]; simpl; [by intros ?%elem_of_nil|].
  assert (Hrest : a ∈ normalizeLoop l → ∃ y, y ∈ x :: l ∧ TrimSpace y ≠ "" ∧
    match SplitHostPort (TrimSpace y) with
    | inr _ => a = TrimSpace y
    | inl _ => a = JoinHostPort (TrimSpace y) "22"
    end).
  { intros Ha. destruct (IH Ha) as (y & Hy & Hr). exists y.
    split; [by apply list_elem_of_further|done]. }
  destruct (decide _); [done|]. intros [->|Ha]%elem_of_cons; [|by apply Hrest].
  exists x. split; [apply list_elem_of_here|]. split; [done|].
  by destruct (SplitHostPort (TrimSpace x)).
Qed.

(** ** Resources of the dial *)
Section resources.
Context {E : Env} (PKH : string → option (list string * option string * string)).

Lemma opens_dialThrough chain addr cfg : opens (λ c, [c]) (dialThrough chain addr cfg).
Proof.
  intros n Hwf. unfold dialThrough. destruct (last chain) as [parent|].
  - apply wp_bind, wp_acquire; simpl; [|intros; split_and!; [done|lia|done]].
    intros _ _. pose proof (net_wf_acquire n (S (n_tick n)) Hwf) as Hwf'.
    apply wp_bind, wp_try, wp_call; simpl.
    + intros _ _. apply wp_ret. simpl.
      split_and!; [done|lia|set_solver|apply NoDup_singleton|].
      intros r ->%list_elem_of_singleton. lia.
    + intros e _. apply wp_bind, wp_closeR, wp_fail. simpl. split_and!; [|lia|].
      * intros r. simpl. intros [Hr _]%elem_of_difference. by apply Hwf'.
      * assert (n_next n ∉ n_open n) by (apply wf_next_fresh; [done|lia]). set_solver.
  - apply wp_bind. eapply wp_mono; [by apply opens_acquire|].
    intros [[c []]|e|p] n'; simpl; [|done|done]. intros ?. by apply wp_ret.
Qed.

Lemma opens_dialFirst chain cfg addrs e : opens (λ c, [c]) (dialFirst chain cfg addrs e).
Proof.
  revert e. induction addrs as [|addr rest IH]; intros e n Hwf; simpl.
  { apply wp_fail. split_and!; [done|lia|done]. }
  apply wp_bind, wp_try. eapply wp_mono; [by apply opens_dialThrough|].
  intros [c|e'|p] n' (Hwf' & Hle & Hres); [by apply wp_ret| |done].
  eapply wp_mono; [by apply IH|]. intros o n2 (? & ? & Ho2).
  split_and!; [done|lia|]. rewrite Hres in Ho2.
  destruct o; [|done|done]. destruct Ho2 as (?&?&Hr). split_and!; [done|done|].
  intros r Hin. apply Hr in Hin. lia.
Qed.

(** Code run between opening [cl] and closing it again on every path. *)
Lemma opens_finally {A} (res : A → list rid) (m : M Net A) (cl : list rid) n0 n :
  net_wf n0 → (n_next n0 ≤ n_next n)%positive → net_wf n →
  n_open n = list_to_set cl ∪ n_open n0 →
  (∀ r, r ∈ cl → (n_next n0 ≤ r < n_next n)%positive) →
  opens res m →
  wp (finally m (closeAllR cl))
    (λ o n', net_wf n' ∧ (n_next n0 ≤ n_next n')%positive ∧
      match o with
      | Ret a => n_open n' = list_to_set (res a) ∪ n_open n0 ∧ NoDup (res a) ∧
             (∀ r, r ∈ res a → (n_next n0 ≤ r < n_next n')%positive)
      | Err _ => n_open n' = n_open n0
      | Panic _ => False
      end) n.
Proof.
  intros Hwf0 Hle Hwf Ho Hcl Hm. unfold finally.
  assert (Hfresh : ∀ r, r ∈ cl → r ∉ n_open n0).
  { intros r Hr. apply wf_next_fresh; [done|]. apply Hcl in Hr. lia. }
  apply wp_bind, wp_try. eapply wp_mono; [by apply Hm|].
  intros [a|e|p] n' (Hwf' & Hle' & Hres); [| |done].
  - apply wp_bind, wp_closeAllR, wp_ret. simpl. destruct Hres as (Hn' & Hnd & Hr).
    assert (Hdis : ∀ r, r ∈ res a → r ∉ cl).
    { intros r H1 H2. apply Hr in H1. apply Hcl in H2. lia. }
    split_and!; [|lia| |done|].
    + intros r [Hin _]%elem_of_difference. by apply Hwf'.
    + rewrite Hn', Ho. apply set_eq. intros x.
      rewrite !elem_of_difference, !elem_of_union, !elem_of_list_to_set. naive_solver.
    + intros r Hin. apply Hr in Hin. lia.
  - apply wp_bind, wp_closeAllR, wp_fail. simpl. split_and!; [|lia|].
    + intros r [Hin _]%elem_of_difference. by apply Hwf'.
    + rewrite Hres, Ho. by apply close_undoes.
Qed.

Lemma wp_of_sum_err {A} (r : error + A) Q (n : Net) :
  (∀ a, r = inr a → Q (Ret a) n) → (∀ e, r = inl e → Q (Err e) n) → wp (of_sum r) Q n.
Proof. destruct r; intros Ha He; [apply wp_fail, He|apply wp_ret, Ha]; done. Qed.

Lemma opens_dialOneJump j chain : opens (λ c, [c]) (dialOneJump j chain).
Proof.
  intros n Hwf. unfold dialOneJump. apply wp_bind, wp_of_sum_err.
  2:{ intros. split_and!; [done|lia|done]. }
  intros addrs _. apply wp_bind. eapply wp_mono; [by apply opens_Build|].
  intros [[ms cl]|e|p] n1; [|done|done]. simpl. intros (Hwf1 & Hle1 & Ho1 & _ & Hr1).
  apply (opens_finally (λ c, [c])); [done|done|done|done|done|].
  intros n2 Hwf2. apply wp_bind. quiet_step.
  - eapply wp_mono; [apply opens_dialFirst; by eapply net_wf_same|].
    intros o n'. rewrite Hnext, Hopen. done.
  - split_and!; [by eapply net_wf_same|by rewrite Hnext|done].
Qed.

(** At [n], exactly [l] has been opened since [n0]. *)
Definition owns (n0 : Net) (l : list rid) (n : Net) : Prop :=
  net_wf n ∧ (n_next n0 ≤ n_next n)%positive ∧
  n_open n = list_to_set l ∪ n_open n0 ∧ NoDup l ∧
  (∀ r, r ∈ l → (n_next n0 ≤ r < n_next n)%positive).

Lemma owns_nil n : net_wf n → owns n [] n.
Proof.
  intros Hwf. split_and!; [done|lia|set_solver|constructor|by intros ? ?%elem_of_nil].
Qed.
Lemma owns_open n0 l n : owns n0 l n → n_open n = list_to_set l ∪ n_open n0.
Proof. by intros (_ & _ & ? & _). Qed.
Lemma owns_same n0 l n n' :
  n_open n' = n_open n → n_next n' = n_next n → owns n0 l n → owns n0 l n'.
Proof. unfold owns, net_wf. by intros -> ->. Qed.

(** Composition: [m] run by a caller that owns [l]. *)
Lemma opens_owned {A} (res : A → list rid) (m : M Net A) n0 l n :
  opens res m → owns n0 l n →
  wp m (λ o n', match o with
                | Ret a => owns n0 (l ++ res a) n'
                | Err _ => owns n0 l n'
                | Panic _ => False
                end) n.
Proof.
  intros Hm (Hwf & Hle & Ho & Hnd & Hr). eapply wp_mono; [by apply Hm|].
  intros [a|e|p] n' (Hwf' & Hle' & Hres); [| |done].
  - destruct Hres as (Hn' & Hnd' & Hr'). split_and!; [done|lia| | |].
    + rewrite Hn', Ho. set_solver.
    + apply NoDup_app. split_and!; [done| |done]. intros x H1 H2.
      apply Hr in H1. apply Hr' in H2. lia.
    + intros r [H|H]%elem_of_app; [apply Hr in H|apply Hr' in H]; lia.
  - split_and!; [done|lia|congruence|done|]. intros r H. apply Hr in H. lia.
Qed.

Lemma owns_close {A} n0 l n e :
  net_wf n0 → owns n0 l n → wp (closeAllR l;; fail e)
    (λ (o : outcome A) n', match o with Err _ => owns n0 [] n' | _ => False end) n.
Proof.
  intros Hwf0 (Hwf & Hle & Ho & Hnd & Hr). apply wp_close_fail. simpl.
  split_and!; [|simpl; lia| |constructor|by intros ? ?%elem_of_nil].
  - intros r [H _]%elem_of_difference. by apply Hwf.
  - simpl. rewrite Ho. rewrite close_undoes; [set_solver|].
    intros r H. apply wf_next_fresh; [done|]. apply Hr in H. lia.
Qed.

Lemma dialJumpChain_owned jumps clients n0 n :
  net_wf n0 → owns n0 clients n →
  wp (dialJumpChain jumps clients)
    (λ o n', match o with
             | Ret cs => owns n0 cs n'
             | Err _ => owns n0 [] n'
             | Panic _ => False
             end) n.
Proof.
  intros Hwf0. revert clients n. induction jumps as [|j rest IH]; intros clients n Hown; simpl.
  { by apply wp_ret. }
  apply wp_bind, wp_try. eapply wp_mono; [eapply opens_owned, Hown; apply opens_dialOneJump|].
  intros [c|e|p] n' Hn'; [by apply IH| |done].
  eapply wp_mono; [by apply owns_close|]. intros [] ? ?; done.
Qed.

Lemma dialAddrs_owned spec ms hk t js addrs e n0 n :
  net_wf n0 → owns n0 js n →
  wp (dialAddrs PKH spec ms hk t js addrs e)
    (λ o n', match o with
             | Ret r => owns n0 (js ++ [r.1]) n' ∧ r.2 ∈ addrs
             | Err _ => owns n0 [] n'
             | Panic _ => False
             end) n.
Proof.
  intros Hwf0. revert e n. induction addrs as [|addr rest IH]; intros e n Hown; simpl.
  { eapply wp_mono; [by apply owns_close|]. intros [] ? ?; done. }
  apply wp_bind, harmless_wp.
  { repeat case_match; auto using harmless_ret, harmless_HostKeyAlgorithmsFor. }
  intros algos n1 Ho Hn. assert (Hown1 : owns n0 js n1) by (by eapply owns_same).
  apply wp_bind, wp_try. eapply wp_mono; [eapply opens_owned, Hown1; apply opens_dialThrough|].
  intros [c|e'|p] n' Hn'; [apply wp_ret; by set_solver| |done].
  eapply wp_mono; [by apply IH|]. intros [r|?|?] n2; [|done|done]. set_solver.
Qed.

Lemma opens_dialFinal m spec :
  opens (λ r : rid * list rid * string, r.1.2 ++ [r.1.1]) (dialFinal PKH m spec).
Proof.
  intros n Hwf. unfold dialFinal. apply wp_bind, wp_of_sum_err.
  2:{ intros. split_and!; [done|lia|done]. }
  intros addrs _. apply wp_bind. eapply wp_mono; [by apply opens_Build|].
  intros [[ms cl]|e|p] n1; [|done|done]. simpl. intros (Hwf1 & Hle1 & Ho1 & _ & Hr1).
  apply (opens_finally (λ r : rid * list rid * string, r.1.2 ++ [r.1.1]));
    [done|done|done|done|done|].
  intros n2 Hwf2. apply wp_bind. quiet_step.
  2:{ split_and!; [by eapply net_wf_same|by rewrite Hnext|done]. }
  assert (Hown : owns n2 [] n0) by (eapply owns_same, owns_nil; done).
  apply wp_bind. eapply wp_mono; [by apply dialJumpChain_owned|].
  intros [js|e|p] n3 Hn3; [| |done].
  - apply wp_bind. eapply wp_mono; [by apply dialAddrs_owned|].
    intros [[c addr]|e|p] n4; [| |done].
    + intros [(?&?&?&?&?) _]. by apply wp_ret.
    + intros (?&?&Ho&_). split_and!; [done|done|]. rewrite Ho. set_solver.
  - destruct Hn3 as (?&?&Ho&_). split_and!; [done|done|]. rewrite Ho. set_solver.
Qed.
End resources.

(** ** Normalisation facts *)
Lemma tok_colon_front t x :
  t ≠ "" → tok sp2 sp3 t = false → tok sp2 sp3 (t +:+ String colon x)%string = false.
Proof.
  assert (sp1 colon = false) as Hc by done.
  assert (∀ a, sp2 a colon = false) as H2.
  { intros a. unfold sp2. apply bool_decide_false. intros [_ [H|H]]; by vm_compute in H. }
  assert (∀ a b, sp3 a b colon = false) as H3.
  { intros a b. unfold sp3. apply bool_decide_false.
    intros [(_&_&H)|[(_&_&[H|H])|[(_&_&H)|(_&_&H)]]]; vm_compute in H; naive_solver. }
  assert (∀ a c, sp3 a colon c = false) as H3'.
  { intros a c. unfold sp3. apply bool_decide_false.
    intros [(_&H&_)|[(_&H&_)|[(_&H&_)|(_&H&_)]]]; by vm_compute in H. }
  destruct t as [|a [|b [|c t]]]; intros Hne Ht; simpl in *; [done| | |done].
  - destruct (sp1 a); [done|]. simpl in *. rewrite H2. simpl. destruct x; [done|]. apply H3'.
  - destruct (sp1 a); [done|]. simpl in *. destruct (sp2 a b); [done|]. simpl. apply H3.
Qed.

Lemma trim_right_22 s : trim_right (s +:+ ":22")%string = (s +:+ ":22")%string.
Proof.
  unfold trim_right. rewrite trim_l_id; [by rewrite rev_rev_str|].
  rewrite rev_app_str. change (String.rev ":22") with "22:". reflexivity.
Qed.

Lemma TrimSpace_Join22 t :
  t ≠ "" → TrimSpace t = t → TrimSpace (JoinHostPort t "22") = JoinHostPort t "22".
Proof.
  intros Hne Ht. assert (Hf := TrimSpace_front t Ht). unfold JoinHostPort.
  destruct (In_str colon t).
  - unfold TrimSpace, trim_left. rewrite trim_l_id.
    + change (String lbrack (t +:+ String rbrack (String colon "22"))%string)
        with ((String lbrack t +:+ (String rbrack "" +:+ ":22"))%string).
      rewrite <- app_assoc_str. apply trim_right_22.
    + simpl. by destruct t as [|? [|]].
  - unfold TrimSpace, trim_left. rewrite trim_l_id by (by apply tok_colon_front).
    apply (trim_right_22 t).
Qed.

(** An address the code can take apart again: it already has a port, or it has
    no brackets of its own. *)
Definition plain_addr (a : string) : Prop :=
  (∃ hp, SplitHostPort (TrimSpace a) = inr hp) ∨
  (In_str lbrack (TrimSpace a) = false ∧ In_str rbrack (TrimSpace a) = false).

Lemma normalizeLoop_fix l :
  (∀ a, a ∈ l → TrimSpace a = a ∧ a ≠ "" ∧ ∃ hp, SplitHostPort a = inr hp) →
  normalizeLoop l = l.
Proof.
  induction l as [|a l IH]; intros H; simpl; [done|].
  destruct (H a) as (-> & Hne & hp & ->); [apply list_elem_of_here|].
  rewrite decide_False by done. rewrite IH; [done|].
  intros b Hb. apply H. by apply list_elem_of_further.
Qed.

(** One attempt, and the loop of attempts, when the host key is not checked. *)
Lemma dialThrough_direct {E : Env} addr cfg n :
  dialThrough [] addr cfg n =
  match env _ (n_tick n) (SshDial "tcp" addr cfg) with
  | inl e => (Err e, mkNet (S (n_tick n)) (n_next n) (n_open n))
  | inr _ => (Ret (n_next n), mkNet (S (n_tick n)) (Pos.succ (n_next n)) ({[n_next n]} ∪ n_open n))
  end.
Proof. destruct n. cbv -[env union singleton Pos.succ]. by destruct (env _ _ _) as [|[]]. Qed.

Lemma dialAddrs_insecure {E : Env} PKH spec ms hk t l e n :
  Insecure spec = true →
  let cfg := mkClientConfig (User spec) ms hk t [] in
  let answers k a r := env _ (n_tick n + k)%nat (SshDial "tcp" a cfg) = r in
  let o := (dialAddrs PKH spec ms hk t [] l e n).1 in
  (∃ k addr, l !! k = Some addr ∧
     (∀ j a, (j < k)%nat → l !! j = Some a → ∃ e, answers j a (inl e)) ∧
     answers k addr (inr tt) ∧ o = Ret (n_next n, addr)) ∨
  ((∀ j a, l !! j = Some a → ∃ e, answers j a (inl e)) ∧
   ∃ e, o = Err (Wrap "all addresses failed: %w" [] e)).
Proof.
  intros Hins. revert e n. induction l as [|a l IH]; intros e n cfg answers o.
  { right. split; [done|]. by exists e. }
  pose proof (dialThrough_direct a cfg n) as Hd.
  destruct (env () (n_tick n) (SshDial "tcp" a cfg)) as [e'|[]] eqn:Henv.
  - set (n1 := mkNet (S (n_tick n)) (n_next n) (n_open n)) in *.
    assert (o = (dialAddrs PKH spec ms hk t [] l e' n1).1) as ->.
    { subst o. unfold cfg in Hd. simpl. rewrite Hins. unfold mbind, M_bind, try, mret, M_ret. by rewrite Hd. }
    specialize (IH e' n1). simpl in IH.
    assert (Hhead : ∃ e, answers 0%nat a (inl e))
      by (exists e'; subst answers; simpl; by rewrite Nat.add_0_r).
    assert (Hshift : ∀ j a' r, env () (S (n_tick n + j)) (SshDial "tcp" a' cfg) = r → answers (S j) a' r)
      by (intros j a' r <-; subst answers; simpl; by rewrite <- plus_n_Sm).
    destruct IH as [(k & addr & Hk & Hpre & Hok & Hr)|[Hall Herr]].
    + left. exists (S k), addr. split_and!; [done| |by apply Hshift|done].
      intros [|j] a' Hj Ha'; [by injection Ha' as <-|].
      destruct (Hpre j a') as [e0 He0]; [lia|done|]. exists e0. by apply Hshift.
    + right. split; [|exact Herr]. intros [|j] a' Ha'; [by injection Ha' as <-|].
      destruct (Hall j a' Ha') as [e0 He0]. exists e0. by apply Hshift.
  - left. exists 0%nat, a. split_and!; [done| | |]; [intros; lia|subst answers; simpl; by rewrite Nat.add_0_r|].
    subst o. unfold cfg in Hd. simpl. rewrite Hins. unfold mbind, M_bind, try, mret, M_ret. by rewrite Hd.
Qed.

(** ** Properties *)

(** C3: dialing leaks nothing.  Whatever the environment answers, a failed dial
    leaves exactly the resources that were open before (agent sockets and jump
    clients included), a successful one adds exactly the returned client and its
    jump clients, all new and distinct, and the address it returns is one of the
    normalised addresses of the spec; the dial never panics. *)
Theorem dialFinal_no_leak {E : Env} PKH m spec n (Hwf : net_wf n) :
  match dialFinal PKH m spec n with
  | (Ret (client, jumps, addr), n') =>
    n_open n' = list_to_set (jumps ++ [client]) ∪ n_open n ∧
    NoDup (jumps ++ [client]) ∧ (∀ r, r ∈ jumps ++ [client] → r ∉ n_open n) ∧
    net_wf n'
  | (Err _, n') => n_open n' = n_open n ∧ net_wf n'
  | (Panic _, _) => False
  end.
Proof.
  pose proof (opens_dialFinal PKH m spec n Hwf) as H. unfold wp in H.
  destruct (dialFinal PKH m spec n) as [[[[c js] addr]|e|p] n']; simpl in H;
    destruct H as (Hwf' & _ & H); [|done|done].
  destruct H as (Ho & Hnd & Hr). split_and!; [done|done| |done].
  intros r Hin. apply wf_next_fresh; [done|]. apply Hr in Hin. lia.
Qed.

(** An environment where only [10.0.0.2:22] answers. *)
Definition env_second : Env := λ T _ c,
  match c with
  | SshDial _ addr _ => if decide (addr = "10.0.0.2:22") then inr tt else inl (Msg "refused")
  | _ => inl (Msg "unreachable")
  end.
Definition auth_pw : AuthSpec := mkAuthSpec "" "" false "" "pw".
Definition spec_two : ConnectSpec :=
  mkConnectSpec "root" (Some 1%positive) None auth_pw "" true 0 0 false false false false.
Definition mem_two : Mem := mkMem {[1%positive := ["10.0.0.1"; " 10.0.0.2 "]]} ∅ 2%positive.

Lemma dialFinal_no_leak_witness :
  match @dialFinal env_second (λ _, None) mem_two spec_two net0 with
  | (Ret (client, jumps, addr), n') => addr = "10.0.0.2:22" ∧ client ∉ n_open net0
  | _ => False
  end.
Proof.
  assert (Hwf : net_wf net0) by (intros r Hr; by apply elem_of_empty in Hr).
  pose proof (@dialFinal_no_leak env_second (λ _, None) mem_two spec_two net0 Hwf) as H.
  vm_compute in H. vm_compute. split; [done|]. intros Hr. destruct H as (_ & _ & H & _).
  eapply H; [|exact Hr]. apply list_elem_of_here.
Defined.

(** A spec with a password, no jump hosts and [insecure] set is dialed at the
    first of its normalised addresses that answers: every earlier address was
    tried, in order, and refused; if none answers the dial fails, with the error
    of the last attempt wrapped. *)
Theorem dialFinal_first_reachable {E : Env} PKH m spec n addrs
    (Haddrs : normalizeAddrs (addrs_at m (Addresses spec)) = inr addrs)
    (Hjumps : jumps_at m (JumpHosts spec) = [])
    (Hauth : UseAgent (Auth spec) = false ∧ KeyPath (Auth spec) = "" ∧ Password (Auth spec) ≠ "")
    (Hins : Insecure spec = true) :
  let cfg := mkClientConfig (User spec) [PasswordAuth (Password (Auth spec))] InsecureIgnoreHostKey
               (if decide (Timeout spec = 0) then 15 * second else Timeout spec) [] in
  let refused k addr := ∃ e, env _ (n_tick n + k)%nat (SshDial "tcp" addr cfg) = inl e in
  (∃ k addr, addrs !! k = Some addr ∧
     (∀ j a, (j < k)%nat → addrs !! j = Some a → refused j a) ∧
     env _ (n_tick n + k)%nat (SshDial "tcp" addr cfg) = inr tt ∧
     (dialFinal PKH m spec n).1 = Ret (n_next n, [], addr)) ∨
  ((∀ j a, addrs !! j = Some a → refused j a) ∧
   ∃ e, (dialFinal PKH m spec n).1 = Err (Wrap "all addresses failed: %w" [] e)).
Proof.
  intros cfg refused. destruct Hauth as (HA & HK & HP).
  pose proof (dialAddrs_insecure PKH spec (cfg_Auth cfg) InsecureIgnoreHostKey (cfg_Timeout cfg)
    addrs (Msg "nil") n Hins) as Hrun. cbv zeta in Hrun.
  unfold dialFinal. rewrite Haddrs, Hjumps. unfold Build, Build_agent, Build_keys, HostKeyCallback.
  rewrite HA, HK, Hins. unfold finally, try, mbind, M_bind, mret, M_ret; simpl.
  rewrite (decide_False (P := Password _ = "")) by done. simpl in *.
  destruct Hrun as [(k & addr & Hk & Hpre & Hok & Hr)|[Hall [e Hr]]].
  - left. exists k, addr. split_and!; [done..|]. destruct (dialAddrs _ _ _ _ _ _ _ _ _) as [o n'].
    simpl in Hr. by rewrite Hr.
  - right. split; [done|]. exists e. destruct (dialAddrs _ _ _ _ _ _ _ _ _) as [o n'].
    simpl in Hr. by rewrite Hr.
Qed.

Lemma dialFinal_first_reachable_witness :
  ∃ k addr, ["10.0.0.1:22"; "10.0.0.2:22"] !! k = Some addr ∧ k = 1%nat ∧
    (@dialFinal env_second (λ _, None) mem_two spec_two net0).1 = Ret (1%positive, [], addr).
Proof.
  destruct (@dialFinal_first_reachable env_second (λ _, None) mem_two spec_two net0
    ["10.0.0.1:22"; "10.0.0.2:22"]) as [(k & addr & Hk & _ & Hok & Hr)|[Hall _]];
    [vm_compute; reflexivity|vm_compute; reflexivity|by split_and!|done| |].
  - exists k, addr. split_and!; [done| |exact Hr].
    destruct k as [|[|k]]; [|done|done]. injection Hk as <-. by vm_compute in Hok.
  - destruct (Hall 1%nat "10.0.0.2:22" eq_refl) as [e He]. by vm_compute in He.
Defined.

(** Address normalisation is a fixed point: normalising the addresses it
    produced changes nothing, and each of them splits into a host and a port. *)
Theorem normalizeAddrs_idempotent addrs out
    (Hplain : ∀ a, a ∈ addrs → plain_addr a) (Hout : normalizeAddrs addrs = inr out) :
  normalizeAddrs out = inr out ∧ (∀ a, a ∈ out → ∃ hp, SplitHostPort a = inr hp).
Proof.
  assert (Hout' : out ≠ [] ∧ out = normalizeLoop addrs).
  { destruct addrs; [done|]. unfold normalizeAddrs in Hout.
    destruct (normalizeLoop _) eqn:En; [done|]. by injection Hout as <-. }
  destruct Hout' as [Hne Heq].
  assert (Hall : ∀ a, a ∈ out → TrimSpace a = a ∧ a ≠ "" ∧ ∃ hp, SplitHostPort a = inr hp).
  { intros a Ha. rewrite Heq in Ha. apply normalizeLoop_in in Ha as (x & Hx & Hxne & Hcase).
    assert (Hid := TrimSpace_idem x).
    destruct (SplitHostPort (TrimSpace x)) as [e|hp] eqn:Hs; subst a; [|by eauto].
    destruct (Hplain x Hx) as [[? ?]|[Hl Hr]]; [congruence|].
    split_and!; [by apply TrimSpace_Join22| |].
    - unfold JoinHostPort. destruct (In_str colon _); [done|]. by destruct (TrimSpace x).
    - exists (TrimSpace x, "22"). by apply Split_JoinHostPort. }
  split; [|naive_solver]. unfold normalizeAddrs.
  rewrite (normalizeLoop_fix out) by done. by destruct out.
Qed.

Lemma normalizeAddrs_idempotent_witness :
  normalizeAddrs [" host "; ""; "::1"; "[fe80::1]:2222"] =
    inr ["host:22"; "[::1]:22"; "[fe80::1]:2222"] ∧
  normalizeAddrs ["host:22"; "[::1]:22"; "[fe80::1]:2222"] =
    inr ["host:22"; "[::1]:22"; "[fe80::1]:2222"].
Proof.
  split; [by vm_compute|].
  apply (normalizeAddrs_idempotent [" host "; ""; "::1"; "[fe80::1]:2222"]); [|by vm_compute].
  intros a Ha. repeat (apply elem_of_cons in Ha as [->|Ha]); [right; by vm_compute..| |].
  - left. exists ("fe80::1", "2222"). by vm_compute.
  - by apply elem_of_nil in Ha.
Defined.

(** A bracketed IPv6 address without a port is outside [plain_addr]: the code
    brackets it a second time and the result has no host part at all. *)
Lemma normalizeAddrs_bracketed :
  normalizeAddrs ["[::1]"] = inr ["[[::1]]:22"] ∧
  SplitHostPort "[[::1]]:22" = inl (AddrError "missing port in address" "[[::1]]:22").
Proof. by vm_compute. Qed.
