(* ===== verification/World.v ===== *)
(** * The state of the SSH side of the daemon (internal/sshx)

    A heap of [Session], [Forward] and [Shell] objects (the structs of
    session.go, forward.go and shell.go), the manager's [sessions] map, and the
    goroutines that were started: accept loops and keepalive loops.  Objects that
    several maps or goroutines share are named by their location [loc], so two
    names for one session are the same session.

    [own] reads off which open resources an object is responsible for.  The
    invariant [winv w T] says that every resource that is open belongs to exactly
    one object, or to the running call, which holds [T]. *)

From S2P Require Import Prelude External Spec Auth.

Inductive SessionState := StateConnecting | StateConnected | StateReconnecting | StateDisconnected.
#[export] Instance SessionState_eq_dec : EqDecision SessionState.
Proof. solve_decision. Defined.
Definition SessionState_string (s : SessionState) : string :=
  match s with
  | StateConnecting => "connecting"
  | StateConnected => "connected"
  | StateReconnecting => "reconnecting"
  | StateDisconnected => "disconnected"
  end.

Record Session := mkSession {
  s_ID : string;
  s_Spec : ConnectSpec;
  client : option rid;
  jumpClients : list rid;
  activeAddr : string;
  state : SessionState;
  lastError : option error;       (* [None] is the empty string *)
  connectedAt : Z;
  forwards : gmap string loc;
  shells : gmap string loc;
  sftp : option rid;
  agentForwardOn : bool;
  agentForwardConn : option rid;
  reconnectMu : bool;
  keepaliveCancel : option loc;
  closed : bool;
}.
Definition eta_Session s := mkSession (s_ID s) (s_Spec s) (client s) (jumpClients s) (activeAddr s)
  (state s) (lastError s) (connectedAt s) (forwards s) (shells s) (sftp s) (agentForwardOn s)
  (agentForwardConn s) (reconnectMu s) (keepaliveCancel s) (closed s).
#[export] Instance upd_s_Spec : Setter s_Spec. Proof. mk_setter eta_Session. Defined.
#[export] Instance upd_client : Setter client. Proof. mk_setter eta_Session. Defined.
#[export] Instance upd_jumpClients : Setter jumpClients. Proof. mk_setter eta_Session. Defined.
#[export] Instance upd_activeAddr : Setter activeAddr. Proof. mk_setter eta_Session. Defined.
#[export] Instance upd_state : Setter state. Proof. mk_setter eta_Session. Defined.
#[export] Instance upd_lastError : Setter lastError. Proof. mk_setter eta_Session. Defined.
#[export] Instance upd_connectedAt : Setter connectedAt. Proof. mk_setter eta_Session. Defined.
#[export] Instance upd_forwards : Setter forwards. Proof. mk_setter eta_Session. Defined.
#[export] Instance upd_shells : Setter shells. Proof. mk_setter eta_Session. Defined.
#[export] Instance upd_sftp : Setter sftp. Proof. mk_setter eta_Session. Defined.
#[export] Instance upd_agentForwardOn : Setter agentForwardOn. Proof. mk_setter eta_Session. Defined.
#[export] Instance upd_agentForwardConn : Setter agentForwardConn. Proof. mk_setter eta_Session. Defined.
#[export] Instance upd_reconnectMu : Setter reconnectMu. Proof. mk_setter eta_Session. Defined.
#[export] Instance upd_keepaliveCancel : Setter keepaliveCancel. Proof. mk_setter eta_Session. Defined.
#[export] Instance upd_closed : Setter closed. Proof. mk_setter eta_Session. Defined.

Record LocalSpec := mkLocalSpec {
  l_BindAddr : string; l_BindPort : Z; l_RemoteHost : string; l_RemotePort : Z }.
Record RemoteSpec := mkRemoteSpec {
  r_BindAddr : string; r_BindPort : Z; r_LocalHost : string; r_LocalPort : Z }.
Record DynamicSpec := mkDynamicSpec { dy_BindAddr : string; dy_BindPort : Z }.

(** [Kind] with the one spec pointer that is set for it. *)
Inductive ForwardSpec :=
  | ForwardLocal (s : LocalSpec)
  | ForwardRemote (s : RemoteSpec)
  | ForwardDynamic (s : DynamicSpec).
#[export] Instance LocalSpec_eq_dec : EqDecision LocalSpec. Proof. solve_decision. Defined.
#[export] Instance RemoteSpec_eq_dec : EqDecision RemoteSpec. Proof. solve_decision. Defined.
#[export] Instance DynamicSpec_eq_dec : EqDecision DynamicSpec. Proof. solve_decision. Defined.
#[export] Instance ForwardSpec_eq_dec : EqDecision ForwardSpec. Proof. solve_decision. Defined.

Record Forward := mkForward {
  f_ID : string;
  f_SessionID : string;
  f_Spec : ForwardSpec;
  f_session : loc;
  f_listener : option rid;
  f_bindPort : Z;
  f_closed : bool;
  f_conns : Z;
}.
Definition eta_Forward f := mkForward (f_ID f) (f_SessionID f) (f_Spec f) (f_session f)
  (f_listener f) (f_bindPort f) (f_closed f) (f_conns f).
#[export] Instance upd_f_listener : Setter f_listener. Proof. mk_setter eta_Forward. Defined.
#[export] Instance upd_f_bindPort : Setter f_bindPort. Proof. mk_setter eta_Forward. Defined.
#[export] Instance upd_f_closed : Setter f_closed. Proof. mk_setter eta_Forward. Defined.
#[export] Instance upd_f_conns : Setter f_conns. Proof. mk_setter eta_Forward. Defined.

Record Shell := mkShell {
  sh_ID : string;
  sh_SessionID : string;
  sh_parent : loc;
  sh_session : rid;               (* the SSH channel *)
  sh_buffer : bytes;
  sh_maxBuf : Z;
  sh_wake : bool;                 (* a token in [wakeCh], capacity 1 *)
  sh_closed : bool;
  sh_done : bool;                 (* [doneCh] is closed *)
  sh_OpenedAt : Z;
}.
Definition eta_Shell s := mkShell (sh_ID s) (sh_SessionID s) (sh_parent s) (sh_session s)
  (sh_buffer s) (sh_maxBuf s) (sh_wake s) (sh_closed s) (sh_done s) (sh_OpenedAt s).
#[export] Instance upd_sh_buffer : Setter sh_buffer. Proof. mk_setter eta_Shell. Defined.
#[export] Instance upd_sh_wake : Setter sh_wake. Proof. mk_setter eta_Shell. Defined.
#[export] Instance upd_sh_closed : Setter sh_closed. Proof. mk_setter eta_Shell. Defined.
#[export] Instance upd_sh_done : Setter sh_done. Proof. mk_setter eta_Shell. Defined.

Record World := mkWorld {
  w_net : Net;
  w_mem : Mem;
  sessions : gmap string loc;              (* Manager.sessions *)
  w_sess : gmap loc Session;
  w_fwd : gmap loc Forward;
  w_shl : gmap loc Shell;
  w_next : loc;                            (* the next object *)
  w_accept : gmap rid loc;                 (* accept loops: listener, forward *)
  w_keepalive : gmap loc (loc * Z);        (* keepalive loops: context, session and interval *)
  w_cancelled : gset loc;                  (* cancelled contexts *)
}.
Definition eta_World w := mkWorld (w_net w) (w_mem w) (sessions w) (w_sess w) (w_fwd w) (w_shl w)
  (w_next w) (w_accept w) (w_keepalive w) (w_cancelled w).
#[export] Instance upd_w_net : Setter w_net. Proof. mk_setter eta_World. Defined.
#[export] Instance upd_w_mem : Setter w_mem. Proof. mk_setter eta_World. Defined.
#[export] Instance upd_sessions : Setter sessions. Proof. mk_setter eta_World. Defined.
#[export] Instance upd_w_sess : Setter w_sess. Proof. mk_setter eta_World. Defined.
#[export] Instance upd_w_fwd : Setter w_fwd. Proof. mk_setter eta_World. Defined.
#[export] Instance upd_w_shl : Setter w_shl. Proof. mk_setter eta_World. Defined.
#[export] Instance upd_w_next : Setter w_next. Proof. mk_setter eta_World. Defined.
#[export] Instance upd_w_accept : Setter w_accept. Proof. mk_setter eta_World. Defined.
#[export] Instance upd_w_keepalive : Setter w_keepalive. Proof. mk_setter eta_World. Defined.
#[export] Instance upd_w_cancelled : Setter w_cancelled. Proof. mk_setter eta_World. Defined.

Definition world0 : World := mkWorld net0 mem0 ∅ ∅ ∅ ∅ 1%positive ∅ ∅ ∅.

(** ** Access to the heap *)
Definition nil_deref : string := "nil pointer dereference".
Definition netM {A} (m : M Net A) : M World A := zoom w_net (λ n w, w <| w_net := n |>) m.

Definition sess_at (l : loc) : M World Session := λ w,
  match w_sess w !! l with Some s => (Ret s, w) | None => (Panic nil_deref, w) end.
Definition upd_sess (l : loc) (f : Session → Session) : M World unit :=
  modify (λ w, w <| w_sess ::= alter f l |>).
Definition fwd_at (l : loc) : M World Forward := λ w,
  match w_fwd w !! l with Some s => (Ret s, w) | None => (Panic nil_deref, w) end.
Definition upd_fwd (l : loc) (f : Forward → Forward) : M World unit :=
  modify (λ w, w <| w_fwd ::= alter f l |>).
Definition shl_at (l : loc) : M World Shell := λ w,
  match w_shl w !! l with Some s => (Ret s, w) | None => (Panic nil_deref, w) end.
Definition upd_shl (l : loc) (f : Shell → Shell) : M World unit :=
  modify (λ w, w <| w_shl ::= alter f l |>).

Definition new_sess (s : Session) : M World loc :=
  l ← gets w_next; modify (λ w, w <| w_sess ::= <[l := s]> |> <| w_next ::= Pos.succ |>);; mret l.
Definition new_fwd (f : Forward) : M World loc :=
  l ← gets w_next; modify (λ w, w <| w_fwd ::= <[l := f]> |> <| w_next ::= Pos.succ |>);; mret l.
Definition new_shl (s : Shell) : M World loc :=
  l ← gets w_next; modify (λ w, w <| w_shl ::= <[l := s]> |> <| w_next ::= Pos.succ |>);; mret l.

Definition close_opt (o : option rid) : M World unit :=
  match o with Some r => netM (closeR r) | None => mret tt end.

(** [time.Now()]: it cannot fail. *)
Definition now {E : Env} : M Net Z :=
  r ← try (call Now); mret (match r with inr t => t | inl _ => 0 end).

(** ** Ownership *)
Definition own_sess (s : Session) : list rid :=
  option_list (client s) ++ jumpClients s ++ option_list (sftp s) ++ option_list (agentForwardConn s).
Definition own_fwd (f : Forward) : list rid :=
  if f_closed f then [] else option_list (f_listener f).
Definition own_shl (s : Shell) : list rid :=
  if sh_closed s then [] else [sh_session s].

(** The resources held by the objects of a heap. *)
Definition held {A} (res : A → list rid) (m : gmap loc A) : list rid :=
  (map_to_list m).*2 ≫= res.

Lemma held_lookup {A} (res : A → list rid) m l a :
  m !! l = Some a → held res m ≡ₚ res a ++ held res (delete l m).
Proof.
  intros Hl. unfold held. rewrite <- (insert_delete_id m l a) at 1 by done.
  rewrite map_to_list_insert by (by rewrite lookup_delete_eq). done.
Qed.
Lemma held_alter {A} (res : A → list rid) m l a g :
  m !! l = Some a → held res (alter g l m) ≡ₚ res (g a) ++ held res (delete l m).
Proof.
  intros Hl. rewrite (held_lookup res (alter g l m) l (g a)).
  - by rewrite delete_alter_eq.
  - by rewrite lookup_alter_eq, Hl.
Qed.
Lemma held_insert {A} (res : A → list rid) m l a :
  m !! l = None → held res (<[l := a]> m) ≡ₚ res a ++ held res m.
Proof.
  intros Hl. rewrite (held_lookup res _ l a) by (by rewrite lookup_insert_eq).
  by rewrite delete_insert_id.
Qed.
Lemma held_empty {A} (res : A → list rid) : held res ∅ = [].
Proof. unfold held. by rewrite map_to_list_empty. Qed.
Lemma held_nil {A} (res : A → list rid) m :
  (∀ l a, m !! l = Some a → res a = []) → held res m = [].
Proof.
  intros H. unfold held.
  assert (Hall : ∀ a, a ∈ (map_to_list m).*2 → res a = []).
  { intros a Ha. apply list_elem_of_fmap in Ha as ([l b] & -> & Hb).
    apply elem_of_map_to_list in Hb. by apply (H l). }
  induction (map_to_list m).*2 as [|a l IH]; simpl; [done|].
  rewrite (Hall a) by apply list_elem_of_here. simpl. apply IH.
  intros b Hb. by apply Hall, list_elem_of_further.
Qed.

(** Everything held: [T] by the running call, the rest by objects. *)
Definition owned (w : World) (T : list rid) : list rid :=
  T ++ held own_sess (w_sess w) ++ held own_fwd (w_fwd w) ++ held own_shl (w_shl w).

Record winv (w : World) (T : list rid) : Prop := {
  wi_net : net_wf (w_net w);
  wi_nodup : NoDup (owned w T);
  wi_open : n_open (w_net w) = list_to_set (owned w T);
}.

(** What ties the objects together, apart from the sessions [xs] that the running
    call is in the middle of changing.
    - the maps point at objects of the heap that point back;
    - a forward or a shell that holds something is listed by its session;
    - a session that is not open and listed by the manager holds nothing, lists
      nothing, and has no keepalive loop to cancel;
    - a keepalive loop whose context is not cancelled can be cancelled by its session;
    - keepalive intervals are not negative ([Duration.UnmarshalJSON]). *)
Definition emptied (s : Session) : Prop :=
  own_sess s = [] ∧ forwards s = ∅ ∧ shells s = ∅ ∧ keepaliveCancel s = None.
Definition sess_ok (xs : gset loc) (w : World) : Prop := ∀ l s, w_sess w !! l = Some s →
  (l < w_next w)%positive ∧ 0 ≤ Keepalive (s_Spec s) ∧
  (l ∈ xs ∨ (closed s = false ∧ ∃ id, sessions w !! id = Some l) ∨
   (emptied s ∧ ∀ id, sessions w !! id ≠ Some l)).
Definition reg_ok (w : World) : Prop := ∀ id l, sessions w !! id = Some l →
  ∃ s, w_sess w !! l = Some s ∧ s_ID s = id.
Definition fwd_ok (w : World) : Prop := ∀ f F, w_fwd w !! f = Some F →
  (f < w_next w)%positive ∧
  (f_closed F = true ∨
   ∃ s, w_sess w !! f_session F = Some s ∧ forwards s !! f_ID F = Some f).
Definition fwds_ok (w : World) : Prop := ∀ l s id f, w_sess w !! l = Some s → forwards s !! id = Some f →
  ∃ F, w_fwd w !! f = Some F ∧ f_session F = l ∧ f_ID F = id.
Definition shl_ok (w : World) : Prop := ∀ h H, w_shl w !! h = Some H →
  (h < w_next w)%positive ∧
  (sh_closed H = true ∨
   ∃ s, w_sess w !! sh_parent H = Some s ∧ shells s !! sh_ID H = Some h).
Definition shls_ok (w : World) : Prop := ∀ l s id h, w_sess w !! l = Some s → shells s !! id = Some h →
  ∃ H, w_shl w !! h = Some H ∧ sh_parent H = l ∧ sh_ID H = id.
Definition keep_ok (w : World) : Prop := ∀ c l i, w_keepalive w !! c = Some (l, i) →
  (c < w_next w)%positive ∧
  (c ∈ w_cancelled w ∨ ∃ s, w_sess w !! l = Some s ∧ keepaliveCancel s = Some c).

Definition links (xs : gset loc) (w : World) : Prop :=
  sess_ok xs w ∧ reg_ok w ∧ fwd_ok w ∧ fwds_ok w ∧ shl_ok w ∧ shls_ok w ∧ keep_ok w.

(** Between two calls of the manager. *)
Definition sys (w : World) : Prop := winv w [] ∧ links ∅ w.

(** ** Moving resources *)
Lemma winv_perm w T T' : T ≡ₚ T' → winv w T → winv w T'.
Proof.
  intros HT [Hn Hd Ho]. assert (owned w T ≡ₚ owned w T') as Hp by (unfold owned; by rewrite HT).
  split; [done|by rewrite <- Hp|]. rewrite Ho. apply set_eq. intros r.
  rewrite !elem_of_list_to_set. by rewrite Hp.
Qed.

(** A change of the heap that leaves the resources open and moves them between
    the objects and the running call. *)
Lemma winv_move w w' T T' :
  w_net w' = w_net w → owned w' T' ≡ₚ owned w T → winv w T → winv w' T'.
Proof.
  intros Hnet Hp [Hn Hd Ho]. split; [by rewrite Hnet|by rewrite Hp|].
  rewrite Hnet, Ho. apply set_eq. intros r. rewrite !elem_of_list_to_set. by rewrite Hp.
Qed.

Lemma winv_sess w T T' l s g :
  w_sess w !! l = Some s → own_sess (g s) ++ T' ≡ₚ own_sess s ++ T →
  winv w T → winv (w <| w_sess ::= alter g l |>) T'.
Proof.
  intros Hl Hp. apply winv_move; [done|]. unfold owned; simpl.
  rewrite (held_alter own_sess _ _ _ g Hl), (held_lookup own_sess _ _ _ Hl).
  rewrite !(assoc_L (++)). by rewrite (comm (++) T'), (comm (++) T), Hp.
Qed.
Lemma winv_fwd w T T' l s g :
  w_fwd w !! l = Some s → own_fwd (g s) ++ T' ≡ₚ own_fwd s ++ T →
  winv w T → winv (w <| w_fwd ::= alter g l |>) T'.
Proof.
  intros Hl Hp. apply winv_move; [done|]. unfold owned; simpl.
  rewrite (held_alter own_fwd _ _ _ g Hl), (held_lookup own_fwd _ _ _ Hl).
  trans (own_fwd (g s) ++ T' ++ held own_sess (w_sess w) ++
         held own_fwd (delete l (w_fwd w)) ++ held own_shl (w_shl w)).
  { solve_Permutation. }
  rewrite (assoc_L (++) (own_fwd (g s))), Hp. solve_Permutation.
Qed.
Lemma winv_shl w T T' l s g :
  w_shl w !! l = Some s → own_shl (g s) ++ T' ≡ₚ own_shl s ++ T →
  winv w T → winv (w <| w_shl ::= alter g l |>) T'.
Proof.
  intros Hl Hp. apply winv_move; [done|]. unfold owned; simpl.
  rewrite (held_alter own_shl _ _ _ g Hl), (held_lookup own_shl _ _ _ Hl).
  trans (own_shl (g s) ++ T' ++ held own_sess (w_sess w) ++
         held own_fwd (w_fwd w) ++ held own_shl (delete l (w_shl w))).
  { solve_Permutation. }
  rewrite (assoc_L (++) (own_shl (g s))), Hp. solve_Permutation.
Qed.

(** ** Calls of the environment *)
Lemma winv_opens {A} (res : A → list rid) (m : M Net A) w T Q :
  opens res m → winv w T →
  (∀ o n', is_panic o = false →
     winv (w <| w_net := n' |>) (match o with Ret a => res a | _ => [] end ++ T) →
     Q o (w <| w_net := n' |>)) →
  wp (netM m) Q w.
Proof.
  intros Hm [Hn Hd Ho] HQ. unfold netM. apply wp_zoom. eapply wp_mono; [by apply Hm|].
  intros o n' (Hwf' & _ & Hcase). destruct o as [a|e|p]; [| |done].
  - destruct Hcase as (Hopen & Hnd & Hnew). apply HQ; [done|].
    assert (Hfresh : ∀ r, r ∈ res a → r ∉ owned w T).
    { intros r Hr Hin. apply Hnew in Hr as [Hr _]. apply (wf_next_fresh _ r Hn Hr).
      rewrite Ho. by apply elem_of_list_to_set. }
    split; simpl; [done| |].
    + unfold owned. rewrite <- (assoc_L (++)). apply NoDup_app. split_and!; [done| |done].
      intros r Hr Hin. by eapply Hfresh.
    + rewrite Hopen, Ho. unfold owned. simpl. by rewrite <- (assoc_L (++)), !list_to_set_app_L.
  - apply HQ; [done|]. split; [done|done|]. simpl. by rewrite Hcase.
Qed.

Lemma winv_opens_try {A} (res : A → list rid) (m : M Net A) w T Q :
  opens res m → winv w T →
  (∀ r n', winv (w <| w_net := n' |>) (match r with inr a => res a | inl _ => [] end ++ T) →
     Q (Ret r) (w <| w_net := n' |>)) →
  wp (netM (try m)) Q w.
Proof.
  intros Hm Hw HQ.
  assert (H : wp (netM m) (λ o w', match o with
    | Ret a => Q (Ret (inr a)) w' | Err e => Q (Ret (inl e)) w' | Panic p => Q (Panic p) w' end) w).
  { eapply winv_opens; [done..|]. intros [a|e|p] n' Hp Hn; [by apply HQ|by apply HQ|done]. }
  unfold wp, netM, zoom, try in *. by destruct (m (w_net w)) as [[] ?].
Qed.

Lemma winv_quiet {A} (m : M Net A) w T Q :
  quiet m → winv w T →
  (∀ o n', is_panic o = false → winv (w <| w_net := n' |>) T → Q o (w <| w_net := n' |>)) →
  wp (netM m) Q w.
Proof.
  intros Hm Hw HQ. eapply (winv_opens (λ _, [])); [by apply quiet_opens|done|].
  intros o n' Hp Hw'. apply HQ; [done|]. by destruct o.
Qed.

Lemma winv_close_gen w T l :
  winv w (l ++ T) → winv (w <| w_net ::= upd n_open (λ o, o ∖ list_to_set l) |>) T.
Proof.
  intros [Hn Hd Ho]. unfold owned in Hd. rewrite <- (assoc_L (++)) in Hd.
  apply NoDup_app in Hd as (Hl & Hdisj & Hd).
  split; [|done|].
  - intros r. simpl. intros [Hr _]%elem_of_difference. by apply Hn.
  - simpl. rewrite Ho. unfold owned. rewrite <- (assoc_L (++)), list_to_set_app_L.
    apply close_undoes. intros r Hr Hin. apply elem_of_list_to_set in Hin. by eapply Hdisj.
Qed.
Lemma winv_closeAll w T l Q :
  winv w (l ++ T) →
  (∀ n', winv (w <| w_net := n' |>) T → Q (Ret tt) (w <| w_net := n' |>)) →
  wp (netM (closeAllR l)) Q w.
Proof.
  intros Hw HQ. unfold netM. apply wp_zoom, wp_closeAllR, HQ. apply (winv_close_gen w T l Hw).
Qed.
Lemma winv_close w T r Q :
  winv w (r :: T) →
  (∀ n', winv (w <| w_net := n' |>) T → Q (Ret tt) (w <| w_net := n' |>)) →
  wp (netM (closeR r)) Q w.
Proof.
  intros Hw HQ. unfold netM. apply wp_zoom, wp_closeR, HQ.
  replace (n_open (w_net w) ∖ {[r]}) with (n_open (w_net w) ∖ list_to_set [r]) by (simpl; set_solver).
  pose proof (winv_close_gen w T [r] Hw) as H. simpl in H.
  replace ({[r]} ∪ ∅ : gset rid) with ({[r]} : gset rid) in H by set_solver. exact H.
Qed.
Lemma winv_close_opt w T o Q :
  winv w (option_list o ++ T) →
  (∀ n', winv (w <| w_net := n' |>) T → Q (Ret tt) (w <| w_net := n' |>)) →
  wp (close_opt o) Q w.
Proof.
  intros Hw HQ. destruct o as [r|]; simpl in *; [by eapply winv_close|].
  apply wp_ret. specialize (HQ (w_net w)). destruct w. by apply HQ.
Qed.

(** ** Reading the heap *)
Lemma wp_sess_at l s Q w : w_sess w !! l = Some s → Q (Ret s) w → wp (sess_at l) Q w.
Proof. intros H HQ. unfold wp, sess_at. by rewrite H. Qed.
Lemma wp_fwd_at l s Q w : w_fwd w !! l = Some s → Q (Ret s) w → wp (fwd_at l) Q w.
Proof. intros H HQ. unfold wp, fwd_at. by rewrite H. Qed.
Lemma wp_shl_at l s Q w : w_shl w !! l = Some s → Q (Ret s) w → wp (shl_at l) Q w.
Proof. intros H HQ. unfold wp, shl_at. by rewrite H. Qed.

(** An update of a session that leaves its maps alone, and its cancel function
    too unless that was called. *)
Lemma links_sess xs w l s g :
  w_sess w !! l = Some s → links xs w →
  forwards (g s) = forwards s → shells (g s) = shells s → 
  s_Spec (g s) = s_Spec s → s_ID (g s) = s_ID s →
  (keepaliveCancel (g s) = keepaliveCancel s ∨
   l ∈ xs ∧ ∀ c, keepaliveCancel s = Some c → c ∈ w_cancelled w) →
  (l ∈ xs ∨ (closed (g s) = closed s ∧ (own_sess s = [] → own_sess (g s) = []))
   ∨ (closed (g s) = false ∧ ∃ id, sessions w !! id = Some l)) →
  links xs (w <| w_sess ::= alter g l |>).
Proof.
  intros Hl (Hs & Hr & Hf & Hfs & Hh & Hhs & Hk) Ef Eh Esp Eid Ek Hreg.
  assert (Hcase : ∀ l' s', alter g l (w_sess w) !! l' = Some s' →
    (l' = l ∧ s' = g s) ∨ (l' ≠ l ∧ w_sess w !! l' = Some s')).
  { intros l' s'. destruct (decide (l' = l)) as [->|Hne].
    - rewrite lookup_alter_eq, Hl. intros [= <-]. by left.
    - rewrite lookup_alter_ne by done. by right. }
  assert (Hfind : ∀ l' s', w_sess w !! l' = Some s' →
    ∃ s'', alter g l (w_sess w) !! l' = Some s'' ∧ forwards s'' = forwards s' ∧
           shells s'' = shells s' ∧ s_ID s'' = s_ID s').
  { intros l' s' Hl'. destruct (decide (l' = l)) as [->|Hne].
    - rewrite Hl in Hl'. injection Hl' as <-. exists (g s). by rewrite lookup_alter_eq, Hl.
    - exists s'. by rewrite lookup_alter_ne. }
  split_and!; unfold sess_ok, reg_ok, fwd_ok, fwds_ok, shl_ok, shls_ok, keep_ok; simpl.
  - intros l' s' [[-> ->]|[_ Hl']]%Hcase; [|by apply Hs].
    destruct (Hs l s Hl) as (? & ? & Hd). split_and!; [done|by rewrite Esp|].
    destruct Ek as [Ek|[? _]]; [|by left]. unfold emptied. rewrite Ef, Eh, Ek.
    destruct Hreg as [?|[[Ec Eo]|[Hc Hid]]]; [by left| |right; left; done].
    destruct Hd as [?|[[? ?]|[(? & ? & ? & ?) ?]]]; [by left|right; left; by rewrite Ec|].
    right; right. auto.
  - intros id l' Hid. destruct (Hr id l' Hid) as (s' & Hs' & <-).
    destruct (Hfind _ _ Hs') as (s'' & -> & _ & _ & E1). by eexists.
  - intros f F HF. destruct (Hf f F HF) as [? [?|(s' & Hs' & Hin)]]; [by auto|].
    split; [done|]. right. destruct (Hfind _ _ Hs') as (s'' & -> & E1 & _).
    exists s''. by rewrite E1.
  - intros l' s' id f [[-> ->]|[_ Hl']]%Hcase; [rewrite Ef|]; intros; by eapply Hfs.
  - intros h H HH. destruct (Hh h H HH) as [? [?|(s' & Hs' & Hin)]]; [by auto|].
    split; [done|]. right. destruct (Hfind _ _ Hs') as (s'' & -> & _ & E1 & _).
    exists s''. by rewrite E1.
  - intros l' s' id f [[-> ->]|[_ Hl']]%Hcase; [rewrite Eh|]; intros; by eapply Hhs.
  - intros c l' i Hc. destruct (Hk c l' i Hc) as [? [?|(s' & Hs' & Hin)]]; [by auto|].
    split; [done|]. destruct (decide (l' = l)) as [->|Hne].
    + rewrite Hl in Hs'. injection Hs' as <-. destruct Ek as [Ek|[_ Hcan]]; [|by auto].
      right. exists (g s). by rewrite lookup_alter_eq, Hl, Ek.
    + right. exists s'. by rewrite lookup_alter_ne.
Qed.
Lemma links_cancelled xs w C :
  links xs w → links xs (w <| w_cancelled ::= λ x, C ∪ x |>).
Proof.
  intros (Hs & Hr & Hf & Hfs & Hh & Hhs & Hk). split_and!; [done..|].
  intros c l i Hc. destruct (Hk c l i Hc) as [? [?|?]]; [|by auto].
  split; [done|]. left. simpl. set_solver.
Qed.

(** ** A session in the hands of the running call *)

(** The invariant with [T] held by the call, for a session [l] that satisfies [P]
    and is open and listed by the manager, or is one of those being changed. *)
Definition live (xs : gset loc) (T : list rid) (l : loc) (P : Session → Prop) (w : World) : Prop :=
  winv w T ∧ links xs w ∧
  ∃ s, w_sess w !! l = Some s ∧
    (l ∈ xs ∨ (closed s = false ∧ ∃ id, sessions w !! id = Some l)) ∧ P s.

Lemma live_mono xs T l (P P' : Session → Prop) w :
  live xs T l P w → (∀ s, P s → P' s) → live xs T l P' w.
Proof. intros (Hw & Hl & s & Hs & Hc & HP) Hmono. split_and!; [done..|]. exists s. auto. Qed.
Lemma live_perm xs T T' l P w : T ≡ₚ T' → live xs T l P w → live xs T' l P w.
Proof. intros HT (?&?&?). split_and!; [by eapply winv_perm|done..]. Qed.

Lemma live_opens {A} (res : A → list rid) (m : M Net A) xs T l P w Q :
  opens res m → live xs T l P w →
  (∀ o w', is_panic o = false →
     live xs (match o with Ret a => res a | _ => [] end ++ T) l P w' → Q o w') →
  wp (netM m) Q w.
Proof.
  intros Hm (Hw & Hl & Hs) HQ. eapply winv_opens; [done..|].
  intros o n' Hp Hw'. by apply HQ.
Qed.
Lemma live_quiet {A} (m : M Net A) xs T l P w Q :
  quiet m → live xs T l P w →
  (∀ o w', is_panic o = false → live xs T l P w' → Q o w') → wp (netM m) Q w.
Proof.
  intros Hm Hl HQ. eapply (live_opens (λ _, [])); [by apply quiet_opens|done|].
  intros o w' Hp Hl'. apply HQ; [done|]. by destruct o.
Qed.
Lemma live_harmless {A} (m : M Net A) xs T l P w Q :
  harmless m → live xs T l P w → (∀ a w', live xs T l P w' → Q (Ret a) w') → wp (netM m) Q w.
Proof.
  intros Hm (Hw & Hl & Hs) HQ. unfold netM. apply wp_zoom, harmless_wp; [done|].
  intros a n' Ho Hn. apply HQ. split_and!; [|done|done].
  destruct Hw as [? ? Hopen]. split; simpl; [by eapply net_wf_same|done|by rewrite Ho].
Qed.
Lemma live_close r xs T l P w Q :
  live xs (r :: T) l P w → (∀ w', live xs T l P w' → Q (Ret tt) w') → wp (netM (closeR r)) Q w.
Proof. intros (Hw & Hl & Hs) HQ. eapply winv_close; [done|]. intros n' Hn. by apply HQ. Qed.
Lemma live_closeAll rs xs T l P w Q :
  live xs (rs ++ T) l P w → (∀ w', live xs T l P w' → Q (Ret tt) w') → wp (netM (closeAllR rs)) Q w.
Proof. intros (Hw & Hl & Hs) HQ. eapply winv_closeAll; [done|]. intros n' Hn. by apply HQ. Qed.
Lemma live_close_opt o xs T l P w Q :
  live xs (option_list o ++ T) l P w → (∀ w', live xs T l P w' → Q (Ret tt) w') → wp (close_opt o) Q w.
Proof. intros (Hw & Hl & Hs) HQ. eapply winv_close_opt; [done|]. intros n' Hn. by apply HQ. Qed.

Lemma live_at xs T l P w Q :
  live xs T l P w → (∀ s, P s → l ∈ xs ∨ closed s = false → live xs T l (eq s) w → Q (Ret s) w) →
  wp (sess_at l) Q w.
Proof.
  intros (Hw & Hl & s & Hs & Hc & HP) HQ. eapply wp_sess_at; [done|].
  apply HQ; [done|naive_solver|]. split_and!; [done..|]. by exists s.
Qed.

(** Fields of a session that carry no structure. *)
Definition plain (g : Session → Session) : Prop := ∀ s,
  forwards (g s) = forwards s ∧ shells (g s) = shells s ∧
  keepaliveCancel (g s) = keepaliveCancel s ∧ s_Spec (g s) = s_Spec s ∧ closed (g s) = closed s ∧
  s_ID (g s) = s_ID s.

Lemma live_upd g xs T T' l (P P' : Session → Prop) w Q :
  live xs T l P w → plain g →
  (∀ s, P s → own_sess (g s) ++ T' ≡ₚ own_sess s ++ T ∧ P' (g s)) →
  (∀ w', live xs T' l P' w' → Q (Ret tt) w') →
  wp (upd_sess l g) Q w.
Proof.
  intros (Hw & Hl & s & Hs & Hc & HP) Hg Hown HQ. apply wp_modify, HQ.
  destruct (Hg s) as (E1 & E2 & E3 & E4 & E5 & E6). destruct (Hown s HP) as [Ho HP'].
  split_and!; [by eapply winv_sess| |].
  - eapply links_sess; [done..|by left|]. rewrite E5. naive_solver.
  - exists (g s). simpl. rewrite lookup_alter_eq, Hs. by rewrite E5.
Qed.

(** Close a resource that the session still names, then make it forget it. *)
Lemma live_close_upd {B} l g r xs T T' (P P' : Session → Prop) w (k : M World B) Q :
  live xs T l P w → plain g →
  (∀ s, P s → own_sess (g s) ++ r :: T' ≡ₚ own_sess s ++ T ∧ P' (g s)) →
  (∀ w', live xs T' l P' w' → wp k Q w') →
  wp (netM (closeR r);; upd_sess l g;; k) Q w.
Proof.
  intros Hl Hg Hown HQ. apply wp_bind. eapply wp_zoom, wp_closeR. simpl. apply wp_bind.
  assert (Hupd : wp (upd_sess l g) (λ _ w', live xs (r :: T') l P' w') w)
    by (eapply live_upd; eauto).
  assert (Hboth : wp (netM (closeR r)) (λ _ w', live xs T' l P' w') (upd_sess l g w).2)
    by (eapply live_close; [exact Hupd|auto]).
  exact (HQ _ Hboth).
Qed.

(** ** Removing a forward or a shell from its session *)
Lemma links_remove_fwd xs w l s id f :
  w_sess w !! l = Some s → forwards s !! id = Some f → links xs w →
  links xs (w <| w_sess ::= alter (λ s, s <| forwards ::= delete id |>) l |>
              <| w_fwd ::= alter (λ F, F <| f_closed := true |>) f |>).
Proof.
  intros Hl Hid (Hs & Hr & Hf & Hfs & Hh & Hhs & Hk).
  set (g := λ s : Session, s <| forwards ::= delete id |>).
  destruct (Hfs l s id f Hl Hid) as (F0 & HF0 & HF0s & HF0i).
  assert (Hfind : ∀ l' s', w_sess w !! l' = Some s' →
    ∃ s'', alter g l (w_sess w) !! l' = Some s'' ∧
           forwards s'' = (if decide (l' = l) then delete id (forwards s') else forwards s') ∧
           shells s'' = shells s' ∧ keepaliveCancel s'' = keepaliveCancel s' ∧ s_ID s'' = s_ID s').
  { intros l' s' Hl'. destruct (decide (l' = l)) as [->|Hne].
    - exists (g s'). by rewrite lookup_alter_eq, Hl'.
    - exists s'. by rewrite lookup_alter_ne. }
  split_and!; unfold sess_ok, reg_ok, fwd_ok, fwds_ok, shl_ok, shls_ok, keep_ok; simpl.
  - intros l' s' [[-> (s1 & Hs1 & ->)]|[Hne Hl']]%lookup_alter_Some; [|by apply Hs].
    destruct (Hs _ _ Hs1) as (? & ? & Hd). split_and!; [done|done|].
    unfold emptied. simpl. destruct Hd as [?|[[? ?]|[(? & E1 & ? & ?) ?]]]; [by left|by auto|].
    right; right. rewrite E1, delete_empty. naive_solver.
  - intros id' l' Hid'. destruct (Hr id' l' Hid') as (s' & Hs' & <-).
    destruct (Hfind _ _ Hs') as (s'' & -> & _ & _ & _ & E1). by eexists.
  - intros f' F' [[-> (F1 & HF1 & ->)]|[Hne HF']]%lookup_alter_Some.
    { simpl. split; [by destruct (Hf _ _ HF1)|by left]. }
    destruct (Hf f' F' HF') as [? [?|(s' & Hs' & Hin)]]; [by auto|]. split; [done|]. right.
    destruct (Hfind _ _ Hs') as (s'' & -> & E1 & _). exists s''. split; [done|].
    rewrite E1. destruct (decide (_ = l)) as [Heq|]; [|done].
    rewrite Heq in Hs'. rewrite Hs' in Hl. injection Hl as <-.
    rewrite lookup_delete_ne; [done|]. intros Hii. rewrite Hii, Hin in Hid. congruence.
  - intros l' s' id' f' [[-> (s1 & Hs1 & ->)]|[Hne Hl']]%lookup_alter_Some Hin.
    + simpl in Hin. apply lookup_delete_Some in Hin as [_ Hin].
      destruct (Hfs _ _ _ _ Hs1 Hin) as (F & HF & <- & <-).
      destruct (decide (f' = f)) as [->|]; [|by exists F; rewrite lookup_alter_ne].
      exists (F <| f_closed := true |>). by rewrite lookup_alter_eq, HF.
    + destruct (Hfs _ _ _ _ Hl' Hin) as (F & HF & <- & <-).
      destruct (decide (f' = f)) as [->|]; [|by exists F; rewrite lookup_alter_ne].
      exists (F <| f_closed := true |>). by rewrite lookup_alter_eq, HF.
  - intros h H HH. destruct (Hh h H HH) as [? [?|(s' & Hs' & Hin)]]; [by auto|].
    split; [done|]. right. destruct (Hfind _ _ Hs') as (s'' & -> & _ & E1 & _).
    exists s''. by rewrite E1.
  - intros l' s' id' h [[-> (s1 & Hs1 & ->)]|[Hne Hl']]%lookup_alter_Some; intros; by eapply Hhs.
  - intros c l' i Hc. destruct (Hk c l' i Hc) as [? [?|(s' & Hs' & Hin)]]; [by auto|].
    split; [done|]. right. destruct (Hfind _ _ Hs') as (s'' & -> & _ & _ & E1 & _).
    exists s''. by rewrite E1.
Qed.

Lemma links_remove_shl xs w l s id h c :
  (∀ H, sh_closed (c H) = true ∧ sh_parent (c H) = sh_parent H ∧ sh_ID (c H) = sh_ID H) →
  w_sess w !! l = Some s → shells s !! id = Some h → links xs w →
  links xs (w <| w_sess ::= alter (λ s, s <| shells ::= delete id |>) l |>
              <| w_shl ::= alter c h |>).
Proof.
  intros Hc Hl Hid (Hs & Hr & Hf & Hfs & Hh & Hhs & Hk).
  set (g := λ s : Session, s <| shells ::= delete id |>).
  assert (Hfind : ∀ l' s', w_sess w !! l' = Some s' →
    ∃ s'', alter g l (w_sess w) !! l' = Some s'' ∧
           shells s'' = (if decide (l' = l) then delete id (shells s') else shells s') ∧
           forwards s'' = forwards s' ∧ keepaliveCancel s'' = keepaliveCancel s' ∧ s_ID s'' = s_ID s').
  { intros l' s' Hl'. destruct (decide (l' = l)) as [->|Hne].
    - exists (g s'). by rewrite lookup_alter_eq, Hl'.
    - exists s'. by rewrite lookup_alter_ne. }
  assert (Hkept : ∀ h' H', w_shl w !! h' = Some H' →
    ∃ H'', alter c h (w_shl w) !! h' = Some H'' ∧ sh_parent H'' = sh_parent H' ∧ sh_ID H'' = sh_ID H').
  { intros h' H' HH'. destruct (decide (h' = h)) as [->|Hne].
    - exists (c H'). rewrite lookup_alter_eq, HH'. by destruct (Hc H') as (_ & -> & ->).
    - exists H'. by rewrite lookup_alter_ne. }
  split_and!; unfold sess_ok, reg_ok, fwd_ok, fwds_ok, shl_ok, shls_ok, keep_ok; simpl.
  - intros l' s' [[-> (s1 & Hs1 & ->)]|[Hne Hl']]%lookup_alter_Some; [|by apply Hs].
    destruct (Hs _ _ Hs1) as (? & ? & Hd). split_and!; [done|done|].
    unfold emptied. simpl. destruct Hd as [?|[[? ?]|[(? & ? & E1 & ?) ?]]]; [by left|by auto|].
    right; right. rewrite E1, delete_empty. naive_solver.
  - intros id' l' Hid'. destruct (Hr id' l' Hid') as (s' & Hs' & <-).
    destruct (Hfind _ _ Hs') as (s'' & -> & _ & _ & _ & E1). by eexists.
  - intros f F HF. destruct (Hf f F HF) as [? [?|(s' & Hs' & Hin)]]; [by auto|].
    split; [done|]. right. destruct (Hfind _ _ Hs') as (s'' & -> & _ & E1 & _).
    exists s''. by rewrite E1.
  - intros l' s' id' f [[-> (s1 & Hs1 & ->)]|[Hne Hl']]%lookup_alter_Some; intros; by eapply Hfs.
  - intros h' H' [[-> (H1 & HH1 & ->)]|[Hne HH']]%lookup_alter_Some.
    { split; [by destruct (Hh _ _ HH1)|]. left. by destruct (Hc H1). }
    destruct (Hh h' H' HH') as [? [?|(s' & Hs' & Hin)]]; [by auto|]. split; [done|]. right.
    destruct (Hfind _ _ Hs') as (s'' & -> & E1 & _). exists s''. split; [done|].
    rewrite E1. destruct (decide (_ = l)) as [Heq|]; [|done].
    rewrite Heq in Hs'. rewrite Hs' in Hl. injection Hl as <-.
    rewrite lookup_delete_ne; [done|]. intros Hii. rewrite Hii, Hin in Hid. congruence.
  - intros l' s' id' h' Hl' Hin.
    assert (∃ s1, w_sess w !! l' = Some s1 ∧ shells s1 !! id' = Some h') as (s1 & Hs1 & Hin1).
    { apply lookup_alter_Some in Hl' as [[-> (s1 & Hs1 & ->)]|[Hne Hl']]; [|by eauto].
      simpl in Hin. apply lookup_delete_Some in Hin as [_ Hin]. by eauto. }
    destruct (Hhs _ _ _ _ Hs1 Hin1) as (H & HH & <- & <-).
    destruct (Hkept _ _ HH) as (H' & -> & E1 & E2). by exists H'.
  - intros k l' i Hki. destruct (Hk k l' i Hki) as [? [?|(s' & Hs' & Hin)]]; [by auto|].
    split; [done|]. right. destruct (Hfind _ _ Hs') as (s'' & -> & _ & _ & E1 & _).
    exists s''. by rewrite E1.
Qed.

(** ** Adding a forward or a shell *)
Lemma links_add_fwd xs w l s F :
  w_sess w !! l = Some s → (l ∈ xs ∨ (closed s = false ∧ ∃ id, sessions w !! id = Some l)) →
  forwards s !! f_ID F = None → f_session F = l → links xs w →
  links xs (w <| w_fwd ::= <[w_next w := F]> |> <| w_next ::= Pos.succ |>
              <| w_sess ::= alter (λ s, s <| forwards ::= <[f_ID F := w_next w]> |>) l |>).
Proof.
  intros Hl Hx Hid HF (Hs & Hr & Hf & Hfs & Hh & Hhs & Hk). set (f := w_next w).
  set (g := λ s : Session, s <| forwards ::= <[f_ID F := f]> |>).
  assert (Hnew : ∀ f' F', w_fwd w !! f' = Some F' → f' ≠ f).
  { intros f' F' HF'. destruct (Hf _ _ HF') as [? _]. unfold f. lia. }
  assert (Hfind : ∀ l' s', w_sess w !! l' = Some s' →
    ∃ s'', alter g l (w_sess w) !! l' = Some s'' ∧
           forwards s'' = (if decide (l' = l) then <[f_ID F := f]> (forwards s') else forwards s') ∧
           shells s'' = shells s' ∧ keepaliveCancel s'' = keepaliveCancel s' ∧ s_ID s'' = s_ID s').
  { intros l' s' Hl'. destruct (decide (l' = l)) as [->|Hne].
    - exists (g s'). by rewrite lookup_alter_eq, Hl'.
    - exists s'. by rewrite lookup_alter_ne. }
  split_and!; unfold sess_ok, reg_ok, fwd_ok, fwds_ok, shl_ok, shls_ok, keep_ok; simpl.
  - intros l' s' [[-> (s1 & Hs1 & ->)]|[Hne Hl']]%lookup_alter_Some.
    + destruct (Hs _ _ Hs1) as (? & ? & Hd). split_and!; [lia|done|]. naive_solver.
    + destruct (Hs _ _ Hl') as (? & ? & Hd). split_and!; [lia|done|done].
  - intros id' l' Hid'. destruct (Hr id' l' Hid') as (s' & Hs' & <-).
    destruct (Hfind _ _ Hs') as (s'' & -> & _ & _ & _ & E1). by eexists.
  - intros f' F' [[<- <-]|[Hne HF']]%lookup_insert_Some.
    { split; [lia|]. right. exists (g s). rewrite HF, lookup_alter_eq, Hl. split; [done|].
      simpl. by rewrite lookup_insert_eq. }
    destruct (Hf f' F' HF') as [? Hc]. split; [lia|]. destruct Hc as [?|(s' & Hs' & Hin)]; [by left|].
    right. destruct (Hfind _ _ Hs') as (s'' & -> & E1 & _). exists s''. split; [done|].
    rewrite E1. destruct (decide (_ = l)) as [Heq|]; [|done]. rewrite Heq, Hl in Hs'. injection Hs' as <-.
    rewrite lookup_insert_ne; [done|]. intros Hii. rewrite Hii, Hin in Hid. done.
  - intros l' s' id' f' [[-> (s1 & Hs1 & ->)]|[Hne Hl']]%lookup_alter_Some Hin.
    + simpl in Hin. apply lookup_insert_Some in Hin as [[<- <-]|[Hne Hin]].
      * exists F. by rewrite lookup_insert_eq.
      * destruct (Hfs _ _ _ _ Hs1 Hin) as (F' & HF' & ? & ?). exists F'.
        rewrite lookup_insert_ne by (intros <-; by eapply Hnew). done.
    + destruct (Hfs _ _ _ _ Hl' Hin) as (F' & HF' & ? & ?). exists F'.
      rewrite lookup_insert_ne by (intros <-; by eapply Hnew). done.
  - intros h H HH. destruct (Hh h H HH) as [? Hc]. split; [lia|].
    destruct Hc as [?|(s' & Hs' & Hin)]; [by left|]. right.
    destruct (Hfind _ _ Hs') as (s'' & -> & _ & E1 & _). exists s''. by rewrite E1.
  - intros l' s' id' h [[-> (s1 & Hs1 & ->)]|[Hne Hl']]%lookup_alter_Some; intros; by eapply Hhs.
  - intros c l' i Hc. destruct (Hk c l' i Hc) as [? Hkc]. split; [lia|].
    destruct Hkc as [?|(s' & Hs' & Hin)]; [by left|]. right.
    destruct (Hfind _ _ Hs') as (s'' & -> & _ & _ & E1 & _). exists s''. by rewrite E1.
Qed.

Lemma links_add_shl xs w l s H :
  w_sess w !! l = Some s → (l ∈ xs ∨ (closed s = false ∧ ∃ id, sessions w !! id = Some l)) →
  shells s !! sh_ID H = None → sh_parent H = l → links xs w →
  links xs (w <| w_shl ::= <[w_next w := H]> |> <| w_next ::= Pos.succ |>
              <| w_sess ::= alter (λ s, s <| shells ::= <[sh_ID H := w_next w]> |>) l |>).
Proof.
  intros Hl Hx Hid HF (Hs & Hr & Hf & Hfs & Hh & Hhs & Hk). set (h := w_next w).
  set (g := λ s : Session, s <| shells ::= <[sh_ID H := h]> |>).
  assert (Hnew : ∀ h' H', w_shl w !! h' = Some H' → h' ≠ h).
  { intros h' H' HH'. destruct (Hh _ _ HH') as [? _]. unfold h. lia. }
  assert (Hfind : ∀ l' s', w_sess w !! l' = Some s' →
    ∃ s'', alter g l (w_sess w) !! l' = Some s'' ∧
           shells s'' = (if decide (l' = l) then <[sh_ID H := h]> (shells s') else shells s') ∧
           forwards s'' = forwards s' ∧ keepaliveCancel s'' = keepaliveCancel s' ∧ s_ID s'' = s_ID s').
  { intros l' s' Hl'. destruct (decide (l' = l)) as [->|Hne].
    - exists (g s'). by rewrite lookup_alter_eq, Hl'.
    - exists s'. by rewrite lookup_alter_ne. }
  split_and!; unfold sess_ok, reg_ok, fwd_ok, fwds_ok, shl_ok, shls_ok, keep_ok; simpl.
  - intros l' s' [[-> (s1 & Hs1 & ->)]|[Hne Hl']]%lookup_alter_Some.
    + destruct (Hs _ _ Hs1) as (? & ? & Hd). split_and!; [lia|done|]. naive_solver.
    + destruct (Hs _ _ Hl') as (? & ? & Hd). split_and!; [lia|done|done].
  - intros id' l' Hid'. destruct (Hr id' l' Hid') as (s' & Hs' & <-).
    destruct (Hfind _ _ Hs') as (s'' & -> & _ & _ & _ & E1). by eexists.
  - intros f F HF'. destruct (Hf f F HF') as [? Hc]. split; [lia|].
    destruct Hc as [?|(s' & Hs' & Hin)]; [by left|]. right.
    destruct (Hfind _ _ Hs') as (s'' & -> & _ & E1 & _). exists s''. by rewrite E1.
  - intros l' s' id' f [[-> (s1 & Hs1 & ->)]|[Hne Hl']]%lookup_alter_Some; intros; by eapply Hfs.
  - intros h' H' [[<- <-]|[Hne HH']]%lookup_insert_Some.
    { split; [lia|]. right. exists (g s). rewrite HF, lookup_alter_eq, Hl. split; [done|].
      simpl. by rewrite lookup_insert_eq. }
    destruct (Hh h' H' HH') as [? Hc]. split; [lia|]. destruct Hc as [?|(s' & Hs' & Hin)]; [by left|].
    right. destruct (Hfind _ _ Hs') as (s'' & -> & E1 & _). exists s''. split; [done|].
    rewrite E1. destruct (decide (_ = l)) as [Heq|]; [|done]. rewrite Heq, Hl in Hs'. injection Hs' as <-.
    rewrite lookup_insert_ne; [done|]. intros Hii. rewrite Hii, Hin in Hid. done.
  - intros l' s' id' h' [[-> (s1 & Hs1 & ->)]|[Hne Hl']]%lookup_alter_Some Hin.
    + simpl in Hin. apply lookup_insert_Some in Hin as [[<- <-]|[Hne Hin]].
      * exists H. by rewrite lookup_insert_eq.
      * destruct (Hhs _ _ _ _ Hs1 Hin) as (H' & HH' & ? & ?). exists H'.
        rewrite lookup_insert_ne by (intros <-; by eapply Hnew). done.
    + destruct (Hhs _ _ _ _ Hl' Hin) as (H' & HH' & ? & ?). exists H'.
      rewrite lookup_insert_ne by (intros <-; by eapply Hnew). done.
  - intros c l' i Hc. destruct (Hk c l' i Hc) as [? Hkc]. split; [lia|].
    destruct Hkc as [?|(s' & Hs' & Hin)]; [by left|]. right.
    destruct (Hfind _ _ Hs') as (s'' & -> & _ & _ & E1 & _). exists s''. by rewrite E1.
Qed.

(** A shell that is closed already need not be listed. *)
Lemma links_add_closed_shl xs w H :
  sh_closed H = true → links xs w →
  links xs (w <| w_shl ::= <[w_next w := H]> |> <| w_next ::= Pos.succ |>).
Proof.
  intros Hc (Hs & Hr & Hf & Hfs & Hh & Hhs & Hk).
  split_and!; unfold sess_ok, reg_ok, fwd_ok, fwds_ok, shl_ok, shls_ok, keep_ok; simpl.
  - intros l s Hl. destruct (Hs l s Hl) as (? & ? & ?). split_and!; [lia|done|done].
  - done.
  - intros f F HF. destruct (Hf f F HF) as [? ?]. split; [lia|done].
  - done.
  - intros h H' [[<- <-]|[Hne HH']]%lookup_insert_Some; [split; [lia|by left]|].
    destruct (Hh h H' HH') as [? ?]. split; [lia|done].
  - intros l s id h Hl Hin. destruct (Hhs l s id h Hl Hin) as (H' & HH' & ? & ?). exists H'.
    rewrite lookup_insert_ne; [done|]. destruct (Hh _ _ HH'). lia.
  - intros c l i Hci. destruct (Hk c l i Hci). split; [lia|done].
Qed.

(** Updates of a forward that keep its place. *)
Lemma links_fwd xs w f g :
  (∀ F, f_session (g F) = f_session F ∧ f_ID (g F) = f_ID F ∧ f_closed (g F) = f_closed F) →
  links xs w → links xs (w <| w_fwd ::= alter g f |>).
Proof.
  intros Hg (Hs & Hr & Hf & Hfs & Hh & Hhs & Hk). split_and!; [done|done| | |done..].
  - intros f' F' HF'. simpl in HF'.
    apply lookup_alter_Some in HF' as [[-> (F1 & HF1 & ->)]|[Hne HF']]; [|by apply Hf].
    destruct (Hg F1) as (-> & -> & ->). by apply Hf.
  - intros l s id f' Hl Hin. destruct (Hfs l s id f' Hl Hin) as (F & HF & <- & <-). simpl.
    destruct (decide (f' = f)) as [->|]; [|by exists F; rewrite lookup_alter_ne].
    exists (g F). rewrite lookup_alter_eq, HF. by destruct (Hg F) as (-> & -> & _).
Qed.

Lemma winv_new_fwd w T F :
  fwd_ok w → winv w (own_fwd F ++ T) →
  winv (w <| w_fwd ::= <[w_next w := F]> |> <| w_next ::= Pos.succ |>) T.
Proof.
  intros Hf. apply winv_move; [done|]. unfold owned; simpl. rewrite held_insert.
  - solve_Permutation.
  - destruct (w_fwd w !! w_next w) as [F'|] eqn:HF; [|done]. destruct (Hf _ _ HF). lia.
Qed.
Lemma winv_new_shl w T H :
  shl_ok w → winv w (own_shl H ++ T) →
  winv (w <| w_shl ::= <[w_next w := H]> |> <| w_next ::= Pos.succ |>) T.
Proof.
  intros Hh. apply winv_move; [done|]. unfold owned; simpl. rewrite held_insert.
  - solve_Permutation.
  - destruct (w_shl w !! w_next w) as [F'|] eqn:HF; [|done]. destruct (Hh _ _ HF). lia.
Qed.
Lemma winv_new_sess w T s :
  sess_ok ∅ w → winv w (own_sess s ++ T) →
  winv (w <| w_sess ::= <[w_next w := s]> |> <| w_next ::= Pos.succ |>) T.
Proof.
  intros Hs. apply winv_move; [done|]. unfold owned; simpl. rewrite held_insert.
  - solve_Permutation.
  - destruct (w_sess w !! w_next w) as [F'|] eqn:HF; [|done]. destruct (Hs _ _ HF). lia.
Qed.

Lemma noerr_sess_at l : noerr (sess_at l).
Proof. intros w e. unfold sess_at. by destruct (_ !! _). Qed.
Lemma noerr_fwd_at l : noerr (fwd_at l).
Proof. intros w e. unfold fwd_at. by destruct (_ !! _). Qed.
Lemma noerr_closeR r : noerr (closeR r).
Proof. done. Qed.
Lemma noerr_closeAllR l : noerr (closeAllR l).
Proof. intros n e. by rewrite closeAllR_run. Qed.
#[export] Hint Resolve noerr_sess_at noerr_fwd_at noerr_closeR noerr_closeAllR : noerr.

(** ** The manager's map is only changed by the manager *)
Definition same_sessions (w w' : World) : Prop := sessions w' = sessions w.
#[export] Instance same_sessions_pre : PreOrder same_sessions.
Proof. split; [done|]. unfold same_sessions. congruence. Qed.
Lemma same_netM {A} (m : M Net A) : stays same_sessions (netM m).
Proof. intros w. unfold netM, zoom. by destruct (m _). Qed.
Lemma same_upd_sess l g : stays same_sessions (upd_sess l g).
Proof. done. Qed.
Lemma same_upd_fwd l g : stays same_sessions (upd_fwd l g).
Proof. done. Qed.
Lemma same_upd_shl l g : stays same_sessions (upd_shl l g).
Proof. done. Qed.
Lemma same_sess_at l : stays same_sessions (sess_at l).
Proof. intros w. unfold sess_at. by destruct (_ !! _). Qed.
Lemma same_fwd_at l : stays same_sessions (fwd_at l).
Proof. intros w. unfold fwd_at. by destruct (_ !! _). Qed.
Lemma same_shl_at l : stays same_sessions (shl_at l).
Proof. intros w. unfold shl_at. by destruct (_ !! _). Qed.
Lemma same_close_opt o : stays same_sessions (close_opt o).
Proof. destruct o; [apply same_netM|done]. Qed.
#[export] Hint Resolve same_netM same_upd_sess same_upd_fwd same_upd_shl same_sess_at same_fwd_at
  same_shl_at same_close_opt : stays.

(** The fields that plain updates leave alone. *)
Definition same_maps (s0 s : Session) : Prop :=
  forwards s = forwards s0 ∧ shells s = shells s0 ∧ keepaliveCancel s = keepaliveCancel s0.

Definition stable (P : Session → Prop) : Prop := ∀ s s', same_maps s s' → P s → P s'.
Lemma live_sys xs T l P w : live xs T l P w → xs = ∅ → T = [] → sys w.
Proof. by intros (? & ? & _) -> ->. Qed.
