(* ===== verification/Ledger.v ===== *)
(** * Accounting for open resources

    [ledger n R]: the resources open in [n] are exactly the ones of the list [R].
    [gives res m]: from a ledger, [m] returns and adds what [res] lists when it
    succeeds, nothing when it fails.  [balanced m], for code over a larger world,
    says that it leaves the ledger as it was. *)

From S2P Require Import Prelude External Auth World.
From Stdlib Require Import Ascii String.

(** ** The ledger: the open resources are exactly the listed ones *)
Record ledger (n : Net) (R : list rid) : Prop := {
  lg_wf : net_wf n;
  lg_nodup : NoDup R;
  lg_open : n_open n = list_to_set R;
}.

Lemma ledger_perm n R R' : R ≡ₚ R' → ledger n R → ledger n R'.
Proof.
  intros Hp [Hw Hd Ho]. split; [done|by rewrite <- Hp|]. rewrite Ho. apply set_eq.
  intros r. rewrite !elem_of_list_to_set. by rewrite Hp.
Qed.
#[export] Instance ledger_proper : Proper ((=) ==> (≡ₚ) ==> iff) ledger.
Proof. intros n ? <- R R' Hp. by split; apply ledger_perm. Qed.

Lemma ledger_opens {A} (res : A → list rid) (m : M Net A) n R :
  opens res m → ledger n R →
  wp m (λ o n', is_panic o = false ∧
    ledger n' (match o with Ret a => res a | _ => [] end ++ R)) n.
Proof.
  intros Hm [Hw Hd Ho]. eapply wp_mono; [by apply Hm|].
  intros [a|e|p] n' (Hwf' & _ & Hcase); [|by split; [done|split; [done|done|by rewrite Hcase]]|done].
  destruct Hcase as (Hopen & Hnd & Hnew). split; [done|].
  assert (Hfresh : ∀ r, r ∈ res a → r ∉ R).
  { intros r Hr Hin. apply Hnew in Hr as [Hr _]. apply (wf_next_fresh _ r Hw Hr).
    rewrite Ho. by apply elem_of_list_to_set. }
  split; [done|by apply NoDup_app|]. by rewrite Hopen, Ho, list_to_set_app_L.
Qed.
Lemma ledger_closeAll n l R :
  ledger n (l ++ R) → ledger (n <| n_open ::= λ o, o ∖ list_to_set l |>) R.
Proof.
  intros [Hw Hd Ho]. apply NoDup_app in Hd as (Hl & Hdisj & Hd). split; [|done|].
  - intros r. simpl. intros [Hr _]%elem_of_difference. by apply Hw.
  - simpl. rewrite Ho, list_to_set_app_L. apply close_undoes.
    intros r Hr Hin. apply elem_of_list_to_set in Hin. by eapply Hdisj.
Qed.
Lemma ledger_close n r R : ledger n (r :: R) → wp (closeR r) (λ o n', o = Ret tt ∧ ledger n' R) n.
Proof.
  intros H. apply wp_closeR. split; [done|]. apply (ledger_closeAll n [r]) in H. simpl in H.
  replace ({[r]} ∪ ∅ : gset rid) with ({[r]} : gset rid) in H by set_solver. exact H.
Qed.
(** [m] returns and hands over what [res] lists; an error leaves nothing open. *)
Definition hands {A} (res : A → list rid) (R : list rid) (o : outcome A) (n : Net) : Prop :=
  is_panic o = false ∧ ledger n (match o with Ret a => res a | _ => [] end ++ R).
Definition gives {A} (res : A → list rid) (m : M Net A) : Prop := ∀ n R,
  ledger n R → wp m (hands res R) n.

Lemma gives_opens {A} (res : A → list rid) (m : M Net A) : opens res m → gives res m.
Proof. intros Hm n R Hl. by apply (ledger_opens res). Qed.
Lemma gives_quiet {A} (m : M Net A) : quiet m → gives (λ _, []) m.
Proof. intros Hm. by apply gives_opens, quiet_opens. Qed.
Lemma gives_acquire {E : Env} {T} (c : ext T) : gives (λ p, [p.1]) (acquire c).
Proof. apply gives_opens, opens_acquire. Qed.

Lemma wp_gives {A} (res : A → list rid) (m : M Net A) (Q : outcome A → Net → Prop) n R :
  gives res m → ledger n R →
  (∀ a n', ledger n' (res a ++ R) → Q (Ret a) n') → (∀ e n', ledger n' R → Q (Err e) n') →
  wp m Q n.
Proof.
  intros Hm Hl Ha He. eapply wp_mono; [by apply Hm|]. intros [a|e|p] n' [Hp H]; [by apply Ha|by apply He|done].
Qed.

(** The error path that closes [l] on its way out. *)
Lemma gives_close_fail {A} (res : A → list rid) r e n R :
  ledger n (r :: R) → wp (closeR r;; fail e) (hands res R) n.
Proof.
  intros H. apply wp_bind. eapply wp_mono; [by apply ledger_close|]. by intros o n' [-> H'].
Qed.

(** [defer closeAll(cl)] around code that hands [res] over. *)
Lemma wp_finally_close {A} (res : A → list rid) (m : M Net A) cl R n :
  gives res m → ledger n (cl ++ R) → wp (finally m (closeAllR cl)) (hands res R) n.
Proof.
  intros Hm Hl. unfold finally. apply wp_bind, wp_try.
  eapply (wp_gives res); [done|exact Hl| |].
  - intros a n' H. apply wp_bind, wp_closeAllR, wp_ret. split; [done|]. apply ledger_closeAll.
    eapply ledger_perm; [|exact H]. solve_Permutation.
  - intros e n' H. apply wp_bind, wp_closeAllR, wp_fail. split; [done|]. by apply ledger_closeAll.
Qed.

(** ** Composing *)
Section gives.
Context {E : Env}.

Lemma gives_bind_quiet {A B} (res : B → list rid) (m : M Net A) (k : A → M Net B) :
  quiet m → (∀ a, gives res (k a)) → gives res (m ≫= k).
Proof.
  intros Hm Hk n R Hl. apply wp_bind. eapply (wp_gives (λ _, [])); [by apply gives_quiet|exact Hl| |].
  - intros a n' H. by apply Hk.
  - intros e n' H. by split.
Qed.
Lemma gives_wrapE {A} (res : A → list rid) f (m : M Net A) : gives res m → gives res (wrapE f m).
Proof.
  intros Hm n R Hl. unfold wrapE. apply wp_bind, wp_try. eapply (wp_gives res); [done|exact Hl| |].
  - intros a n' H. apply wp_ret. by split.
  - intros e n' H. apply wp_fail. by split.
Qed.
(** Open, use, close. *)
Lemma gives_with_closed {A T} (m : M Net (rid * T)) (k : rid → T → M Net A) :
  gives (λ p, [p.1]) m → (∀ r x, quiet (k r x)) →
  gives (λ _, []) (m ≫= λ '(r, x), finally (k r x) (closeR r)).
Proof.
  intros Hm Hk n R Hl. apply wp_bind. eapply (wp_gives (λ p : rid * T, [p.1])); [done|exact Hl| |].
  - intros [r x] n' H. unfold finally. apply wp_bind, wp_try.
    eapply (wp_gives (λ _ : A, [])); [apply gives_quiet, Hk|exact H| |].
    + intros a n1 H1. apply wp_bind. eapply wp_mono; [by apply ledger_close|].
      intros o n2 [-> H2]. apply wp_ret. by split.
    + intros e n1 H1. apply wp_bind. eapply wp_mono; [by apply ledger_close|].
      intros o n2 [-> H2]. apply wp_fail. by split.
  - intros e n' H. by split.
Qed.
End gives.

(** ** A world that makes its calls on a [Net] *)
Class NetIn (T : Type) := mkNetIn {
  net_of : T → Net;
  set_net : Net → T → T;
  net_of_set : ∀ n t, net_of (set_net n t) = n;
}.

(** ** Code over such a world *)
Section yields.
Context {T : Type} {N : NetIn T}.

(** [m] adds what [res] lists when it succeeds, nothing when it fails.  A panic ends
    the daemon. *)
Definition yields {A} (res : A → list rid) (m : M T A) : Prop := ∀ w R, ledger (net_of w) R →
  wp m (λ o w', match o with
                | Ret a => ledger (net_of w') (res a ++ R)
                | Err _ => ledger (net_of w') R
                | Panic _ => True
                end) w.
Definition balanced {A} (m : M T A) : Prop := yields (λ _, []) m.

Lemma balanced_ret {A} (a : A) : balanced (mret a : M T A).
Proof. intros w R Hl. by apply wp_ret. Qed.
Lemma balanced_fail {A} e : balanced (fail e : M T A).
Proof. intros w R Hl. by apply wp_fail. Qed.
Lemma balanced_panic {A} e : balanced (panic e : M T A).
Proof. intros w R Hl. by apply wp_panic. Qed.
Lemma balanced_gets {A} (f : T → A) : balanced (gets f).
Proof. intros w R Hl. by apply wp_gets. Qed.
Lemma balanced_of_sum {A} (r : error + A) : balanced (of_sum r : M T A).
Proof. destruct r; [apply balanced_fail|apply balanced_ret]. Qed.
Lemma balanced_modify f : (∀ w, net_of (f w) = net_of w) → balanced (modify f : M T unit).
Proof. intros Hf w R Hl. apply wp_modify. by rewrite Hf. Qed.
Lemma yields_bind {A B} (res : B → list rid) (m : M T A) (k : A → M T B) :
  balanced m → (∀ a, yields res (k a)) → yields res (m ≫= k).
Proof.
  intros Hm Hk w R Hl. apply wp_bind. eapply wp_mono; [by apply Hm|].
  intros [a|e|p] w' H; [by apply Hk|done|done].
Qed.
Lemma balanced_bind {A B} (m : M T A) (k : A → M T B) :
  balanced m → (∀ a, balanced (k a)) → balanced (m ≫= k).
Proof. apply yields_bind. Qed.
Lemma balanced_try {A} (m : M T A) : balanced m → balanced (try m).
Proof.
  intros Hm w R Hl. apply wp_try. eapply wp_mono; [by apply Hm|]. by intros [] w' H.
Qed.
Lemma balanced_ignore {A} (m : M T A) : balanced m → balanced (ignore m).
Proof. intros Hm. apply balanced_bind; [by apply balanced_try|]. intros; apply balanced_ret. Qed.
Lemma balanced_forM {A} (l : list A) f : (∀ x, balanced (f x)) → balanced (forM_ l f : M T unit).
Proof. intros Hf. induction l; simpl; [apply balanced_ret|]. by apply balanced_bind. Qed.

Lemma yields_lift {A} (res : A → list rid) (m : M Net A) : gives res m → yields res (zoom net_of set_net m).
Proof.
  intros Hm w R Hl. apply wp_zoom. eapply wp_mono; [by apply Hm|].
  intros [a|e|p] n [_ H]; rewrite ?net_of_set; done.
Qed.
Lemma balanced_lift {A} (m : M Net A) : quiet m → balanced (zoom net_of set_net m).
Proof. intros Hm. by apply yields_lift, gives_quiet. Qed.

(** What [m] hands over is closed by [c] once [k] returned. *)
Definition closes (c : M T unit) (l : list rid) : Prop := ∀ w R, ledger (net_of w) (l ++ R) →
  wp c (λ o w', o = Ret tt ∧ ledger (net_of w') R) w.
Lemma closes_closeR r : closes (zoom net_of set_net (closeR r)) [r].
Proof.
  intros w R Hl. apply wp_zoom. eapply wp_mono; [by apply ledger_close|]. intros o n [-> H].
  by rewrite net_of_set.
Qed.
Lemma wp_finally_closes {A} (k : M T A) (c : M T unit) l w R :
  balanced k → closes c l → ledger (net_of w) (l ++ R) →
  wp (finally k c) (λ o w', match o with Panic _ => True | _ => ledger (net_of w') R end) w.
Proof.
  intros Hk Hc Hl. unfold finally. apply wp_bind, wp_try. eapply wp_mono; [by apply Hk|].
  intros [a|e|p] w1 H1; [| |done]; apply wp_bind; (eapply wp_mono; [by apply Hc|]);
    intros o w2 [-> H2]; [by apply wp_ret|by apply wp_fail].
Qed.
Lemma balanced_finally {A B} (res : A → list rid) (m : M T A) (k : A → M T B) (c : A → M T unit) :
  yields res m → (∀ a, balanced (k a)) → (∀ a, closes (c a) (res a)) →
  balanced (m ≫= λ a, finally (k a) (c a)).
Proof.
  intros Hm Hk Hc w R Hl. apply wp_bind. eapply wp_mono; [by apply Hm|].
  intros [a|e|p] w' H; [|done|done]. eapply wp_mono; [by eapply wp_finally_closes|]. by intros [].
Qed.
Lemma balanced_finally_then {A B C} (res : A → list rid) (m : M T A) (k : A → M T B) (c : A → M T unit)
    (k2 : A → B → M T C) :
  yields res m → (∀ a, balanced (k a)) → (∀ a, closes (c a) (res a)) → (∀ a b, balanced (k2 a b)) →
  balanced (m ≫= λ a, finally (k a) (c a) ≫= k2 a).
Proof.
  intros Hm Hk Hc Hk2 w R Hl. apply wp_bind. eapply wp_mono; [by apply Hm|].
  intros [a|e|p] w' H; [|done|done]. apply wp_bind. eapply wp_mono; [by eapply wp_finally_closes|].
  intros [b|e|p] w2 H2; [by apply Hk2|done|done].
Qed.
Lemma balanced_finally2 {A A' B} (res : A → list rid) (m : M T (A * A')) (k : A → A' → M T B)
    (c : A → M T unit) :
  yields (λ p, res p.1) m → (∀ a b, balanced (k a b)) → (∀ a, closes (c a) (res a)) →
  balanced (m ≫= λ '(a, b), finally (k a b) (c a)).
Proof.
  intros Hm Hk Hc w R Hl. apply wp_bind. eapply wp_mono; [by apply Hm|].
  intros [[a b]|e|p] w' H; [|done|done]. eapply wp_mono; [by eapply wp_finally_closes|]. by intros [].
Qed.
(** Close by hand, after code that reports no error. *)
Lemma balanced_then_close {A B B' C} (res : A → list rid) (m : M T A) (k : A → M T (B * B'))
    (c : A → M T unit) (k2 : A → B → B' → M T C) :
  yields res m → (∀ a, balanced (k a)) → (∀ a, noerr (k a)) → (∀ a, closes (c a) (res a)) →
  (∀ a b b', balanced (k2 a b b')) →
  balanced (m ≫= λ a, k a ≫= λ '(b, b'), c a ≫= λ _, k2 a b b').
Proof.
  intros Hm Hk Hne Hc Hk2 w R Hl. apply wp_bind. eapply wp_mono; [by apply Hm|].
  intros [a|e|p] w' H; [|done|done]. apply wp_bind. pose proof (Hk a _ _ H) as H1.
  pose proof (Hne a w') as Hn. unfold wp at 1. unfold wp in H1.
  destruct (k a w') as [[[b b']|e|p] w1]; simpl in H1, Hn |- *; [|by destruct (Hn e)|done].
  apply wp_bind. eapply wp_mono; [by apply Hc|]. intros o w2 [-> H2]. by apply Hk2.
Qed.
End yields.

Create HintDb balanced discriminated.
#[export] Hint Resolve balanced_ret balanced_fail balanced_panic balanced_gets balanced_of_sum balanced_try
  balanced_ignore balanced_forM : balanced.
Ltac solve_balanced :=
  repeat first
    [ progress intros | solve [eauto with balanced] | apply balanced_bind
    | apply balanced_try | apply balanced_ignore | apply balanced_forM | case_match ].
