(* ===== verification/Session.v ===== *)
(** * One SSH session (internal/sshx/session.go)

    The operations of [Session], over the heap of World.v.  A critical section
    under [s.mu], [s.forwardsMu] or [s.shellsMu] is one [upd_sess].  A Go [range]
    over a map visits it in the order of [map_to_list]; what the loops do does not
    depend on the order.  [Close] calls whose error the code drops are [closeR]. *)

From S2P Require Import Prelude GoStrings External Spec Auth World.

(** [fmt.Errorf] with arguments before its [%w]. *)
Definition wrapA {S A} (f : string) (args : list string) (m : M S A) : M S A :=
  r ← try m; match r with inr a => mret a | inl e => fail (Wrap f args e) end.

Section session.
Context {E : Env}.

(** manager.go, [Manager.Get] *)
Definition Get (id : string) : M World loc := λ w,
  match sessions w !! id with
  | None => (Err (Fmt "ssh session %q not found" [id]), w)
  | Some l => (Ret l, w)
  end.

(** forward.go, [Forward.Close]: only the first call closes the listener. *)
Definition fwd_Close (l : loc) : M World unit :=
  f ← fwd_at l;
  if f_closed f then mret tt else
  upd_fwd l (λ f, f <| f_closed := true |>);;
  close_opt (f_listener f).

(** shell.go, [Shell.Close]. *)
Definition shl_Close (l : loc) : M World unit :=
  s ← shl_at l;
  if sh_closed s then mret tt else
  upd_shl l (λ s, s <| sh_closed := true |>);;
  netM (closeR (sh_session s));;
  upd_shl l (λ s, s <| sh_done := true |>).

Definition getClient (l : loc) : M World rid :=
  s ← sess_at l;
  match client s with
  | None => fail (Fmt "session %q is %s" [s_ID s; SessionState_string (state s)])
  | Some c => mret c
  end.

Definition setClient (l : loc) (c : rid) (jumps : list rid) (addr : string) : M World bool :=
  s ← sess_at l;
  if closed s then
    netM (closeR c);;
    netM (closeAllR jumps);;
    mret false
  else
    t ← netM now;
    upd_sess l (λ s, s <| client := Some c |> <| jumpClients := jumps |> <| activeAddr := addr |>
                       <| state := StateConnected |> <| lastError := None |> <| connectedAt := t |>);;
    mret true.

Definition markState (l : loc) (st : SessionState) (err : option error) : M World unit :=
  upd_sess l (λ s, let s := s <| state := st |> in
                   match err with Some e => s <| lastError := Some e |> | None => s end).

Definition clearClient (l : loc) : M World unit :=
  s ← sess_at l;
  upd_sess l (λ s, s <| sftp := None |> <| client := None |> <| jumpClients := [] |>
                     <| agentForwardConn := None |> <| agentForwardOn := false |>);;
  close_opt (sftp s);;
  close_opt (client s);;
  netM (closeAllR (jumpClients s));;
  close_opt (agentForwardConn s).

Definition enableAgentForwarding (l : loc) (socket : string) : M World unit :=
  socket ← (if decide (socket = "") then netM (getenv "SSH_AUTH_SOCK") else mret socket);
  if decide (socket = "") then
    fail (Msg "agent forwarding requested but no agent socket available (set auth.agent_socket or $SSH_AUTH_SOCK)")
  else
  socket ← netM (expandTilde socket);
  '(conn, _) ← netM (wrapE "dial agent for forwarding: %w" (acquire (NetDial "unix" socket)));
  s ← sess_at l;
  upd_sess l (λ s, s <| agentForwardConn := Some conn |> <| agentForwardOn := true |>);;
  match client s with
  | None =>
    netM (closeR conn);;
    fail (Msg "session has no active client")
  | Some cli =>
    r ← netM (try (call (ForwardToAgent cli conn)));
    match r with
    | inl e =>
      netM (closeR conn);;
      upd_sess l (λ s, s <| agentForwardConn := None |> <| agentForwardOn := false |>);;
      fail (Wrap "ForwardToAgent: %w" [] e)
    | inr _ => mret tt
    end
  end.

Definition cancel (c : option loc) : M World unit :=
  match c with
  | Some c => modify (λ w, w <| w_cancelled ::= λ x, {[c]} ∪ x |>)
  | None => mret tt
  end.

(** [for id, f := range s.forwards { f.Close(); delete(s.forwards, id) }] *)
Definition close_forwards (l : loc) : M World unit :=
  s ← sess_at l;
  forM_ (map_to_list (forwards s)) (λ p,
    fwd_Close p.2;; upd_sess l (λ s, s <| forwards ::= delete p.1 |>)).
Definition close_shells (l : loc) : M World unit :=
  s ← sess_at l;
  forM_ (map_to_list (shells s)) (λ p,
    shl_Close p.2;; upd_sess l (λ s, s <| shells ::= delete p.1 |>)).

Definition close (l : loc) : M World unit :=
  s ← sess_at l;
  if closed s then mret tt else
  upd_sess l (λ s, s <| closed := true |>);;
  upd_sess l (λ s, s <| keepaliveCancel := None |>);;
  cancel (keepaliveCancel s);;
  close_forwards l;;
  close_shells l;;
  clearClient l;;
  markState l StateDisconnected None.

Record SessionInfo := mkSessionInfo {
  i_ID : string;
  i_User : string;
  i_Addresses : list string;
  i_ActiveAddress : string;
  i_State : string;
  i_LastError : option error;
  i_ConnectedAt : Z;
  i_Forwards : list string;
  i_Shells : list string;
  i_Persistent : bool;
  i_AutoReconnect : bool;
}.

Definition Info (l : loc) : M World SessionInfo :=
  s ← sess_at l;
  m ← gets w_mem;
  mret (mkSessionInfo (s_ID s) (User (s_Spec s)) (addrs_at m (Addresses (s_Spec s)))
          (activeAddr s) (SessionState_string (state s)) (lastError s) (connectedAt s)
          (map_to_list (forwards s)).*1 (map_to_list (shells s)).*1
          (Persistent (s_Spec s)) (AutoReconnect (s_Spec s))).

Record SessionRow := mkSessionRow {
  row_ID : string;
  row_User : string;
  row_Address : string;
  row_State : string;
  row_LastError : option error;
  row_Persistent : bool;
  row_AutoReconnect : bool;
  row_Forwards : Z;
  row_Shells : Z;
}.

Definition Row (i : SessionInfo) : SessionRow :=
  let addr := i_ActiveAddress i in
  let addr :=
    match i_Addresses i with
    | a :: _ => if decide (addr = "") then a else addr
    | [] => addr
    end in
  mkSessionRow (i_ID i) (i_User i) addr (i_State i) (i_LastError i) (i_Persistent i)
    (i_AutoReconnect i) (Z.of_nat (List.length (i_Forwards i))) (Z.of_nat (List.length (i_Shells i))).

Record ExecResult := mkExecResult { x_Stdout : string; x_Stderr : string; x_ExitCode : Z }.

(** [Exec]: a result may come with an error ([return res, runErr]). *)
Definition Exec (l : loc) (command : string) (envv : list (string * string)) (stdin : string)
    : M World (ExecResult * option error) :=
  c ← getClient l;
  '(sess, _) ← netM (wrapE "new ssh channel: %w" (acquire (NewSession c)));
  finally (
    s ← sess_at l;
    (if agentForwardOn s then netM (ignore (call (RequestAgentForwarding sess))) else mret tt);;
    forM_ envv (λ kv, netM (ignore (call (Setenv sess kv.1 kv.2))));;
    r ← netM (try (call (RunCmd sess command stdin)));
    match r with
    | inl e => mret (mkExecResult "" "" 0, Some e)
    | inr (CtxDone e) =>
      netM (ignore (call (Signal sess "KILL")));;
      fail e
    | inr (RunOk out err) => mret (mkExecResult out err 0, None)
    | inr (RunExit out err code) => mret (mkExecResult out err code, None)
    | inr (RunFail out err e) => mret (mkExecResult out err 0, Some e)
    end)
  (netM (closeR sess)).

(** sftp.go *)
Definition sftpClient (l : loc) : M World rid :=
  s ← sess_at l;
  match sftp s with
  | Some c => mret c
  | None =>
    c ← getClient l;
    '(sc, _) ← netM (wrapE "open sftp: %w" (acquire (NewSftpClient c)));
    upd_sess l (λ s, s <| sftp := Some sc |>);;
    mret sc
  end.

Definition dropSFTP (l : loc) : M World unit :=
  s ← sess_at l;
  upd_sess l (λ s, s <| sftp := None |>);;
  close_opt (sftp s).
Definition closeSFTP (l : loc) : M World unit := dropSFTP l.
End session.

(** ** Facts *)
Lemma wp_wrapA {S A} f args (m : M S A) Q s :
  wp m (λ o s', match o with
                | Err e => Q (Err (Wrap f args e)) s'
                | _ => Q o s'
                end) s → wp (wrapA f args m) Q s.
Proof.
  intros H. unfold wrapA. apply wp_bind, wp_try. eapply wp_mono; [exact H|].
  intros [a|e|p] s'; simpl; auto.
Qed.
Lemma opens_wrapE {A} (res : A → list rid) f (m : M Net A) : opens res m → opens res (wrapE f m).
Proof.
  intros Hm n Hwf. apply wp_wrapE. eapply wp_mono; [by apply Hm|]. by intros [].
Qed.
Lemma opens_wrapA {A} (res : A → list rid) f args (m : M Net A) : opens res m → opens res (wrapA f args m).
Proof.
  intros Hm n Hwf. apply wp_wrapA. eapply wp_mono; [by apply Hm|]. by intros [].
Qed.
Lemma quiet_now {E : Env} : quiet now.
Proof. unfold now. solve_quiet. Qed.
Lemma quiet_ignore {A} (m : M Net A) : quiet m → quiet (ignore m).
Proof. intros. unfold ignore. solve_quiet. Qed.
Lemma harmless_now {E : Env} : harmless now.
Proof. apply harmless_bind; [apply harmless_try; solve_quiet|intros; apply harmless_ret]. Qed.
Lemma harmless_getenv {E : Env} k : harmless (getenv k).
Proof. apply harmless_bind; [apply harmless_try; solve_quiet|intros; apply harmless_ret]. Qed.
Lemma harmless_expandTilde {E : Env} s : harmless (expandTilde s).
Proof.
  unfold expandTilde. destruct (has_prefix _ _); [|apply harmless_ret].
  apply harmless_bind; [apply harmless_try; solve_quiet|intros; apply harmless_ret].
Qed.
#[export] Hint Resolve quiet_now quiet_ignore : quiet.
Create HintDb opens discriminated.
#[export] Hint Resolve opens_acquire opens_wrapE opens_wrapA : opens.

Section facts.
Context {E : Env}.
Implicit Types w : World.

Lemma wp_Get id Q w :
  (∀ l, sessions w !! id = Some l → Q (Ret l) w) →
  (sessions w !! id = None → Q (Err (Fmt "ssh session %q not found" [id])) w) →
  wp (Get id) Q w.
Proof. intros H1 H2. unfold wp, Get. destruct (sessions w !! id); simpl; auto. Qed.

Lemma wp_getClient l s Q w :
  w_sess w !! l = Some s →
  (∀ c, client s = Some c → Q (Ret c) w) →
  (∀ e, client s = None → Q (Err e) w) →
  wp (getClient l) Q w.
Proof.
  intros Hs H1 H2. apply wp_bind. eapply wp_sess_at; [done|].
  destruct (client s) eqn:Hc; [apply wp_ret|apply wp_fail]; auto.
Qed.

(** A live session, or the state between calls, from a listed id. *)
Lemma sys_live w id l : sys w → sessions w !! id = Some l →
  ∃ s, w_sess w !! l = Some s ∧ closed s = false ∧ live ∅ [] l (eq s) w.
Proof.
  intros [Hw Hl] Hid. pose proof Hl as (Hs & Hr & _). destruct (Hr id l Hid) as (s & Hls & _).
  exists s. split; [done|]. destruct (Hs l s Hls) as (_ & _ & [?|[[Hc ?]|[_ ?]]]); [set_solver| |naive_solver].
  split; [done|]. split_and!; [done..|]. exists s. naive_solver.
Qed.

Lemma live_markState l st e xs T P w Q :
  live xs T l P w →
  (∀ w', live xs T l (λ s, ∃ s0, P s0 ∧ same_maps s0 s ∧ own_sess s = own_sess s0) w' → Q (Ret tt) w') →
  wp (markState l st e) Q w.
Proof.
  intros Hl HQ. eapply live_upd; [done| | |exact HQ].
  - intros s. by destruct e.
  - intros s HP. simpl. split; [by destruct e|]. exists s. by destruct e.
Qed.

Lemma live_clearClient l xs T P w Q :
  live xs T l P w →
  (∀ w', live xs T l (λ s, own_sess s = [] ∧ ∃ s0, P s0 ∧ same_maps s0 s) w' → Q (Ret tt) w') →
  wp (clearClient l) Q w.
Proof.
  intros Hl HQ. apply wp_bind. eapply live_at; [done|]. intros s HP _ Hl'.
  apply wp_bind. eapply (live_upd _ xs T (option_list (sftp s) ++ option_list (client s) ++
    jumpClients s ++ option_list (agentForwardConn s) ++ T) l (eq s)
    (λ s, own_sess s = [] ∧ ∃ s0, P s0 ∧ same_maps s0 s));
    [done|done| |].
  - intros ? <-. unfold own_sess; simpl. split; [solve_Permutation|]. split; [done|]. by exists s.
  - clear w Hl Hl'. intros w Hl.
    apply wp_bind. eapply live_close_opt; [done|]. clear w Hl. intros w Hl.
    apply wp_bind. eapply live_close_opt; [done|]. clear w Hl. intros w Hl.
    apply wp_bind. eapply live_closeAll; [done|]. clear w Hl. intros w Hl.
    eapply live_close_opt; [done|]. auto.
Qed.

Lemma live_setClient l c js addr xs T P w Q :
  l ∉ xs → stable P → live xs (js ++ c :: T) l (λ s, own_sess s = [] ∧ P s) w →
  (∀ w', live xs T l (λ s, client s = Some c ∧ agentForwardConn s = None ∧ P s) w' → Q (Ret true) w') →
  wp (setClient l c js addr) Q w.
Proof.
  intros Hxs HPst Hl HQ. apply wp_bind. eapply live_at; [done|].
  intros s [Ho HP] [?|Hc] Hl'; [done|]. rewrite Hc.
  apply wp_bind. eapply live_harmless; [apply harmless_now|done|]. intros t w1 Hl1.
  apply wp_bind. eapply (live_upd _ xs (js ++ c :: T) T l (eq s)
    (λ s, client s = Some c ∧ agentForwardConn s = None ∧ P s)); [exact Hl1|done| |].
  - intros ? <-. unfold own_sess in *; simpl. apply app_nil in Ho as [H1 H2].
    apply app_nil in H2 as [H2 H3]. apply app_nil in H3 as [H3 H4].
    rewrite H3, H4. split; [|split; [done|split; [revert H4; by destruct (agentForwardConn s)|by apply (HPst s)]]].
    simpl. rewrite H1, H2, app_nil_r. simpl. solve_Permutation.
  - intros w2 Hl2. by apply wp_ret, HQ.
Qed.

Lemma live_enableAgentForwarding l sock xs T c P w Q :
  stable P → live xs T l (λ s, client s = Some c ∧ agentForwardConn s = None ∧ P s) w →
  (∀ o w', is_panic o = false → live xs T l P w' → Q o w') →
  wp (enableAgentForwarding l sock) Q w.
Proof.
  intros HPst Hl HQ.
  assert (Hfin : ∀ o w', is_panic o = false →
    live xs T l (λ s, client s = Some c ∧ agentForwardConn s = None ∧ P s) w' → Q o w').
  { intros o w' Hp Hl'. apply HQ; [done|]. eapply live_mono; [done|]. naive_solver. }
  apply wp_bind. apply (wp_mono _ (λ o w', (∃ s', o = Ret s') ∧
    live xs T l (λ s, client s = Some c ∧ agentForwardConn s = None ∧ P s) w')).
  { destruct (decide (sock = "")); [|apply wp_ret; by eauto].
    eapply live_harmless; [apply harmless_getenv|exact Hl|by eauto]. }
  clear w Hl. intros o w [[sock' ->] Hl]. clear sock.
  destruct (decide (sock' = "")); [apply wp_fail; by apply Hfin|].
  apply wp_bind. eapply live_harmless; [apply harmless_expandTilde|exact Hl|].
  clear w Hl. intros sock w Hl.
  apply wp_bind. eapply live_opens; [eauto with opens|exact Hl|].
  intros [[conn []]|e|p] w1 Hp Hl1; [|by apply Hfin|done]. simpl in Hl1.
  apply wp_bind. eapply live_at; [exact Hl1|]. intros s (Hcl & Hag & HP) Hc Hl2.
  apply wp_bind. eapply (live_upd _ xs (conn :: T) T l (eq s)
         (λ s, client s = Some c ∧ agentForwardConn s = Some conn ∧ P s)); [exact Hl2|done| |].
  { intros ? <-. split; [|split_and!; [done|done|by apply (HPst s)]].
    unfold own_sess; simpl. rewrite Hag. simpl. rewrite !app_nil_r. solve_Permutation. }
  intros w2 Hl3. rewrite Hcl. apply wp_bind.
  eapply live_harmless; [apply harmless_try; solve_quiet|exact Hl3|].
  intros [e|[]] w3 Hl4; [|apply wp_ret, HQ; [done|eapply live_mono; [done|naive_solver]]].
  apply (live_close_upd l _ conn xs T T _ P w3 _ _ Hl4); [done| |].
  - intros s' (Hcl' & Hag' & HP'). split; [|by apply (HPst s')]. unfold own_sess; simpl. rewrite Hag'. simpl.
    rewrite !app_nil_r. solve_Permutation.
  - intros w4 Hl5. apply wp_fail. by apply HQ.
Qed.

Lemma fwd_Close_wp f F w T Q :
  w_fwd w !! f = Some F → winv w T →
  (∀ n', let w' := w <| w_fwd ::= alter (λ F, F <| f_closed := true |>) f |> <| w_net := n' |> in
     winv w' T → Q (Ret tt) w') →
  wp (fwd_Close f) Q w.
Proof.
  intros HF Hw HQ. apply wp_bind. eapply wp_fwd_at; [done|].
  destruct (f_closed F) eqn:Hc.
  - apply wp_ret. specialize (HQ (w_net w)). cbv zeta in HQ.
    replace (w <| w_fwd ::= _ |> <| w_net := w_net w |>) with w in HQ; [by apply HQ|].
    destruct w; unfold upd, upd_w_net, upd_w_fwd in *; simpl in *. f_equal.
    symmetry. apply alter_id. intros F' HF'. simplify_eq. destruct F. simpl in *. by subst.
  - apply wp_bind, wp_modify. eapply winv_close_opt; [|intros n' Hn'; by apply HQ].
    eapply winv_fwd; [done| |done]. unfold own_fwd. simpl. by rewrite Hc.
Qed.

Definition shl_closed (s : Shell) : Shell := s <| sh_closed := true |> <| sh_done := true |>.

Lemma shl_Close_wp h H w T Q :
  w_shl w !! h = Some H → winv w T →
  (∀ n' c, (∀ H, sh_closed (c H) = true ∧ sh_parent (c H) = sh_parent H ∧ sh_ID (c H) = sh_ID H) →
     let w' := w <| w_shl ::= alter c h |> <| w_net := n' |> in winv w' T → Q (Ret tt) w') →
  wp (shl_Close h) Q w.
Proof.
  intros HH Hw HQ. apply wp_bind. eapply wp_shl_at; [done|].
  destruct (sh_closed H) eqn:Hc.
  - apply wp_ret. specialize (HQ (w_net w) (λ s, s <| sh_closed := true |>)). cbv zeta in HQ.
    replace (w <| w_shl ::= _ |> <| w_net := w_net w |>) with w in HQ; [by apply HQ|].
    destruct w; unfold upd, upd_w_net, upd_w_shl in *; simpl in *. f_equal.
    symmetry. apply alter_id. intros F' HF'. simplify_eq. destruct H. simpl in *. by subst.
  - apply wp_bind, wp_modify, wp_bind. eapply (winv_close _ T (sh_session H)).
    { eapply winv_shl; [done| |done]. unfold own_shl. simpl. by rewrite Hc. }
    intros n' Hn'. apply wp_modify. specialize (HQ n' shl_closed). cbv zeta in HQ.
    replace (w <| w_shl ::= _ |> <| w_net := n' |> <| w_shl ::= _ |>)
      with (w <| w_shl ::= alter shl_closed h |> <| w_net := n' |>).
    2:{ destruct w. unfold upd, upd_w_net, upd_w_shl. simpl. f_equal.
        symmetry. apply (alter_alter_eq (M := gmap positive)). }
    apply HQ; [done|].
    refine (winv_move _ _ T T _ _ Hn'); [done|]. unfold owned; simpl.
    by rewrite !(held_alter own_shl _ _ _ _ HH).
Qed.

(** The two loops of [close] empty the maps. *)
Lemma close_forwards_wp l xs (P : Session → Prop) w Q :
  (∀ s m, P s → P (s <| forwards := m |>)) →
  live xs [] l P w →
  (∀ w', live xs [] l (λ s, forwards s = ∅ ∧ P s) w' → Q (Ret tt) w') →
  wp (close_forwards l) Q w.
Proof.
  intros HPm Hl HQ. apply wp_bind. eapply live_at; [done|]. intros s HP _ Hl'.
  apply (wp_forM _ _ (λ L w, NoDup L.*1 ∧
    live xs [] l (λ s, P s ∧ ∀ id f, forwards s !! id = Some f ↔ (id, f) ∈ L) w)).
  - split; [apply NoDup_fst_map_to_list|]. eapply live_mono; [exact Hl'|]. intros ? <-.
    split; [done|]. intros id f. by rewrite elem_of_map_to_list.
  - clear w Hl Hl'. intros [id f] L w [Hnd (Hw & Hl & s' & Hs' & Hc & HP' & Hin)].
    assert (Hf : forwards s' !! id = Some f) by (apply Hin, list_elem_of_here).
    pose proof Hl as (_ & _ & _ & Hfs & _). pose proof (Hfs l s' id f Hs' Hf) as (F & HF & _).
    apply wp_bind. eapply fwd_Close_wp; [exact HF|exact Hw|]. cbv zeta. intros n' Hw'.
    apply wp_modify. inversion Hnd as [|? ? Hnin Hnd']; subst. split; [done|]. split_and!.
    + eapply winv_sess; [exact Hs'| |exact Hw']. done.
    + eapply (links_remove_fwd xs w l s' id f); done.
    + exists (s' <| forwards ::= delete id |>). simpl. rewrite lookup_alter_eq, Hs'.
      split_and!; [done|done|by apply HPm|]. intros id' f'. simpl.
      rewrite lookup_delete_Some, Hin, elem_of_cons. split.
      * intros [Hne [?|?]]; [congruence|done].
      * intros HL. split; [|by right]. intros <-. apply Hnin.
        apply list_elem_of_fmap. by exists (id, f').
  - intros w' [_ Hl'']. apply HQ. eapply live_mono; [exact Hl''|]. intros s' [HP' Hin].
    split; [|done]. apply map_empty. intros id. destruct (forwards s' !! id) eqn:E1; [|done].
    apply Hin in E1. by apply elem_of_nil in E1.
Qed.

Lemma close_shells_wp l xs (P : Session → Prop) w Q :
  (∀ s m, P s → P (s <| shells := m |>)) →
  live xs [] l P w →
  (∀ w', live xs [] l (λ s, shells s = ∅ ∧ P s) w' → Q (Ret tt) w') →
  wp (close_shells l) Q w.
Proof.
  intros HPm Hl HQ. apply wp_bind. eapply live_at; [done|]. intros s HP _ Hl'.
  apply (wp_forM _ _ (λ L w, NoDup L.*1 ∧
    live xs [] l (λ s, P s ∧ ∀ id f, shells s !! id = Some f ↔ (id, f) ∈ L) w)).
  - split; [apply NoDup_fst_map_to_list|]. eapply live_mono; [exact Hl'|]. intros ? <-.
    split; [done|]. intros id f. by rewrite elem_of_map_to_list.
  - clear w Hl Hl'. intros [id f] L w [Hnd (Hw & Hl & s' & Hs' & Hc & HP' & Hin)].
    assert (Hf : shells s' !! id = Some f) by (apply Hin, list_elem_of_here).
    pose proof Hl as (_ & _ & _ & _ & _ & Hfs & _). pose proof (Hfs l s' id f Hs' Hf) as (F & HF & _).
    apply wp_bind. eapply shl_Close_wp; [exact HF|exact Hw|]. cbv zeta. intros n' c Hcl Hw'.
    apply wp_modify. inversion Hnd as [|? ? Hnin Hnd']; subst. split; [done|]. split_and!.
    + eapply winv_sess; [exact Hs'| |exact Hw']. done.
    + eapply (links_remove_shl xs w l s' id f c); done.
    + exists (s' <| shells ::= delete id |>). simpl. rewrite lookup_alter_eq, Hs'.
      split_and!; [done|done|by apply HPm|]. intros id' f'. simpl.
      rewrite lookup_delete_Some, Hin, elem_of_cons. split.
      * intros [Hne [?|?]]; [congruence|done].
      * intros HL. split; [|by right]. intros <-. apply Hnin.
        apply list_elem_of_fmap. by exists (id, f').
  - intros w' [_ Hl'']. apply HQ. eapply live_mono; [exact Hl''|]. intros s' [HP' Hin].
    split; [|done]. apply map_empty. intros id. destruct (shells s' !! id) eqn:E1; [|done].
    apply Hin in E1. by apply elem_of_nil in E1.
Qed.

Lemma links_weaken xs ys w : xs ⊆ ys → links xs w → links ys w.
Proof.
  intros Hsub (Hs & Hrest). split; [|done]. intros l s Hl.
  destruct (Hs l s Hl) as (? & ? & [?|?]); split_and!; [done|done|set_solver|done|done|by right].
Qed.

Lemma same_close l : stays same_sessions (close l).
Proof.
  unfold close, close_forwards, close_shells, clearClient, markState, cancel, fwd_Close, shl_Close.
  solve_stays.
Qed.

(** [close] on a session that was taken out of the map, or is about to be. *)
Lemma close_wp l w Q :
  winv w [] → links {[l]} w →
  (∃ s, w_sess w !! l = Some s ∧ closed s = false) →
  (∀ w', winv w' [] → links {[l]} w' → sessions w' = sessions w →
     (∃ s, w_sess w' !! l = Some s ∧ emptied s) → Q (Ret tt) w') →
  wp (close l) Q w.
Proof.
  intros Hw Hl (s & Hs & Hc) HQ.
  assert (H : wp (close l) (λ o w', o = Ret tt ∧ live {[l]} [] l emptied w') w).
  2:{ pose proof (same_close l w) as Hsame. unfold wp in *. destruct H as [-> (Hw' & Hl' & s' & ? & _ & ?)].
      apply HQ; eauto. }
  clear HQ. unfold close. apply wp_bind. eapply wp_sess_at; [exact Hs|]. rewrite Hc.
  apply wp_bind, wp_modify, wp_bind, wp_modify, wp_bind.
  set (C := match keepaliveCancel s with Some c => {[c]} | None => ∅ end : gset loc).
  set (wc := w <| w_cancelled ::= λ x, C ∪ x |>).
  set (wd := wc <| w_sess ::= alter (λ s, s <| closed := true |>) l |>).
  set (w1 := wd <| w_sess ::= alter (λ s, s <| keepaliveCancel := None |>) l |>).
  assert (Hd : w_sess wd !! l = Some (s <| closed := true |>))
    by (simpl; by rewrite lookup_alter_eq, Hs).
  assert (H1 : live {[l]} [] l (λ s, keepaliveCancel s = None) w1).
  { split_and!.
    - eapply winv_sess; [exact Hd|done|]. eapply winv_sess; [exact Hs|done|].
      by refine (winv_move w wc [] [] _ _ Hw).
    - eapply links_sess; [exact Hd| |done..| |left; set_solver].
      + eapply links_sess; [exact Hs|by apply links_cancelled|done..|by left|left; set_solver].
      + right. split; [set_solver|]. intros c'. simpl. subst C. intros ->. set_solver.
    - eexists. simpl. rewrite !lookup_alter_eq, Hs. simpl.
      split; [done|]. split; [left; set_solver|done]. }
  assert (H2 : ∀ Q, Q (Ret tt) w1 → wp (cancel (keepaliveCancel s))
    Q (w <| w_sess ::= alter (λ s, s <| closed := true |>) l |>
         <| w_sess ::= alter (λ s, s <| keepaliveCancel := None |>) l |>)).
  { intros Q'. subst w1 wd wc C. destruct (keepaliveCancel s); [done|].
    unfold upd, upd_w_cancelled; simpl. rewrite left_id_L by apply _. by destruct w. }
  apply H2. clear H2. revert H1. generalize w1. clear w1 wd wc C w Hw Hl Hs Hd. intros w H1.
  apply wp_bind. eapply (close_forwards_wp l _ (λ s, keepaliveCancel s = None)); [done|exact H1|].
  clear w H1. intros w H1.
  apply wp_bind. eapply (close_shells_wp l _ (λ s, forwards s = ∅ ∧ keepaliveCancel s = None)); [done|exact H1|].
  clear w H1. intros w H1.
  apply wp_bind. eapply live_clearClient; [exact H1|].
  clear w H1. intros w H1. eapply live_markState; [exact H1|].
  clear w H1. intros w H1. split; [done|]. eapply live_mono; [exact H1|].
  intros s' (s0 & (Ho & s1 & (H2 & H3 & H4) & (E1 & E2 & E3)) & (E4 & E5 & E6) & E7).
  split_and!; congruence.
Qed.
End facts.
