(* ===== verification/Forward.v ===== *)
(** * Port forwards (internal/sshx/forward.go)

    Opening, listing, closing and rebinding forwards, the accept loops and the
    goroutine that serves one connection.  An accept loop is an entry of
    [w_accept]; [run*Forward] is one turn of it and returns the connection its
    goroutine serves, or [None] when [Accept] failed and the loop is over.
    [registerForward] allocates the [Forward] only when it registers it: one that
    is refused is garbage nobody else has seen. *)

From S2P Require Import Prelude GoStrings External Spec Auth World Session.
From Stdlib Require Import Ascii String.

Section forward.
Context {E : Env}.

Definition localhost : string := "127.0.0.1".
Definition or_default (s d : string) : string := if decide (s = "") then d else s.

Definition registerForward (l : loc) (F : Forward) : M World loc :=
  s ← sess_at l;
  if closed s then fail (Fmt "session %q is closed" [s_ID s]) else
  match forwards s !! f_ID F with
  | Some _ => fail (Fmt "forward %q already exists on session %q" [f_ID F; s_ID s])
  | None =>
    f ← new_fwd F;
    upd_sess l (λ s, s <| forwards ::= <[f_ID F := f]> |>);;
    mret f
  end.

(** [if err := s.registerForward(f); err != nil { ln.Close(); return err }; go run(f, ln)] *)
Definition register_or_close (l : loc) (F : Forward) (ln : rid) : M World loc :=
  r ← try (registerForward l F);
  match r with
  | inl e => netM (closeR ln);; fail e
  | inr f => modify (λ w, w <| w_accept ::= <[ln := f]> |>);; mret f
  end.

Definition OpenLocalForward (sessionID forwardID : string) (spec : LocalSpec) : M World loc :=
  l ← Get sessionID;
  _ ← getClient l;
  let spec := mkLocalSpec (or_default (l_BindAddr spec) localhost) (l_BindPort spec)
                (l_RemoteHost spec) (l_RemotePort spec) in
  if decide (l_RemoteHost spec = "") then fail (Msg "remote_host is required for local forward") else
  '(ln, port) ← netM (wrapA "listen %s:%d: %w" [l_BindAddr spec; Itoa (l_BindPort spec)]
      (acquire (NetListen "tcp" (JoinHostPort (l_BindAddr spec) (Itoa (l_BindPort spec))))));
  register_or_close l (mkForward forwardID sessionID (ForwardLocal spec) l (Some ln) port false 0) ln.

Definition OpenRemoteForward (sessionID forwardID : string) (spec : RemoteSpec) : M World loc :=
  l ← Get sessionID;
  c ← getClient l;
  let spec := mkRemoteSpec (or_default (r_BindAddr spec) localhost) (r_BindPort spec)
                (or_default (r_LocalHost spec) localhost) (r_LocalPort spec) in
  '(ln, tcp) ← netM (wrapA "remote listen %s:%d: %w" [r_BindAddr spec; Itoa (r_BindPort spec)]
      (acquire (ClientListen c "tcp" (JoinHostPort (r_BindAddr spec) (Itoa (r_BindPort spec))))));
  let port := match tcp with Some p => p | None => r_BindPort spec end in
  register_or_close l (mkForward forwardID sessionID (ForwardRemote spec) l (Some ln) port false 0) ln.

Definition OpenDynamicForward (sessionID forwardID : string) (spec : DynamicSpec) : M World loc :=
  l ← Get sessionID;
  _ ← getClient l;
  let spec := mkDynamicSpec (or_default (dy_BindAddr spec) localhost) (dy_BindPort spec) in
  '(ln, port) ← netM (wrapA "listen %s:%d: %w" [dy_BindAddr spec; Itoa (dy_BindPort spec)]
      (acquire (NetListen "tcp" (JoinHostPort (dy_BindAddr spec) (Itoa (dy_BindPort spec))))));
  register_or_close l (mkForward forwardID sessionID (ForwardDynamic spec) l (Some ln) port false 0) ln.

Definition CloseForward (sessionID forwardID : string) : M World unit :=
  l ← Get sessionID;
  s ← sess_at l;
  match forwards s !! forwardID with
  | None => fail (Fmt "forward %q not found on session %q" [forwardID; sessionID])
  | Some f =>
    upd_sess l (λ s, s <| forwards ::= delete forwardID |>);;
    F ← fwd_at f;
    fwd_Close f;;
    match f_closed F, f_listener F with
    | false, Some ln => netM (call (ListenerClose ln))
    | _, _ => mret tt
    end
  end.

(** One turn of the loop of [rebindForwards]. *)
Definition rebindForward (l f : loc) : M World unit :=
  F ← fwd_at f;
  match f_Spec F with
  | ForwardRemote spec =>
    if f_closed F then mret tt else
    r ← try (getClient l);
    match r with
    | inl _ => mret tt
    | inr c =>
      r ← netM (try (acquire (ClientListen c "tcp"
            (JoinHostPort (r_BindAddr spec) (Itoa (r_BindPort spec))))));
      match r with
      | inl _ => mret tt
      | inr (ln, tcp) =>
        F ← fwd_at f;
        if f_closed F then netM (closeR ln) else
        upd_fwd f (λ F, let F := F <| f_listener := Some ln |> in
                        match tcp with Some p => F <| f_bindPort := p |> | None => F end);;
        close_opt (f_listener F);;
        modify (λ w, w <| w_accept ::= <[ln := f]> |>)
      end
    end
  | _ => mret tt
  end.
Definition rebindForwards (l : loc) : M World unit :=
  s ← sess_at l;
  forM_ (map_to_list (forwards s)).*2 (rebindForward l).

(** ** What a forward looks like from outside *)
Record ForwardInfo := mkForwardInfo {
  fi_ID : string;
  fi_SessionID : string;
  fi_Kind : string;
  fi_BindAddr : string;
  fi_BindPort : Z;
  fi_RemoteAddr : string;
  fi_RemotePort : Z;
  fi_Connections : Z;
  fi_Spec : ForwardSpec;
}.

Definition fwd_Info (F : Forward) : ForwardInfo :=
  let info kind bind addr port :=
    mkForwardInfo (f_ID F) (f_SessionID F) kind bind (f_bindPort F) addr port (f_conns F) (f_Spec F) in
  match f_Spec F with
  | ForwardLocal s => info "local" (l_BindAddr s) (l_RemoteHost s) (l_RemotePort s)
  | ForwardRemote s => info "remote" (r_BindAddr s) (r_LocalHost s) (r_LocalPort s)
  | ForwardDynamic s => info "dynamic" (dy_BindAddr s) "" 0
  end.

Definition session_forwards (w : World) (l : loc) : list ForwardInfo :=
  match w_sess w !! l with
  | None => []
  | Some s => omap (λ f, fwd_Info <$> w_fwd w !! f) (map_to_list (forwards s)).*2
  end.
Definition ListForwards (sessionID : string) : M World (list ForwardInfo) :=
  if decide (sessionID = "") then
    gets (λ w, (map_to_list (sessions w)).*2 ≫= session_forwards w)
  else
    l ← Get sessionID;
    gets (λ w, session_forwards w l).

(** ** Serving connections *)
Definition dialViaClient (c : rid) (addr : string) : M Net rid :=
  '(r, _) ← acquire (ClientDial c "tcp" addr); mret r.

(** [CloseWrite] when the connection has one, [Close] when not. *)
Definition halfClose (c : rid) : M Net unit :=
  r ← try (call (CloseWrite c));
  match r with inr false => closeR c | _ => mret tt end.

(** The two copies, one after the other: each is over when its source ends. *)
Definition pipe (a b : rid) : M Net unit :=
  ignore (call (Copy a b));; halfClose a;;
  ignore (call (Copy b a));; halfClose b.

(** [ln.Accept()], the connection count, and the goroutine's connection. *)
Definition accept_turn (f : loc) (ln : rid) : M World (option rid) :=
  r ← netM (try (acquire (Accept ln)));
  match r with
  | inl _ => modify (λ w, w <| w_accept ::= delete ln |>);; mret None
  | inr (c, _) => upd_fwd f (λ F, F <| f_conns ::= Z.succ |>);; mret (Some c)
  end.
Definition runLocalForward := accept_turn.
Definition runRemoteForward := accept_turn.
Definition runSocksForward := accept_turn.

Definition serveLocal (f : loc) (c : rid) : M World unit :=
  finally (
    F ← fwd_at f;
    r ← try (getClient (f_session F));
    match r, f_Spec F with
    | inr cl, ForwardLocal spec =>
      r ← netM (try (dialViaClient cl (JoinHostPort (l_RemoteHost spec) (Itoa (l_RemotePort spec)))));
      match r with
      | inl _ => mret tt
      | inr remote => netM (finally (pipe c remote) (closeR remote))
      end
    | _, _ => mret tt
    end)
  (netM (closeR c)).

Definition serveRemote (f : loc) (c : rid) : M World unit :=
  finally (
    F ← fwd_at f;
    match f_Spec F with
    | ForwardRemote spec =>
      r ← netM (try (acquire (NetDial "tcp" (JoinHostPort (r_LocalHost spec) (Itoa (r_LocalPort spec))))));
      match r with
      | inl _ => mret tt
      | inr (local, _) => netM (finally (pipe c local) (closeR local))
      end
    | _ => mret tt
    end)
  (netM (closeR c)).
End forward.

(** ** Facts *)
Section facts.
Context {E : Env}.
Implicit Types w : World.

Lemma live_register_or_close l F ln w Q :
  live ∅ [ln] l (λ _, True) w → f_session F = l → f_listener F = Some ln → f_closed F = false →
  (∀ o w', is_panic o = false → sys w' → Q o w') →
  wp (register_or_close l F ln) Q w.
Proof.
  intros Hl HF Hln Hfc HQ.
  assert (Herr : ∀ (e : error) w, live ∅ [ln] l (λ _, True) w → wp (netM (closeR ln);; fail e) Q w).
  { intros e w' Hl'. apply wp_bind. eapply live_close; [exact Hl'|]. intros w2 H2.
    apply wp_fail, HQ; [done|]. by eapply live_sys. }
  apply wp_bind, wp_try, wp_bind. eapply live_at; [exact Hl|].
  intros s _ [?|Hc] Hl'; [set_solver|]. rewrite Hc.
  destruct (forwards s !! f_ID F) eqn:Hid; [by apply wp_fail, Herr|].
  apply wp_bind, wp_bind, wp_gets, wp_bind, wp_modify, wp_ret, wp_bind, wp_modify, wp_ret.
  apply wp_bind, wp_modify, wp_ret, HQ; [done|].
  destruct Hl' as (Hw & Hlk & s' & Hs & Hreg & <-). split.
  - assert (H1 : winv (w <| w_fwd ::= <[w_next w := F]> |> <| w_next ::= Pos.succ |>) []).
    { apply winv_new_fwd; [by destruct Hlk as (_&_&?&_)|]. unfold own_fwd. by rewrite Hfc, Hln. }
    assert (H2 : winv (w <| w_fwd ::= <[w_next w := F]> |> <| w_next ::= Pos.succ |>
      <| w_sess ::= alter (λ s, s <| forwards ::= <[f_ID F := w_next w]> |>) l |>) [])
      by (eapply winv_sess; [exact Hs|reflexivity|exact H1]).
    by refine (winv_move _ _ _ _ _ _ H2).
  - apply (links_add_fwd ∅ w l s F); done.
Qed.

(** Each way of opening a forward: a lookup, a listener, the registration. *)
Lemma OpenLocalForward_sys sid fid spec w Q :
  sys w → (∀ o w', is_panic o = false → sys w' → Q o w') →
  wp (OpenLocalForward sid fid spec) Q w.
Proof.
  intros Hw HQ. apply wp_bind, wp_Get; [|by auto]. intros l Hid.
  destruct (sys_live w sid l Hw Hid) as (s & Hs & _ & Hl).
  apply wp_bind. eapply wp_getClient; [exact Hs| |by auto]. intros c _.
  cbv zeta. case_decide; [by apply wp_fail, HQ|].
  apply wp_bind. eapply live_opens; [eauto with opens|exact Hl|].
  intros [[ln port]|e|p] w1 Hp Hl1; [|apply HQ; [done|by eapply live_sys]|done].
  eapply live_register_or_close; [eapply live_mono; [exact Hl1|done]|done..|exact HQ].
Qed.
Lemma OpenDynamicForward_sys sid fid spec w Q :
  sys w → (∀ o w', is_panic o = false → sys w' → Q o w') →
  wp (OpenDynamicForward sid fid spec) Q w.
Proof.
  intros Hw HQ. apply wp_bind, wp_Get; [|by auto]. intros l Hid.
  destruct (sys_live w sid l Hw Hid) as (s & Hs & _ & Hl).
  apply wp_bind. eapply wp_getClient; [exact Hs| |by auto]. intros c _.
  apply wp_bind. eapply live_opens; [eauto with opens|exact Hl|].
  intros [[ln port]|e|p] w1 Hp Hl1; [|apply HQ; [done|by eapply live_sys]|done].
  eapply live_register_or_close; [eapply live_mono; [exact Hl1|done]|done..|exact HQ].
Qed.
Lemma OpenRemoteForward_sys sid fid spec w Q :
  sys w → (∀ o w', is_panic o = false → sys w' → Q o w') →
  wp (OpenRemoteForward sid fid spec) Q w.
Proof.
  intros Hw HQ. apply wp_bind, wp_Get; [|by auto]. intros l Hid.
  destruct (sys_live w sid l Hw Hid) as (s & Hs & _ & Hl).
  apply wp_bind. eapply wp_getClient; [exact Hs| |by auto]. intros c _.
  apply wp_bind. eapply live_opens; [eauto with opens|exact Hl|].
  intros [[ln port]|e|p] w1 Hp Hl1; [|apply HQ; [done|by eapply live_sys]|done].
  eapply live_register_or_close; [eapply live_mono; [exact Hl1|done]|done..|exact HQ].
Qed.

Lemma CloseForward_sys sid fid w Q :
  sys w → (∀ o w', is_panic o = false → sys w' → Q o w') →
  wp (CloseForward sid fid) Q w.
Proof.
  intros Hw HQ. apply wp_bind, wp_Get; [|by auto]. intros l Hid.
  destruct (sys_live w sid l Hw Hid) as (s & Hs & _ & Hl).
  apply wp_bind. eapply wp_sess_at; [exact Hs|].
  destruct (forwards s !! fid) as [f|] eqn:Hf; [|by apply wp_fail, HQ].
  destruct Hw as [Hw Hlk]. pose proof Hlk as (_ & _ & _ & Hfs & _).
  destruct (Hfs l s fid f Hs Hf) as (F & HF & _).
  apply wp_bind, wp_modify, wp_bind. eapply wp_fwd_at; [exact HF|].
  apply wp_bind. eapply (fwd_Close_wp f F); [exact HF| |].
  { eapply winv_sess; [exact Hs|reflexivity|exact Hw]. }
  intros n' w' Hw'. pose proof (links_remove_fwd ∅ w l s fid f Hs Hf Hlk) as Hlk'.
  assert (Hdone : ∀ o, is_panic o = false → Q o w') by (intros o Ho; by apply HQ).
  destruct (f_closed F); [by apply Hdone|]. destruct (f_listener F) as [ln|]; [|by apply Hdone].
  eapply winv_quiet; [apply quiet_call|exact Hw'|]. intros o n2 Hp Hw2. by apply HQ.
Qed.

Lemma live_rebindForward l f w Q :
  live ∅ [] l (λ _, True) w → is_Some (w_fwd w !! f) →
  (∀ w', live ∅ [] l (λ _, True) w' →
     (∀ f', is_Some (w_fwd w !! f') → is_Some (w_fwd w' !! f')) → Q (Ret tt) w') →
  wp (rebindForward l f) Q w.
Proof.
  intros Hl [F HF] HQ. apply wp_bind. eapply wp_fwd_at; [exact HF|].
  assert (Hdone : Q (Ret tt) w) by (by apply HQ).
  destruct (f_Spec F) as [| spec |]; [by apply wp_ret| |by apply wp_ret].
  destruct (f_closed F) eqn:Hfc; [by apply wp_ret|].
  pose proof Hl as (_ & _ & s & Hs & _).
  apply wp_bind, wp_try. eapply wp_getClient; [exact Hs| |intros; by apply wp_ret]. intros c _.
  destruct Hl as (Hw & Hlk & Hreg).
  apply wp_bind. eapply winv_opens_try; [apply opens_acquire|exact Hw|].
  intros [e|[ln tcp]] n1 Hw1; [by apply wp_ret, HQ|simpl in Hw1].
  apply wp_bind. eapply wp_fwd_at; [exact HF|]. rewrite Hfc. apply wp_bind, wp_modify, wp_bind.
  eapply (winv_close_opt _ []).
  { rewrite app_nil_r. eapply (winv_fwd _ [ln] (option_list (f_listener F)) f F); [exact HF| |exact Hw1].
    unfold own_fwd. destruct tcp; simpl; rewrite Hfc; simpl; solve_Permutation. }
  intros n2 Hw2. apply wp_modify, HQ.
  - split; [by refine (winv_move _ _ _ _ _ _ Hw2)|]. split; [|exact Hreg].
    apply (links_fwd ∅ w f (λ F, let F := F <| f_listener := Some ln |> in
             match tcp with Some p => F <| f_bindPort := p |> | None => F end)); [|exact Hlk].
    by destruct tcp.
  - intros f' Hf'. simpl. destruct (decide (f' = f)) as [->|].
    + rewrite lookup_alter_eq, HF. by eexists.
    + by rewrite lookup_alter_ne.
Qed.

Lemma live_rebindForwards l w Q :
  live ∅ [] l (λ _, True) w → (∀ w', live ∅ [] l (λ _, True) w' → Q (Ret tt) w') →
  wp (rebindForwards l) Q w.
Proof.
  intros Hl HQ. apply wp_bind. eapply live_at; [exact Hl|]. intros s _ _ Hl'.
  apply (wp_forM _ _ (λ L w, live ∅ [] l (λ _, True) w ∧ ∀ f, f ∈ L → is_Some (w_fwd w !! f))).
  - split; [exact Hl|]. intros f Hf. apply list_elem_of_fmap in Hf as ([id f'] & -> & Hin).
    apply elem_of_map_to_list in Hin.
    destruct Hl' as (_ & (_ & _ & _ & Hfs & _) & s' & Hs & _ & <-).
    destruct (Hfs l s id f' Hs Hin) as (F & HF & _). by eexists.
  - clear. intros f L w [Hl Hin]. eapply live_rebindForward; [exact Hl|apply Hin, list_elem_of_here|].
    intros w' Hl' Hkeep. split; [done|]. intros f' Hf'. by apply Hkeep, Hin, list_elem_of_further.
  - intros w' [Hl'' _]. by apply HQ.
Qed.

(** What goes wrong while rebinding is dropped: [continue]. *)
Lemma noerr_rebindForwards l : noerr (rebindForwards l).
Proof.
  unfold rebindForwards, rebindForward, upd_fwd, close_opt, netM. solve_noerr.
Qed.
End facts.
