(* ===== verification/Shell.v ===== *)
(** * Interactive shells (internal/sshx/shell.go)

    Opening, finding, closing and listing shells, the exit of the remote process,
    and the output buffer.  What happens when the pump, the reader and a closer
    run at the same time is in ShellRace.v. *)

From S2P Require Import Prelude GoStrings External Spec Auth World Session.

(** [appendBuffer]: append, then drop from the front what exceeds [maxBuf]. *)
Definition appendBuffer (chunk : bytes) (s : Shell) : Shell :=
  let buf := sh_buffer s ++ chunk in
  if bool_decide (sh_maxBuf s > 0 ∧ Z.of_nat (List.length buf) > sh_maxBuf s)
  then s <| sh_buffer := drop (Z.to_nat (Z.of_nat (List.length buf) - sh_maxBuf s)) buf |>
  else s <| sh_buffer := buf |>.

(** The pump's non-blocking send on [wakeCh]. *)
Definition wake (s : Shell) : Shell := s <| sh_wake := true |>.

(** One turn of [pumpReader] that read [chunk]. *)
Definition pump_chunk (chunk : bytes) (s : Shell) : Shell :=
  match chunk with [] => s | _ => wake (appendBuffer chunk s) end.

Inductive ReadResult := Data (b : bytes) | Eof | TimedOut.

(** The top of [Read]'s loop: what it returns without waiting, or [None] when it
    goes on to the [select]. *)
Definition read_top (remaining : Z) (s : Shell) : option ReadResult * Shell :=
  match sh_buffer s with
  | _ :: _ => (Some (Data (sh_buffer s)), s <| sh_buffer := [] |>)
  | [] =>
    if sh_closed s then (Some Eof, s)
    else if bool_decide (remaining ≤ 0) then (Some TimedOut, s)
    else (None, s)
  end.

(** The case of the [select] on [doneCh]. *)
Definition read_done (s : Shell) : ReadResult * Shell :=
  (match sh_buffer s with [] => Eof | b => Data b end, s <| sh_buffer := [] |>).

(** The pump's loop on the chunks it reads. *)
Definition pump_chunks (chunks : list bytes) (s : Shell) : Shell :=
  foldl (λ s c, pump_chunk c s) s chunks.

(** [Read]: [waits] is what its selects see, in order; after them the timer fires. *)
Fixpoint read_loop (waits : list ShellWait) (remaining : Z) (s : Shell) : ReadResult * Shell :=
  match read_top remaining s with
  | (Some r, s) => (r, s)
  | (None, s) =>
    match waits with
    | [] => (TimedOut, s)
    | Woken chunks remaining :: waits =>
      read_loop waits remaining (pump_chunks chunks s <| sh_wake := false |>)
    | TimerFired chunks :: _ => (TimedOut, pump_chunks chunks s)
    | DoneClosed chunks :: _ => read_done (pump_chunks chunks s)
    end
  end.

Record ShellOptions := mkShellOptions {
  o_Term : string;
  o_Rows : Z;
  o_Cols : Z;
  o_Env : list (string * string);
  o_Command : string;
  o_BufferSize : Z;
}.

Record ShellInfo := mkShellInfo {
  si_ID : string;
  si_SessionID : string;
  si_OpenedAt : Z;
  si_BufferSize : Z;
  si_Closed : bool;
}.

Definition shl_Info (s : Shell) : ShellInfo :=
  mkShellInfo (sh_ID s) (sh_SessionID s) (sh_OpenedAt s) (Z.of_nat (List.length (sh_buffer s)))
    (sh_closed s).

Section shell.
Context {E : Env}.

Definition shl_Write (h : loc) (p : string) : M World Z :=
  s ← shl_at h;
  if sh_closed s then fail (Msg "shell closed") else netM (call (WriteTo (sh_session s) p)).

Definition shl_Read (h : loc) (timeout : Z) : M World ReadResult :=
  s ← shl_at h;
  r ← netM (try (call (ShellWaits timeout)));
  let '(out, s) := read_loop (match r with inr waits => waits | inl _ => [] end) timeout s in
  upd_shl h (λ _, s);;
  mret out.

Definition shl_Resize (h : loc) (rows cols : Z) : M World unit :=
  s ← shl_at h;
  if sh_closed s then fail (Msg "shell closed") else netM (call (WindowChange (sh_session s) rows cols)).

(** The steps of [OpenShell] between [NewSession] and the [Shell] value: an
    error of any of them but [Setenv] and the agent request closes the channel. *)
Definition setup_channel (ch : rid) (fwd : bool) (opts : ShellOptions) : M Net unit :=
  forM_ (o_Env opts) (λ kv, ignore (call (Setenv ch kv.1 kv.2)));;
  (if fwd then ignore (call (RequestAgentForwarding ch)) else mret tt);;
  let rows := if decide (o_Rows opts = 0) then 24 else o_Rows opts in
  let cols := if decide (o_Cols opts = 0) then 80 else o_Cols opts in
  let term := if decide (o_Term opts = "") then "xterm-256color" else o_Term opts in
  wrapE "request pty: %w" (call (RequestPty ch term rows cols));;
  call (StdinPipe ch);;
  call (StdoutPipe ch);;
  call (StderrPipe ch);;
  if decide (o_Command opts = "") then wrapE "start shell: %w" (call (StartShell ch))
  else wrapE "start command: %w" (call (StartCmd ch (o_Command opts))).

(** The registration at the end of [OpenShell], under [shellsMu]. *)
Definition register_shell (l : loc) (shellID : string) (h : loc) : M World loc :=
  s ← sess_at l;
  if closed s then shl_Close h;; fail (Fmt "session %q is closed" [s_ID s]) else
  match shells s !! shellID with
  | Some _ => shl_Close h;; fail (Fmt "shell %q already exists on session %q" [shellID; s_ID s])
  | None => upd_sess l (λ s, s <| shells ::= <[shellID := h]> |>);; mret h
  end.

Definition OpenShell (l : loc) (shellID : string) (opts : ShellOptions) : M World loc :=
  c ← getClient l;
  '(ch, _) ← netM (wrapE "new ssh channel: %w" (acquire (NewSession c)));
  s ← sess_at l;
  r ← netM (try (setup_channel ch (agentForwardOn s) opts));
  match r with
  | inl e => netM (closeR ch);; fail e
  | inr _ =>
    let bufSize := if decide (o_BufferSize opts = 0) then 1024 * 1024 else o_BufferSize opts in
    t ← netM now;
    h ← new_shl (mkShell shellID (s_ID s) l ch [] bufSize false false false t);
    register_shell l shellID h
  end.

(** The waiter goroutine of [OpenShell], once the remote process has ended and
    with it the channel. *)
Definition shell_exited (l h : loc) (shellID : string) : M World unit :=
  s ← shl_at h;
  netM (closeR (sh_session s));;
  upd_shl h (λ s, s <| sh_closed := true |> <| sh_done := true |>);;
  s ← sess_at l;
  if decide (shells s !! shellID = Some h)
  then upd_sess l (λ s, s <| shells ::= delete shellID |>) else mret tt.

Definition GetShell (l : loc) (shellID : string) : M World loc :=
  s ← sess_at l;
  match shells s !! shellID with
  | None => fail (Fmt "shell %q not found on session %q" [shellID; s_ID s])
  | Some h => mret h
  end.

Definition CloseShell (l : loc) (shellID : string) : M World unit :=
  s ← sess_at l;
  match shells s !! shellID with
  | None => fail (Fmt "shell %q not found on session %q" [shellID; s_ID s])
  | Some h =>
    upd_sess l (λ s, s <| shells ::= delete shellID |>);;
    shl_Close h
  end.

Definition ListShells (l : loc) : M World (list ShellInfo) :=
  s ← sess_at l;
  gets (λ w, omap (λ h, shl_Info <$> w_shl w !! h) (map_to_list (shells s)).*2).
End shell.

(** ** Facts *)
Section facts.
Context {E : Env}.
Implicit Types w : World.

Lemma quiet_setup_channel ch fwd opts : quiet (setup_channel ch fwd opts).
Proof.
  unfold setup_channel. apply quiet_bind.
  - induction (o_Env opts) as [|kv l IH]; simpl; [apply quiet_ret|].
    apply quiet_bind; [solve_quiet|done].
  - intros []. cbv zeta. solve_quiet.
Qed.

Lemma OpenShell_sys l sid opts id w Q :
  sys w → sessions w !! id = Some l → (∀ o w', is_panic o = false → sys w' → Q o w') →
  wp (OpenShell l sid opts) Q w.
Proof.
  intros Hw Hid HQ. destruct (sys_live w id l Hw Hid) as (s & Hs & _ & Hl).
  apply wp_bind. eapply wp_getClient; [exact Hs| |by auto]. intros c _.
  apply wp_bind. eapply live_opens; [eauto with opens|exact Hl|].
  intros [[ch []]|e|p] w1 Hp Hl1; [|apply HQ; [done|by eapply live_sys]|done].
  simpl in Hl1. apply wp_bind. eapply live_at; [exact Hl1|]. intros s1 _ [?|Hc] Hl2; [set_solver|].
  apply wp_bind. eapply live_harmless; [apply harmless_try, quiet_setup_channel|exact Hl2|].
  intros [e|[]] w2 Hl3.
  { apply wp_bind. eapply live_close; [exact Hl3|]. intros w3 Hl4.
    apply wp_fail, HQ; [done|]. by eapply live_sys. }
  apply wp_bind. eapply live_harmless; [apply harmless_now|exact Hl3|]. intros t w3 Hl4.
  cbv zeta. set (H := mkShell _ _ _ _ _ _ _ _ _ _).
  apply wp_bind, wp_bind, wp_gets, wp_bind, wp_modify, wp_ret.
  destruct Hl4 as (Hw3 & Hlk & s' & Hs' & Hreg & <-).
  assert (Hw4 : winv (w3 <| w_shl ::= <[w_next w3 := H]> |> <| w_next ::= Pos.succ |>) []).
  { apply winv_new_shl; [by destruct Hlk as (_&_&_&_&?&_)|exact Hw3]. }
  assert (Hrefuse : ∀ e, wp (shl_Close (w_next w3);; fail e) Q
    (w3 <| w_shl ::= <[w_next w3 := H]> |> <| w_next ::= Pos.succ |>)).
  { intros e. apply wp_bind. eapply shl_Close_wp; [simpl; by rewrite lookup_insert_eq|exact Hw4|].
    intros n' c' Hc' w' Hw'. apply wp_fail, HQ; [done|]. split; [exact Hw'|].
    pose proof (links_add_closed_shl ∅ w3 (c' H) (proj1 (Hc' H)) Hlk) as Hlk'.
    assert (alter c' (w_next w3) (<[w_next w3 := H]> (w_shl w3)) = <[w_next w3 := c' H]> (w_shl w3)) as E1
      by apply alter_insert_eq.
    subst w'. destruct w3. unfold upd, upd_w_shl, upd_w_net, upd_w_next in *. simpl in *.
    rewrite E1. exact Hlk'. }
  apply wp_bind. eapply wp_sess_at; [exact Hs'|].
  rewrite Hc.
  destruct (shells s1 !! sid) eqn:Hsid; [by apply Hrefuse|].
  apply wp_bind, wp_modify, wp_ret, HQ; [done|]. split.
  - eapply winv_sess; [exact Hs'|reflexivity|exact Hw4].
  - by apply (links_add_shl ∅ w3 l s1 H).
Qed.

Lemma CloseShell_sys l sid id w Q :
  sys w → sessions w !! id = Some l → (∀ o w', is_panic o = false → sys w' → Q o w') →
  wp (CloseShell l sid) Q w.
Proof.
  intros Hw Hid HQ. destruct (sys_live w id l Hw Hid) as (s & Hs & _ & Hl).
  apply wp_bind. eapply wp_sess_at; [exact Hs|].
  destruct (shells s !! sid) as [h|] eqn:Hh; [|by apply wp_fail, HQ].
  destruct Hw as [Hw Hlk]. pose proof Hlk as (_ & _ & _ & _ & _ & Hhs & _).
  destruct (Hhs l s sid h Hs Hh) as (H & HH & _).
  apply wp_bind, wp_modify. eapply (shl_Close_wp h H); [exact HH| |].
  { eapply winv_sess; [exact Hs|reflexivity|exact Hw]. }
  intros n' c Hc w' Hw'. apply HQ; [done|]. split; [exact Hw'|].
  exact (links_remove_shl ∅ w l s sid h c Hc Hs Hh Hlk).
Qed.

(** The remote process ends while its shell is listed. *)
Lemma shell_exited_sys l sid h H id w Q :
  sys w → sessions w !! id = Some l →
  (∃ s, w_sess w !! l = Some s ∧ shells s !! sid = Some h) →
  w_shl w !! h = Some H → sh_closed H = false →
  (∀ o w', is_panic o = false → sys w' → Q o w') →
  wp (shell_exited l h sid) Q w.
Proof.
  intros [Hw Hlk] Hid (s & Hs & Hh) HH Hc HQ. apply wp_bind. eapply wp_shl_at; [exact HH|].
  apply wp_bind. unfold netM. apply wp_zoom, wp_closeR. apply wp_bind, wp_modify.
  apply wp_bind. eapply wp_sess_at; [exact Hs|]. rewrite decide_True by done.
  apply wp_modify, HQ; [done|]. split.
  - assert (H1 : winv (w <| w_shl ::= alter shl_closed h |>) [sh_session H]).
    { eapply winv_shl; [exact HH| |exact Hw]. unfold own_shl. simpl. by rewrite Hc. }
    pose proof (winv_close_gen _ [] [sh_session H] H1) as H2. simpl in H2.
    rewrite union_empty_r_L in H2.
    eapply winv_sess; [exact Hs|reflexivity|]. exact H2.
  - by apply (links_remove_shl ∅ w l s sid h shl_closed).
Qed.
End facts.
