(* ===== verification/Manager.v ===== *)
(** * The session manager (internal/sshx/manager.go)

    [Connect], [Disconnect], [Reconnect], [CloneSession], [CloseAll], the lists,
    and the keepalive loop with its reconnect schedule.  [attemptReconnect] retries
    until it succeeds or its context ends; [fuel] bounds the attempts, and running
    out of it is the [None] of [reconnect_outcome] (still trying). *)

From S2P Require Import Prelude GoStrings External Spec SshConfig Auth Dial World Session Forward Shell.

Section manager.
Context {E : Env}.
Variable PKH : string → option (list string * option string * string).  (* ssh.ParseKnownHosts *)
Variable CfgGet : string → string → string.                             (* ssh_config.Get *)

(** The depth of ProxyJump resolution allowed before the stack is exhausted. *)
Variable depth : nat.

(** [resolveFromSSHConfig(&spec)]; a recursion deeper than [depth] ends the process. *)
Definition resolveSpec (spec : ConnectSpec) : M World ConnectSpec :=
  home ← netM (try (call UserHomeDir));
  m ← gets w_mem;
  match resolveFromSSHConfig CfgGet (match home with inr h => Some h | inl _ => None end) depth spec m with
  | None => panic "stack overflow"
  | Some (spec, m) => modify (λ w, w <| w_mem := m |>);; mret spec
  end.

Definition dial (spec : ConnectSpec) : M World (rid * list rid * string) :=
  m ← gets w_mem; netM (dialFinal PKH m spec).

(** [time.NewTicker] panics on an interval that is not positive. *)
Definition startKeepalive (l : loc) : M World unit :=
  ctx ← gets w_next;
  modify (λ w, w <| w_next ::= Pos.succ |>);;
  s ← sess_at l;
  if closed s then cancel (Some ctx) else
  upd_sess l (λ s, s <| keepaliveCancel := Some ctx |>);;
  let interval := Keepalive (s_Spec s) in
  let interval := if decide (interval = 0) then 30 * second else interval in
  if bool_decide (interval ≤ 0) then panic "non-positive interval for NewTicker" else
  modify (λ w, w <| w_keepalive ::= <[ctx := (l, interval)]> |>).

(** The fields a new session starts with. *)
Definition Session0 (id : string) (spec : ConnectSpec) : Session :=
  mkSession id spec None [] "" StateConnecting None 0 ∅ ∅ None false None false None false.

(** Connect up to the reservation of the id. *)
Definition connect_user (id : string) (spec : ConnectSpec) : M World ConnectSpec :=
  if decide (id = "") then fail (Msg "session id is required") else
  spec ← resolveSpec spec;
  if decide (User spec = "") then
    u ← netM (getenv "USER");
    if decide (u = "") then
      fail (Msg "user is required (not in spec, not in ssh_config, not in $USER)")
    else mret (spec <| User := u |>)
  else mret spec.
Definition reserve (id : string) (spec : ConnectSpec) : M World loc :=
  m ← gets sessions;
  match m !! id with
  | Some _ => fail (Fmt "session %q already exists" [id])
  | None =>
    l ← new_sess (Session0 id spec);
    modify (λ w, w <| sessions ::= <[id := l]> |>);;
    mret l
  end.

(** The failed dial deletes the entry of [id], whoever's it is; the session lost
    to a Disconnect deletes it only when it is still its own. *)
Definition unreserve (id : string) : M World unit := modify (λ w, w <| sessions ::= delete id |>).
Definition unreserve_own (id : string) (l : loc) : M World unit :=
  modify (λ w, if decide (sessions w !! id = Some l) then w <| sessions ::= delete id |> else w).

(** Connect after [setClient]. *)
Definition connect_rest (l : loc) (spec : ConnectSpec) : M World unit :=
  (if ForwardAgent spec then
     r ← try (enableAgentForwarding l (AgentSocket (Auth spec)));
     match r with
     | inl e => markState l StateConnected (Some (Wrap "agent forwarding: %w" [] e))
     | inr _ => mret tt
     end
   else mret tt);;
  (if bool_decide (Keepalive spec > 0 ∨ AutoReconnect spec = true) then startKeepalive l else mret tt).

Definition Connect (id : string) (spec : ConnectSpec) : M World loc :=
  spec ← connect_user id spec;
  l ← reserve id spec;
  r ← try (dial spec);
  match r with
  | inl e => unreserve id;; fail e
  | inr (c, jumps, addr) =>
    ok ← setClient l c jumps addr;
    if ok : bool then connect_rest l spec;; mret l
    else unreserve_own id l;; fail (Msg "session was disconnected during connect")
  end.

(** Disconnect under [m.mu]: take the session out of the map. *)
Definition unregister (id : string) : M World loc :=
  l ← Get id;
  modify (λ w, w <| sessions ::= delete id |>);;
  mret l.
Definition Disconnect (id : string) : M World unit := l ← unregister id; close l.

Definition lock_reconnect (l : loc) (b : bool) : M World unit :=
  upd_sess l (λ s, s <| reconnectMu := b |>).

(** The body of Reconnect, under [reconnectMu]. *)
Definition reconnect_body (l : loc) : M World loc :=
  clearClient l;;
  markState l StateReconnecting None;;
  s ← sess_at l;
  r ← try (dial (s_Spec s));
  match r with
  | inl e => markState l StateDisconnected (Some e);; fail e
  | inr (c, jumps, addr) =>
    ok ← setClient l c jumps addr;
    if ok : bool then rebindForwards l;; mret l
    else fail (Msg "session was closed during reconnect")
  end.
Definition Reconnect (id : string) : M World loc :=
  l ← Get id;
  lock_reconnect l true;;
  finally (reconnect_body l) (lock_reconnect l false).

Definition CloneSession (srcID newID : string) : M World loc :=
  l ← Get srcID;
  s ← sess_at l;
  Connect newID (s_Spec s).

Fixpoint infos (ls : list loc) : M World (list SessionInfo) :=
  match ls with
  | [] => mret []
  | l :: ls => i ← Info l; rest ← infos ls; mret (i :: rest)
  end.
Definition List : M World (list SessionInfo) :=
  m ← gets sessions; infos (map_to_list m).*2.

(** The map copy that [Sessions] returns. *)
Definition Sessions : M World (gmap string loc) := gets sessions.

Definition CloseAll : M World unit :=
  m ← gets sessions;
  forM_ (map_to_list m) (λ p, close p.2;; modify (λ w, w <| sessions ::= delete p.1 |>)).

(** ** Keepalive *)
Definition backoff : list Z := [1 * second; 2 * second; 5 * second; 10 * second; 30 * second].
(** The wait after the failed attempt number [i]. *)
Definition backoff_wait (i : nat) : Z := nth i backoff (30 * second).

Definition ctx_done (ctx : loc) (w : World) : bool := bool_decide (ctx ∈ w_cancelled w).

(** The loop of attemptReconnect.  [canceled i] says that the context ends during
    the wait after attempt [i].  The result lists the waits. *)
Fixpoint reconnect_loop (fuel : nat) (ctx l : loc) (canceled : nat → bool) (i : nat) (waits : list Z)
    : M World (option (list Z)) :=
  match fuel with
  | O => mret None
  | S fuel =>
    done ← gets (ctx_done ctx);
    if done : bool then mret (Some waits) else
    s ← sess_at l;
    r ← try (dial (s_Spec s));
    match r with
    | inr (c, jumps, addr) =>
      ok ← setClient l c jumps addr;
      (if ok : bool then rebindForwards l else mret tt);;
      mret (Some waits)
    | inl e =>
      markState l StateReconnecting (Some e);;
      if canceled i then mret (Some (waits ++ [backoff_wait i]))
      else reconnect_loop fuel ctx l canceled (S i) (waits ++ [backoff_wait i])
    end
  end.

Definition attemptReconnect (fuel : nat) (ctx l : loc) (canceled : nat → bool)
    : M World (option (list Z)) :=
  s ← sess_at l;
  if reconnectMu s then mret (Some []) else
  lock_reconnect l true;;
  clearClient l;;
  markState l StateReconnecting None;;
  r ← reconnect_loop fuel ctx l canceled 0%nat [];
  lock_reconnect l false;;
  mret r.

(** One tick of runKeepalive: [true] when the loop goes on. *)
Definition keepalive_tick (fuel : nat) (ctx l : loc) (canceled : nat → bool) : M World bool :=
  done ← gets (ctx_done ctx);
  if done : bool then mret false else
  s ← sess_at l;
  r ← try (getClient l);
  match r with
  | inl _ =>
    (if AutoReconnect (s_Spec s) then attemptReconnect fuel ctx l canceled;; mret tt else mret tt);;
    mret true
  | inr c =>
    r ← netM (try (call (SendRequest c "keepalive@openssh.com")));
    match r with
    | inr _ => mret true
    | inl e =>
      (if AutoReconnect (s_Spec s) then attemptReconnect fuel ctx l canceled;; mret tt
       else markState l StateDisconnected (Some e));;
      mret true
    end
  end.
End manager.

(** ** The calls a client can make, one after the other *)
Inductive mcall :=
  | CConnect (id : string) (addrs : list string) (jumps : list JumpHost) (spec : ConnectSpec)
  | CDisconnect (id : string)
  | CReconnect (id : string)
  | CClone (src new : string)
  | CCloseAll
  | COpenLocal (sid fid : string) (spec : LocalSpec)
  | COpenRemote (sid fid : string) (spec : RemoteSpec)
  | COpenDynamic (sid fid : string) (spec : DynamicSpec)
  | CCloseForward (sid fid : string)
  | COpenShell (sid shid : string) (opts : ShellOptions)
  | CCloseShell (sid shid : string)
  | CSftp (sid : string).

Section calls.
Context {E : Env}.
Variable PKH : string → option (list string * option string * string).
Variable CfgGet : string → string → string.
Variable depth : nat.

(** Decoding a request allocates its slices. *)
Definition alloc_spec (addrs : list string) (jumps : list JumpHost) (spec : ConnectSpec)
    : M World ConnectSpec := λ w,
  let '(a, m) := new_addrs addrs (w_mem w) in
  let '(j, m) := new_jumps jumps m in
  (Ret (spec <| Addresses := a |> <| JumpHosts := j |>), w <| w_mem := m |>).

Definition run_call (c : mcall) : M World unit :=
  match c with
  | CConnect id addrs jumps spec =>
    spec ← alloc_spec addrs jumps spec; Connect PKH CfgGet depth id spec;; mret tt
  | CDisconnect id => Disconnect id
  | CReconnect id => Reconnect PKH id;; mret tt
  | CClone src new => CloneSession PKH CfgGet depth src new;; mret tt
  | CCloseAll => CloseAll
  | COpenLocal sid fid spec => OpenLocalForward sid fid spec;; mret tt
  | COpenRemote sid fid spec => OpenRemoteForward sid fid spec;; mret tt
  | COpenDynamic sid fid spec => OpenDynamicForward sid fid spec;; mret tt
  | CCloseForward sid fid => CloseForward sid fid
  | COpenShell sid shid opts => l ← Get sid; OpenShell l shid opts;; mret tt
  | CCloseShell sid shid => l ← Get sid; CloseShell l shid
  | CSftp sid => l ← Get sid; sftpClient l;; mret tt
  end.

(** A call that fails reports its error; the next one is made all the same. *)
Fixpoint run_calls (cs : list mcall) : M World unit :=
  match cs with
  | [] => mret tt
  | c :: cs => ignore (run_call c);; run_calls cs
  end.
End calls.

(** ** Facts *)
Section facts.
Context {E : Env} (PKH : string → option (list string * option string * string)).
Context (CfgGet : string → string → string) (depth : nat).
Implicit Types w : World.

Lemma sys_same w w' :
  sys w → w_net w' = w_net w → sessions w' = sessions w → w_sess w' = w_sess w →
  w_fwd w' = w_fwd w → w_shl w' = w_shl w → w_next w' = w_next w →
  w_keepalive w' = w_keepalive w → w_cancelled w' = w_cancelled w → sys w'.
Proof.
  destruct w, w'; simpl. intros [Hw Hl] -> -> -> -> -> -> -> ->. split; [|exact Hl].
  by refine (winv_move _ _ _ _ _ _ Hw).
Qed.

Lemma sys_harmless {A} (m : M Net A) w Q :
  harmless m → sys w → (∀ a w', sys w' → Q (Ret a) w') → wp (netM m) Q w.
Proof.
  intros Hm [Hw Hl] HQ. unfold netM. apply wp_zoom, harmless_wp; [done|].
  intros a n' Ho Hn. apply HQ. split; [|done].
  destruct Hw as [? ? Hopen]. split; simpl; [by eapply net_wf_same|done|by rewrite Ho].
Qed.

Lemma connect_user_sys id spec w Q :
  sys w →
  (∀ o w', (∀ p, o = Panic p → p = "stack overflow") → sys w' →
     (∀ sp, o = Ret sp → Keepalive sp = Keepalive spec) → Q o w') →
  wp (connect_user CfgGet depth id spec) Q w.
Proof.
  intros Hw HQ. unfold connect_user. case_decide; [apply wp_fail, HQ; naive_solver|].
  apply wp_bind. unfold resolveSpec. apply wp_bind.
  eapply sys_harmless; [apply harmless_try; solve_quiet|exact Hw|]. clear w Hw. intros home w Hw.
  apply wp_bind, wp_gets.
  destruct (resolveFromSSHConfig _ _ _ _ _) as [[sp m]|] eqn:Hres;
    [|apply wp_panic, HQ; naive_solver].
  apply resolve_shape in Hres as (_ & Hsp & _).
  assert (Hka : Keepalive sp = Keepalive spec) by (by rewrite Hsp). clear Hsp.
  apply wp_bind, wp_modify, wp_ret.
  assert (Hw' : sys (w <| w_mem := m |>)) by (by eapply sys_same). revert Hw'.
  generalize (w <| w_mem := m |>). clear w Hw. intros w Hw.
  case_decide; [|apply wp_ret, HQ; naive_solver].
  apply wp_bind. eapply sys_harmless; [apply harmless_getenv|exact Hw|].
  intros u w' Hw'. case_decide; [apply wp_fail, HQ; naive_solver|apply wp_ret, HQ; naive_solver].
Qed.

Lemma reserve_sys id spec w Q :
  sys w → 0 ≤ Keepalive spec →
  (∀ e, Q (Err e) w) →
  (∀ l w', live ∅ [] l (λ s, own_sess s = [] ∧ forwards s = ∅ ∧ shells s = ∅ ∧
                          keepaliveCancel s = None ∧ s_Spec s = spec ∧ s_ID s = id) w' →
     sessions w' !! id = Some l → Q (Ret l) w') →
  wp (reserve id spec) Q w.
Proof.
  intros [Hw Hlk] Hka HQe HQ. apply wp_bind, wp_gets.
  destruct (sessions w !! id) as [l0|] eqn:Hid; [by apply wp_fail|].
  apply wp_bind, wp_bind, wp_gets, wp_bind, wp_modify, wp_ret, wp_bind, wp_modify, wp_ret.
  set (l := w_next w). apply HQ; [|simpl; by rewrite lookup_insert_eq].
  pose proof Hlk as (Hs & Hr & Hf & Hfs & Hh & Hhs & Hk).
  assert (Hnew : ∀ l' s', w_sess w !! l' = Some s' → l' ≠ l).
  { intros l' s' Hl'. destruct (Hs _ _ Hl') as [? _]. unfold l. lia. }
  split_and!.
  - assert (H1 : winv (w <| w_sess ::= <[w_next w := Session0 id spec]> |> <| w_next ::= Pos.succ |>) [])
      by (by apply winv_new_sess). by refine (winv_move _ _ _ _ _ _ H1).
  - split_and!; unfold sess_ok, reg_ok, fwd_ok, fwds_ok, shl_ok, shls_ok, keep_ok; simpl.
    + intros l' s' [[<- <-]|[Hne Hl']]%lookup_insert_Some.
      { split_and!; [lia|done|]. right; left. split; [done|]. exists id. by rewrite lookup_insert_eq. }
      destruct (Hs _ _ Hl') as (? & ? & Hc). split_and!; [lia|done|].
      destruct Hc as [?|[[? [id' Hid']]|[? Hno]]]; [by left| |].
      * right; left. split; [done|]. exists id'. rewrite lookup_insert_ne; [done|]. congruence.
      * right; right. split; [done|]. intros id'. destruct (decide (id = id')) as [<-|].
        -- rewrite lookup_insert_eq. congruence.
        -- by rewrite lookup_insert_ne.
    + intros id' l' [[<- <-]|[Hne Hl']]%lookup_insert_Some.
      { eexists. by rewrite lookup_insert_eq. }
      destruct (Hr _ _ Hl') as (s' & Hs' & <-). exists s'.
      rewrite lookup_insert_ne by (intros <-; by eapply Hnew). done.
    + intros f F HF. destruct (Hf f F HF) as [? Hc]. split; [lia|].
      destruct Hc as [?|(s' & Hs' & ?)]; [by left|]. right. exists s'.
      rewrite lookup_insert_ne by (intros Heq; symmetry in Heq; by eapply Hnew). done.
    + intros l' s' id' f [[<- <-]|[Hne Hl']]%lookup_insert_Some; [done|]. by eapply Hfs.
    + intros f F HF. destruct (Hh f F HF) as [? Hc]. split; [lia|].
      destruct Hc as [?|(s' & Hs' & ?)]; [by left|]. right. exists s'.
      rewrite lookup_insert_ne by (intros Heq; symmetry in Heq; by eapply Hnew). done.
    + intros l' s' id' f [[<- <-]|[Hne Hl']]%lookup_insert_Some; [done|]. by eapply Hhs.
    + intros c l' i Hc. destruct (Hk c l' i Hc) as [? Hkc]. split; [lia|].
      destruct Hkc as [?|(s' & Hs' & ?)]; [by left|]. right. exists s'.
      rewrite lookup_insert_ne by (intros Heq; symmetry in Heq; by eapply Hnew). done.
  - exists (Session0 id spec). simpl. rewrite lookup_insert_eq. split; [done|].
    split; [right; split; [done|exists id; by rewrite lookup_insert_eq]|done].
Qed.

Lemma live_dial_try spec l P w Q :
  live ∅ [] l P w →
  (∀ c js addr w', live ∅ (js ++ [c]) l P w' → Q (Ret (inr (c, js, addr))) w') →
  (∀ e w', live ∅ [] l P w' → Q (Ret (inl e)) w') →
  wp (try (dial PKH spec)) Q w.
Proof.
  intros Hl HQ HQe. apply wp_try, wp_bind, wp_gets.
  eapply live_opens; [apply (opens_dialFinal PKH)|exact Hl|].
  intros [[[c js] addr]|e|p] w' Hp Hl'; [|by apply HQe|done].
  apply HQ. by rewrite app_nil_r in Hl'.
Qed.

Lemma links_delete xs w id l s :
  sessions w !! id = Some l → w_sess w !! l = Some s → (l ∈ xs ∨ emptied s) →
  links xs w → links xs (w <| sessions ::= delete id |>).
Proof.
  intros Hid Hl Hx (Hs & Hr & Hrest). split; [|split; [|exact Hrest]].
  - intros l' s' Hl'. simpl in Hl'. destruct (Hs l' s' Hl') as (? & ? & Hc).
    split_and!; [done|done|]. simpl. destruct (decide (l' = l)) as [->|Hne].
    + rewrite Hl in Hl'. injection Hl' as <-. destruct Hx as [?|?]; [by left|].
      right; right. split; [done|]. intros id' [Hne Hid']%lookup_delete_Some.
      destruct (Hr _ _ Hid) as (? & ? & ?). destruct (Hr _ _ Hid') as (? & ? & ?). congruence.
    + destruct Hc as [?|[[? [id' Hid']]|[? Hno]]]; [by left| |].
      * right; left. split; [done|]. exists id'. rewrite lookup_delete_ne; [done|]. congruence.
      * right; right. split; [done|]. intros id' [_ Hid']%lookup_delete_Some. by eapply Hno.
  - intros id' l' Hid'. simpl in Hid'. apply lookup_delete_Some in Hid' as [_ Hid']. by apply Hr.
Qed.

Lemma startKeepalive_sys l w Q :
  live ∅ [] l (λ s, keepaliveCancel s = None) w →
  (∀ w', sys w' → Q (Ret tt) w') →
  wp (startKeepalive l) Q w.
Proof.
  intros (Hw & Hlk & s & Hl & [?|[Hc Hid]] & Hka) HQ; [set_solver|].
  apply wp_bind, wp_gets, wp_bind, wp_modify, wp_bind. eapply wp_sess_at; [exact Hl|]. rewrite Hc.
  apply wp_bind, wp_modify. pose proof Hlk as (Hs & Hr & Hf & Hfs & Hh & Hhs & Hk).
  destruct (Hs l s Hl) as (Hlt & Hpos & _). cbv zeta.
  rewrite bool_decide_false by (case_decide; unfold second; lia).
  apply wp_modify, HQ. set (ctx := w_next w).
  set (g := λ s : Session, s <| keepaliveCancel := Some ctx |>).
  assert (Hfind : ∀ l' s', w_sess w !! l' = Some s' →
    ∃ s'', alter g l (w_sess w) !! l' = Some s'' ∧ forwards s'' = forwards s' ∧
         shells s'' = shells s' ∧ s_ID s'' = s_ID s' ∧
         (l' ≠ l → keepaliveCancel s'' = keepaliveCancel s')).
  { intros l' s' Hl'. destruct (decide (l' = l)) as [->|Hne].
    - exists (g s'). by rewrite lookup_alter_eq, Hl'.
    - exists s'. by rewrite lookup_alter_ne. }
  split.
  { assert (H1 : winv (w <| w_sess ::= alter g l |>) []) by (by eapply winv_sess).
    by refine (winv_move _ _ _ _ _ _ H1). }
  split_and!; unfold sess_ok, reg_ok, fwd_ok, fwds_ok, shl_ok, shls_ok, keep_ok; simpl.
  - intros l' s' [[-> (s1 & Hs1 & ->)]|[Hne Hl']]%lookup_alter_Some.
    + destruct (Hs _ _ Hs1) as (? & ? & _). split_and!; [lia|done|]. right; left.
      rewrite Hl in Hs1. injection Hs1 as <-. done.
    + destruct (Hs _ _ Hl') as (? & ? & ?). split_and!; [lia|done|done].
  - intros id' l' Hid'. destruct (Hr id' l' Hid') as (s' & Hs' & <-).
    destruct (Hfind _ _ Hs') as (s'' & -> & _ & _ & E1 & _). by eexists.
  - intros f F HF. destruct (Hf f F HF) as [? Hcf]. split; [lia|].
    destruct Hcf as [?|(s' & Hs' & Hin)]; [by left|]. right.
    destruct (Hfind _ _ Hs') as (s'' & -> & E1 & _). exists s''. by rewrite E1.
  - intros l' s' id f [[-> (s1 & Hs1 & ->)]|[_ Hl']]%lookup_alter_Some; intros; by eapply Hfs.
  - intros h H HH. destruct (Hh h H HH) as [? Hch]. split; [lia|].
    destruct Hch as [?|(s' & Hs' & Hin)]; [by left|]. right.
    destruct (Hfind _ _ Hs') as (s'' & -> & _ & E1 & _). exists s''. by rewrite E1.
  - intros l' s' id f [[-> (s1 & Hs1 & ->)]|[_ Hl']]%lookup_alter_Some; intros; by eapply Hhs.
  - intros c l' i [[<- [= <- <-]]|[Hne Hci]]%lookup_insert_Some.
    { split; [lia|]. right. exists (g s). by rewrite lookup_alter_eq, Hl. }
    destruct (Hk c l' i Hci) as [? Hkc]. split; [lia|].
    destruct Hkc as [?|(s' & Hs' & Hin)]; [by left|]. right.
    destruct (Hfind _ _ Hs') as (s'' & -> & _ & _ & _ & E1). exists s''. split; [done|].
    rewrite E1; [done|]. intros ->. congruence.
Qed.

(** The part of the outcome the calls agree on. *)
Definition no_crash {A} (o : outcome A) : Prop := ∀ p, o = Panic p → p = "stack overflow".

Lemma connect_rest_sys l spec c w Q :
  live ∅ [] l (λ s, client s = Some c ∧ agentForwardConn s = None ∧ keepaliveCancel s = None) w →
  (∀ w', sys w' → Q (Ret tt) w') →
  wp (connect_rest l spec) Q w.
Proof.
  intros Hl HQ. assert (Hst : stable (λ s, keepaliveCancel s = None)).
  { intros s s' (_ & _ & E1) E2. congruence. }
  apply wp_bind. apply (wp_mono _ (λ o w', o = Ret tt ∧ live ∅ [] l (λ s, keepaliveCancel s = None) w')).
  - assert (Hl0 : live ∅ [] l (λ s, keepaliveCancel s = None) w)
      by (eapply live_mono; [exact Hl|naive_solver]).
    destruct (ForwardAgent spec); [|by apply wp_ret].
    apply wp_bind, wp_try. eapply live_enableAgentForwarding; [exact Hst|exact Hl|].
    intros [[]|e|p] w' Hp Hl'; [by apply wp_ret| |done].
    eapply live_markState; [exact Hl'|]. intros w2 Hl2. split; [done|].
    eapply live_mono; [exact Hl2|]. intros s (s0 & E0 & (_ & _ & E1) & _). congruence.
  - intros o w' [-> Hl']. case_bool_decide; [by apply startKeepalive_sys|].
    apply wp_ret, HQ. by eapply live_sys.
Qed.

Lemma Connect_sys id spec w Q :
  sys w → 0 ≤ Keepalive spec → (∀ o w', no_crash o → sys w' → Q o w') →
  wp (Connect PKH CfgGet depth id spec) Q w.
Proof.
  intros Hw Hka HQ. apply wp_bind. eapply connect_user_sys; [exact Hw|].
  intros [sp|e|p] w1 Hp Hw1 Hsp; [|by apply HQ|apply HQ; [intros ? [= <-]; by apply Hp|done]].
  apply wp_bind. eapply reserve_sys; [exact Hw1|by rewrite (Hsp sp)|intros e; by apply HQ|].
  intros l w2 Hl Hid. apply wp_bind. eapply live_dial_try; [exact Hl| |].
  - intros c js addr w3 Hl3. apply wp_bind.
    eapply (live_setClient l c js addr ∅ [] (λ s, keepaliveCancel s = None)); [set_solver| | |].
    + intros s s' (_ & _ & E1) E2. congruence.
    + eapply live_mono; [exact Hl3|]. naive_solver.
    + intros w4 Hl4. apply wp_bind. eapply connect_rest_sys; [exact Hl4|].
      intros w5 Hw5. by apply wp_ret, HQ.
  - intros e w3 (Hw3 & Hlk & s & Hs & [?|[_ [id' Hid']]] & (Ho & Hf & Hh & Hk & _ & HID)); [set_solver|].
    apply wp_bind, wp_modify, wp_fail, HQ; [done|].
    split; [by refine (winv_move _ _ _ _ _ _ Hw3)|].
    destruct (proj1 (proj2 Hlk) _ _ Hid') as (s' & Hs' & <-). rewrite Hs in Hs'. injection Hs' as <-.
    rewrite HID in Hid'. eapply links_delete; [exact Hid'|exact Hs|by right|exact Hlk].
Qed.

Lemma close_sys id l w Q :
  sys w → sessions w !! id = Some l →
  (∀ w', winv w' [] → links {[l]} w' → sessions w' = sessions w →
     (∃ s, w_sess w' !! l = Some s ∧ emptied s) → Q (Ret tt) w') →
  wp (close l) Q w.
Proof.
  intros Hw Hid HQ. destruct (sys_live w id l Hw Hid) as (s & Hs & Hc & _).
  destruct Hw as [Hw Hlk]. apply close_wp; [exact Hw| |by eauto|exact HQ].
  eapply links_weaken; [|exact Hlk]. set_solver.
Qed.

(** Once emptied and out of the map, a session is an ordinary one again. *)
Lemma links_emptied w l s :
  links {[l]} w → w_sess w !! l = Some s → emptied s → (∀ id, sessions w !! id ≠ Some l) → links ∅ w.
Proof.
  intros (Hs & Hrest) Hl He Hno. split; [|done]. intros l' s' Hl'.
  destruct (Hs l' s' Hl') as (? & ? & Hc). split_and!; [done|done|].
  destruct (decide (l' = l)) as [->|Hne]; [|by destruct Hc as [?|?]; [set_solver|auto]].
  right; right. rewrite Hl in Hl'. by injection Hl' as <-.
Qed.
Lemma delete_no_other w id l xs :
  links xs w → sessions w !! id = Some l → ∀ id', delete id (sessions w) !! id' ≠ Some l.
Proof.
  intros (_ & Hr & _) Hid id' [Hne Hid']%lookup_delete_Some.
  destruct (Hr _ _ Hid) as (? & ? & ?). destruct (Hr _ _ Hid') as (? & ? & ?). congruence.
Qed.

Lemma Disconnect_sys id w Q :
  sys w → (∀ o w', no_crash o → sys w' → Q o w') → wp (Disconnect id) Q w.
Proof.
  intros Hw HQ. apply wp_bind, wp_bind, wp_Get; [|by intros; apply HQ]. intros l Hid.
  destruct (sys_live w id l Hw Hid) as (s & Hs & Hc & _). destruct Hw as [Hw Hlk].
  apply wp_bind, wp_modify, wp_ret, close_wp.
  - by refine (winv_move _ _ _ _ _ _ Hw).
  - eapply links_delete; [exact Hid|exact Hs|left; set_solver|].
    eapply links_weaken; [|exact Hlk]. set_solver.
  - by eauto.
  - intros w' Hw' Hlk' Hsame (s' & Hs' & He). apply HQ; [done|]. split; [done|].
    eapply links_emptied; [exact Hlk'|exact Hs'|exact He|].
    rewrite Hsame. simpl. by eapply delete_no_other.
Qed.

Lemma CloseAll_sys w Q :
  sys w → (∀ w', sys w' → sessions w' = ∅ → Q (Ret tt) w') → wp CloseAll Q w.
Proof.
  intros Hw HQ. apply wp_bind, wp_gets.
  apply (wp_forM _ _ (λ L w, NoDup L.*1 ∧ sys w ∧
     ∀ id l, sessions w !! id = Some l ↔ (id, l) ∈ L)).
  - split_and!; [apply NoDup_fst_map_to_list|done|]. intros id l. by rewrite elem_of_map_to_list.
  - clear w Hw. intros [id l] L w (Hnd & Hw & Hin).
    assert (Hid : sessions w !! id = Some l) by (apply Hin, list_elem_of_here).
    apply wp_bind. eapply close_sys; [exact Hw|exact Hid|]. intros w' Hw' Hlk' Hsame (s & Hs & He).
    apply wp_modify. inversion Hnd as [|? ? Hnin Hnd']; subst. split_and!; [done| |].
    + split; [by refine (winv_move _ _ _ _ _ _ Hw')|].
      rewrite <- Hsame in Hid.
      eapply (links_emptied _ l s); [|exact Hs|exact He|by eapply delete_no_other].
      eapply links_delete; [exact Hid|exact Hs|left; set_solver|exact Hlk'].
    + intros id' l'. simpl. rewrite lookup_delete_Some, Hsame, Hin, elem_of_cons. split.
      * intros [Hne [?|?]]; [congruence|done].
      * intros HL. split; [|by right]. intros <-. apply Hnin. apply list_elem_of_fmap. by exists (id, l').
  - intros w' (_ & Hw' & Hin). apply HQ; [done|]. apply map_empty. intros id.
    destruct (sessions w' !! id) eqn:E1; [|done]. apply Hin in E1. by apply elem_of_nil in E1.
Qed.

Lemma live_lock l b T P w Q :
  live ∅ T l P w → stable P → (∀ w', live ∅ T l P w' → Q (Ret tt) w') → wp (lock_reconnect l b) Q w.
Proof.
  intros Hl HP HQ. eapply live_upd; [exact Hl|done| |exact HQ].
  intros s Hs. split; [done|]. by apply (HP s).
Qed.

Lemma Reconnect_sys id w Q :
  sys w → (∀ o w', is_panic o = false → sys w' → Q o w') → wp (Reconnect PKH id) Q w.
Proof.
  intros Hw HQ. apply wp_bind, wp_Get; [|by intros; apply HQ]. intros l Hid.
  destruct (sys_live w id l Hw Hid) as (s & Hs & Hc & Hl). clear Hw.
  apply wp_bind. eapply (live_lock l _ _ (λ _, True)); [by eapply live_mono|done|].
  clear w Hid Hs Hl. intros w Hl.
  assert (Hend : ∀ (o : outcome (error + loc)) w, is_panic o = false → live ∅ [] l (λ _, True) w →
    (match o with
     | Ret r => wp (lock_reconnect l false;; match r with inr a => mret a | inl e => fail e end) Q w
     | _ => False end) ∨ ∃ e, o = Err e).
  { intros [r|e|p] w' Hp Hl'; [|by eauto|done]. left. apply wp_bind.
    eapply (live_lock l _ _ (λ _, True)); [exact Hl'|done|]. intros w2 Hl2.
    destruct r; [apply wp_fail|apply wp_ret]; apply HQ; try done; by eapply live_sys. }
  apply wp_bind, wp_try.
  assert (Hfin : ∀ o w', is_panic o = false → live ∅ [] l (λ _, True) w' →
    match o with
    | Ret a => wp (lock_reconnect l false;; mret a) Q w'
    | Err e => wp (lock_reconnect l false;; fail e) Q w'
    | Panic p => Q (Panic p) w' end).
  { intros [a|e|p] w' Hp Hl'; [| |done].
    - by destruct (Hend (Ret (inr a)) w' eq_refl Hl') as [?|[? ?]].
    - by destruct (Hend (Ret (inl e)) w' eq_refl Hl') as [?|[? ?]]. }
  clear Hend. apply (wp_mono _ (λ o w', is_panic o = false ∧ live ∅ [] l (λ _, True) w')).
  2:{ intros o w' [Hp Hl']. specialize (Hfin o w' Hp Hl'). by destruct o. }
  clear Hfin. apply wp_bind. eapply live_clearClient; [exact Hl|]. clear w Hl. intros w Hl.
  apply wp_bind. eapply live_markState; [exact Hl|]. clear w Hl. intros w Hl.
  assert (Hl0 : live ∅ [] l (λ s, own_sess s = [] ∧ True) w).
  { eapply live_mono; [exact Hl|]. intros s' (s0 & [H1 _] & _ & H2). split; [congruence|done]. }
  apply wp_bind. eapply live_at; [exact Hl0|]. intros s1 [Ho1 _] _ Hl1.
  apply wp_bind. eapply live_dial_try; [exact Hl0| |].
  - intros c js addr w3 Hl3. apply wp_bind.
    eapply (live_setClient l c js addr ∅ [] (λ _, True)); [set_solver|done|exact Hl3|].
    intros w4 Hl4. apply wp_bind. eapply live_rebindForwards; [by eapply live_mono|].
    intros w5 Hl5. by apply wp_ret.
  - intros e w3 Hl3. apply wp_bind. eapply live_markState; [exact Hl3|]. intros w4 Hl4.
    apply wp_fail. split; [done|]. by eapply live_mono.
Qed.

Lemma CloneSession_sys src new w Q :
  sys w → (∀ o w', no_crash o → sys w' → Q o w') →
  wp (CloneSession PKH CfgGet depth src new) Q w.
Proof.
  intros Hw HQ. apply wp_bind, wp_Get; [|by intros; apply HQ]. intros l Hid.
  destruct (sys_live w src l Hw Hid) as (s & Hs & _ & _).
  apply wp_bind. eapply wp_sess_at; [exact Hs|]. apply Connect_sys; [done| |done].
  destruct Hw as [_ (Hall & _)]. by destruct (Hall l s Hs) as (_ & ? & _).
Qed.

Lemma sftpClient_sys l id w Q :
  sys w → sessions w !! id = Some l → (∀ o w', no_crash o → sys w' → Q o w') →
  wp (sftpClient l) Q w.
Proof.
  intros Hw Hid HQ. destruct (sys_live w id l Hw Hid) as (s & Hs & _ & Hl).
  apply wp_bind. eapply wp_sess_at; [exact Hs|]. destruct (sftp s) eqn:Hsf; [by apply wp_ret, HQ|].
  apply wp_bind. eapply wp_getClient; [exact Hs| |intros; by apply HQ]. intros c _.
  apply wp_bind. eapply live_opens; [eauto with opens|exact Hl|].
  intros [[sc []]|e|p] w1 Hp Hl1; [|apply HQ; [done|by eapply live_sys]|done].
  apply wp_bind. eapply (live_upd _ ∅ [sc] [] l (eq s) (λ _, True)); [exact Hl1|done| |].
  - intros ? <-. split; [|done]. unfold own_sess. simpl. rewrite Hsf. simpl. solve_Permutation.
  - intros w2 Hl2. apply wp_ret, HQ; [done|]. by eapply live_sys.
Qed.
End facts.
