(* ===== verification/ManagerProps.v ===== *)
(** * What the session manager guarantees

    For calls made one after the other: nothing leaks, [CloseAll] closes
    everything, a failed [Connect] leaves no trace, a [Reconnect] keeps the session
    and its forwards (and loses agent forwarding), and the waits between reconnect
    attempts follow the schedule.  Calls that overlap are in Lifecycle.v. *)

From S2P Require Import Prelude GoStrings External Spec SshConfig Auth Dial World Session Forward Shell Manager.

(** A resource that the manager can still reach, through a session it lists. *)
Definition reachable (w : World) (r : rid) : Prop := ∃ id l s,
  sessions w !! id = Some l ∧ w_sess w !! l = Some s ∧ closed s = false ∧
  (r ∈ own_sess s ∨
   (∃ fid f F, forwards s !! fid = Some f ∧ w_fwd w !! f = Some F ∧ r ∈ own_fwd F) ∨
   (∃ sid h H, shells s !! sid = Some h ∧ w_shl w !! h = Some H ∧ r ∈ own_shl H)).

(** The objects that hold resources, and what each holds. *)
Inductive owner := OSession (l : loc) | OForward (f : loc) | OShell (h : loc).
Definition owns (w : World) (o : owner) : list rid :=
  match o with
  | OSession l => from_option own_sess [] (w_sess w !! l)
  | OForward f => from_option own_fwd [] (w_fwd w !! f)
  | OShell h => from_option own_shl [] (w_shl w !! h)
  end.

Definition call_ok (c : mcall) : Prop :=
  match c with CConnect _ _ _ spec => 0 ≤ Keepalive spec | _ => True end.

Section props.
Context {E : Env} (PKH : string → option (list string * option string * string)).
Context (CfgGet : string → string → string) (depth : nat).
Implicit Types w : World.

Lemma elem_of_held {A} (res : A → list rid) m r :
  r ∈ held res m ↔ ∃ l a, m !! l = Some a ∧ r ∈ res a.
Proof.
  unfold held. rewrite list_elem_of_bind. split.
  - intros (a & Hr & Ha). apply list_elem_of_fmap in Ha as ([l b] & -> & Hb).
    apply elem_of_map_to_list in Hb. by eauto.
  - intros (l & a & Ha & Hr). exists a. split; [done|]. apply list_elem_of_fmap.
    exists (l, a). by rewrite elem_of_map_to_list.
Qed.

Lemma owns_held w o r :
  r ∈ owns w o → match o with
  | OSession _ => r ∈ held own_sess (w_sess w)
  | OForward _ => r ∈ held own_fwd (w_fwd w)
  | OShell _ => r ∈ held own_shl (w_shl w)
  end.
Proof.
  destruct o as [l|l|l]; simpl; destruct (_ !! l) eqn:Hl; simpl; intros Hr;
    first [by apply elem_of_nil in Hr|apply elem_of_held; eauto].
Qed.

(** Within one heap, an object lists a resource once and no other object lists it. *)
Lemma held_unique {A} (res : A → list rid) m l a :
  NoDup (held res m) → m !! l = Some a →
  NoDup (res a) ∧ ∀ l' a' r, r ∈ res a → m !! l' = Some a' → r ∈ res a' → l' = l.
Proof.
  intros Hnd Hl. rewrite (held_lookup res m l a Hl) in Hnd.
  apply NoDup_app in Hnd as (Hnd & Hdis & _). split; [done|]. intros l' a' r Hr Hl' Hr'.
  destruct (decide (l' = l)) as [?|Hne]; [done|]. destruct (Hdis r Hr). apply elem_of_held.
  exists l', a'. by rewrite lookup_delete_ne.
Qed.

Lemma sys_one_owner w :
  sys w → (∀ o, NoDup (owns w o)) ∧
  ∀ r o o', r ∈ owns w o → r ∈ owns w o' → o = o'.
Proof.
  intros [[_ Hnd _] _]. unfold owned in Hnd. simpl in Hnd.
  apply NoDup_app in Hnd as (Hs & Hs' & Hnd). apply NoDup_app in Hnd as (Hf & Hf' & Hh).
  split.
  - intros [l|l|l]; simpl; destruct (_ !! l) eqn:Hl; simpl; try constructor;
      by eapply held_unique.
  - intros r o o' Hr Hr'. pose proof (owns_held w o r Hr) as H. pose proof (owns_held w o' r Hr') as H'.
    destruct o as [l|l|l], o' as [l'|l'|l']; try (exfalso; set_solver); f_equal; simpl in *;
      destruct (_ !! l) as [a|] eqn:Hl; try (by apply elem_of_nil in Hr);
      destruct (_ !! l') as [a'|] eqn:Hl'; try (by apply elem_of_nil in Hr'); simpl in *.
    + symmetry. by eapply (held_unique own_sess).
    + symmetry. by eapply (held_unique own_fwd).
    + symmetry. by eapply (held_unique own_shl).
Qed.

Lemma sys_reachable w r : sys w → r ∈ n_open (w_net w) ↔ reachable w r.
Proof.
  intros [[_ _ Ho] (Hs & Hr & Hf & Hfs & Hh & Hhs & _)]. rewrite Ho, elem_of_list_to_set.
  unfold owned. simpl. rewrite !elem_of_app, !elem_of_held.
  assert (Hsess : ∀ l s, w_sess w !! l = Some s → ¬ emptied s →
    closed s = false ∧ ∃ id, sessions w !! id = Some l).
  { intros l s Hl Hne. destruct (Hs l s Hl) as (_ & _ & [?|[?|[? _]]]); [set_solver|done|done]. }
  split.
  - intros [(l & s & Hl & Hin)|[(f & F & HF & Hin)|(h & H & HH & Hin)]].
    + destruct (Hsess l s Hl) as [Hc [id Hid]].
      { intros (He & _). rewrite He in Hin. by apply elem_of_nil in Hin. }
      exists id, l, s. split_and!; auto.
    + destruct (Hf f F HF) as [_ [Hc|(s & Hl & Hfid)]].
      { unfold own_fwd in Hin. rewrite Hc in Hin. by apply elem_of_nil in Hin. }
      destruct (Hsess _ s Hl) as [Hc [id Hid]].
      { intros (_ & He & _). by rewrite He in Hfid. }
      exists id, (f_session F), s. split_and!; [done..|]. right; left. by eauto 6.
    + destruct (Hh h H HH) as [_ [Hc|(s & Hl & Hhid)]].
      { unfold own_shl in Hin. rewrite Hc in Hin. by apply elem_of_nil in Hin. }
      destruct (Hsess _ s Hl) as [Hc [id Hid]].
      { intros (_ & _ & He & _). by rewrite He in Hhid. }
      exists id, (sh_parent H), s. split_and!; [done..|]. right; right. by eauto 6.
  - intros (id & l & s & Hid & Hl & Hc & [Hin|[(fid & f & F & Hfid & HF & Hin)|(sid & h & H & Hhid & HH & Hin)]]);
      [left|right; left|right; right]; by eauto.
Qed.

Lemma run_call_sys c w Q :
  sys w → call_ok c → (∀ o w', no_crash o → sys w' → Q o w') →
  wp (run_call PKH CfgGet depth c) Q w.
Proof.
  intros Hw Hc HQ.
  assert (Hvoid : ∀ {A} (m : M World A) w,
    wp m (λ o w', no_crash o ∧ sys w') w → wp (m;; mret tt) Q w).
  { intros A m w' Hm. apply wp_bind. eapply wp_mono; [exact Hm|].
    intros [a|e|p] w2 [Hn Hw']; [by apply wp_ret, HQ|by apply HQ|].
    apply HQ; [|done]. intros ? [= <-]. by apply Hn. }
  assert (Hq : ∀ {A} (o : outcome A) w', is_panic o = false → sys w' → no_crash o ∧ sys w').
  { intros A [] w' Hp Hw'; by split. }
  destruct c as [id addrs jumps spec|id|id|src new| |sid fid spec|sid fid spec|sid fid spec|sid fid|sid shid opts|sid shid|sid]; simpl.
  - apply wp_bind. refine (Hvoid _ _ _ _). apply Connect_sys; [by eapply sys_same|done|done].
  - by apply Disconnect_sys.
  - apply Hvoid. by apply Reconnect_sys; [|apply Hq].
  - apply Hvoid. by apply CloneSession_sys.
  - apply CloseAll_sys; [done|]. intros. by apply HQ.
  - apply Hvoid. by apply OpenLocalForward_sys; [|apply Hq].
  - apply Hvoid. by apply OpenRemoteForward_sys; [|apply Hq].
  - apply Hvoid. by apply OpenDynamicForward_sys; [|apply Hq].
  - apply CloseForward_sys; [done|]. intros [] ? ? ?; by apply HQ.
  - apply wp_bind, wp_Get; [intros l Hid|by intros; apply HQ].
    apply Hvoid. by eapply OpenShell_sys; [| |apply Hq].
  - apply wp_bind, wp_Get; [intros l Hid|by intros; apply HQ].
    eapply CloseShell_sys; [done..|]. intros [] ? ? ?; by apply HQ.
  - apply wp_bind, wp_Get; [intros l Hid|by intros; apply HQ].
    apply Hvoid. by eapply sftpClient_sys.
Qed.

Lemma run_calls_sys cs w Q :
  sys w → Forall call_ok cs →
  (∀ w', sys w' → Q (Ret tt) w') → (∀ w', sys w' → Q (Panic "stack overflow") w') →
  wp (run_calls PKH CfgGet depth cs) Q w.
Proof.
  intros Hw Hcs HQ HQp. revert w Hw. induction Hcs as [|c cs Hc _ IH]; intros w Hw; simpl.
  { by apply wp_ret, HQ. }
  apply wp_bind, wp_ignore, run_call_sys; [done|done|].
  intros [a|e|p] w' Hn Hw'; [by apply IH|by apply IH|].
  rewrite (Hn p eq_refl). by apply HQp.
Qed.

Lemma sys_world0 : sys world0.
Proof.
  split.
  - split; [intros r Hr; by apply elem_of_empty in Hr| |]; unfold owned; simpl;
      by rewrite !held_empty; [constructor|..].
  - split_and!; intros ? *; simpl; rewrite ?lookup_empty; try done.
Qed.
End props.

(** ** One session followed through a call *)
Section track.
Context {E : Env}.
Implicit Types w : World.

(** The manager's map is [ss] and the session [l] satisfies [P]. *)
Definition at_ (ss : gmap string loc) (l : loc) (P : Session → Prop) (w : World) : Prop :=
  sessions w = ss ∧ ∃ s, w_sess w !! l = Some s ∧ P s.

Lemma at_netM {A} (m : M Net A) ss l P w Q :
  at_ ss l P w → (∀ o w', at_ ss l P w' → Q o w') → wp (netM m) Q w.
Proof.
  intros Ha HQ. unfold wp, netM, zoom. destruct (m (w_net w)) as [o n]. by apply HQ.
Qed.
Lemma at_upd ss l g (P P' : Session → Prop) w Q :
  at_ ss l P w → (∀ s, P s → P' (g s)) → (∀ w', at_ ss l P' w' → Q (Ret tt) w') →
  wp (upd_sess l g) Q w.
Proof.
  intros (Hss & s & Hs & HP) Hg HQ. apply wp_modify, HQ. split; [done|].
  exists (g s). simpl. rewrite lookup_alter_eq, Hs. auto.
Qed.
Lemma at_read ss l P w Q :
  at_ ss l P w → (∀ s, P s → at_ ss l (eq s) w → Q (Ret s) w) → wp (sess_at l) Q w.
Proof.
  intros (Hss & s & Hs & HP) HQ. eapply wp_sess_at; [exact Hs|]. apply HQ; [done|].
  split; [done|]. by exists s.
Qed.
Lemma at_mono ss l (P P' : Session → Prop) w : at_ ss l P w → (∀ s, P s → P' s) → at_ ss l P' w.
Proof. intros (Hss & s & Hs & HP) H. split; [done|]. eauto. Qed.
Lemma at_close_opt ss l P r w Q :
  at_ ss l P w → (∀ w', at_ ss l P w' → Q (Ret tt) w') → wp (close_opt r) Q w.
Proof.
  intros Ha HQ. destruct r; [|by apply HQ].
  unfold close_opt, netM. apply wp_zoom, wp_closeR. by apply HQ.
Qed.

Lemma at_clearClient ss l s0 w Q :
  at_ ss l (eq s0) w →
  (∀ w', at_ ss l (eq (s0 <| sftp := None |> <| client := None |> <| jumpClients := [] |>
                         <| agentForwardConn := None |> <| agentForwardOn := false |>)) w' → Q (Ret tt) w') →
  wp (clearClient l) Q w.
Proof.
  intros Ha HQ. apply wp_bind. eapply at_read; [exact Ha|]. intros s <- _.
  apply wp_bind. eapply (at_upd _ _ _ (eq s0) (eq (s0 <| sftp := None |> <| client := None |>
    <| jumpClients := [] |> <| agentForwardConn := None |> <| agentForwardOn := false |>)));
    [exact Ha|by intros s <-|]. clear w Ha. intros w Ha.
  apply wp_bind. eapply at_close_opt; [exact Ha|]. clear w Ha. intros w Ha.
  apply wp_bind. eapply at_close_opt; [exact Ha|]. clear w Ha. intros w Ha.
  apply wp_bind. unfold netM. apply wp_zoom, wp_closeAllR.
  eapply at_close_opt; [exact Ha|]. done.
Qed.

(** Rebinding the forwards leaves every session as it was. *)
Definition same_sess (w w' : World) : Prop := sessions w' = sessions w ∧ w_sess w' = w_sess w.
#[export] Instance same_sess_pre : PreOrder same_sess.
Proof. split; [done|]. intros ? ? ? [] []. split; congruence. Qed.
Lemma same_sess_rebind l : stays same_sess (rebindForwards l).
Proof.
  assert (Hnet : ∀ {A} (m : M Net A), stays same_sess (netM m)).
  { intros A m w. unfold netM, zoom. by destruct (m _). }
  assert (Hs : ∀ l, stays same_sess (sess_at l)).
  { intros l' w. unfold sess_at. by destruct (_ !! _). }
  assert (Hf : ∀ l, stays same_sess (fwd_at l)).
  { intros l' w. unfold fwd_at. by destruct (_ !! _). }
  assert (Hc : ∀ o, stays same_sess (close_opt o)) by (intros []; [apply Hnet|done]).
  unfold rebindForwards, rebindForward, getClient, upd_fwd.
  repeat first [ progress intros | apply Hnet | apply Hs | apply Hf | apply Hc
    | progress solve_stays ].
Qed.
Lemma at_stays {A} (m : M World A) ss l P w Q :
  stays same_sess m → noerr m → at_ ss l P w →
  (∀ o w', (∀ e, o ≠ Err e) → at_ ss l P w' → Q o w') → wp m Q w.
Proof.
  intros Hm Hne (Hss & Hs) HQ. destruct (Hm w) as [E1 E2]. apply HQ; [apply Hne|].
  split; [by rewrite E1|by rewrite E2].
Qed.
Lemma at_harmless {A} (m : M Net A) ss l P w Q :
  harmless m → at_ ss l P w → (∀ a w', at_ ss l P w' → Q (Ret a) w') → wp (netM m) Q w.
Proof.
  intros Hm Ha HQ. unfold netM. apply wp_zoom, harmless_wp; [done|]. intros. by apply HQ.
Qed.
End track.

(** ** Properties *)

(** C2: nothing leaks and nothing is shared.  Make any calls of the manager, one
    after the other, from the empty manager, with keepalive intervals that are not
    negative ([call_ok]), whatever the environment answers.  Then the only panic is
    the stack overflow of a cyclic ProxyJump; the resources that are open are
    exactly those of sessions the manager lists, which are open themselves, of
    their forwards and of their shells; no resource is held twice, neither by two
    objects nor by one; and a keepalive loop that was not cancelled belongs to a
    session the manager lists. *)
Theorem manager_no_leak {E : Env} PKH CfgGet depth cs (Hcs : Forall call_ok cs) :
  match run_calls PKH CfgGet depth cs world0 with
  | (Ret _, w) =>
    (∀ r, r ∈ n_open (w_net w) ↔ reachable w r) ∧
    (∀ o, NoDup (owns w o)) ∧
    (∀ r o o', r ∈ owns w o → r ∈ owns w o' → o = o') ∧
    (∀ ctx l i, w_keepalive w !! ctx = Some (l, i) → ctx ∉ w_cancelled w →
       ∃ id, sessions w !! id = Some l)
  | (Err _, _) => False
  | (Panic p, _) => p = "stack overflow"
  end.
Proof.
  assert (H : wp (run_calls PKH CfgGet depth cs) (λ o w, match o with
    | Ret _ => sys w | Err _ => False | Panic p => p = "stack overflow" end) world0)
    by (by apply run_calls_sys; [apply sys_world0|..]).
  unfold wp in H. destruct (run_calls _ _ _ _ _) as [[[]|e|p] w]; simpl in H; [|done|done].
  destruct (sys_one_owner w H) as [H1 H2].
  split_and!; [intros r; by apply sys_reachable|done|done|].
  intros ctx l i Hctx Hnc. destruct H as [_ (Hs & _ & _ & _ & _ & _ & Hk)].
  destruct (Hk _ _ _ Hctx) as [_ [?|(s & Hl & Hkc)]]; [done|].
  destruct (Hs l s Hl) as (_ & _ & [?|[[_ ?]|[(_ & _ & _ & ?) _]]]); [set_solver|done|congruence].
Qed.

Definition auth_agent : AuthSpec := mkAuthSpec "" "" true "/run/agent" "".
Definition spec_agent : ConnectSpec :=
  mkConnectSpec "root" None None auth_agent "" true 0 0 true false true true.
Definition calls_ex : list mcall :=
  [CConnect "a" ["10.0.0.1"] [] spec_agent; COpenDynamic "a" "socks" (mkDynamicSpec "" 0);
   COpenRemote "a" "web" (mkRemoteSpec "" 8080 "" 80);
   COpenShell "a" "sh" (mkShellOptions "" 0 0 [] "" 0); CSftp "a";
   CConnect "a" ["10.0.0.1"] [] spec_agent].

(** After these calls six resources are open: the client, the forwarded agent's
    socket, two listeners, a shell's channel and the sftp client. *)
Lemma manager_no_leak_witness :
  match @run_calls env_ok (λ _, None) (λ _ _, "") 5 calls_ex world0 with
  | (Ret _, w) => size (n_open (w_net w)) = 6%nat ∧ (∀ r, r ∈ n_open (w_net w) → reachable w r) ∧
      (∀ r o o', r ∈ owns w o → r ∈ owns w o' → o = o')
  | _ => False
  end.
Proof.
  pose proof (@manager_no_leak env_ok (λ _, None) (λ _ _, "") 5 calls_ex) as H.
  specialize (H ltac:(repeat constructor; vm_compute; discriminate)).
  assert (Hn : match (@run_calls env_ok (λ _, None) (λ _ _, "") 5 calls_ex world0) with
    | (Ret _, w) => size (n_open (w_net w)) = 6%nat | _ => False end) by (vm_compute; reflexivity).
  destruct (@run_calls env_ok (λ _, None) (λ _ _, "") 5 calls_ex world0) as [[[]|e|p] w] eqn:Hrun.
  - destruct H as (H & _ & H' & _). split; [exact Hn|]. split; [intros r; apply H|exact H'].
  - exact H.
  - exact Hn.
Defined.

(** After any calls, [CloseAll] (the daemon's shutdown) closes every resource
    the manager ever opened, forgets every session and cancels every keepalive
    loop. *)
Theorem CloseAll_closes_everything {E : Env} PKH CfgGet depth cs (Hcs : Forall call_ok cs) :
  match run_calls PKH CfgGet depth (cs ++ [CCloseAll]) world0 with
  | (Ret _, w) =>
    n_open (w_net w) = ∅ ∧ sessions w = ∅ ∧
    (∀ ctx l i, w_keepalive w !! ctx = Some (l, i) → ctx ∈ w_cancelled w)
  | (Err _, _) => False
  | (Panic p, _) => p = "stack overflow"
  end.
Proof.
  assert (H : wp (run_calls PKH CfgGet depth (cs ++ [CCloseAll])) (λ o w, match o with
    | Ret _ => sys w ∧ sessions w = ∅ | Err _ => False | Panic p => p = "stack overflow" end) world0).
  { generalize (sys_world0). generalize world0. induction Hcs as [|c cs Hc _ IH]; intros w Hw; simpl.
    - apply wp_bind, wp_ignore. apply CloseAll_sys; [done|]. intros w' Hw' Hs. by apply wp_ret.
    - apply wp_bind, wp_ignore, run_call_sys; [done|done|].
      intros [a|e|p] w' Hn Hw'; [by apply IH|by apply IH|]. by apply Hn. }
  unfold wp in H. destruct (run_calls _ _ _ _ _) as [[[]|e|p] w]; simpl in H; [|done|done].
  destruct H as [Hw Hs]. split_and!; [|done|].
  - apply set_eq. intros r. rewrite (sys_reachable w r Hw). split; [|by intros ?%elem_of_empty].
    intros (id & l & s & Hid & _). by rewrite Hs in Hid.
  - intros ctx l i Hctx. destruct Hw as [_ (Hso & _ & _ & _ & _ & _ & Hk)].
    destruct (Hk _ _ _ Hctx) as [_ [?|(s & Hl & Hkc)]]; [done|].
    destruct (Hso l s Hl) as (_ & _ & [?|[[_ [id Hid]]|[(_ & _ & _ & ?) _]]]); [set_solver| |congruence].
    by rewrite Hs in Hid.
Qed.

Lemma CloseAll_closes_everything_witness :
  match @run_calls env_ok (λ _, None) (λ _ _, "") 5 (calls_ex ++ [CCloseAll]) world0 with
  | (Ret _, w) => size (w_sess w) = 1%nat ∧ n_open (w_net w) = ∅
  | _ => False
  end.
Proof.
  pose proof (@CloseAll_closes_everything env_ok (λ _, None) (λ _ _, "") 5 calls_ex) as H.
  specialize (H ltac:(repeat constructor; vm_compute; discriminate)).
  assert (Hn : match (@run_calls env_ok (λ _, None) (λ _ _, "") 5 (calls_ex ++ [CCloseAll]) world0) with
    | (Ret _, w) => size (w_sess w) = 1%nat | _ => False end) by (vm_compute; reflexivity).
  destruct (@run_calls env_ok (λ _, None) (λ _ _, "") 5 (calls_ex ++ [CCloseAll]) world0)
    as [[[]|e|p] w] eqn:Hrun.
  - split; [exact Hn|]. apply H.
  - exact H.
  - exact Hn.
Defined.

(** The session [s], named [l], followed through a [Reconnect]. *)
Definition kept (s s' : Session) : Prop :=
  s_Spec s' = s_Spec s ∧ forwards s' = forwards s ∧ shells s' = shells s ∧ closed s' = false.
Definition no_agent (s' : Session) : Prop := agentForwardOn s' = false ∧ agentForwardConn s' = None.
Definition reconnected (l : loc) (o : outcome loc) (s' : Session) : Prop :=
  match o with
  | Ret l' => l' = l ∧ state s' = StateConnected ∧ is_Some (client s') ∧ lastError s' = None
  | Err e => state s' = StateDisconnected ∧ client s' = None ∧ lastError s' = Some e
  | Panic _ => False
  end.

Lemma reconnect_body_track {E : Env} PKH s l ss w :
  at_ ss l (kept s) w →
  wp (reconnect_body PKH l) (λ o w', is_panic o = false →
    at_ ss l (λ s', kept s s' ∧ no_agent s' ∧ reconnected l o s') w') w.
Proof.
  intros Ha. apply wp_bind. destruct Ha as (Hss & s0 & Hs0 & Hk0).
  eapply (at_clearClient ss l s0); [by split; [|exists s0]|]. clear w Hss Hs0. intros w Ha.
  apply wp_bind. eapply (at_upd _ _ _ _ (λ s', (kept s s' ∧ no_agent s') ∧ client s' = None));
    [exact Ha|by intros ? <-|].
  clear w Ha. intros w Ha. apply wp_bind. eapply at_read; [exact Ha|]. intros s2 _ _.
  apply wp_bind, wp_try, wp_bind, wp_gets. eapply at_netM; [exact Ha|]. clear w Ha.
  intros [[[c js] addr]|e|p] w Ha; [| |done].
  - apply wp_bind, wp_bind. eapply at_read; [exact Ha|]. intros s3 [[(?&?&?&Hc3) _] _] Ha3. rewrite Hc3.
    apply wp_bind. eapply at_harmless; [apply harmless_now|exact Ha|]. clear w Ha Ha3. intros t w Ha.
    apply wp_bind. eapply (at_upd _ _ _ _ (λ s', (kept s s' ∧ no_agent s') ∧ state s' = StateConnected ∧
      is_Some (client s') ∧ lastError s' = None)); [exact Ha|intros s' [Hk' _]; simpl; by eauto|].
    intros w4 Ha4. apply wp_ret, wp_bind.
    eapply at_stays; [apply same_sess_rebind|apply noerr_rebindForwards|exact Ha4|].
    intros [[]|e|p] w5 He Ha5; [|by destruct (He e)|done].
    apply wp_ret. intros _. eapply at_mono; [exact Ha5|]. unfold reconnected. naive_solver.
  - apply wp_bind. eapply (at_upd _ _ _ _ (λ s', kept s s' ∧ no_agent s' ∧ state s' = StateDisconnected ∧
      client s' = None ∧ lastError s' = Some e)); [exact Ha|intros s' [[Hk' ?] Hn]; by split_and!|].
    intros w4 Ha4. apply wp_fail. intros _. exact Ha4.
Qed.

Lemma Reconnect_track {E : Env} PKH id w l s :
  sys w → sessions w !! id = Some l → w_sess w !! l = Some s →
  let '(o, w') := Reconnect PKH id w in
  is_panic o = false ∧ sys w' ∧ sessions w' = sessions w ∧
  ∃ s', w_sess w' !! l = Some s' ∧ kept s s' ∧ no_agent s' ∧ reconnected l o s' ∧ reconnectMu s' = false.
Proof.
  intros Hsys Hid Hs.
  assert (H1 : wp (Reconnect PKH id) (λ o w', is_panic o = false ∧ sys w') w) by (by apply Reconnect_sys).
  destruct (sys_live w id l Hsys Hid) as (s1 & Hs1 & Hc & _). rewrite Hs in Hs1. injection Hs1 as <-.
  assert (H2 : wp (Reconnect PKH id) (λ o w', is_panic o = false → at_ (sessions w) l (λ s',
      kept s s' ∧ no_agent s' ∧ reconnected l o s' ∧ reconnectMu s' = false) w') w).
  { apply wp_bind, wp_Get; [|intros Hn; congruence]. intros l' Hl'. rewrite Hid in Hl'. injection Hl' as <-.
    apply wp_bind. eapply (at_upd (sessions w) l _ (eq s) (kept s)); [by split; [|exists s]|by intros ? <-|].
    clear Hsys H1 Hid Hs. generalize (sessions w). clear w. intros ss w Ha.
    apply wp_bind, wp_try. eapply wp_mono; [by apply reconnect_body_track|].
    intros [l'|e|p] w' Hp; [| |done]; specialize (Hp eq_refl); apply wp_bind;
      (eapply at_upd; [exact Hp| |intros w2 H2; try apply wp_ret; try apply wp_fail; intros _; exact H2]);
      intros s' (Hk & Hna & Hr); exact (conj Hk (conj Hna (conj Hr eq_refl))). }
  unfold wp in H1, H2. destruct (Reconnect PKH id w) as [o w']. simpl in *.
  destruct H1 as [Hp Hw']. destruct (H2 Hp) as (Hss & s' & Hs' & H). by eauto 8.
Qed.

(** C9: [Reconnect] keeps the session: the manager's map is the same, and the
    session keeps its spec, its forwards and its shells.  On success it has a
    client, is connected and has no error; on failure it has none, is
    disconnected and reports the error returned.  The reconnect lock is free
    again on both, and the invariant holds. *)
Theorem Reconnect_keeps_session {E : Env} PKH id w l s
    (Hsys : sys w) (Hid : sessions w !! id = Some l) (Hs : w_sess w !! l = Some s) :
  let '(o, w') := Reconnect PKH id w in
  is_panic o = false ∧ sys w' ∧ sessions w' = sessions w ∧
  ∃ s', w_sess w' !! l = Some s' ∧ s_Spec s' = s_Spec s ∧ forwards s' = forwards s ∧
    shells s' = shells s ∧ reconnectMu s' = false ∧
    match o with
    | Ret l' => l' = l ∧ state s' = StateConnected ∧ is_Some (client s') ∧ lastError s' = None
    | Err e => state s' = StateDisconnected ∧ client s' = None ∧ lastError s' = Some e
    | Panic _ => False
    end.
Proof.
  pose proof (Reconnect_track PKH id w l s Hsys Hid Hs) as H.
  destruct (Reconnect PKH id w) as [o w']. destruct H as (? & ? & ? & s' & ? & (?&?&?&_) & _ & ? & ?).
  split_and!; [done..|]. exists s'. by split_and!.
Qed.

(** One session that forwards the agent, and a remote forward of it. *)
Definition w_ex : World :=
  (@run_calls env_ok (λ _, None) (λ _ _, "") 5
    [CConnect "a" ["10.0.0.1"] [] spec_agent; COpenRemote "a" "web" (mkRemoteSpec "" 8080 "" 80)] world0).2.
Lemma sys_w_ex : sys w_ex.
Proof.
  assert (H : wp (@run_calls env_ok (λ _, None) (λ _ _, "") 5
    [CConnect "a" ["10.0.0.1"] [] spec_agent; COpenRemote "a" "web" (mkRemoteSpec "" 8080 "" 80)])
    (λ _ w, sys w) world0); [|exact H].
  apply run_calls_sys; [apply sys_world0|repeat constructor; vm_compute; discriminate|done..].
Qed.
Definition sess_of (w : World) (l : loc) : Session := default (Session0 "" spec_agent) (w_sess w !! l).

Lemma Reconnect_keeps_session_witness :
  sessions w_ex !! "a" = Some 1%positive ∧
  let '(o, w') := @Reconnect env_ok (λ _, None) "a" w_ex in
  o = Ret 1%positive ∧ ∃ s', w_sess w' !! 1%positive = Some s' ∧ state s' = StateConnected ∧
    forwards s' = {["web" := 3%positive]}.
Proof.
  split; [vm_compute; reflexivity|].
  pose proof (@Reconnect_keeps_session env_ok (λ _, None) "a" w_ex 1%positive (sess_of w_ex 1%positive)
    sys_w_ex ltac:(vm_compute; reflexivity) ltac:(vm_compute; reflexivity)) as H.
  assert (Ho : (@Reconnect env_ok (λ _, None) "a" w_ex).1 = Ret 1%positive) by (vm_compute; reflexivity).
  destruct (@Reconnect env_ok (λ _, None) "a" w_ex) as [o w'] eqn:Hrun. simpl in Ho. subst o.
  destruct H as (_ & _ & _ & s' & Hs' & _ & Hf & _ & _ & _ & Hst & _).
  split; [reflexivity|]. exists s'. split; [exact Hs'|]. split; [exact Hst|].
  rewrite Hf. vm_compute. reflexivity.
Defined.

(** [Reconnect] forgets agent forwarding: whatever the spec asks for and
    whatever the session had, after a successful [Reconnect] the session requests
    no agent forwarding and holds no agent connection, although the spec that
    asks for it is still there. *)
Theorem Reconnect_loses_agent {E : Env} PKH id w l s l' w'
    (Hsys : sys w) (Hid : sessions w !! id = Some l) (Hs : w_sess w !! l = Some s)
    (Hwant : ForwardAgent (s_Spec s) = true)
    (Hrun : Reconnect PKH id w = (Ret l', w')) :
  ∃ s', w_sess w' !! l = Some s' ∧ ForwardAgent (s_Spec s') = true ∧ state s' = StateConnected ∧
    agentForwardOn s' = false ∧ agentForwardConn s' = None.
Proof.
  pose proof (Reconnect_track PKH id w l s Hsys Hid Hs) as H. rewrite Hrun in H.
  destruct H as (_ & _ & _ & s' & ? & (E1 & _) & [? ?] & (_ & ? & _) & _).
  exists s'. split_and!; [done|by rewrite E1|done..].
Qed.

Lemma Reconnect_loses_agent_witness :
  agentForwardOn (sess_of w_ex 1%positive) = true ∧
  ∃ s', w_sess (@Reconnect env_ok (λ _, None) "a" w_ex).2 !! 1%positive = Some s' ∧
    ForwardAgent (s_Spec s') = true ∧ agentForwardOn s' = false.
Proof.
  split; [vm_compute; reflexivity|].
  assert (Ho : (@Reconnect env_ok (λ _, None) "a" w_ex).1 = Ret 1%positive) by (vm_compute; reflexivity).
  destruct (@Reconnect env_ok (λ _, None) "a" w_ex) as [o w'] eqn:Hrun. simpl in Ho. subst o.
  destruct (@Reconnect_loses_agent env_ok (λ _, None) "a" w_ex 1%positive (sess_of w_ex 1%positive)
    1%positive w' sys_w_ex ltac:(vm_compute; reflexivity) ltac:(vm_compute; reflexivity)
    ltac:(vm_compute; reflexivity) Hrun) as (s' & H1 & H2 & _ & H3 & _).
  exists s'. split; [exact H1|]. split; [exact H2|exact H3].
Defined.

(** ** Connecting *)

(** The manager's map is the same, and so are the fields of every session that
    say what it is connected to. *)
Definition core (s : Session) := (s_ID s, s_Spec s, state s, client s, closed s, forwards s, shells s).
Definition same_core (w w' : World) : Prop :=
  sessions w' = sessions w ∧ core <$> w_sess w' = core <$> w_sess w.
#[export] Instance same_core_pre : PreOrder same_core.
Proof. split; [done|]. intros ? ? ? [] []. split; congruence. Qed.

Section core.
Context {E : Env}.
Lemma core_upd l g : (∀ s, core (g s) = core s) → stays same_core (upd_sess l g).
Proof.
  intros Hg w. split; [done|]. apply map_eq. intros i. simpl. rewrite !lookup_fmap.
  destruct (decide (i = l)) as [->|Hne]; [|by rewrite lookup_alter_ne].
  rewrite lookup_alter_eq. destruct (_ !! l); simpl; by rewrite ?Hg.
Qed.
Lemma core_netM {A} (m : M Net A) : stays same_core (netM m).
Proof. intros w. unfold netM, zoom. by destruct (m _). Qed.
Lemma core_sess_at l : stays same_core (sess_at l).
Proof. intros w. unfold sess_at. by destruct (_ !! _). Qed.
Lemma core_enableAgentForwarding l sock : stays same_core (enableAgentForwarding l sock).
Proof.
  unfold enableAgentForwarding.
  repeat first [ progress intros | apply core_netM | apply core_sess_at | by apply core_upd
               | progress solve_stays ].
Qed.
Lemma core_startKeepalive l : stays same_core (startKeepalive l).
Proof.
  unfold startKeepalive, cancel.
  repeat first [ progress intros | apply core_netM | apply core_sess_at | by apply core_upd
               | progress solve_stays ].
Qed.

(** [at_] for a predicate on the core. *)
Lemma at_core {A} (m : M World A) ss l P w Q :
  stays same_core m → at_ ss l P w → (∀ s s', core s' = core s → P s → P s') →
  (∀ o w', at_ ss l P w' → Q o w') → wp m Q w.
Proof.
  intros Hm (Hss & s & Hs & HP) Hcore HQ. destruct (Hm w) as [E1 E2]. apply HQ.
  split; [by rewrite E1|].
  assert (Hl : (core <$> w_sess (m w).2) !! l = Some (core s)) by (by rewrite E2, lookup_fmap, Hs).
  rewrite lookup_fmap in Hl. destruct (w_sess (m w).2 !! l) as [s'|]; [|done].
  injection Hl as Hl. exists s'. split; [done|]. eapply Hcore; [|exact HP].
  unfold core. congruence.
Qed.
End core.

(** A session as [Connect] leaves it. *)
Definition connected (id : string) (s : Session) : Prop :=
  s_ID s = id ∧ state s = StateConnected ∧ is_Some (client s) ∧ closed s = false ∧
  forwards s = ∅ ∧ shells s = ∅.

Lemma noerr_connect_rest {E : Env} l spec : noerr (connect_rest l spec).
Proof.
  unfold connect_rest, markState, upd_sess, startKeepalive, cancel. solve_noerr.
Qed.

Lemma Connect_track {E : Env} PKH CfgGet depth id spec w :
  wp (Connect PKH CfgGet depth id spec) (λ o w', match o with
    | Ret l => sessions w !! id = None ∧ at_ (<[id := l]> (sessions w)) l (connected id) w'
    | Err _ => sessions w' = sessions w
    | Panic _ => True
    end) w.
Proof.
  assert (Hcu : stays same_sessions (connect_user CfgGet depth id spec))
    by (unfold connect_user, resolveSpec; solve_stays).
  apply wp_bind. unfold wp at 1. specialize (Hcu w). unfold same_sessions in Hcu.
  destruct (connect_user _ _ _ _ w) as [[sp|e|p] w1]; simpl in *; [|done|done].
  rewrite <- Hcu. clear w Hcu. rename w1 into w. unfold reserve.
  apply wp_bind, wp_bind, wp_gets. destruct (sessions w !! id) eqn:Hid; [by apply wp_fail|].
  apply wp_bind, wp_bind, wp_gets, wp_bind, wp_modify, wp_ret, wp_bind, wp_modify, wp_ret.
  set (l := w_next w). set (w2 := w <| w_sess ::= _ |> <| w_next ::= _ |> <| sessions ::= _ |>).
  assert (Ha : at_ (<[id := l]> (sessions w)) l (eq (Session0 id sp)) w2).
  { split; [done|]. eexists. simpl. by rewrite lookup_insert_eq. }
  clearbody w2. apply wp_bind, wp_try, wp_bind, wp_gets. eapply at_netM; [exact Ha|]. clear w2 Ha.
  intros [[[c js] addr]|e|p] w2 Ha; [| |done].
  - apply wp_bind, wp_bind. eapply at_read; [exact Ha|]. intros s <- _. simpl.
    apply wp_bind. eapply at_harmless; [apply harmless_now|exact Ha|]. clear w2 Ha. intros t w2 Ha.
    apply wp_bind. eapply (at_upd _ _ _ _ (connected id)); [exact Ha|by intros ? <-|].
    clear w2 Ha. intros w2 Ha. apply wp_ret, wp_bind.
    assert (Hcore : ∀ s s', core s' = core s → connected id s → connected id s').
    { intros s s' [= E1 _ E2 E3 E4 E5 E6]. unfold connected. congruence. }
    apply (wp_mono _ (λ o w', (∀ e, o ≠ Err e) ∧ (is_panic o = false →
      at_ (<[id := l]> (sessions w)) l (connected id) w'))).
    2:{ intros [[]|e|p] w' [He Hw']; [|by destruct (He e)|done]. apply wp_ret. auto. }
    pose proof (noerr_connect_rest l sp w2) as Hne.
    assert (H : wp (connect_rest l sp) (λ o w', is_panic o = false →
      at_ (<[id := l]> (sessions w)) l (connected id) w') w2); [|by split].
    unfold connect_rest. apply wp_bind. apply (wp_mono _ (λ o w', is_panic o = false →
      at_ (<[id := l]> (sessions w)) l (connected id) w')).
    + destruct (ForwardAgent sp); [|by apply wp_ret]. apply wp_bind, wp_try.
      eapply at_core; [apply core_enableAgentForwarding|exact Ha|exact Hcore|].
      intros [[]|e|p] w3 Ha3; [by apply wp_ret| |done].
      eapply at_upd; [exact Ha3| |done]. intros s (?&?&?&?&?&?). by split_and!.
    + intros [[]|e|p] w3 Ha3; [|auto|auto]. specialize (Ha3 eq_refl).
      case_bool_decide; [|by apply wp_ret].
      by eapply at_core; [apply core_startKeepalive|exact Ha3|exact Hcore|].
  - apply wp_bind, wp_modify, wp_fail. destruct Ha as [Hss _]. simpl. rewrite Hss.
    by apply delete_insert_id.
Qed.

(** [Connect] is atomic for the manager's map.  On an error the map is the one
    it was.  On success the id was free, and the map differs in that it now names
    a new session with that id, which is connected, has a client, and has no
    forwards and no shells yet. *)
Theorem Connect_atomic {E : Env} PKH CfgGet depth id spec w :
  match Connect PKH CfgGet depth id spec w with
  | (Ret l, w') =>
    sessions w !! id = None ∧ sessions w' = <[id := l]> (sessions w) ∧
    ∃ s, w_sess w' !! l = Some s ∧ s_ID s = id ∧ state s = StateConnected ∧
      is_Some (client s) ∧ closed s = false ∧ forwards s = ∅ ∧ shells s = ∅
  | (Err _, w') => sessions w' = sessions w
  | (Panic _, _) => True
  end.
Proof.
  pose proof (Connect_track PKH CfgGet depth id spec w) as H. unfold wp in H.
  destruct (Connect PKH CfgGet depth id spec w) as [[l|e|p] w']; simpl in H; [|done|done].
  destruct H as (? & ? & s & ? & ?). split_and!; [done..|]. by exists s.
Qed.

(** ** The reconnect schedule *)
Lemma reconnect_loop_waits {E : Env} PKH fuel ctx l canceled i waits w r w' :
  reconnect_loop PKH fuel ctx l canceled i waits w = (Ret (Some r), w') →
  ∃ n, (n ≤ fuel)%nat ∧ r = waits ++ (backoff_wait <$> seq i n).
Proof.
  revert i waits w. induction fuel as [|fuel IH]; intros i waits w; simpl; [done|].
  unfold mbind, M_bind at 1, gets. destruct (ctx_done ctx w).
  { intros [= <- _]. exists 0%nat. simpl. split; [lia|]. by rewrite app_nil_r. }
  unfold M_bind at 1. destruct (sess_at l w) as [[s|e|p] w1]; [|done|done].
  unfold M_bind at 1. destruct (try (dial PKH (s_Spec s)) w1) as [[[e|[[c js] addr]]|e|p] w2]; [| |done|done].
  - unfold M_bind at 1. destruct (markState _ _ _ w2) as [[[]|e'|p] w3]; [|done|done].
    destruct (canceled i).
    + intros [= <- _]. exists 1%nat. split; [lia|done].
    + intros (n & Hn & ->)%IH. exists (S n). split; [lia|]. simpl. by rewrite <- (assoc_L (++)).
  - unfold M_bind at 1. destruct (setClient _ _ _ _ w2) as [[ok|e'|p] w3]; [|done|done].
    unfold M_bind at 1. destruct ((if ok then rebindForwards l else mret ()) w3) as [[[]|e'|p] w4]; [|done|done].
    intros [= <- _]. exists 0%nat. simpl. split; [lia|]. by rewrite app_nil_r.
Qed.

Lemma reconnect_loop_stops {E : Env} PKH fuel ctx l canceled i waits w w' k :
  canceled k = true → (i ≤ k < i + fuel)%nat →
  reconnect_loop PKH fuel ctx l canceled i waits w ≠ (Ret None, w').
Proof.
  intros Hk. revert i waits w. induction fuel as [|fuel IH]; intros i waits w Hi; [lia|]. simpl.
  unfold mbind, M_bind at 1, gets. destruct (ctx_done ctx w); [done|].
  unfold M_bind at 1. destruct (sess_at l w) as [[s|e|p] w1]; [|done|done].
  unfold M_bind at 1. destruct (try (dial PKH (s_Spec s)) w1) as [[[e|[[c js] addr]]|e|p] w2]; [| |done|done].
  - unfold M_bind at 1. destruct (markState _ _ _ w2) as [[[]|e'|p] w3]; [|done|done].
    destruct (canceled i) eqn:Hc; [done|]. apply IH.
    assert (i ≠ k) by congruence. lia.
  - unfold M_bind at 1. destruct (setClient _ _ _ _ w2) as [[ok|e'|p] w3]; [|done|done].
    unfold M_bind at 1. by destruct ((if ok then rebindForwards l else mret ()) w3) as [[[]|e'|p] w4].
Qed.

Lemma attemptReconnect_loop {E : Env} PKH fuel ctx l canceled w o w' :
  attemptReconnect PKH fuel ctx l canceled w = (Ret o, w') →
  o = Some [] ∨ ∃ w1 w2, reconnect_loop PKH fuel ctx l canceled 0 [] w1 = (Ret o, w2).
Proof.
  unfold attemptReconnect. unfold mbind, M_bind at 1. destruct (sess_at l w) as [[s|e|p] w1]; [|done|done].
  destruct (reconnectMu s); [intros [= <- _]; by left|].
  unfold M_bind at 1. destruct (lock_reconnect l true w1) as [[[]|e|p] w2]; [|done|done].
  unfold M_bind at 1. destruct (clearClient l w2) as [[[]|e|p] w3]; [|done|done].
  unfold M_bind at 1. destruct (markState _ _ _ w3) as [[[]|e|p] w4]; [|done|done].
  unfold M_bind at 1. destruct (reconnect_loop _ _ _ _ _ _ _ w4) as [[r|e|p] w5] eqn:Hr; [|done|done].
  unfold M_bind at 1. destruct (lock_reconnect l false w5) as [[[]|e|p] w6]; [|done|done].
  intros [= <- _]. right. by eauto.
Qed.

(** The automatic reconnect waits 1s, 2s, 5s, 10s and 30s after its first five
    failed attempts and 30s after each later one, and it stops as soon as the
    keepalive context ends during a wait: an end during the [k]-th wait is seen
    within [k + 1] attempts. *)
Theorem reconnect_schedule {E : Env} PKH fuel ctx l canceled w :
  (∀ r w', attemptReconnect PKH fuel ctx l canceled w = (Ret (Some r), w') →
     (List.length r ≤ fuel)%nat ∧
     ∀ i t, r !! i = Some t →
       t = match i with 0%nat => second | 1%nat => 2 * second | 2%nat => 5 * second
           | 3%nat => 10 * second | _ => 30 * second end) ∧
  (∀ k w', canceled k = true → (k < fuel)%nat →
     attemptReconnect PKH fuel ctx l canceled w ≠ (Ret None, w')).
Proof.
  split.
  - intros r w' [[= ->]|(w1 & w2 & Hr)]%attemptReconnect_loop; [split; [simpl; lia|done]|].
    apply reconnect_loop_waits in Hr as (n & Hn & ->). simpl. rewrite length_fmap, length_seq.
    split; [done|]. intros i t Hi. rewrite list_lookup_fmap in Hi.
    destruct (seq 0 n !! i) as [j|] eqn:Hj; [|done]. simpl in Hi. injection Hi as <-.
    apply lookup_seq in Hj as [-> _]. by destruct i as [|[|[|[|[|[|i]]]]]].
  - intros k w' Hk Hlt H. apply attemptReconnect_loop in H as [?|(w1 & w2 & Hr)]; [done|].
    eapply reconnect_loop_stops; [exact Hk| |exact Hr]. lia.
Qed.

(** An environment that refuses every TCP connection. *)
Definition env_refuse : Env := λ T n c,
  match c in ext T return error + T with
  | SshDial _ _ _ => inl (Msg "refused")
  | c => @env_ok _ n c
  end.
Lemma reconnect_schedule_witness :
  ∃ r w', @attemptReconnect env_refuse (λ _, None) 10 9%positive 1%positive (Nat.eqb 6) w_ex
            = (Ret (Some r), w') ∧
    r !! 5%nat = Some (30 * second) ∧ (List.length r ≤ 10)%nat.
Proof.
  pose proof (@reconnect_schedule env_refuse (λ _, None) 10 9%positive 1%positive (Nat.eqb 6) w_ex) as [H _].
  assert (Hr : (@attemptReconnect env_refuse (λ _, None) 10 9%positive 1%positive (Nat.eqb 6) w_ex).1
    = Ret (Some [1000000000; 2000000000; 5000000000; 10000000000; 30000000000; 30000000000; 30000000000]))
    by (vm_compute; reflexivity).
  destruct (@attemptReconnect env_refuse (λ _, None) 10 9%positive 1%positive (Nat.eqb 6) w_ex) as [o w'].
  simpl in Hr. subst o. destruct (H _ _ eq_refl) as [H1 _]. eexists _, w'. split; [reflexivity|].
  split; [reflexivity|exact H1].
Defined.
