(* ===== verification/Lifecycle.v ===== *)
(** * Calls that overlap: Connect, Disconnect and Reconnect as interleaved steps

    The manager's calls run on goroutines of their own and meet at the locks.  A
    state here is the world and the calls in flight ([task]), and a step is one
    critical section or one external call of one of them, taken from the
    definitions of Session.v and Manager.v: [reserve] and [unregister] run under
    [m.mu], [setClient] under [s.mu], [close] first sets the [closed] flag and
    then tears the session down.  A dial is one step that may come at any later
    time; the tail of [Connect] after [setClient] (agent forwarding, keepalive) is
    not interleaved.

    [lifecycle_accounts] holds for every interleaving of Connect and Disconnect.
    Forwards and shells are not in this relation: the sessions of its runs have
    none (ManagerProps.v has them, in calls that follow one another).
    The two counterexamples are interleavings the locks allow: a session that is
    connected and that no call can reach any more, and a transport that is
    overwritten while it is open. *)

From stdpp Require Import relations.
From S2P Require Import Prelude GoStrings External Spec SshConfig Auth Dial World Session Forward Shell Manager.

Inductive task :=
  | Dialing (id : string) (l : loc) (spec : ConnectSpec)      (* Connect, in dialFinal *)
  | DialFailed (id : string) (l : loc)                        (* Connect, before its delete *)
  | Dialed (id : string) (l : loc) (c : rid) (js : list rid) (addr : string)
  | Refused (id : string) (l : loc)                           (* Connect, setClient returned false *)
  | Closing (l : loc)                                         (* Disconnect, before close *)
  | Closing2 (l : loc)                                        (* Disconnect, closed is set *)
  | Relocking (l : loc)                                       (* Reconnect, before reconnectMu *)
  | Redialing (l : loc)                                       (* Reconnect, in dialFinal *)
  | Redialed (l : loc) (c : rid) (js : list rid) (addr : string).

Section lifecycle.
Context {E : Env}.
Variable PKH : string → option (list string * option string * string).
(** [rc]: whether clients call Reconnect too. *)
Variable rc : bool.
(** [race]: whether a failed Connect may find another session under its id when
    it deletes the entry; the code does not look (manager.go:53). *)
Variable race : bool.

(** [close], cut after the compare-and-swap and the cancellation. *)
Definition close_begin (l : loc) : M World bool :=
  s ← sess_at l;
  if closed s then mret false else
  upd_sess l (λ s, s <| closed := true |>);;
  upd_sess l (λ s, s <| keepaliveCancel := None |>);;
  cancel (keepaliveCancel s);;
  mret true.
Definition close_rest (l : loc) : M World unit :=
  close_forwards l;;
  close_shells l;;
  clearClient l;;
  markState l StateDisconnected None.

Inductive run_task : task → World → list task → World → Prop :=
  | run_dial_ok id l spec w c js addr w' :
      dial PKH spec w = (Ret (c, js, addr), w') →
      run_task (Dialing id l spec) w [Dialed id l c js addr] w'
  | run_dial_err id l spec w e w' :
      dial PKH spec w = (Err e, w') →
      run_task (Dialing id l spec) w [DialFailed id l] w'
  | run_dial_failed id l w w' :
      race = true ∨ sessions w !! id = None ∨ sessions w !! id = Some l →
      unreserve id w = (Ret tt, w') → run_task (DialFailed id l) w [] w'
  | run_set_ok id l c js addr w w' :
      setClient l c js addr w = (Ret true, w') → run_task (Dialed id l c js addr) w [] w'
  | run_set_refused id l c js addr w w' :
      setClient l c js addr w = (Ret false, w') → run_task (Dialed id l c js addr) w [Refused id l] w'
  | run_refused id l w w' :
      unreserve_own id l w = (Ret tt, w') → run_task (Refused id l) w [] w'
  | run_close l b w w' :
      close_begin l w = (Ret b, w') → run_task (Closing l) w (if b then [Closing2 l] else []) w'
  | run_close2 l w w' :
      close_rest l w = (Ret tt, w') → run_task (Closing2 l) w [] w'
  | run_relock l s w w' :
      w_sess w !! l = Some s → reconnectMu s = false →
      (lock_reconnect l true;; clearClient l;; markState l StateReconnecting None) w = (Ret tt, w') →
      run_task (Relocking l) w [Redialing l] w'
  | run_redial_ok l s w c js addr w' :
      w_sess w !! l = Some s → dial PKH (s_Spec s) w = (Ret (c, js, addr), w') →
      run_task (Redialing l) w [Redialed l c js addr] w'
  | run_redial_err l s w e w' :
      w_sess w !! l = Some s →
      (dial PKH (s_Spec s)) w = (Err e, w') →
      run_task (Redialing l) w [] ((markState l StateDisconnected (Some e);; lock_reconnect l false) w').2
  | run_reset l c js addr b w w' :
      setClient l c js addr w = (Ret b, w') →
      run_task (Redialed l c js addr) w [] (lock_reconnect l false w').2.

Inductive step : World * list task → World * list task → Prop :=
  | step_connect id spec l w w' ts :
      reserve id spec w = (Ret l, w') → step (w, ts) (w', Dialing id l spec :: ts)
  | step_disconnect id l w w' ts :
      unregister id w = (Ret l, w') → step (w, ts) (w', Closing l :: ts)
  | step_reconnect id l w ts :
      rc = true → sessions w !! id = Some l → step (w, ts) (w, Relocking l :: ts)
  | step_task t w ts' w' t1 t2 :
      run_task t w ts' w' → step (w, t1 ++ t :: t2) (w', t1 ++ ts' ++ t2).
End lifecycle.

(** The two halves of [close] make up [close]. *)
Lemma close_split {E : Env} l w :
  close l w = (b ← close_begin l; if b : bool then close_rest l else mret tt) w.
Proof.
  unfold close, close_begin, close_rest, mbind, M_bind, mret, M_ret.
  destruct (sess_at l w) as [[s|e|p] w1]; [|done|done].
  destruct (closed s); [done|]. simpl.
  by destruct (cancel (keepaliveCancel s) _) as [[[]|e|p] w2].
Qed.

(** ** Every resource is accounted for *)
Definition held_task (t : task) : list rid :=
  match t with
  | Dialed _ _ c js _ | Redialed _ c js _ => js ++ [c]
  | _ => []
  end.
Definition tasks_own (ts : list task) : list rid := ts ≫= held_task.

(** The session of a Connect in flight, which has no client yet. *)
Definition connecting (t : task) : option loc :=
  match t with Dialing _ l _ | Dialed _ l _ _ _ | DialFailed _ l => Some l | _ => None end.
Definition closing (t : task) : option loc :=
  match t with Closing l => Some l | _ => None end.
Definition refused (t : task) : option loc :=
  match t with Refused _ l => Some l | _ => None end.
Definition closing2 (t : task) : option loc :=
  match t with Closing2 l => Some l | _ => None end.
Definition task_loc (t : task) : option loc :=
  match t with
  | Dialing _ l _ | DialFailed _ l | Dialed _ l _ _ _ | Refused _ l | Closing l | Closing2 l => Some l
  | _ => None
  end.
Definition no_reconnect (t : task) : Prop :=
  match t with Relocking _ | Redialing _ | Redialed _ _ _ _ => False | _ => True end.

(** A call of the manager finds the session: an id leads to it, or the
    Disconnect that took its entry has still to set [closed]. *)
Definition reachable (w : World) (ts : list task) (l : loc) : Prop :=
  (∃ id, sessions w !! id = Some l) ∨ l ∈ omap closing ts.

Section invariant.
Variable race : bool.
Record inv (w : World) (ts : list task) : Prop := {
  i_winv : winv w (tasks_own ts);
  i_heap : ∀ l s, w_sess w !! l = Some s → (l < w_next w)%positive ∧ forwards s = ∅ ∧ shells s = ∅;
  i_reg : ∀ id l, sessions w !! id = Some l → is_Some (w_sess w !! l);
  i_tasks : ∀ t l, t ∈ ts → task_loc t = Some l → is_Some (w_sess w !! l);
  i_one : NoDup (omap connecting ts);
  i_conn : ∀ l s, w_sess w !! l = Some s → l ∈ omap connecting ts → own_sess s = [];
  i_closed : ∀ l s, w_sess w !! l = Some s → closed s = true → l ∉ omap closing2 ts → own_sess s = [];
  i_home : race = false → ∀ l s, w_sess w !! l = Some s → closed s = false →
    own_sess s ≠ [] ∨ l ∈ omap connecting ts → reachable w ts l;
  i_refused : ∀ l s, w_sess w !! l = Some s → l ∈ omap refused ts → closed s = true;
  i_norc : Forall no_reconnect ts;
  i_none : w_fwd w = ∅ ∧ w_shl w = ∅;
}.

Lemma wp_run_eq {S A} (m : M S A) Q s o s' : wp m Q s → m s = (o, s') → Q o s'.
Proof. unfold wp. intros HQ Hm. by rewrite Hm in HQ. Qed.

Lemma inv_perm w ts ts' : ts ≡ₚ ts' → inv w ts → inv w ts'.
Proof.
  intros Hp [H1 H2 H3 H4 H5 H6 H7 Hh Hr H8 H9]. split.
  - eapply winv_perm; [|exact H1]. unfold tasks_own. by rewrite Hp.
  - done.
  - done.
  - intros t l Ht. apply H4. by rewrite Hp.
  - by rewrite <- Hp.
  - intros l s Hs. rewrite <- Hp. by apply H6.
  - intros l s Hs Hc. rewrite <- Hp. by apply H7.
  - intros Hrace l s Hs Hc. unfold reachable. rewrite <- Hp. by apply (Hh Hrace l s).
  - intros l s Hs. rewrite <- Hp. by apply Hr.
  - by rewrite <- Hp.
  - done.
Qed.

(** Only the network changes; the task [t] becomes [t'], which holds [R] more. *)
Lemma inv_task w n t t' ts :
  inv w (t :: ts) → winv (w <| w_net := n |>) (held_task t' ++ tasks_own ts) →
  connecting t' = connecting t → closing2 t' = None → closing2 t = None → task_loc t' = task_loc t →
  closing t = None → closing t' = None → refused t' = None → no_reconnect t' →
  inv (w <| w_net := n |>) (t' :: ts).
Proof.
  intros [H1 H2 H3 H4 H5 H6 H7 Hh Hr H8 H9] Hw Ec E2 E2' El Ek Ek' Er Hn. split; try done.
  - intros t0 l [->|Ht]%elem_of_cons Hl.
    + apply (H4 t); [apply list_elem_of_here|by rewrite <- El].
    + apply (H4 t0); [by apply list_elem_of_further|done].
  - simpl in *. by rewrite Ec.
  - intros l s Hs. simpl in *. rewrite Ec. by apply H6.
  - intros l s Hs Hc. simpl in *. rewrite E2. rewrite E2' in H7. by apply H7.
  - intros Hrace l s Hs Hc. unfold reachable in *. simpl in *. rewrite Ec, Ek'. rewrite Ek in Hh.
    by apply (Hh Hrace l s).
  - intros l s Hs Hin. simpl in *. rewrite Er in Hin. apply (Hr l s Hs).
    destruct (refused t); [by apply list_elem_of_further|done].
  - constructor; [done|]. by inversion H8.
Qed.

(** The world keeps its heap; the task [t] is over. *)
Lemma inv_done w t ts :
  inv w (t :: ts) → closing2 t = None → closing t = None → held_task t = [] → inv w ts.
Proof.
  intros [H1 H2 H3 H4 H5 H6 H7 Hh Hr H8 H9] E2 Ek Eh.
  assert (Hconn : ∀ l, l ∈ omap connecting ts → l ∈ omap connecting (t :: ts)).
  { intros l Hin. simpl. destruct (connecting t); [by apply list_elem_of_further|done]. }
  split; try done.
  - unfold tasks_own in *. simpl in H1. by rewrite Eh in H1.
  - intros t0 l Ht. apply H4. by apply list_elem_of_further.
  - simpl in H5. destruct (connecting t); [by inversion H5|done].
  - intros l s Hs Hin. by apply (H6 l s Hs), Hconn.
  - intros l s Hs Hc. simpl in H7. rewrite E2 in H7. by apply H7.
  - intros Hrace l s Hs Hc Hl. unfold reachable in *. simpl in Hh. rewrite Ek in Hh.
    apply (Hh Hrace l s Hs Hc). destruct Hl as [?|Hl%Hconn]; [by left|by right].
  - intros l s Hs Hin. apply (Hr l s Hs). simpl. destruct (refused t); [by apply list_elem_of_further|done].
  - by inversion H8.
Qed.

(** The task [Closing l] of a session that is closed already is over. *)
Lemma inv_closing_done w l s ts :
  w_sess w !! l = Some s → closed s = true → inv w (Closing l :: ts) → inv w ts.
Proof.
  intros Hs Hc [H1 H2 H3 H4 H5 H6 H7 Hh Hr H8 H9]. split; try done.
  - intros t0 l0 Ht. apply H4. by apply list_elem_of_further.
  - intros Hrace l0 s0 Hs0 Hc0 Hl0. destruct (Hh Hrace l0 s0 Hs0 Hc0 Hl0) as [?|Hin]; [by left|right].
    apply elem_of_cons in Hin as [->|?]; [congruence|done].
  - by inversion H8.
Qed.

(** A change of the manager's map: an entry goes only when no call needs it. *)
Lemma inv_sessions w m ts :
  inv w ts → (∀ id l, m !! id = Some l → sessions w !! id = Some l) →
  (race = false → ∀ id l s, sessions w !! id = Some l → m !! id = None → w_sess w !! l = Some s →
     closed s = true ∨ (own_sess s = [] ∧ l ∉ omap connecting ts) ∨ l ∈ omap closing ts) →
  inv (w <| sessions := m |>) ts.
Proof.
  intros [H1 H2 H3 H4 H5 H6 H7 Hh Hr H8 H9] Hm Hgone. split; try done.
  - by refine (winv_move _ _ _ _ _ _ H1).
  - intros id l Hid. by eapply H3, Hm.
  - intros Hrace l s Hs Hc Hl. destruct (Hh Hrace l s Hs Hc Hl) as [[id Hid]|?]; [|by right].
    destruct (m !! id) as [l'|] eqn:Hid'.
    + left. exists id. simpl. pose proof (Hm id l' Hid'). congruence.
    + destruct (Hgone Hrace id l s Hid Hid' Hs) as [?|[[Ho Hn]|?]]; [congruence| |by right].
      by destruct Hl.
Qed.

(** A change of one session. *)
Lemma inv_sess w n C l s g t ts ts' :
  inv w (t :: ts) → w_sess w !! l = Some s →
  winv (w <| w_sess ::= alter g l |> <| w_net := n |>) (tasks_own (ts' ++ ts)) →
  forwards (g s) = ∅ → shells (g s) = ∅ →
  (ts' = [] ∨ ts' = [Closing2 l]) →
  (l ∈ omap connecting ts → own_sess (g s) = []) →
  (closed (g s) = true → l ∉ omap closing2 (ts' ++ ts) → own_sess (g s) = []) →
  (closing2 t = None ∨ closing2 t = Some l) →
  (closed s = true → closed (g s) = true) →
  (closing t = None ∨ closing t = Some l ∧ closed (g s) = true) →
  (own_sess (g s) = [] ∨ closed (g s) = true ∨ connecting t = Some l) →
  inv (w <| w_sess ::= alter g l |> <| w_net := n |> <| w_cancelled := C |>) (ts' ++ ts).
Proof.
  intros [H1 H2 H3 H4 H5 H6 H7 Hho Hr H8 H9] Hs Hw Hf Hh Hts Hconn Hclosed Ht2 Hcg Ht1 Hown.
  assert (Hcase : ∀ l' s', alter g l (w_sess w) !! l' = Some s' →
    (l' = l ∧ s' = g s) ∨ (l' ≠ l ∧ w_sess w !! l' = Some s')).
  { intros l' s' [[<- (s1 & Hs1 & ->)]|[Hne Hl']]%lookup_alter_Some; [left|right; done].
    rewrite Hs in Hs1. by injection Hs1 as <-. }
  assert (Hex : ∀ l', is_Some (w_sess w !! l') → is_Some (alter g l (w_sess w) !! l')).
  { intros l' Hl'. by apply lookup_alter_is_Some. }
  assert (Hsame : omap connecting (ts' ++ ts) = omap connecting ts ∧
    omap closing (ts' ++ ts) = omap closing ts ∧ omap refused (ts' ++ ts) = omap refused ts)
    by by destruct Hts as [-> | ->].
  destruct Hsame as (Eoc & Eok & Eor).
  assert (Hoc : ∀ l', l' ∈ omap connecting ts → l' ∈ omap connecting (t :: ts)).
  { intros l' Hin. simpl. destruct (connecting t); [by apply list_elem_of_further|done]. }
  assert (Hnc : ∀ l', l' ≠ l → l' ∉ omap closing2 (ts' ++ ts) → l' ∉ omap closing2 (t :: ts)).
  { intros l' Hne Hn Hin. apply Hn. rewrite omap_app, elem_of_app. right. simpl in Hin.
    destruct Ht2 as [E2|E2]; rewrite E2 in Hin; [done|]. by apply elem_of_cons in Hin as [?|?]. }
  assert (Hk : ∀ l', l' ≠ l ∨ closed (g s) = false → reachable w (t :: ts) l' → reachable w ts l').
  { intros l' Hl' [?|Hin]; [by left|right]. simpl in Hin.
    destruct Ht1 as [E1|[E1 Hc1]]; rewrite E1 in Hin; [done|].
    apply elem_of_cons in Hin as [->|?]; [|done]. destruct Hl'; congruence. }
  split.
  - by refine (winv_move _ _ _ _ _ _ Hw).
  - intros l' s' [[-> ->]|[_ Hl']]%Hcase; [|by apply H2]. split; [|done]. simpl. by apply (H2 l s).
  - intros id l' Hid. apply Hex. by apply (H3 id).
  - intros t0 l' [Ht|Ht]%elem_of_app Hl'; apply Hex.
    + destruct Hts as [-> | ->]; [by apply elem_of_nil in Ht|].
      apply list_elem_of_singleton in Ht as ->. injection Hl' as <-. by eexists.
    + apply (H4 t0); [by apply list_elem_of_further|done].
  - rewrite Eoc. simpl in H5. destruct (connecting t); [by inversion H5|done].
  - intros l' s' Hl'. rewrite Eoc. intros Hin. apply Hcase in Hl' as [[-> ->]|[_ Hl']]; [by apply Hconn|].
    apply (H6 l' s' Hl'). by apply Hoc.
  - intros l' s' [[-> ->]|[Hne Hl']]%Hcase Hc Hn; [by apply Hclosed|].
    apply (H7 l' s' Hl' Hc). by apply Hnc.
  - intros Hrace l' s' Hl' Hc'. rewrite Eoc. intros Hin. unfold reachable. rewrite Eok.
    apply Hcase in Hl' as [[-> ->]|[Hne Hl']].
    + apply Hk; [by right|]. apply (Hho Hrace l s Hs).
      * destruct (closed s) eqn:E; [|done]. by rewrite Hcg in Hc'.
      * right. destruct Hin as [Ho|Hin]; [|by apply Hoc]. destruct Hown as [?|[?|E]]; [done|congruence|].
        simpl. rewrite E. apply list_elem_of_here.
    + apply Hk; [by left|]. apply (Hho Hrace l' s' Hl' Hc'). destruct Hin; [by left|right; by apply Hoc].
  - intros l' s' Hl'. rewrite Eor. intros Hin.
    assert (Hin' : l' ∈ omap refused (t :: ts)).
    { simpl. destruct (refused t); [by apply list_elem_of_further|done]. }
    apply Hcase in Hl' as [[-> ->]|[_ Hl']]; [apply Hcg; by apply (Hr l s)|by apply (Hr l' s')].
  - apply Forall_app. inversion H8. split; [|done]. destruct Hts as [-> | ->]; by repeat constructor.
  - done.
Qed.
End invariant.

Section steps.
Context {E : Env} (PKH : string → option (list string * option string * string)) (race : bool).
Implicit Types w : World.

Lemma dial_ok spec w T c js addr w' :
  winv w T → dial PKH spec w = (Ret (c, js, addr), w') →
  ∃ n, w' = w <| w_net := n |> ∧ winv w' ((js ++ [c]) ++ T).
Proof.
  intros Hw Hd. eapply (wp_run_eq _ (λ o w', match o with
    | Ret r => ∃ n, w' = w <| w_net := n |> ∧ winv w' ((r.1.2 ++ [r.1.1]) ++ T) | _ => True end)) in Hd;
    [exact Hd|].
  apply wp_bind, wp_gets. eapply winv_opens; [apply (opens_dialFinal PKH)|exact Hw|].
  intros [r|e|p] n' _ Hw'; [by eauto|done|done].
Qed.
Lemma dial_err spec w T e w' :
  winv w T → dial PKH spec w = (Err e, w') → ∃ n, w' = w <| w_net := n |> ∧ winv w' T.
Proof.
  intros Hw Hd. eapply (wp_run_eq _ (λ o w', match o with
    | Err e => ∃ n, w' = w <| w_net := n |> ∧ winv w' T | _ => True end)) in Hd; [exact Hd|].
  apply wp_bind, wp_gets. eapply winv_opens; [apply (opens_dialFinal PKH)|exact Hw|].
  intros [r|e'|p] n' _ Hw'; [done|by eauto|done].
Qed.

Definition cleared (s : Session) : Session :=
  s <| sftp := None |> <| client := None |> <| jumpClients := [] |>
    <| agentForwardConn := None |> <| agentForwardOn := false |>.

Lemma clearClient_wp l s w T Q :
  w_sess w !! l = Some s → winv w T →
  (∀ n, let w' := w <| w_sess ::= alter cleared l |> <| w_net := n |> in winv w' T → Q (Ret tt) w') →
  wp (clearClient l) Q w.
Proof.
  intros Hs Hw HQ. apply wp_bind. eapply wp_sess_at; [exact Hs|]. apply wp_bind, wp_modify, wp_bind.
  eapply (winv_close_opt _ (option_list (client s) ++ jumpClients s ++ option_list (agentForwardConn s) ++ T)).
  { eapply winv_sess; [exact Hs| |exact Hw]. unfold own_sess. simpl. solve_Permutation. }
  intros n1 Hw1. apply wp_bind. eapply winv_close_opt; [exact Hw1|].
  intros n2 Hw2. apply wp_bind. eapply winv_closeAll; [exact Hw2|].
  intros n3 Hw3. eapply winv_close_opt; [exact Hw3|]. intros n4 Hw4. by apply (HQ n4).
Qed.

Lemma inv_reserve id spec l w w' ts :
  inv race w ts → reserve id spec w = (Ret l, w') → inv race w' (Dialing id l spec :: ts).
Proof.
  intros [H1 H2 H3 H4 H5 H6 H7 Hh Hr H8 H9]. unfold reserve, new_sess, mbind, M_bind, gets, modify, mret, M_ret.
  destruct (sessions w !! id) eqn:Hid; [done|]. intros [= <- <-]. set (l := w_next w).
  assert (Hnew : w_sess w !! l = None).
  { destruct (w_sess w !! l) as [s|] eqn:Hs; [|done]. destruct (H2 _ _ Hs). unfold l in *. lia. }
  assert (Hfresh : ∀ l', is_Some (w_sess w !! l') → is_Some (<[l := Session0 id spec]> (w_sess w) !! l')).
  { intros l' Hl'. by apply lookup_insert_is_Some'; right. }
  assert (Hnt : l ∉ omap connecting ts).
  { intros (t & Ht & Hc)%list_elem_of_omap. destruct (H4 t l Ht) as [s Hs]; [|congruence].
    by destruct t. }
  assert (Hnr : l ∉ omap refused ts).
  { intros (t & Ht & Hc)%list_elem_of_omap. destruct (H4 t l Ht) as [s Hs]; [|congruence].
    by destruct t. }
  split; simpl.
  - refine (winv_move w _ _ _ _ _ H1); [done|]. unfold owned, tasks_own; simpl.
    by rewrite held_insert by exact Hnew.
  - intros l' s' [[<- <-]|[_ Hl']]%lookup_insert_Some; [split; [unfold l; lia|done]|].
    destruct (H2 _ _ Hl'). split; [lia|done].
  - intros id' l' [[<- <-]|[_ Hl']]%lookup_insert_Some; [by rewrite lookup_insert_eq|].
    by apply Hfresh, (H3 id').
  - intros t l' [->|Ht]%elem_of_cons Hl'; simpl in *.
    + injection Hl' as <-. by rewrite lookup_insert_eq.
    + by apply Hfresh, (H4 t).
  - by constructor.
  - intros l' s' [[<- <-]|[Hne Hl']]%lookup_insert_Some; [done|].
    intros [->|Hin]%elem_of_cons; [done|]. by eapply H6.
  - intros l' s' [[<- <-]|[Hne Hl']]%lookup_insert_Some; [done|]. by eapply H7.
  - intros Hrace l' s' [[<- <-]|[Hne Hl']]%lookup_insert_Some Hc Hin.
    + left. exists id. apply lookup_insert_eq.
    + destruct (Hh Hrace l' s' Hl' Hc) as [[id' Hid']|?]; [|left; exists id'|by right].
      { destruct Hin as [?|[->|?]%elem_of_cons]; [by left|done|by right]. }
      simpl. rewrite lookup_insert_ne by congruence. done.
  - intros l' s' [[<- <-]|[Hne Hl']]%lookup_insert_Some Hin; [done|]. by eapply Hr.
  - by constructor.
  - done.
Qed.

Lemma inv_add w t ts :
  inv race w ts → held_task t = [] → connecting t = None → closing2 t = None → no_reconnect t →
  (∀ l, task_loc t = Some l → is_Some (w_sess w !! l)) →
  (∀ l s, refused t = Some l → w_sess w !! l = Some s → closed s = true) → inv race w (t :: ts).
Proof.
  intros [H1 H2 H3 H4 H5 H6 H7 Hh Hr H8 H9] Eh Ec E2 Hn Hl Href. split; simpl; rewrite ?Ec, ?E2; try done.
  - unfold tasks_own. simpl. by rewrite Eh.
  - intros t0 l [->|Ht]%elem_of_cons; [apply Hl|by apply H4].
  - intros Hrace l s Hs Hc Hin. destruct (Hh Hrace l s Hs Hc Hin) as [?|?]; [by left|right; simpl].
    destruct (closing t); [by apply list_elem_of_further|done].
  - intros l s Hs. destruct (refused t) as [l1|] eqn:Er; [|by apply Hr].
    intros [->|?]%elem_of_cons; [by eapply Href|by eapply Hr].
  - by constructor.
Qed.

(** [setClient] on a session without a client. *)
Definition installed (c : rid) (js : list rid) (addr : string) (t : Z) (s : Session) : Session :=
  s <| client := Some c |> <| jumpClients := js |> <| activeAddr := addr |>
    <| state := StateConnected |> <| lastError := None |> <| connectedAt := t |>.
Lemma setClient_wp l s c js addr w T Q :
  w_sess w !! l = Some s → own_sess s = [] → winv w ((js ++ [c]) ++ T) →
  (closed s = true → ∀ n, winv (w <| w_net := n |>) T → Q (Ret false) (w <| w_net := n |>)) →
  (closed s = false → ∀ n t,
     let w' := w <| w_sess ::= alter (installed c js addr t) l |> <| w_net := n |> in
     winv w' T → Q (Ret true) w') →
  wp (setClient l c js addr) Q w.
Proof.
  intros Hs Ho Hw HQ1 HQ2. apply wp_bind. eapply wp_sess_at; [exact Hs|].
  destruct (closed s) eqn:Hc.
  - apply wp_bind. eapply (winv_close _ (js ++ T)).
    { eapply winv_perm; [|exact Hw]. solve_Permutation. }
    intros n1 Hw1. apply wp_bind. eapply winv_closeAll; [exact Hw1|]. intros n2 Hw2.
    apply wp_ret. by apply (HQ1 eq_refl n2).
  - apply wp_bind. unfold netM. apply wp_zoom, harmless_wp; [apply harmless_now|].
    intros t n Hon Hnx. apply wp_bind, wp_modify, wp_ret. apply (HQ2 eq_refl n t).
    assert (Hw1 : winv (w <| w_net := n |>) ((js ++ [c]) ++ T)).
    { destruct Hw as [? ? Ho']. split; simpl; [by eapply net_wf_same|done|by rewrite Hon]. }
    assert (Hw2 : winv (w <| w_net := n |> <| w_sess ::= alter (installed c js addr t) l |>) T);
      [|by refine (winv_move _ _ _ _ _ _ Hw2)].
    eapply winv_sess; [exact Hs| |exact Hw1].
    unfold own_sess in *. apply app_nil in Ho as [E1 E2].
    apply app_nil in E2 as [E2 E3]. apply app_nil in E3 as [E3 E4].
    simpl. rewrite E1, E2, E3, E4. simpl. rewrite app_nil_r. solve_Permutation.
Qed.

Lemma alter_same (w : World) C n l g :
  w <| w_sess ::= alter g l |> <| w_net := n |> <| w_cancelled := C |> =
  w <| w_cancelled := C |> <| w_sess ::= alter g l |> <| w_net := n |>.
Proof. done. Qed.
Lemma cancelled_same (w : World) : w <| w_cancelled := w_cancelled w |> = w.
Proof. by destruct w. Qed.

Lemma inv_setClient id l c js addr w ts o w' :
  inv race w (Dialed id l c js addr :: ts) → setClient l c js addr w = (o, w') →
  match o with
  | Ret true => inv race w' ts
  | Ret false => inv race w' (Refused id l :: ts)
  | _ => True
  end.
Proof.
  intros Hi Hset. pose proof Hi as [H1 H2 H3 H4 H5 H6 H7 Hho Hr H8 H9].
  destruct (H4 (Dialed id l c js addr) l) as [s Hs]; [apply list_elem_of_here|done|].
  assert (Ho : own_sess s = []) by (apply (H6 l s Hs), list_elem_of_here).
  assert (Hnt : l ∉ omap connecting ts) by (simpl in H5; by inversion H5).
  refine (wp_run_eq _ (λ o w', match o with
    | Ret true => inv race w' ts | Ret false => inv race w' (Refused id l :: ts) | _ => True end) _ _ _ _ Hset).
  eapply setClient_wp; [exact Hs|exact Ho|exact H1| |].
  - intros Hc n Hw. apply inv_add; [|done..| |].
    + assert (inv race (w <| w_net := n |>) (Dialing id l (s_Spec s) :: ts)) as Hi'.
      { by eapply inv_task; [exact Hi|exact Hw|..]. }
      by eapply inv_done; [exact Hi'|..].
    + intros l' [= <-]. simpl. by eexists.
    + intros l' s' [= <-] Hs'. simpl in Hs'. congruence.
  - intros Hc n t w1 Hw. subst w1.
    rewrite <- (cancelled_same (_ <| w_net := n |>)).
    apply (inv_sess race w n _ l s (installed c js addr t) (Dialed id l c js addr) ts []); try done.
    + destruct (H2 l s Hs) as (_ & ? & _). done.
    + destruct (H2 l s Hs) as (_ & _ & ?). done.
    + by left.
    + intros Hcl. simpl in Hcl. congruence.
    + by left.
    + by left.
    + by do 2 right.
Qed.

Lemma inv_close_begin l w ts b w' :
  inv race w (Closing l :: ts) → close_begin l w = (Ret b, w') →
  inv race w' ((if b then [Closing2 l] else []) ++ ts).
Proof.
  intros Hi. pose proof Hi as [H1 H2 H3 H4 H5 H6 H7 Hho Hr H8 H9].
  destruct (H4 (Closing l) l) as [s Hs]; [apply list_elem_of_here|done|].
  unfold close_begin, mbind, M_bind, sess_at. rewrite Hs. destruct (closed s) eqn:Hc.
  { intros [= <- <-]. by eapply inv_closing_done. }
  intros Heq.
  set (g := λ s : Session, s <| closed := true |> <| keepaliveCancel := None |>).
  assert (Hw' : ∃ C, w' = w <| w_sess ::= alter g l |> <| w_net := w_net w |> <| w_cancelled := C |> ∧ b = true).
  { assert (Hal : alter (λ s : Session, s <| keepaliveCancel := None |>) l
      (alter (λ s : Session, s <| closed := true |>) l (w_sess w)) = alter g l (w_sess w))
      by apply alter_alter_eq.
    revert Heq. unfold upd_sess, modify, cancel. destruct w. unfold upd, upd_w_sess, upd_w_net, upd_w_cancelled in *.
    simpl in *. rewrite Hal. destruct (keepaliveCancel s); simpl; intros [= <- <-]; by eexists. }
  destruct Hw' as (C & -> & ->). clear Heq.
  apply (inv_sess race w (w_net w) C l s g (Closing l) ts [Closing2 l]); try done.
  - refine (winv_move _ _ _ _ _ _ (winv_sess w _ (tasks_own ts) l s g Hs _ H1)); done.
  - destruct (H2 l s Hs) as (_ & ? & _). done.
  - destruct (H2 l s Hs) as (_ & _ & ?). done.
  - by right.
  - intros Hin. by apply (H6 l s Hs).
  - intros _ Hn. destruct Hn. apply list_elem_of_here.
  - by left.
  - by right.
  - right. by left.
Qed.

Lemma inv_close_rest l w ts w' :
  inv race w (Closing2 l :: ts) → close_rest l w = (Ret tt, w') → inv race w' ts.
Proof.
  intros Hi Hrun. pose proof Hi as [H1 H2 H3 H4 H5 H6 H7 Hho Hr H8 H9].
  destruct (H4 (Closing2 l) l) as [s Hs]; [apply list_elem_of_here|done|].
  destruct (H2 l s Hs) as (_ & Hf & Hh).
  refine (wp_run_eq _ (λ _ w', inv race w' ts) _ _ _ _ Hrun).
  apply wp_bind, wp_bind. eapply wp_sess_at; [exact Hs|]. rewrite Hf, map_to_list_empty. apply wp_ret.
  apply wp_bind, wp_bind. eapply wp_sess_at; [exact Hs|]. rewrite Hh, map_to_list_empty. apply wp_ret.
  apply wp_bind. eapply clearClient_wp; [exact Hs|exact H1|]. intros n w1 Hw1. apply wp_modify. subst w1.
  set (g := λ s, cleared s <| state := StateDisconnected |>).
  assert (E1 : w <| w_sess ::= alter cleared l |> <| w_net := n |>
    <| w_sess ::= alter (λ s, s <| state := StateDisconnected |>) l |> =
    w <| w_sess ::= alter g l |> <| w_net := n |> <| w_cancelled := w_cancelled w |>).
  { assert (Hal : alter (λ s : Session, s <| state := StateDisconnected |>) l
      (alter cleared l (w_sess w)) = alter g l (w_sess w)) by apply alter_alter_eq.
    destruct w. unfold upd, upd_w_sess, upd_w_net, upd_w_cancelled in *. simpl in *. by rewrite Hal. }
  change (inv race (w <| w_sess ::= alter cleared l |> <| w_net := n |>
    <| w_sess ::= alter (λ s, s <| state := StateDisconnected |>) l |>) ts).
  rewrite E1. apply (inv_sess race w n _ l s g (Closing2 l) ts []); try done.
  - change (winv (w <| w_sess ::= alter g l |> <| w_net := n |>) (tasks_own ts)).
    change (winv (w <| w_sess ::= alter cleared l |> <| w_net := n |>) (tasks_own ts)) in Hw1.
    refine (winv_move _ _ _ _ _ _ Hw1); [done|]. unfold owned; simpl.
    by rewrite !(held_alter own_sess _ _ _ _ Hs).
  - by left.
  - by right.
  - by left.
  - by left.
Qed.

Lemma inv_run_task t w ts' w' ts :
  inv race w (t :: ts) → run_task PKH race t w ts' w' → inv race w' (ts' ++ ts).
Proof.
  intros Hi Hrun. pose proof Hi as [H1 H2 H3 H4 H5 H6 H7 Hho Hr H8 H9]. inversion Hrun; subst; clear Hrun.
  - destruct (dial_ok _ _ _ _ _ _ _ H1 H) as (n & -> & Hw). by eapply inv_task.
  - destruct (dial_err _ _ _ _ _ H1 H) as (n & -> & Hw). by eapply inv_task.
  - injection H0 as <-. apply inv_sessions; [by eapply inv_done|by intros id' l' [_ ?]%lookup_delete_Some|].
    intros Hrace id' l' s' Hid' Hdel Hs'. apply lookup_delete_None in Hdel as [<-|Hdel]; [|congruence].
    assert (l' = l) as -> by (destruct H as [?|[?|?]]; congruence).
    right. left. split; [apply (H6 l s' Hs'), list_elem_of_here|]. simpl in H5. by inversion H5.
  - by apply (inv_setClient _ _ _ _ _ _ _ _ _ Hi) in H.
  - by apply (inv_setClient _ _ _ _ _ _ _ _ _ Hi) in H.
  - injection H as <-. assert (inv race w ts) as Hi' by by eapply inv_done. case_decide as Hid; [|done].
    apply inv_sessions; [done|by intros id' l' [_ ?]%lookup_delete_Some|].
    intros _ id' l' s' Hid' Hdel Hs'. left. apply lookup_delete_None in Hdel as [<-|Hdel]; [|congruence].
    rewrite Hid' in Hid. injection Hid as ->. apply (Hr l s' Hs'), list_elem_of_here.
  - by eapply inv_close_begin.
  - by eapply inv_close_rest.
  - by inversion H8.
  - by inversion H8.
  - by inversion H8.
  - by inversion H8.
Qed.

Lemma inv_step w ts w' ts' :
  inv race w ts → step PKH false race (w, ts) (w', ts') → inv race w' ts'.
Proof.
  intros Hi Hst. inversion Hst; subst; clear Hst.
  - by eapply inv_reserve.
  - match goal with H : unregister _ _ = _ |- _ => revert H end. unfold unregister, Get, mbind, M_bind.
    destruct (sessions w !! id) as [l0|] eqn:Hid; [|done]. intros [= <- <-].
    apply inv_sessions; [apply inv_add; try done| |].
    + intros l' [= <-]. by apply (i_reg _ _ _ Hi id).
    + by intros id' l' [_ ?]%lookup_delete_Some.
    + intros _ id' l' s' Hid' Hdel Hs'. right. right.
      apply lookup_delete_None in Hdel as [<-|Hdel]; [|congruence].
      rewrite Hid' in Hid. injection Hid as ->. apply list_elem_of_here.
  - done.
  - eapply inv_perm; [|eapply (inv_run_task _ _ _ _ (t1 ++ t2)); [|eassumption]].
    + solve_Permutation.
    + eapply inv_perm; [|exact Hi]. solve_Permutation.
Qed.

Lemma inv_world0 m : inv race (world0 <| w_mem := m |>) [].
Proof.
  split; try done.
  - split; [intros r Hr; by apply elem_of_empty in Hr| |]; unfold owned; simpl;
      by rewrite !held_empty; [constructor|..].
  - intros t l Ht. by apply elem_of_nil in Ht.
  - constructor.
Qed.

Lemma inv_rtc m w ts : rtc (step PKH false race) (world0 <| w_mem := m |>, []) (w, ts) → inv race w ts.
Proof.
  intros H. assert (Hgen : ∀ p q, rtc (step PKH false race) p q → inv race p.1 p.2 → inv race q.1 q.2).
  { induction 1 as [|[w1 t1] [w2 t2] q Hst _ IH]; [done|]. intros Hi. apply IH. by eapply inv_step. }
  by apply (Hgen _ _ H), inv_world0.
Qed.
End steps.

(** ** Properties *)


(** Steps of a concrete run: the world after a call is computed. *)
Ltac run_step H := eapply rtc_l; [H; vm_compute; reflexivity|].
Definition ConnectSpec_pw (a : slice) : ConnectSpec :=
  mkConnectSpec "root" a None (mkAuthSpec "" "" false "" "pw") "" true 0 0 false false false true.
Definition mem_ex : Mem := mkMem {[1%positive := ["10.0.0.1"]]} ∅ 2%positive.
Definition good : ConnectSpec := ConnectSpec_pw (Some 1%positive).
Definition bad : ConnectSpec := ConnectSpec_pw None.


(** A failed dial can orphan a live session.  A Connect is in flight for an id,
    a Disconnect frees the id, a second Connect takes it and succeeds, and then
    the first dial fails: its cleanup deletes the entry of the id without looking
    whose it is.  No call is left, the second session is connected and open, its
    client is open, and no id leads to it. *)
Theorem connect_race_orphans_session :
  ∃ w l s c, rtc (@step env_ok (λ _, None) false true) (world0 <| w_mem := mem_ex |>, []) (w, []) ∧
    w_sess w !! l = Some s ∧ state s = StateConnected ∧ closed s = false ∧
    client s = Some c ∧ c ∈ n_open (w_net w) ∧ ∀ id, sessions w !! id = None.
Proof.
  eexists _, 2%positive, _, 1%positive. match goal with |- ?P ∧ _ => assert (Hrun : P) end.
  - run_step ltac:(eapply (step_connect _ _ _ "a" bad)).
    run_step ltac:(eapply (step_disconnect _ _ _ "a")).
    run_step ltac:(eapply (step_task _ _ _ _ _ _ _ [] _); eapply run_close).
    run_step ltac:(eapply (step_task _ _ _ _ _ _ _ [] _); eapply run_close2).
    run_step ltac:(eapply (step_connect _ _ _ "a" good)).
    run_step ltac:(eapply (step_task _ _ _ _ _ _ _ [] _); eapply run_dial_ok).
    run_step ltac:(eapply (step_task _ _ _ _ _ _ _ [] _); eapply run_set_ok).
    run_step ltac:(eapply (step_task _ _ _ _ _ _ _ [] []); eapply run_dial_err).
    run_step ltac:(eapply (step_task _ _ _ _ _ _ _ [] []); eapply run_dial_failed; [by left|]).
    apply rtc_refl.
  - split; [exact Hrun|]. split; [vm_compute; reflexivity|].
    split; [vm_compute; reflexivity|]. split; [vm_compute; reflexivity|].
    split; [vm_compute; reflexivity|]. split.
    + vm_compute. reflexivity.
    + intros id. match goal with |- sessions ?w !! id = None => assert (E0 : sessions w = ∅) end.
      { vm_compute. reflexivity. }
      rewrite E0. apply lookup_empty.
Qed.

(** A Reconnect that overlaps the Connect of the same session leaks a
    transport.  Only reconnects take [reconnectMu]: the Connect's [setClient] finds
    the client the Reconnect installed and overwrites it without closing it.  No
    call is left, the overwritten client is open, and no session holds it. *)
Theorem reconnect_race_leaks_transport :
  ∃ w r, rtc (@step env_ok (λ _, None) true false) (world0 <| w_mem := mem_ex |>, []) (w, []) ∧
    r ∈ n_open (w_net w) ∧ ∀ l s, w_sess w !! l = Some s → r ∉ own_sess s.
Proof.
  eexists _, 1%positive. match goal with |- ?P ∧ _ => assert (Hrun : P) end.
  - run_step ltac:(eapply (step_connect _ _ _ "a" good)).
    eapply rtc_l; [eapply (step_reconnect _ _ _ "a" 1%positive); vm_compute; reflexivity|].
    eapply rtc_l; [eapply (step_task _ _ _ _ _ _ _ [] _);
      eapply run_relock; (vm_compute; reflexivity)|].
    eapply rtc_l; [eapply (step_task _ _ _ _ _ _ _ [] _);
      eapply run_redial_ok; [vm_compute; reflexivity|vm_compute; reflexivity]|].
    run_step ltac:(eapply (step_task _ _ _ _ _ _ _ [] _); eapply run_reset).
    run_step ltac:(eapply (step_task _ _ _ _ _ _ _ [] []); eapply run_dial_ok).
    run_step ltac:(eapply (step_task _ _ _ _ _ _ _ [] []); eapply run_set_ok).
    apply rtc_refl.
  - split; [exact Hrun|]. split.
    + vm_compute. reflexivity.
    + intros l s Hs Hr.
      match type of Hs with w_sess ?w !! l = _ =>
        assert (Hall : ∀ s, s ∈ (map_to_list (w_sess w)).*2 → own_sess s = [2%positive]) end.
      { intros s' Hs'. vm_compute in Hs'. apply list_elem_of_singleton in Hs' as ->. vm_compute. reflexivity. }
      rewrite (Hall s) in Hr; [by apply list_elem_of_singleton in Hr|].
      apply list_elem_of_fmap. exists (l, s). by rewrite elem_of_map_to_list.
Qed.
