(* ===== verification/Socks.v ===== *)
(** * The SOCKS5 server of a dynamic forward (internal/sshx/forward.go)

    [socksHandshake], [socksReadRequest], [socksReply] and [handleSocks].  The
    client's side of a connection is the bytes it has sent and will send
    ([c_in]); [io.ReadFull] takes them in order, however they were cut into
    packets, and fails when they run out.  [c_writes] is the number of writes that
    succeed before the connection breaks. *)

From S2P Require Import Prelude GoStrings External Spec Auth World Session Forward.
From Stdlib Require Import Ascii String Strings.Byte.

Record Conn := mkConn {
  c_in : bytes;
  c_out : list bytes;      (* one entry for each Write *)
  c_writes : nat;
}.

Definition byteZ (b : byte) : Z := Z.of_N (Byte.to_N b).
Definition Zbyte (z : Z) : byte := default x00 (Byte.of_N (Z.to_N z)).

Definition ReadFull (n : nat) : M Conn bytes := λ c,
  if bool_decide (n ≤ List.length (c_in c))%nat
  then (Ret (take n (c_in c)), mkConn (drop n (c_in c)) (c_out c) (c_writes c))
  else (Err (Msg (match c_in c with [] => "EOF" | _ => "unexpected EOF" end)),
        mkConn [] (c_out c) (c_writes c)).
Definition Write (b : bytes) : M Conn unit := λ c,
  match c_writes c with
  | O => (Err (Msg "broken pipe"), c)
  | S k => (Ret tt, mkConn (c_in c) (c_out c ++ [b]) k)
  end.

(** [net.IP.String]: a 4-byte address, and a 16-byte one, where an IPv4-mapped
    address is printed as the IPv4 address and the longest run of two or more
    zero groups as [::]. *)
Definition nthZ (b : bytes) (i : nat) : Z := byteZ (nth i b x00).
Definition IP4_String (b : bytes) : string :=
  Join (map (λ i, Itoa (nthZ b i)) [0; 1; 2; 3]%nat) ".".

Definition hex_digit (n : Z) : ascii :=
  ascii_of_N (Z.to_N (if bool_decide (n < 10) then n + 48 else n + 87)).
Fixpoint hex_go (fuel : nat) (n : Z) (acc : string) : string :=
  match fuel with
  | O => acc
  | S f =>
    let acc' := String (hex_digit (n mod 16)) acc in
    if bool_decide (n < 16) then acc' else hex_go f (n / 16) acc'
  end.
Definition hex (n : Z) : string := hex_go 4 n "".

Definition groups (b : bytes) : list Z :=
  map (λ i, nthZ b (2 * i) * 256 + nthZ b (2 * i + 1)) (seq 0 8).
(** The number of zero groups at the head. *)
Fixpoint zeros (g : list Z) : nat :=
  match g with [] => 0 | x :: g => if bool_decide (x = 0) then S (zeros g) else 0 end.
(** The start and the length of the first longest run of zeros, of length above [best]. *)
Fixpoint longest (i : nat) (g : list Z) (best : nat * nat) : nat * nat :=
  match g with
  | [] => best
  | x :: g' =>
    longest (S i) g' (if bool_decide (best.2 < zeros g)%nat then (i, zeros g) else best)
  end.
Definition IP6_String (b : bytes) : string :=
  let g := groups b in
  let '(i, n) := longest 0 g (0%nat, 1%nat) in
  if bool_decide (n < 2)%nat then Join (map hex g) ":"
  else (Join (map hex (take i g)) ":" +:+ "::" +:+ Join (map hex (drop (i + n) g)) ":")%string.
Definition mapped4 (b : bytes) : bool :=
  bool_decide (take 12 b = replicate 10 x00 ++ [xff; xff]).
Definition IP_String (b : bytes) : string :=
  if bool_decide (List.length b = 4%nat) then IP4_String b
  else if mapped4 b then IP4_String (drop 12 b) else IP6_String b.

Definition bytes_string (b : bytes) : string := string_of_list_byte b.

Definition socksHandshake : M Conn unit :=
  buf ← ReadFull 2;
  if decide (nthZ buf 0 ≠ 5) then fail (Msg "socks: bad version") else
  _ ← ReadFull (Z.to_nat (nthZ buf 1));
  Write [x05; x00].

Definition socksReadRequest : M Conn string :=
  hdr ← ReadFull 4;
  if decide (nthZ hdr 0 ≠ 5 ∨ nthZ hdr 1 ≠ 1) then fail (Msg "socks: unsupported command") else
  host ←
    (if decide (nthZ hdr 3 = 1) then
       ip ← ReadFull 4; mret (IP_String ip)
     else if decide (nthZ hdr 3 = 3) then
       ln ← ReadFull 1;
       if decide (nthZ ln 0 = 0) then fail (Msg "socks: empty hostname") else
       name ← ReadFull (Z.to_nat (nthZ ln 0));
       mret (bytes_string name)
     else if decide (nthZ hdr 3 = 4) then
       ip ← ReadFull 16; mret (IP_String ip)
     else fail (Msg "socks: unknown atyp"));
  portB ← ReadFull 2;
  mret (JoinHostPort host (Itoa (nthZ portB 0 * 256 + nthZ portB 1))).

Definition socksReply (rep : byte) : M Conn unit :=
  Write [x05; rep; x00; x01; x00; x00; x00; x00; x00; x00].

(** [handleSocks] runs on the world and on its connection; [c] is that
    connection's resource. *)
Section handle.
Context {E : Env}.

Definition onConn {A} (m : M Conn A) : M (World * Conn) A := zoom snd (λ c p, (p.1, c)) m.
Definition onWorld {A} (m : M World A) : M (World * Conn) A := zoom fst (λ w p, (w, p.2)) m.

Definition handleSocks (l : loc) (c : rid) : M (World * Conn) unit :=
  finally (
    r ← try (onConn socksHandshake);
    match r with
    | inl _ => mret tt
    | inr _ =>
      r ← try (onConn socksReadRequest);
      match r with
      | inl _ => ignore (onConn (socksReply x01))
      | inr dest =>
        r ← try (onWorld (getClient l));
        match r with
        | inl _ => ignore (onConn (socksReply x03))
        | inr cl =>
          r ← try (onWorld (netM (dialViaClient cl dest)));
          match r with
          | inl _ => ignore (onConn (socksReply x05))
          | inr upstream =>
            finally (
              r ← try (onConn (socksReply x00));
              match r with
              | inl _ => mret tt
              | inr _ => onWorld (netM (pipe c upstream))
              end)
            (onWorld (netM (closeR upstream)))
          end
        end
      end
    end)
  (onWorld (netM (closeR c))).
End handle.

(** ** The encoding of a client (RFC 1928) *)
Inductive dest := DIPv4 (ip : bytes) | DName (name : bytes) | DIPv6 (ip : bytes).
Definition dest_ok (d : dest) : Prop :=
  match d with
  | DIPv4 ip => List.length ip = 4%nat
  | DName n => (0 < List.length n < 256)%nat
  | DIPv6 ip => List.length ip = 16%nat
  end.
Definition encode_dest (d : dest) : bytes :=
  match d with
  | DIPv4 ip => x01 :: ip
  | DName n => x03 :: Zbyte (Z.of_nat (List.length n)) :: n
  | DIPv6 ip => x04 :: ip
  end.
Definition encode_request (d : dest) (port : Z) : bytes :=
  [x05; x01; x00] ++ encode_dest d ++ [Zbyte (port / 256); Zbyte (port mod 256)].
Definition dest_host (d : dest) : string :=
  match d with
  | DIPv4 ip => IP4_String ip
  | DName n => bytes_string n
  | DIPv6 ip => if mapped4 ip then IP4_String (drop 12 ip) else IP6_String ip
  end.

(** ** Facts *)
Lemma byteZ_Zbyte z : 0 ≤ z < 256 → byteZ (Zbyte z) = z.
Proof.
  intros H. unfold byteZ, Zbyte.
  destruct (Byte.of_N (Z.to_N z)) as [b|] eqn:Hb.
  - apply Byte.to_of_N in Hb. simpl. lia.
  - exfalso. pose proof (Byte.of_N_None_iff (Z.to_N z)) as [Hi _]. apply Hi in Hb. lia.
Qed.
Lemma byteZ_range b : 0 ≤ byteZ b < 256.
Proof. unfold byteZ. pose proof (Byte.to_N_bounded b). lia. Qed.

Lemma ReadFull_app p q out k :
  ReadFull (List.length p) (mkConn (p ++ q) out k) = (Ret p, mkConn q out k).
Proof.
  unfold ReadFull. simpl. rewrite bool_decide_true by (rewrite length_app; lia).
  by rewrite take_app_length, drop_app_length.
Qed.
Lemma ReadFull_n n p q out k : n = List.length p →
  ReadFull n (mkConn (p ++ q) out k) = (Ret p, mkConn q out k).
Proof. intros ->. apply ReadFull_app. Qed.
Lemma ReadFull_short n i out k : (List.length i < n)%nat →
  ∃ e, ReadFull n (mkConn i out k) = (Err e, mkConn [] out k).
Proof. intros H. unfold ReadFull. simpl. rewrite bool_decide_false by lia. by eexists. Qed.

(** [ReadFull] at the head of a reader. *)
Lemma read_step {A} n p q out k (f : bytes → M Conn A) : n = List.length p →
  (ReadFull n ≫= f) (mkConn (p ++ q) out k) = f p (mkConn q out k).
Proof. intros Hn. unfold mbind, M_bind. by rewrite ReadFull_n. Qed.

Lemma nthZ_lt b i : 0 ≤ nthZ b i < 256.
Proof. apply byteZ_range. Qed.
Lemma nthZ_Zbyte0 z l : 0 ≤ z < 256 → nthZ (Zbyte z :: l) 0 = z.
Proof. apply byteZ_Zbyte. Qed.

Lemma IP_String_4 ip : List.length ip = 4%nat → IP_String ip = IP4_String ip.
Proof. intros H. unfold IP_String. by rewrite bool_decide_true. Qed.
Lemma IP_String_16 ip : List.length ip = 16%nat →
  IP_String ip = if mapped4 ip then IP4_String (drop 12 ip) else IP6_String ip.
Proof. intros H. unfold IP_String. by rewrite bool_decide_false by (rewrite H; done). Qed.

Lemma socksReadRequest_encode d port rest out k :
  dest_ok d → 0 ≤ port < 65536 →
  socksReadRequest (mkConn (encode_request d port ++ rest) out k) =
  (Ret (JoinHostPort (dest_host d) (Itoa port)), mkConn rest out k).
Proof.
  intros Hd Hp.
  assert (Hq : 0 ≤ port / 256 < 256) by (split; [by apply Z.div_pos; lia|by apply Z.div_lt_upper_bound; lia]).
  assert (Hm : 0 ≤ port mod 256 < 256) by (by apply Z.mod_pos_bound).
  assert (Hport : nthZ [Zbyte (port / 256); Zbyte (port mod 256)] 0 * 256 +
                  nthZ [Zbyte (port / 256); Zbyte (port mod 256)] 1 = port).
  { unfold nthZ. simpl. rewrite !byteZ_Zbyte by done. pose proof (Z.div_mod port 256). lia. }
  assert (Htail : ∀ host,
    (portB ← ReadFull 2; mret (JoinHostPort host (Itoa (nthZ portB 0 * 256 + nthZ portB 1))))
      (mkConn ([Zbyte (port / 256); Zbyte (port mod 256)] ++ rest) out k) =
    (Ret (JoinHostPort host (Itoa port)), mkConn rest out k)).
  { intros host. rewrite read_step by done. unfold mret, M_ret. by rewrite Hport. }
  unfold socksReadRequest, encode_request. destruct d as [ip|name|ip]; simpl in Hd.
  - change (([x05; x01; x00] ++ encode_dest (DIPv4 ip) ++ [Zbyte (port / 256); Zbyte (port mod 256)]) ++ rest)
      with ([x05; x01; x00; x01] ++ (ip ++ [Zbyte (port / 256); Zbyte (port mod 256)]) ++ rest).
    rewrite read_step by done. rewrite decide_False by (vm_compute; naive_solver).
    rewrite decide_True by done. erewrite bind_ret; [apply Htail|].
    rewrite <- (assoc_L (++)), read_step by done. by rewrite IP_String_4.
  - change (([x05; x01; x00] ++ encode_dest (DName name) ++ [Zbyte (port / 256); Zbyte (port mod 256)]) ++ rest)
      with ([x05; x01; x00; x03] ++ [Zbyte (Z.of_nat (List.length name))] ++
            (name ++ [Zbyte (port / 256); Zbyte (port mod 256)]) ++ rest).
    rewrite read_step by done. rewrite decide_False by (vm_compute; naive_solver).
    rewrite decide_False by done. rewrite decide_True by done. erewrite bind_ret; [apply Htail|].
    rewrite read_step by done. rewrite nthZ_Zbyte0 by lia. rewrite decide_False by lia.
    rewrite <- (assoc_L (++)), Nat2Z.id. by rewrite read_step.
  - change (([x05; x01; x00] ++ encode_dest (DIPv6 ip) ++ [Zbyte (port / 256); Zbyte (port mod 256)]) ++ rest)
      with ([x05; x01; x00; x04] ++ (ip ++ [Zbyte (port / 256); Zbyte (port mod 256)]) ++ rest).
    rewrite read_step by done. rewrite decide_False by (vm_compute; naive_solver).
    rewrite decide_False by done. rewrite decide_False by done. rewrite decide_True by done.
    erewrite bind_ret; [apply Htail|].
    rewrite <- (assoc_L (++)), read_step by done. by rewrite IP_String_16.
Qed.

Lemma socksHandshake_ok methods rest out k :
  (List.length methods < 256)%nat →
  socksHandshake (mkConn ([x05; Zbyte (Z.of_nat (List.length methods))] ++ methods ++ rest) out (S k)) =
  (Ret tt, mkConn rest (out ++ [[x05; x00]]) k).
Proof.
  intros Hm. unfold socksHandshake. rewrite read_step by done.
  rewrite decide_False by (vm_compute; naive_solver).
  assert (nthZ [x05; Zbyte (Z.of_nat (List.length methods))] 1 = Z.of_nat (List.length methods)) as ->
    by (apply byteZ_Zbyte; lia).
  rewrite Nat2Z.id. by rewrite read_step.
Qed.

(** ** Properties *)

(** C29: the request parser takes apart what a SOCKS5 client builds: for every
    address of the three kinds and every port it returns the host and the port
    the client meant, and leaves the bytes after the request unread. *)
Theorem socks_request_roundtrip d port rest out k
    (Hd : dest_ok d) (Hp : 0 ≤ port < 65536) :
  socksReadRequest (mkConn (encode_request d port ++ rest) out k) =
  (Ret (JoinHostPort (dest_host d) (Itoa port)), mkConn rest out k).
Proof. by apply socksReadRequest_encode. Qed.

Definition ip6_ex : bytes := [x20; x01; x0d; xb8] ++ replicate 11 x00 ++ [x01].
Lemma socks_request_roundtrip_witness :
  socksReadRequest (mkConn (encode_request (DIPv6 ip6_ex) 443 ++ [x47]) [] 1) =
    (Ret "[2001:db8::1]:443", mkConn [x47] [] 1).
Proof. apply (socks_request_roundtrip (DIPv6 ip6_ex) 443 [x47]); [reflexivity|lia]. Defined.

(** Copying both ways closes at most the two connections. *)
Lemma wp_halfClose {E : Env} c n (Q : outcome unit → Net → Prop) :
  (∀ n', n_open n' = n_open n ∨ n_open n' = n_open n ∖ {[c]} → Q (Ret tt) n') →
  wp (halfClose c) Q n.
Proof.
  intros HQ. apply wp_bind, wp_try, wp_call; simpl; intros x _.
  - destruct x; [apply wp_ret, HQ; by left|apply wp_closeR, HQ; by right].
  - apply wp_ret, HQ. by left.
Qed.
Lemma wp_ignore_call {E : Env} {T} (x : ext T) n (Q : outcome unit → Net → Prop) :
  (∀ n', n_open n' = n_open n → Q (Ret tt) n') → wp (ignore (call x)) Q n.
Proof. intros HQ. apply wp_ignore, wp_call; simpl; intros; by apply HQ. Qed.
Lemma wp_pipe {E : Env} a b n (Q : outcome unit → Net → Prop) :
  (∀ n', n_open n' ∖ {[a; b]} = n_open n ∖ {[a; b]} → Q (Ret tt) n') → wp (pipe a b) Q n.
Proof.
  intros HQ. apply wp_bind, wp_ignore_call. intros n1 E1.
  apply wp_bind, wp_halfClose. intros n2 E2. apply wp_bind, wp_ignore_call. intros n3 E3.
  apply wp_halfClose. intros n4 E4. apply HQ.
  destruct E2 as [E2|E2], E4 as [E4|E4]; rewrite E4, E3, E2, E1; set_solver.
Qed.

(** A well-formed SOCKS5 connect request is answered and cleaned up.  The
    greeting gets "no authentication"; the request gets reply 3 when the session
    has no client, 5 when the SSH server cannot reach the destination the client
    asked for, and 0 otherwise.  Afterwards the accepted connection is closed and
    so is the tunnelled one; nothing else changes. *)
Theorem handleSocks_replies {E : Env} l s c w methods d port rest k
    (Hs : w_sess w !! l = Some s) (Hwf : net_wf (w_net w))
    (Hm : (List.length methods < 256)%nat) (Hd : dest_ok d) (Hp : 0 ≤ port < 65536) :
  let input := [x05; Zbyte (Z.of_nat (List.length methods))] ++ methods ++ encode_request d port ++ rest in
  let dest := JoinHostPort (dest_host d) (Itoa port) in
  let '(o, (w', cn)) := handleSocks l c (w, mkConn input [] (S (S k))) in
  let reply r := [[x05; x00]; [x05; r; x00; x01; x00; x00; x00; x00; x00; x00]] in
  o = Ret tt ∧ n_open (w_net w') = n_open (w_net w) ∖ {[c]} ∧
  c_out cn = reply (match client s with
                    | None => x03
                    | Some cl => match env _ (n_tick (w_net w)) (ClientDial cl "tcp" dest) with
                                 | inl _ => x05
                                 | inr _ => x00
                                 end
                    end).
Proof.
  intros input dest.
  assert (H : wp (handleSocks l c) (λ o p, o = Ret tt ∧ n_open (w_net p.1) = n_open (w_net w) ∖ {[c]} ∧
    c_out p.2 = [[x05; x00]; [x05; match client s with
                    | None => x03
                    | Some cl => match env _ (n_tick (w_net w)) (ClientDial cl "tcp" dest) with
                                 | inl _ => x05
                                 | inr _ => x00
                                 end
                    end; x00; x01; x00; x00; x00; x00; x00; x00]]) (w, mkConn input [] (S (S k)))).
  { apply wp_bind, wp_try.
    apply (wp_mono _ (λ o p, o = Ret tt ∧ n_open (w_net p.1) ∖ {[c]} = n_open (w_net w) ∖ {[c]} ∧
      c_out p.2 = [[x05; x00]; [x05; match client s with
                    | None => x03
                    | Some cl => match env _ (n_tick (w_net w)) (ClientDial cl "tcp" dest) with
                                 | inl _ => x05
                                 | inr _ => x00
                                 end
                    end; x00; x01; x00; x00; x00; x00; x00; x00]])).
    2:{ intros o [w' cn] (-> & Ho & Hc). simpl in *. apply wp_bind. unfold onWorld, netM.
        apply wp_zoom, wp_zoom, wp_closeR, wp_ret. done. }
    apply wp_bind, wp_try, wp_zoom. unfold wp at 1. simpl snd. unfold input.
    rewrite (socksHandshake_ok methods (encode_request d port ++ rest) [] (S k) Hm). simpl.
    apply wp_bind, wp_try, wp_zoom. unfold wp at 1. simpl snd.
    rewrite (socksReadRequest_encode d port rest _ (S k) Hd Hp). simpl. fold dest.
    apply wp_bind, wp_try, wp_zoom. simpl fst. eapply wp_getClient; [exact Hs| |].
    2:{ intros e ->. apply wp_ignore, wp_zoom. unfold wp, socksReply, Write. simpl. done. }
    intros cl ->. apply wp_bind, wp_try, wp_zoom. simpl fst. unfold netM at 1. apply wp_zoom.
    unfold dialViaClient. apply wp_bind, wp_acquire.
    2:{ intros e ->. simpl. apply wp_ignore, wp_zoom. unfold wp, socksReply, Write. simpl. done. }
    intros [] ->. apply wp_ret. simpl. set (up := n_next (w_net w)).
    assert (Hup : up ∉ n_open (w_net w)) by (apply wf_next_fresh; [done|unfold up; lia]).
    apply wp_bind, wp_try, wp_bind, wp_try, wp_zoom. unfold wp at 1. simpl.
    apply wp_zoom. unfold netM at 1. simpl fst. apply wp_zoom, wp_pipe. simpl. intros n Hn.
    apply wp_bind, wp_zoom. simpl fst. unfold netM. apply wp_zoom, wp_closeR, wp_ret. simpl.
    split_and!; [done| |done]. set_solver. }
  unfold wp in H. by destruct (handleSocks _ _ _) as [o [w' cn]].
Qed.

(** A session whose client reaches nothing. *)
Lemma handleSocks_replies_witness :
  let w := world0 <| w_sess := {[1%positive := mkSession "a"
    (mkConnectSpec "" None None AuthSpec0 "" true 0 0 false false false true) (Some 7%positive) [] ""
    StateConnected None 0 ∅ ∅ None false None false None false]} |>
    <| w_net := mkNet 0 9%positive {[7%positive; 8%positive]} |> in
  let input := [x05; x01; x00] ++ encode_request (DName [x61]) 80 ++ [] in
  let '(o, (w', cn)) := @handleSocks (λ T _ _, inl (Msg "no route")) 1%positive 8%positive
                          (w, mkConn input [] 2) in
  n_open (w_net w') = n_open (w_net w) ∖ {[8%positive]} ∧
  c_out cn = [[x05; x00]; [x05; x05; x00; x01; x00; x00; x00; x00; x00; x00]].
Proof.
  intros w input.
  assert (Hs : w_sess w !! 1%positive = Some (mkSession "a"
    (mkConnectSpec "" None None AuthSpec0 "" true 0 0 false false false true) (Some 7%positive) [] ""
    StateConnected None 0 ∅ ∅ None false None false None false)) by reflexivity.
  assert (Hwf : net_wf (w_net w)) by (intros r Hr; simpl in Hr; set_unfold in Hr; simpl; lia).
  pose proof (@handleSocks_replies (λ T _ _, inl (Msg "no route")) 1%positive _ 8%positive w [x00]
    (DName [x61]) 80 [] 0 Hs Hwf ltac:(simpl; lia) ltac:(simpl; lia) ltac:(lia)) as H.
  change ([x05; Zbyte (Z.of_nat (List.length [x00]))] ++ [x00] ++ encode_request (DName [x61]) 80 ++ [])
    with input in H.
  cbv zeta in H. destruct (handleSocks _ _ _) as [o [w' cn]]. destruct H as (_ & H1 & H2).
  split; [exact H1|exact H2].
Defined.
