(* ===== verification/ShellRace.v ===== *)
(** * A shell's goroutines (internal/sshx/shell.go)

    A shell is shared by the two pumps that fill its buffer (stdout and stderr),
    the calls of [Read], the waiter that notices the end of the remote process,
    and a caller of [Close] (of several, the compare-and-swap lets one pass).
    A step is one critical section, one atomic access or one channel operation of
    one of them.  The [select] with a [default] that guards [close(doneCh)] is two
    steps, the test and the close, because that is what it is in Go.

    The buffer itself: however the output is cut into chunks, the buffer is the
    last [maxBuf] bytes of what was not read ([pump_chunks_suffix]). *)

From stdpp Require Import relations.
From S2P Require Import Prelude GoStrings External Spec Auth World Session Shell.

(** ** The buffer *)

(** The last [n] elements. *)
Definition lastn {A} (n : nat) (l : list A) : list A := drop (List.length l - n) l.

Lemma lastn_short {A} n (l : list A) : (List.length l ≤ n)%nat → lastn n l = l.
Proof. intros H. unfold lastn. by replace (List.length l - n)%nat with 0%nat by lia. Qed.
Lemma length_lastn {A} n (l : list A) : List.length (lastn n l) = Nat.min n (List.length l).
Proof. unfold lastn. rewrite length_drop. lia. Qed.
Lemma lastn_app {A} n (p q : list A) : lastn n (lastn n p ++ q) = lastn n (p ++ q).
Proof.
  unfold lastn. rewrite length_app, length_drop, length_app, !skipn_app, skipn_skipn, length_drop.
  f_equal; f_equal; lia.
Qed.

Definition bounded (m : Z) (b : bytes) : bytes :=
  if bool_decide (m > 0) then lastn (Z.to_nat m) b else b.
Lemma appendBuffer_bounded chunk s :
  sh_buffer (appendBuffer chunk s) = bounded (sh_maxBuf s) (sh_buffer s ++ chunk).
Proof.
  unfold appendBuffer, bounded, lastn. case_bool_decide as H1; case_bool_decide as H2; simpl; try lia.
  - f_equal. lia.
  - replace (_ - _)%nat with 0%nat by lia. done.
  - done.
Qed.
Lemma bounded_app m p q : bounded m (bounded m p ++ q) = bounded m (p ++ q).
Proof. unfold bounded. case_bool_decide; [apply lastn_app|done]. Qed.

Lemma pump_chunk_max c s : sh_maxBuf (pump_chunk c s) = sh_maxBuf s.
Proof. destruct c; [done|]. unfold pump_chunk, wake, appendBuffer. by case_bool_decide. Qed.
Lemma pump_chunk_buffer c s :
  bounded (sh_maxBuf s) (sh_buffer s) = sh_buffer s →
  sh_buffer (pump_chunk c s) = bounded (sh_maxBuf s) (sh_buffer s ++ c).
Proof.
  intros Hb. destruct c as [|x c]; simpl; [by rewrite app_nil_r|].
  unfold wake. simpl. apply appendBuffer_bounded.
Qed.
Lemma bounded_idem m b : bounded m (bounded m b) = bounded m b.
Proof. pose proof (bounded_app m b []) as H. by rewrite !app_nil_r in H. Qed.

(** ** The goroutines *)
Inductive pump_pc := PIdle | PSend | PEnd.
Inductive read_pc := RIdle | RTop | RCheck | RWait.
(** A goroutine that wants [doneCh] closed: not there yet, about to test, past the
    test, over. *)
Inductive close_pc := CStart | CTest | CClose | COver.

Record rstate := mkR {
  r_sh : Shell;
  r_pumps : list pump_pc;   (* [OpenShell] starts two, for stdout and stderr *)
  r_reads : list read_pc;   (* the calls of Read, which may overlap *)
  r_wait : close_pc;        (* the waiter *)
  r_close : close_pc;       (* Shell.Close *)
  r_out : bytes;            (* what the pumps appended, in the order of [bufMu] *)
  r_got : list ReadResult;  (* what Read returned *)
  r_panic : bool;
}.
Definition eta_rstate r := mkR (r_sh r) (r_pumps r) (r_reads r) (r_wait r) (r_close r) (r_out r)
  (r_got r) (r_panic r).
#[export] Instance upd_r_sh : Setter r_sh. Proof. mk_setter eta_rstate. Defined.
#[export] Instance upd_r_pumps : Setter r_pumps. Proof. mk_setter eta_rstate. Defined.
#[export] Instance upd_r_reads : Setter r_reads. Proof. mk_setter eta_rstate. Defined.
#[export] Instance upd_r_wait : Setter r_wait. Proof. mk_setter eta_rstate. Defined.
#[export] Instance upd_r_close : Setter r_close. Proof. mk_setter eta_rstate. Defined.
#[export] Instance upd_r_out : Setter r_out. Proof. mk_setter eta_rstate. Defined.
#[export] Instance upd_r_got : Setter r_got. Proof. mk_setter eta_rstate. Defined.
#[export] Instance upd_r_panic : Setter r_panic. Proof. mk_setter eta_rstate. Defined.

Definition pump_to (i : nat) (p : pump_pc) (r : rstate) : rstate := r <| r_pumps ::= <[i := p]> |>.
Definition read_to (i : nat) (p : read_pc) (r : rstate) : rstate := r <| r_reads ::= <[i := p]> |>.
Definition return_ (i : nat) (x : ReadResult) (r : rstate) : rstate :=
  read_to i RIdle r <| r_got ::= λ g, g ++ [x] |>.

(** [close(s.doneCh)]: closing a closed channel panics. *)
Definition close_done (r : rstate) : rstate :=
  if sh_done (r_sh r) then r <| r_panic := true |>
  else r <| r_sh := r_sh r <| sh_done := true |> |>.

(** The steps of a wake-up: a pump that has appended sends on [wakeCh], a waiting
    reader receives, a reader takes the buffer. *)
Inductive wake_step : rstate → rstate → Prop :=
  | ws_send i r : r_pumps r !! i = Some PSend →
      wake_step r (pump_to i PIdle (r <| r_sh := wake (r_sh r) |>))
  | ws_woken i r : r_reads r !! i = Some RWait → sh_wake (r_sh r) = true →
      wake_step r (read_to i RTop (r <| r_sh := r_sh r <| sh_wake := false |> |>))
  | ws_take i r : r_reads r !! i = Some RTop → sh_buffer (r_sh r) ≠ [] →
      wake_step r (return_ i (Data (sh_buffer (r_sh r))) (r <| r_sh := r_sh r <| sh_buffer := [] |> |>)).

Inductive rstep : rstate → rstate → Prop :=
  | rs_wake_step r r' : wake_step r r' → rstep r r'
  (* a pump *)
  | rs_append i chunk r : r_pumps r !! i = Some PIdle → chunk ≠ [] →
      rstep r (pump_to i PSend (r <| r_sh := appendBuffer chunk (r_sh r) |> <| r_out ::= λ o, o ++ chunk |>))
  | rs_pump_end i r : r_pumps r !! i = Some PIdle → rstep r (pump_to i PEnd r)
  (* Read *)
  | rs_read i r : r_reads r !! i = Some RIdle → rstep r (read_to i RTop r)
  | rs_top_empty i r : r_reads r !! i = Some RTop → sh_buffer (r_sh r) = [] →
      rstep r (read_to i RCheck r)
  | rs_check_closed i r : r_reads r !! i = Some RCheck → sh_closed (r_sh r) = true →
      rstep r (return_ i Eof r)
  | rs_check_late i r : r_reads r !! i = Some RCheck → sh_closed (r_sh r) = false →
      rstep r (return_ i TimedOut r)
  | rs_check_wait i r : r_reads r !! i = Some RCheck → sh_closed (r_sh r) = false →
      rstep r (read_to i RWait r)
  | rs_timer i r : r_reads r !! i = Some RWait → rstep r (return_ i TimedOut r)
  | rs_done i r : r_reads r !! i = Some RWait → sh_done (r_sh r) = true →
      rstep r (return_ i (read_done (r_sh r)).1 (r <| r_sh := (read_done (r_sh r)).2 |>))
  (* the waiter: closed.Store(true), the test, the close *)
  | rs_exit r : r_wait r = CStart →
      rstep r (r <| r_sh := r_sh r <| sh_closed := true |> |> <| r_wait := CTest |>)
  | rs_wait_test r : r_wait r = CTest →
      rstep r (r <| r_wait := if sh_done (r_sh r) then COver else CClose |>)
  | rs_wait_close r : r_wait r = CClose → rstep r (close_done r <| r_wait := COver |>)
  (* Close: the compare-and-swap, the test, the close *)
  | rs_close_cas r : r_close r = CStart →
      rstep r (r <| r_sh := r_sh r <| sh_closed := true |> |>
                 <| r_close := if sh_closed (r_sh r) then COver else CTest |>)
  | rs_close_test r : r_close r = CTest →
      rstep r (r <| r_close := if sh_done (r_sh r) then COver else CClose |>)
  | rs_close_close r : r_close r = CClose → rstep r (close_done r <| r_close := COver |>).

Definition shell0 (maxBuf : Z) : Shell := mkShell "s" "a" 1%positive 1%positive [] maxBuf false false false 0.
(** The shell as [OpenShell] starts it, with [n] callers of Read. *)
Definition rstate0 (maxBuf : Z) (n : nat) : rstate :=
  mkR (shell0 maxBuf) [PIdle; PIdle] (replicate n RIdle) CStart CStart [] [] false.

(** ** What becomes of the output *)
Definition datas (g : list ReadResult) : list bytes :=
  g ≫= λ r, match r with Data b => [b] | _ => [] end.
(** [pieces m bs out]: the pieces [bs], in order, are the output [out], but for
    gaps; a gap is in front of a piece of exactly [m] bytes, a full buffer. *)
Inductive pieces (m : Z) : list bytes → bytes → Prop :=
  | pieces_nil : pieces m [] []
  | pieces_snoc bs out gap b :
      pieces m bs out → gap = [] ∨ 0 < m ∧ Z.of_nat (List.length b) = m →
      pieces m (bs ++ [b]) (out ++ gap ++ b).

(** Without a bound there are no gaps. *)
Lemma pieces_unbounded m bs out : m ≤ 0 → pieces m bs out → out = concat bs.
Proof.
  intros Hm. induction 1 as [|bs out gap b _ -> [->|?]]; [done| |lia].
  rewrite concat_app. simpl. by rewrite app_nil_r.
Qed.
(** Every byte that is read was output. *)
Lemma pieces_length m bs out :
  pieces m bs out → (List.length (concat bs) ≤ List.length out)%nat.
Proof.
  induction 1 as [|bs out gap b _ IH _]; [done|].
  rewrite concat_app, !length_app. simpl. rewrite length_app. simpl. lia.
Qed.
Lemma pieces_inv m bs b out :
  pieces m (bs ++ [b]) out → ∃ out' gap, out = out' ++ gap ++ b ∧ pieces m bs out' ∧
    (gap = [] ∨ 0 < m ∧ Z.of_nat (List.length b) = m).
Proof.
  intros H. inversion H as [Hnil|bs' out' gap b' Hp Hg Heq]; subst.
  - by destruct bs.
  - apply app_inj_tail in Heq as [-> ->]. by eexists _, _.
Qed.
(** The buffer is the last piece: a chunk is appended to it, or it is read. *)
Lemma pieces_append m bs b out chunk :
  pieces m (bs ++ [b]) out → pieces m (bs ++ [bounded m (b ++ chunk)]) (out ++ chunk).
Proof.
  intros (out' & gap & -> & Hp & Hg)%pieces_inv. unfold bounded. case_bool_decide as Hm.
  - set (c := lastn (Z.to_nat m) (b ++ chunk)).
    assert (Hlen : List.length c = Nat.min (Z.to_nat m) (List.length (b ++ chunk))) by apply length_lastn.
    assert (Hc : b ++ chunk = take (List.length (b ++ chunk) - Z.to_nat m) (b ++ chunk) ++ c)
      by (unfold c, lastn; by rewrite take_drop).
    set (d := take _ _) in Hc.
    replace ((out' ++ gap ++ b) ++ chunk) with (out' ++ (gap ++ d) ++ c).
    2:{ rewrite <- !(assoc_L (++)). do 2 f_equal. by rewrite Hc. }
    constructor; [done|]. destruct (decide (List.length (b ++ chunk) ≤ Z.to_nat m)%nat) as [Hle|Hgt].
    + unfold d. replace (_ - _)%nat with 0%nat by lia. rewrite app_nil_r.
      destruct Hg as [?|[? Hb]]; [by left|right]. split; [done|].
      rewrite Hlen. rewrite length_app in *. lia.
    + right. split; [lia|]. rewrite Hlen. lia.
  - replace ((out' ++ gap ++ b) ++ chunk) with (out' ++ gap ++ (b ++ chunk)) by (by rewrite !(assoc_L (++))).
    constructor; [done|]. destruct Hg as [?|[? _]]; [by left|lia].
Qed.
Lemma pieces_read m bs out : pieces m bs out → pieces m (bs ++ [[]]) out.
Proof.
  intros H. assert (E0 : out = out ++ [] ++ []) by (simpl; by rewrite app_nil_r).
  rewrite E0. constructor; auto.
Qed.

(** ** Invariants *)
Record rinv (m : Z) (r : rstate) : Prop := {
  ri_max : sh_maxBuf (r_sh r) = m;
  ri_wake : RWait ∈ r_reads r ∨ RCheck ∈ r_reads r → sh_buffer (r_sh r) ≠ [] →
    sh_wake (r_sh r) = true ∨ PSend ∈ r_pumps r ∨ RTop ∈ r_reads r;
  ri_out : pieces m (datas (r_got r) ++ [sh_buffer (r_sh r)]) (r_out r);
}.

Lemma rinv0 m n : rinv m (rstate0 m n).
Proof.
  split; simpl; [done|done|]. apply (pieces_read m [] []). constructor.
Qed.

Lemma datas_app g x : datas (g ++ [x]) = datas g ++ match x with Data b => [b] | _ => [] end.
Proof. unfold datas. rewrite bind_app. simpl. by rewrite app_nil_r. Qed.

Section pcs.
Context {A : Type}.
Implicit Types (l : list A) (x y z : A).
Lemma elem_keep x y z i l : x ∈ l → l !! i = Some y → y ≠ x → x ∈ <[i := z]> l.
Proof.
  intros (j & Hj)%list_elem_of_lookup Hi Hne. apply list_elem_of_lookup. exists j.
  rewrite list_lookup_insert_ne; [done|congruence].
Qed.
Lemma elem_set x y i l : l !! i = Some y → x ∈ <[i := x]> l.
Proof.
  intros Hi. apply list_elem_of_lookup. exists i. apply list_lookup_insert_eq.
  by eapply lookup_lt_Some.
Qed.
Lemma elem_old x z i l : x ∈ <[i := z]> l → x = z ∨ x ∈ l.
Proof.
  intros (j & Hj)%list_elem_of_lookup. apply list_lookup_insert_Some in Hj as [(_ & -> & _)|[_ Hj]];
    [by left|right]. by eapply list_elem_of_lookup_2.
Qed.
End pcs.

(** A reader moves on from a point where it is not about to take the buffer. *)
Lemma rinv_read m r i y z g :
  rinv m r → r_reads r !! i = Some y → y ≠ RTop →
  (z = RWait ∨ z = RCheck → y = RWait ∨ y = RCheck) → datas g = datas (r_got r) →
  rinv m (read_to i z r <| r_got := g |>).
Proof.
  intros [H1 H2 H3] Hi Hy Hz Hg. split; simpl; [done| |by rewrite Hg]. intros Hin Hb.
  destruct H2 as [?|[?|?]]; [|done|by left|by right; left|].
  - assert (Hyin : y ∈ r_reads r) by (by eapply list_elem_of_lookup_2).
    destruct Hin as [[<-|Hin]%elem_old|[<-|Hin]%elem_old]; [|by left| |by right];
      destruct Hz as [->| ->]; auto.
  - right; right. by eapply elem_keep.
Qed.

Lemma rinv_top m r i y : rinv m r → r_reads r !! i = Some y → rinv m (read_to i RTop r).
Proof. intros [H1 H2 H3] Hi. split; simpl; [done| |done]. intros _ _. right; right. by eapply elem_set. Qed.

(** Everything but the shell's buffer, the readers and the pumps. *)
Lemma rinv_same m r r' :
  rinv m r → sh_maxBuf (r_sh r') = sh_maxBuf (r_sh r) → sh_buffer (r_sh r') = sh_buffer (r_sh r) →
  sh_wake (r_sh r') = sh_wake (r_sh r) → r_pumps r' = r_pumps r → r_reads r' = r_reads r →
  r_out r' = r_out r → r_got r' = r_got r → rinv m r'.
Proof. intros [H1 H2 H3] E1 E2 E3 E4 E5 E6 E7. split; rewrite ?E1, ?E2, ?E3, ?E4, ?E5, ?E6, ?E7; done. Qed.

(** A reader takes the whole buffer. *)
Lemma rinv_take m r i sh x :
  rinv m r → sh_maxBuf sh = sh_maxBuf (r_sh r) → sh_buffer sh = [] →
  x = Data (sh_buffer (r_sh r)) ∨ sh_buffer (r_sh r) = [] ∧ x = Eof →
  rinv m (return_ i x (r <| r_sh := sh |>)).
Proof.
  intros [H1 H2 H3] Em Eb Hx. split; simpl; [congruence|by rewrite Eb|]. rewrite Eb, datas_app.
  destruct Hx as [->|[Hb ->]].
  - by apply pieces_read.
  - rewrite app_nil_r. by rewrite <- Hb.
Qed.

Lemma rinv_wake_step m r r' : rinv m r → wake_step r r' → rinv m r'.
Proof.
  intros Hr Hst. pose proof Hr as [H1 H2 H3]. destruct Hst as [i r Hi|i r Hi Hw|i r Hi Hb].
  - split; simpl; [done|by left|done].
  - split; simpl; [done| |done]. intros _ _. right; right. by eapply elem_set.
  - apply rinv_take; [done|done|done|by left].
Qed.

Lemma rinv_step m r r' : rinv m r → rstep r r' → rinv m r'.
Proof.
  intros Hr Hst. pose proof Hr as [H1 H2 H3].
  destruct Hst as [r r' H|i chunk r Hi Hc|i r Hi|i r Hi|i r Hi Hb|i r Hi _|i r Hi _|i r Hi _|i r Hi|i r Hi _
    |r _|r _|r _|r _|r _|r _].
  - by eapply rinv_wake_step.
  - split; simpl.
    + unfold appendBuffer. by case_bool_decide.
    + intros _ _. right; left. by eapply elem_set.
    + rewrite appendBuffer_bounded, H1. by apply pieces_append.
  - split; simpl; [done| |done]. intros Hin Hb. destruct (H2 Hin Hb) as [?|[?|?]]; [by left| |by right; right].
    right; left. by eapply elem_keep.
  - by eapply rinv_top.
  - split; simpl; [done| |done]. intros _ Hne. by destruct Hne.
  - eapply (rinv_read m r i RCheck RIdle); [done|done|done|by intros [?|?]|by rewrite datas_app, app_nil_r].
  - eapply (rinv_read m r i RCheck RIdle); [done|done|done|by intros [?|?]|by rewrite datas_app, app_nil_r].
  - eapply (rinv_read m r i RCheck RWait _) in Hr; [|done|done|by right|reflexivity].
    by eapply rinv_same; [exact Hr|..].
  - eapply (rinv_read m r i RWait RIdle); [done|done|done|by intros [?|?]|by rewrite datas_app, app_nil_r].
  - apply rinv_take; [done|done|done|]. unfold read_done. simpl. destruct (sh_buffer _); [by right|by left].
  - by eapply rinv_same.
  - by eapply rinv_same.
  - unfold close_done. destruct (sh_done _); by eapply rinv_same.
  - by eapply rinv_same.
  - by eapply rinv_same.
  - unfold close_done. destruct (sh_done _); by eapply rinv_same.
Qed.

Lemma rinv_rtc m n r : rtc rstep (rstate0 m n) r → rinv m r.
Proof.
  intros H. assert (∀ a b, rtc rstep a b → rinv m a → rinv m b) as Hg.
  { induction 1; [done|]. intros. eauto using rinv_step. }
  eapply Hg; [done|apply rinv0].
Qed.

(** A reader that waits and a token in [wakeCh]: the buffer is taken. *)
Lemma woken_takes r :
  RWait ∈ r_reads r → sh_wake (r_sh r) = true → sh_buffer (r_sh r) ≠ [] →
  ∃ r', rtc wake_step r r' ∧ r_got r' = r_got r ++ [Data (sh_buffer (r_sh r))].
Proof.
  intros (i & Hi)%list_elem_of_lookup Hw Hb. eexists. split.
  - eapply rtc_l; [by apply (ws_woken i)|]. eapply rtc_once, (ws_take i); [|done].
    simpl. apply list_lookup_insert_eq. by eapply lookup_lt_Some.
  - done.
Qed.

(** ** Properties *)

(** The shell's buffer is a bounded suffix of its output, however the output
    was cut into chunks: pumping the chunks one by one leaves the same buffer as
    the last [maxBuf] bytes of everything unread, and never more than [maxBuf]
    bytes (a [maxBuf] of zero or less is no bound). *)
Theorem pump_chunks_suffix chunks s
    (Hb : bounded (sh_maxBuf s) (sh_buffer s) = sh_buffer s) :
  let s' := pump_chunks chunks s in
  sh_buffer s' = bounded (sh_maxBuf s) (sh_buffer s ++ concat chunks) ∧
  (0 < sh_maxBuf s → Z.of_nat (List.length (sh_buffer s')) ≤ sh_maxBuf s) ∧
  sh_closed s' = sh_closed s ∧ sh_done s' = sh_done s.
Proof.
  assert (H : sh_buffer (pump_chunks chunks s) = bounded (sh_maxBuf s) (sh_buffer s ++ concat chunks) ∧
    sh_closed (pump_chunks chunks s) = sh_closed s ∧ sh_done (pump_chunks chunks s) = sh_done s).
  { revert s Hb. induction chunks as [|c chunks IH]; intros s Hb; simpl.
    - by rewrite app_nil_r, Hb.
    - destruct (IH (pump_chunk c s)) as (E1 & E2 & E3).
      { rewrite pump_chunk_max, (pump_chunk_buffer c s Hb). apply bounded_idem. }
      unfold pump_chunks in *. rewrite E1, E2, E3, pump_chunk_max, (pump_chunk_buffer c s Hb), bounded_app.
      rewrite <- (assoc_L (++)). split; [done|].
      destruct c; [done|]. simpl. unfold wake, appendBuffer. by case_bool_decide. }
  destruct H as (E1 & E2 & E3). split_and!; [done| |done|done].
  intros Hm. rewrite E1. unfold bounded. rewrite bool_decide_true by lia.
  rewrite length_lastn. lia.
Qed.

Lemma pump_chunks_suffix_witness :
  sh_buffer (pump_chunks [[Byte.x61; Byte.x62]; []; [Byte.x63; Byte.x64; Byte.x65]] (shell0 4)) =
    [Byte.x62; Byte.x63; Byte.x64; Byte.x65].
Proof.
  destruct (pump_chunks_suffix [[Byte.x61; Byte.x62]; []; [Byte.x63; Byte.x64; Byte.x65]] (shell0 4)
    eq_refl) as [H _].
  rewrite H. vm_compute. reflexivity.
Defined.

(** C26: no wake-up is lost and no output is lost or reordered.  In every
    interleaving of the two pumps (stdout and stderr), any number of overlapping
    Reads, the waiter and [Close]: when a Read waits while the buffer holds data,
    the token is in [wakeCh], or a pump that has appended is about to send it, or
    another Read is about to take the buffer; so the data is returned by the
    wake-up's own steps, without a timer, without [doneCh] and without more output.
    And what the Reads returned, piece by piece and then the buffer, is what the
    pumps appended, in that order, but for the oldest bytes in front of a piece
    that fills the buffer ([maxBuf], 1 MiB by default; with a negative size
    nothing is dropped). *)
Theorem shell_read_no_lost_wakeup m n r (Hr : rtc rstep (rstate0 m n) r) :
  (RWait ∈ r_reads r → sh_buffer (r_sh r) ≠ [] →
     (sh_wake (r_sh r) = true ∨ PSend ∈ r_pumps r ∨ RTop ∈ r_reads r) ∧
     ∃ r', rtc wake_step r r' ∧ r_got r' = r_got r ++ [Data (sh_buffer (r_sh r))]) ∧
  pieces m (datas (r_got r) ++ [sh_buffer (r_sh r)]) (r_out r) ∧
  (m ≤ 0 → concat (datas (r_got r)) ++ sh_buffer (r_sh r) = r_out r).
Proof.
  destruct (rinv_rtc m n r Hr) as [_ Hw Ho]. split_and!; [|done|].
  - intros H1 H2. specialize (Hw (or_introl H1) H2). split; [done|].
    destruct Hw as [Hwk|[[i Hi]%list_elem_of_lookup|[i Hi]%list_elem_of_lookup]].
    + by apply woken_takes.
    + destruct (woken_takes (pump_to i PIdle (r <| r_sh := wake (r_sh r) |>))) as (r' & Hrun & Hg); [done..|].
      exists r'. split; [|exact Hg]. eapply rtc_l; [by apply ws_send|exact Hrun].
    + eexists. split; [by eapply rtc_once, (ws_take i)|done].
  - intros Hm. rewrite (pieces_unbounded m _ _ Hm Ho), concat_app. simpl. by rewrite app_nil_r.
Qed.

(** Two Reads wait, then the stderr pump appends; the wake-up is still to be sent. *)
Lemma shell_read_no_lost_wakeup_witness :
  ∃ r, rtc rstep (rstate0 1048576 2) r ∧ r_reads r = [RWait; RWait] ∧ r_pumps r = [PIdle; PSend] ∧
    ∃ r', rtc wake_step r r' ∧ r_got r' = [Data [Byte.x61]].
Proof.
  eexists. match goal with |- ?P ∧ _ => assert (Hr : P) end.
  - eapply rtc_l; [apply (rs_read 0); reflexivity|].
    eapply rtc_l; [apply (rs_read 1); reflexivity|].
    eapply rtc_l; [apply (rs_top_empty 0); reflexivity|].
    eapply rtc_l; [apply (rs_top_empty 1); reflexivity|].
    eapply rtc_l; [apply (rs_check_wait 0); reflexivity|].
    eapply rtc_l; [apply (rs_check_wait 1); reflexivity|].
    eapply rtc_l; [apply (rs_append 1 [Byte.x61]); [reflexivity|discriminate]|]. apply rtc_refl.
  - split; [exact Hr|]. split; [reflexivity|]. split; [reflexivity|].
    destruct (shell_read_no_lost_wakeup 1048576 2 _ Hr) as [H _].
    destruct H as [_ (r' & Hrun & Hg)]; [apply list_elem_of_here|discriminate|].
    exists r'. split; [exact Hrun|exact Hg].
Defined.

(** [doneCh] can be closed twice, which panics and ends the daemon: the remote
    process ends while a client closes the shell, and both goroutines find the
    channel open before either closes it. *)
Theorem shell_double_close_panics m n : ∃ r, rtc rstep (rstate0 m n) r ∧ r_panic r = true.
Proof.
  eexists. split.
  - eapply rtc_l; [apply rs_close_cas; reflexivity|].
    eapply rtc_l; [apply rs_exit; reflexivity|].
    eapply rtc_l; [apply rs_wait_test; reflexivity|].
    eapply rtc_l; [apply rs_close_test; reflexivity|].
    eapply rtc_l; [apply rs_wait_close; reflexivity|].
    eapply rtc_l; [apply rs_close_close; reflexivity|]. apply rtc_refl.
  - reflexivity.
Qed.

(** [Read] can report the end of the output while output is still to be read:
    it finds the buffer empty, a pump appends, the process ends, and the test of
    [closed] answers EOF without a second look at the buffer. *)
Theorem shell_eof_with_data m : ∃ r, rtc rstep (rstate0 m 1) r ∧
  r_got r = [Eof] ∧ r_out r = [Byte.x61] ∧ sh_buffer (r_sh r) = [Byte.x61].
Proof.
  eexists. split.
  - eapply rtc_l; [apply (rs_read 0); reflexivity|].
    eapply rtc_l; [apply (rs_top_empty 0); reflexivity|].
    eapply rtc_l; [apply (rs_append 0 [Byte.x61]); [reflexivity|discriminate]|].
    eapply rtc_l; [apply rs_exit; reflexivity|].
    eapply rtc_l; [apply (rs_check_closed 0); reflexivity|]. apply rtc_refl.
  - split; [reflexivity|]. split; [reflexivity|]. simpl. rewrite appendBuffer_bounded. simpl.
    unfold bounded. case_bool_decide; [|done]. apply lastn_short. simpl. lia.
Qed.
