(* ===== verification/Docker.v ===== *)
(** * Docker hosts and their shells (internal/dockerx)

    connect.go (dialing a daemon directly or over ssh), manager.go (the map of
    hosts) and shell.go (interactive execs).  Every operation runs in [M DWorld];
    what two goroutines can interleave is cut into the critical sections that
    DockerProps.v composes into a step relation. *)

From S2P Require Import Prelude GoStrings Url External Spec Auth Dial World Session Shell.
From Stdlib Require Import Ascii String.

(** ** State *)
Record HostConn := mkHostConn { docker : rid; sshClient : option rid }.

Record Host := mkHost {
  h_ID : string;
  h_Spec : DockerSpec;
  h_conn : option HostConn;
  h_connectedAt : Z;
  h_lastError : string;
  h_shells : gmap string loc;
  h_closed : bool;
}.
Definition eta_Host h := mkHost (h_ID h) (h_Spec h) (h_conn h) (h_connectedAt h) (h_lastError h)
  (h_shells h) (h_closed h).
#[export] Instance upd_h_conn : Setter h_conn. Proof. mk_setter eta_Host. Defined.
#[export] Instance upd_h_shells : Setter h_shells. Proof. mk_setter eta_Host. Defined.
#[export] Instance upd_h_closed : Setter h_closed. Proof. mk_setter eta_Host. Defined.

Record DShellOptions := mkDShellOptions {
  do_Container : string;
  do_Cmd : list string;
  do_Env : list (string * string);
  do_User : string;
  do_WorkingDir : string;
  do_Rows : Z;
  do_Cols : Z;
  do_BufferSize : Z;
}.

Record DShell := mkDShell {
  ds_ID : string;
  ds_HostID : string;
  ds_Spec : DShellOptions;
  ds_OpenedAt : Z;
  ds_execID : string;
  ds_host : loc;
  ds_attach : rid;
  ds_wake : bool;
  ds_buffer : bytes;
  ds_maxBuf : Z;
  ds_closed : bool;
  ds_done : bool;
}.
Definition eta_DShell s := mkDShell (ds_ID s) (ds_HostID s) (ds_Spec s) (ds_OpenedAt s) (ds_execID s)
  (ds_host s) (ds_attach s) (ds_wake s) (ds_buffer s) (ds_maxBuf s) (ds_closed s) (ds_done s).
#[export] Instance upd_ds_wake : Setter ds_wake. Proof. mk_setter eta_DShell. Defined.
#[export] Instance upd_ds_buffer : Setter ds_buffer. Proof. mk_setter eta_DShell. Defined.
#[export] Instance upd_ds_closed : Setter ds_closed. Proof. mk_setter eta_DShell. Defined.
#[export] Instance upd_ds_done : Setter ds_done. Proof. mk_setter eta_DShell. Defined.

Record DWorld := mkDWorld {
  dw_net : Net;
  hosts : gmap string loc;          (* [Manager.hosts] *)
  dw_host : gmap loc Host;
  dw_shl : gmap loc DShell;
  dw_next : loc;
}.
Definition eta_DWorld w := mkDWorld (dw_net w) (hosts w) (dw_host w) (dw_shl w) (dw_next w).
#[export] Instance upd_dw_net : Setter dw_net. Proof. mk_setter eta_DWorld. Defined.
#[export] Instance upd_hosts : Setter hosts. Proof. mk_setter eta_DWorld. Defined.
#[export] Instance upd_dw_host : Setter dw_host. Proof. mk_setter eta_DWorld. Defined.
#[export] Instance upd_dw_shl : Setter dw_shl. Proof. mk_setter eta_DWorld. Defined.
#[export] Instance upd_dw_next : Setter dw_next. Proof. mk_setter eta_DWorld. Defined.

Definition dworld0 : DWorld := mkDWorld net0 ∅ ∅ ∅ 1%positive.

Definition dnetM {A} (m : M Net A) : M DWorld A := zoom dw_net (λ n w, w <| dw_net := n |>) m.
Definition host_at (l : loc) : M DWorld Host := λ w,
  match dw_host w !! l with Some h => (Ret h, w) | None => (Panic nil_deref, w) end.
Definition upd_host (l : loc) (f : Host → Host) : M DWorld unit :=
  modify (λ w, w <| dw_host ::= alter f l |>).
Definition dshl_at (l : loc) : M DWorld DShell := λ w,
  match dw_shl w !! l with Some s => (Ret s, w) | None => (Panic nil_deref, w) end.
Definition upd_dshl (l : loc) (f : DShell → DShell) : M DWorld unit :=
  modify (λ w, w <| dw_shl ::= alter f l |>).
Definition new_host (h : Host) : M DWorld loc :=
  l ← gets dw_next; modify (λ w, w <| dw_host ::= <[l := h]> |> <| dw_next ::= Pos.succ |>);; mret l.
Definition new_dshl (s : DShell) : M DWorld loc :=
  l ← gets dw_next; modify (λ w, w <| dw_shl ::= <[l := s]> |> <| dw_next ::= Pos.succ |>);; mret l.

(** ** connect.go *)

(** What [dialDockerOverSSH] reads from [ssh://user@host:port/socket]: the user,
    the host name, the address to dial and the socket on the other side.  The
    argument is the text after [ssh://]. *)
Definition ssh_target (rest : string) : error + (string * string * string * string) :=
  match ParseHier rest with
  | inl e => inl (Wrap "parse ssh url: %w" [] e)
  | inr u =>
    if decide (u_Username u = "")
    then inl (Msg "ssh:// docker host requires a user (ssh://user@host)") else
    let port := if decide (Port u = "") then "22" else Port u in
    let socket := TrimPrefix (u_Path u) "/" in
    inr (u_Username u, Hostname u, JoinHostPort (Hostname u) port,
         if decide (socket = "") then "/var/run/docker.sock" else String slash socket)
  end.

Section dial.
Context {E : Env}.
Variable ParseKnownHosts : string → option (list string * option string * string).

Definition ssh_auth (spec : DockerSpec) : AuthSpec :=
  mkAuthSpec (d_KeyPath spec) (d_KeyPassphrase spec) (d_UseAgent spec) (d_AgentSocket spec)
    (d_Password spec).

(** [client.New] over the ssh client [sc], and the ping; both clients are closed
    when it fails. *)
Definition docker_over (sc : rid) (socket : string) (spec : DockerSpec) : M Net HostConn :=
  r ← try (acquire (DockerNew "http://docker" (d_APIVersion spec) "" "" "" (Some (sc, socket))));
  match r with
  | inl e => closeR sc;; fail (Wrap "docker client over ssh: %w" [] e)
  | inr (c, _) =>
    r ← try (call (DockerPing c));
    match r with
    | inl e => closeR c;; closeR sc;; fail (Wrap "ping docker daemon over ssh: %w" [] e)
    | inr _ => mret (mkHostConn c (Some sc))
    end
  end.

Definition dialDockerOverSSH (rest : string) (spec : DockerSpec) : M Net HostConn :=
  '(user, hostname, addr, socket) ← of_sum (ssh_target rest);
  '(methods, authClosers) ← Build (ssh_auth spec);
  finally (
    hostKey ← HostKeyCallback (d_SSHInsecure spec) (d_KnownHostsPath spec);
    algos ← (if d_SSHInsecure spec then mret []
             else HostKeyAlgorithmsFor ParseKnownHosts (d_KnownHostsPath spec) hostname);
    let cfg := {| cfg_User := user; cfg_Auth := methods; cfg_HostKey := hostKey;
                  cfg_Timeout := 15 * second; cfg_HostKeyAlgorithms := algos |} in
    r ← try (acquire (SshDial "tcp" addr cfg));
    match r with
    | inl e => fail (Wrap "ssh dial %s: %w" [addr] e)
    | inr (sc, _) => docker_over sc socket spec
    end)
  (closeAllR authClosers).

Definition dialDocker (spec : DockerSpec) : M Net HostConn :=
  let host := TrimSpace (d_Host spec) in
  if decide (host = "") then fail (Msg "host is required") else
  match strip "ssh://" host with
  | Some rest => dialDockerOverSSH rest spec
  | None =>
    let tls := bool_decide (d_TLSCertPath spec ≠ "" ∨ d_TLSCAPath spec ≠ "") in
    r ← try (acquire (DockerNew host (d_APIVersion spec)
               (if tls then d_TLSCAPath spec else "") (if tls then d_TLSCertPath spec else "")
               (if tls then d_TLSKeyPath spec else "") None));
    match r with
    | inl e => fail (Wrap "docker client %q: %w" [host] e)
    | inr (c, _) =>
      r ← try (call (DockerPing c));
      match r with
      | inl e => closeR c;; fail (Wrap "ping docker daemon: %w" [] e)
      | inr _ => mret (mkHostConn c None)
      end
    end
  end.
End dial.

Definition own_conn (c : HostConn) : list rid := docker c :: option_list (sshClient c).
Definition hostConn_close (c : HostConn) : M Net unit :=
  closeR (docker c);;
  match sshClient c with Some r => closeR r | None => mret tt end.

(** ** manager.go *)
Record HostInfo := mkHostInfo {
  hi_ID : string;
  hi_Host : string;
  hi_State : string;
  hi_ConnectedAt : Z;
  hi_LastError : string;
  hi_Persistent : bool;
  hi_Shells : list string;
}.
Record HostRow := mkHostRow {
  hr_ID : string;
  hr_Host : string;
  hr_State : string;
  hr_LastError : string;
  hr_Persistent : bool;
  hr_Shells : Z;
}.
Definition host_Row (i : HostInfo) : HostRow :=
  mkHostRow (hi_ID i) (hi_Host i) (hi_State i) (hi_LastError i) (hi_Persistent i)
    (Z.of_nat (List.length (hi_Shells i))).

(** [Host.Info], as a value of the host's fields *)
Definition host_Info (h : Host) : HostInfo :=
  mkHostInfo (h_ID h) (d_Host (h_Spec h))
    (match h_conn h with Some _ => "connected" | None => "disconnected" end)
    (h_connectedAt h) (h_lastError h) (d_Persistent (h_Spec h)) (map_to_list (h_shells h)).*1.

Definition host_client (l : loc) : M DWorld rid :=
  h ← host_at l;
  match h_conn h with
  | None => fail (Fmt "docker host %q is disconnected" [h_ID h])
  | Some c => mret (docker c)
  end.

(** [Shell.Close]: the second caller finds [closed] set. *)
Definition dshl_Close (s : loc) : M DWorld unit :=
  sh ← dshl_at s;
  if ds_closed sh then mret tt else
  upd_dshl s (λ sh, sh <| ds_closed := true |>);;
  dnetM (closeR (ds_attach sh));;
  upd_dshl s (λ sh, sh <| ds_done := true |>).

(** [Host.close]: the compare-and-swap, then the teardown. *)
Definition host_close_begin (l : loc) : M DWorld bool :=
  h ← host_at l;
  if h_closed h then mret false else
  upd_host l (λ h, h <| h_closed := true |>);; mret true.
Definition close_dshells (l : loc) : M DWorld unit :=
  h ← host_at l;
  forM_ (map_to_list (h_shells h)) (λ p,
    dshl_Close p.2;; upd_host l (λ h, h <| h_shells ::= delete p.1 |>)).
Definition close_conn (l : loc) : M DWorld unit :=
  h ← host_at l;
  match h_conn h with
  | Some c => dnetM (hostConn_close c);; upd_host l (λ h, h <| h_conn := None |>)
  | None => mret tt
  end.
Definition host_close (l : loc) : M DWorld unit :=
  b ← host_close_begin l;
  if b : bool then close_dshells l;; close_conn l else mret tt.

Section manager.
Context {E : Env}.
Variable ParseKnownHosts : string → option (list string * option string * string).

(** [Manager.Connect]: the first look at the map, the dial, the second look. *)
Definition connect_check (id : string) : M DWorld unit :=
  if decide (id = "") then fail (Msg "docker host id is required") else
  hs ← gets hosts;
  match hs !! id with
  | Some _ => fail (Fmt "docker host %q already exists" [id])
  | None => mret tt
  end.
Definition connect_register (id : string) (spec : DockerSpec) (conn : HostConn) : M DWorld loc :=
  t ← dnetM now;
  hs ← gets hosts;
  match hs !! id with
  | Some _ => dnetM (hostConn_close conn);; fail (Fmt "docker host %q created concurrently" [id])
  | None =>
    l ← new_host (mkHost id spec (Some conn) t "" ∅ false);
    modify (λ w, w <| hosts ::= <[id := l]> |>);;
    mret l
  end.
Definition Connect (id : string) (spec : DockerSpec) : M DWorld loc :=
  connect_check id;;
  conn ← dnetM (dialDocker ParseKnownHosts spec);
  connect_register id spec conn.

Definition Get (id : string) : M DWorld loc :=
  hs ← gets hosts;
  match hs !! id with
  | Some l => mret l
  | None => fail (Fmt "docker host %q not found" [id])
  end.
Definition unregister_host (id : string) : M DWorld loc :=
  l ← Get id; modify (λ w, w <| hosts ::= delete id |>);; mret l.
Definition Disconnect (id : string) : M DWorld unit :=
  l ← unregister_host id; host_close l.

Fixpoint host_infos (ls : list loc) : M DWorld (list HostInfo) :=
  match ls with
  | [] => mret []
  | l :: rest => h ← host_at l; tl ← host_infos rest; mret (host_Info h :: tl)
  end.
Definition List : M DWorld (list HostInfo) :=
  hs ← gets hosts; host_infos (map_to_list hs).*2.
Definition Hosts : M DWorld (gmap string loc) := gets hosts.
Definition CloseAll : M DWorld unit :=
  hs ← gets hosts;
  forM_ (map_to_list hs) (λ p, host_close p.2;; modify (λ w, w <| hosts ::= delete p.1 |>)).

(** ** shell.go *)
Record DShellInfo := mkDShellInfo {
  dsi_ID : string;
  dsi_HostID : string;
  dsi_Container : string;
  dsi_OpenedAt : Z;
  dsi_BufferSize : Z;
  dsi_Closed : bool;
}.
Definition dshl_Info (s : DShell) : DShellInfo :=
  mkDShellInfo (ds_ID s) (ds_HostID s) (do_Container (ds_Spec s)) (ds_OpenedAt s)
    (Z.of_nat (List.length (ds_buffer s))) (ds_closed s).

Definition dshl_Write (s : loc) (p : string) : M DWorld Z :=
  sh ← dshl_at s;
  if ds_closed sh then fail (Msg "shell closed") else dnetM (call (WriteTo (ds_attach sh) p)).

(** [Read]: its loop's top and its [doneCh] case, as for ssh shells. *)
Definition dread_top (remaining : Z) (s : DShell) : option ReadResult * DShell :=
  match ds_buffer s with
  | _ :: _ => (Some (Data (ds_buffer s)), s <| ds_buffer := [] |>)
  | [] =>
    if ds_closed s then (Some Eof, s)
    else if bool_decide (remaining ≤ 0) then (Some TimedOut, s)
    else (None, s)
  end.
Definition dread_done (s : DShell) : ReadResult * DShell :=
  (match ds_buffer s with [] => Eof | b => Data b end, s <| ds_buffer := [] |>).

(** [appendBuffer], with its non-blocking send on [wakeCh] *)
Definition dappendBuffer (chunk : bytes) (s : DShell) : DShell :=
  let buf := ds_buffer s ++ chunk in
  (if bool_decide (ds_maxBuf s > 0 ∧ Z.of_nat (List.length buf) > ds_maxBuf s)
   then s <| ds_buffer := drop (Z.to_nat (Z.of_nat (List.length buf) - ds_maxBuf s)) buf |>
   else s <| ds_buffer := buf |>) <| ds_wake := true |>.

Fixpoint dread_loop (waits : list ShellWait) (remaining : Z) (s : DShell) : ReadResult * DShell :=
  match dread_top remaining s with
  | (Some r, s) => (r, s)
  | (None, s) =>
    match waits with
    | [] => (TimedOut, s)
    | Woken chunks remaining :: waits =>
      dread_loop waits remaining (foldl (λ s c, dappendBuffer c s) s chunks <| ds_wake := false |>)
    | TimerFired chunks :: _ => (TimedOut, foldl (λ s c, dappendBuffer c s) s chunks)
    | DoneClosed chunks :: _ => dread_done (foldl (λ s c, dappendBuffer c s) s chunks)
    end
  end.
Definition dshl_Read (s : loc) (timeout : Z) : M DWorld ReadResult :=
  sh ← dshl_at s;
  r ← dnetM (try (call (ShellWaits timeout)));
  let '(out, sh) := dread_loop (match r with inr waits => waits | inl _ => [] end) timeout sh in
  upd_dshl s (λ _, sh);;
  mret out.

Definition dshl_Resize (s : loc) (rows cols : Z) : M DWorld unit :=
  sh ← dshl_at s;
  if ds_closed sh then fail (Msg "shell closed") else
  c ← host_client (ds_host sh);
  dnetM (call (ExecResize c (ds_execID sh) rows cols)).

Definition maxUint (v def : Z) : Z := if decide (v = 0) then def else v.

(** [OpenShell] up to the attached exec: [l] is the host, [c] its client. *)
Definition open_exec (l : loc) (hostID : string) (c : rid) (shellID : string)
    (opts : DShellOptions) : M DWorld loc :=
  if decide (do_Container opts = "") then fail (Msg "container is required") else
  let cmd := match do_Cmd opts with [] => ["/bin/sh"] | cmd => cmd end in
  let env := map (λ '(k, v), (k +:+ "=" +:+ v)%string) (do_Env opts) in
  let rows := maxUint (do_Rows opts) 24 in
  let cols := maxUint (do_Cols opts) 80 in
  execID ← dnetM (wrapE "exec create: %w"
    (call (ExecCreate c (do_Container opts) cmd env (do_User opts) (do_WorkingDir opts) true
             (Some (rows, cols)))));
  '(attach, _) ← dnetM (wrapE "exec attach: %w" (acquire (ExecAttach c execID (Some (rows, cols)))));
  let bufSize := if decide (do_BufferSize opts = 0) then 1024 * 1024 else do_BufferSize opts in
  t ← dnetM now;
  new_dshl (mkDShell shellID hostID opts t execID l attach false [] bufSize false false).
Definition register_dshell (l s : loc) : M DWorld unit :=
  sh ← dshl_at s;
  h ← host_at l;
  if h_closed h then
    dshl_Close s;; fail (Fmt "docker host %q is closed" [h_ID h])
  else
    match h_shells h !! ds_ID sh with
    | Some _ => dshl_Close s;; fail (Fmt "shell %q already exists on host %q" [ds_ID sh; h_ID h])
    | None => upd_host l (λ h, h <| h_shells ::= <[ds_ID sh := s]> |>)
    end.
Definition OpenShell (l : loc) (shellID : string) (opts : DShellOptions) : M DWorld loc :=
  c ← host_client l;
  h ← host_at l;
  s ← open_exec l (h_ID h) c shellID opts;
  register_dshell l s;;
  mret s.

(** [pump] after a read that failed: it does not close the attached connection. *)
Definition pump_exit (s : loc) : M DWorld unit :=
  upd_dshl s (λ sh, sh <| ds_closed := true |>);;
  upd_dshl s (λ sh, sh <| ds_done := true |>);;
  sh ← dshl_at s;
  h ← host_at (ds_host sh);
  if bool_decide (h_shells h !! ds_ID sh = Some s)
  then upd_host (ds_host sh) (λ h, h <| h_shells ::= delete (ds_ID sh) |>)
  else mret tt.

Definition GetShell (l : loc) (id : string) : M DWorld loc :=
  h ← host_at l;
  match h_shells h !! id with
  | Some s => mret s
  | None => fail (Fmt "shell %q not found on host %q" [id; h_ID h])
  end.
Definition take_shell (l : loc) (id : string) : M DWorld loc :=
  s ← GetShell l id;
  upd_host l (λ h, h <| h_shells ::= delete id |>);; mret s.
Definition CloseShell (l : loc) (id : string) : M DWorld unit :=
  s ← take_shell l id; dshl_Close s.

Fixpoint dshl_infos (ls : list loc) : M DWorld (list DShellInfo) :=
  match ls with
  | [] => mret []
  | s :: rest => sh ← dshl_at s; tl ← dshl_infos rest; mret (dshl_Info sh :: tl)
  end.
Definition ListShells (l : loc) : M DWorld (list DShellInfo) :=
  h ← host_at l; dshl_infos (map_to_list (h_shells h)).*2.
End manager.
