(* ===== verification/DockerProps.v ===== *)
(** * Docker connections are accounted for

    The calls of the Docker manager run on goroutines of their own.  A state is
    the manager's world and the calls in flight ([dtask]); a step is one critical
    section or one exchange with a daemon, taken from the definitions of Docker.v.
    [docker_accounts] finds the holder of every open connection after any
    interleaving; the one holder that nothing can close is a pump that returned. *)

From stdpp Require Import relations.
From S2P Require Import Prelude GoStrings Url External Spec Auth Dial World Ledger Session Shell Docker.
From Stdlib Require Import Ascii String.

(** ** Dialing a daemon opens its connection or nothing *)
Lemma ledger_conn n c R :
  ledger n (own_conn c ++ R) → wp (hostConn_close c) (λ o n', o = Ret tt ∧ ledger n' R) n.
Proof.
  intros H. unfold hostConn_close. apply wp_bind.
  eapply wp_mono; [apply ledger_close; exact H|].
  intros o n' [-> H']. destruct (sshClient c); [|by apply wp_ret].
  eapply wp_mono; [apply ledger_close; exact H'|done].
Qed.

Section dial.
Context {E : Env} (PKH : string → option (list string * option string * string)).

Lemma gives_docker_over sc socket spec n R :
  ledger n (sc :: R) → wp (docker_over sc socket spec) (hands own_conn R) n.
Proof.
  intros Hl. unfold docker_over. apply wp_bind, wp_try.
  eapply (wp_gives (λ p : rid * unit, [p.1])); [apply gives_acquire|exact Hl| |].
  - intros [c []] n1 H1. simpl in H1. apply wp_bind, wp_try.
    eapply (wp_gives (λ _, [])); [apply gives_quiet; solve_quiet|exact H1| |].
    + intros _ n2 H2. by apply wp_ret.
    + intros e n2 H2. apply wp_bind. eapply wp_mono; [by apply ledger_close|].
      intros o n3 [-> H3]. by apply gives_close_fail.
  - intros e n1 H1. by apply gives_close_fail.
Qed.

Lemma gives_dialDockerOverSSH rest spec : gives own_conn (dialDockerOverSSH PKH rest spec).
Proof.
  intros n R Hl. unfold dialDockerOverSSH. apply wp_bind, wp_of_sum_err; [|done].
  intros [[[user hostname] addr] socket] _. apply wp_bind.
  eapply (wp_gives snd); [apply gives_opens, opens_Build|exact Hl| |done].
  intros [methods cl] n1 H1. apply (wp_finally_close own_conn); [|exact H1].
  clear. intros n R Hl. apply wp_bind.
  eapply (wp_gives (λ _, [])); [apply gives_quiet; solve_quiet|exact Hl| |done].
  intros hk n1 H1. apply wp_bind.
  eapply (wp_gives (λ _, [])); [apply gives_quiet; destruct (d_SSHInsecure spec); solve_quiet|exact H1| |done].
  intros algos n2 H2. apply wp_bind, wp_try.
  eapply (wp_gives (λ p : rid * unit, [p.1])); [apply gives_acquire|exact H2| |done].
  intros [sc []] n3 H3. by apply gives_docker_over.
Qed.

Lemma gives_dialDocker spec : gives own_conn (dialDocker PKH spec).
Proof.
  intros n R Hl. unfold dialDocker. destruct (decide _); [done|].
  destruct (strip _ _) as [rest|]; [by apply gives_dialDockerOverSSH|].
  apply wp_bind, wp_try.
  eapply (wp_gives (λ p : rid * unit, [p.1])); [apply gives_acquire|exact Hl| |done].
  intros [c []] n1 H1. apply wp_bind, wp_try.
  eapply (wp_gives (λ _, [])); [apply gives_quiet; solve_quiet|exact H1| |].
  - intros _ n2 H2. by apply wp_ret.
  - intros e n2 H2. by apply gives_close_fail.
Qed.
End dial.

(** ** Calls in flight *)
Inductive dtask :=
  | DDialing (id : string) (spec : DockerSpec)                    (* Connect, in dialDocker *)
  | DDialed (id : string) (spec : DockerSpec) (c : HostConn)      (* Connect, before it registers *)
  | DClosing (l : loc)                                            (* Disconnect, before close *)
  | DTearing (l : loc)                                            (* close, [closed] is set *)
  | DOpening (l : loc) (id : string) (c : rid) (o : DShellOptions) (* OpenShell, has its client *)
  | DAttached (l s : loc)                                         (* OpenShell, before it registers *)
  | DShellClosing (s : loc)                                       (* CloseShell, out of the map *)
  | DExited (r : rid).                                            (* a pump that returned *)

Section steps.
Context {E : Env}.
Variable PKH : string → option (list string * option string * string).

Definition tear (l : loc) : M DWorld unit := close_dshells l;; close_conn l.

Inductive drun : dtask → DWorld → list dtask → DWorld → Prop :=
  | drun_dial_ok id spec w c w' :
      dnetM (dialDocker PKH spec) w = (Ret c, w') → drun (DDialing id spec) w [DDialed id spec c] w'
  | drun_dial_err id spec w e w' :
      dnetM (dialDocker PKH spec) w = (Err e, w') → drun (DDialing id spec) w [] w'
  | drun_register id spec c w :
      drun (DDialed id spec c) w [] (connect_register id spec c w).2
  | drun_close l w b w' :
      host_close_begin l w = (Ret b, w') →
      drun (DClosing l) w (if b then [DTearing l] else []) w'
  | drun_tear l w : drun (DTearing l) w [] (tear l w).2
  | drun_attach l id c o w h s w' :
      dw_host w !! l = Some h → open_exec l (h_ID h) c id o w = (Ret s, w') →
      drun (DOpening l id c o) w [DAttached l s] w'
  | drun_attach_err l id c o w h e w' :
      dw_host w !! l = Some h → open_exec l (h_ID h) c id o w = (Err e, w') →
      drun (DOpening l id c o) w [] w'
  | drun_attached l s w : drun (DAttached l s) w [] (register_dshell l s w).2
  | drun_shell_close s w : drun (DShellClosing s) w [] (dshl_Close s w).2.

(** A client starts a call, a call in flight goes on, or a remote process exits.
    A call on a host may come from a client that looked the host up long ago. *)
Inductive dstep : DWorld * list dtask → DWorld * list dtask → Prop :=
  | dstep_connect id spec w w' ts :
      connect_check id w = (Ret tt, w') → dstep (w, ts) (w', DDialing id spec :: ts)
  | dstep_disconnect id l w w' ts :
      unregister_host id w = (Ret l, w') → dstep (w, ts) (w', DClosing l :: ts)
  | dstep_open l id o c w w' ts :
      host_client l w = (Ret c, w') → dstep (w, ts) (w', DOpening l id c o :: ts)
  | dstep_close_shell l id s w w' ts :
      take_shell l id w = (Ret s, w') → dstep (w, ts) (w', DShellClosing s :: ts)
  | dstep_close_all w ts : dstep (w, ts) ((CloseAll w).2, ts)
  | dstep_exit s sh w ts :
      dw_shl w !! s = Some sh →
      dstep (w, ts) ((pump_exit s w).2, if ds_closed sh then ts else DExited (ds_attach sh) :: ts)
  | dstep_net A (m : M Net A) w ts : gives (λ _, []) m → dstep (w, ts) ((dnetM m w).2, ts)
  | dstep_task t w ts' w' t1 t2 :
      drun t w ts' w' → dstep (w, t1 ++ t :: t2) (w', t1 ++ ts' ++ t2).
End steps.

(** ** The invariant *)
Definition own_host (h : Host) : list rid :=
  match h_conn h with Some c => own_conn c | None => [] end.
Definition own_dshl (s : DShell) : list rid := if ds_closed s then [] else [ds_attach s].
Definition task_res (t : dtask) : list rid :=
  match t with DDialed _ _ c => own_conn c | DExited r => [r] | _ => [] end.

(** The objects a call in flight names exist. *)
Definition task_ok (w : DWorld) (t : dtask) : Prop :=
  match t with
  | DClosing l | DOpening l _ _ _ => is_Some (dw_host w !! l)
  | DTearing l => ∃ h, dw_host w !! l = Some h ∧ h_closed h = true
  | DAttached l s => is_Some (dw_host w !! l) ∧ ∃ S, dw_shl w !! s = Some S ∧ ds_host S = l
  | DShellClosing s => is_Some (dw_shl w !! s)
  | _ => True
  end.

Record dinv (w : DWorld) (ts : list dtask) : Prop := {
  d_ledger : ledger (dw_net w) ((ts ≫= task_res) ++ held own_host (dw_host w) ++ held own_dshl (dw_shl w));
  d_next : (∀ l, is_Some (dw_host w !! l) → (l < dw_next w)%positive) ∧
           (∀ s, is_Some (dw_shl w !! s) → (s < dw_next w)%positive);
  d_reg : ∀ id l, hosts w !! id = Some l → is_Some (dw_host w !! l);
  (** an open host can be reached; a closed one is being torn down or is empty *)
  d_host : ∀ l h, dw_host w !! l = Some h →
    (h_closed h = false ∧ ((∃ id, hosts w !! id = Some l) ∨ DClosing l ∈ ts)) ∨
    (h_closed h = true ∧ (DTearing l ∈ ts ∨ (h_conn h = None ∧ h_shells h = ∅)));
  d_shells : ∀ l h id s, dw_host w !! l = Some h → h_shells h !! id = Some s →
    ∃ S, dw_shl w !! s = Some S ∧ ds_host S = l ∧ ds_ID S = id;
  (** an open shell is listed by its host or is in the hands of a call *)
  d_shell : ∀ s S, dw_shl w !! s = Some S →
    (∃ h, dw_host w !! ds_host S = Some h ∧
      (ds_closed S = false → h_shells h !! ds_ID S = Some s ∨
         DAttached (ds_host S) s ∈ ts ∨ DShellClosing s ∈ ts));
  d_tasks : ∀ t, t ∈ ts → task_ok w t;
}.

Lemma dinv_perm w ts ts' : ts ≡ₚ ts' → dinv w ts → dinv w ts'.
Proof.
  intros Hp [H1 H2 H3 H4 H5 H6 H7].
  assert (Hin : ∀ t, t ∈ ts → t ∈ ts') by (intros t; by rewrite Hp).
  split; [by rewrite <- Hp|done|done| |done| |].
  - intros l h Hl. destruct (H4 l h Hl); naive_solver.
  - intros s S HS. destruct (H6 s S HS) as (h & Hh & Hopen). exists h. naive_solver.
  - intros t Ht. apply H7. by rewrite Hp.
Qed.

Lemma elem_drop {A} (P : A) x ts : P ≠ x → P ∈ x :: ts → P ∈ ts.
Proof. intros Hne [->|H]%elem_of_cons; done. Qed.

(** *** Changes of one component *)

(** The network changes and a call in flight goes on as [ts']. *)
Lemma dinv_net w n t ts ts' :
  dinv w (t :: ts) →
  ledger n (((ts' ++ ts) ≫= task_res) ++ held own_host (dw_host w) ++ held own_dshl (dw_shl w)) →
  (∀ l, t ≠ DClosing l) → (∀ l, t ≠ DTearing l) → (∀ l s, t ≠ DAttached l s) →
  (∀ s, t ≠ DShellClosing s) → (∀ t', t' ∈ ts' → task_ok w t') →
  dinv (w <| dw_net := n |>) (ts' ++ ts).
Proof.
  intros [H1 H2 H3 H4 H5 H6 H7] Hl N1 N2 N3 N4 Hok. split; simpl; try done.
  - intros l h Hl'. destruct (H4 l h Hl') as [[Hc [Hr|Ht]]|[Hc [Ht|He]]].
    + left. auto.
    + left. split; [done|]. right. apply elem_of_app. right. eapply elem_drop; [|exact Ht]. done.
    + right. split; [done|]. left. apply elem_of_app. right. eapply elem_drop; [|exact Ht]. done.
    + right. auto.
  - intros s S HS. destruct (H6 s S HS) as (h & Hh & Hopen). exists h. split; [done|].
    intros Hc. destruct (Hopen Hc) as [?|[Ht|Ht]]; [by left| |]; right; [left|right];
      apply elem_of_app; right; (eapply elem_drop; [|exact Ht]); done.
  - intros t' [Ht|Ht]%elem_of_app; [by apply Hok in Ht; destruct t'|].
    apply (H7 t'). by apply list_elem_of_further.
Qed.

(** A call that holds nothing starts. *)
Lemma dinv_start w t ts : dinv w ts → task_res t = [] → task_ok w t → dinv w (t :: ts).
Proof.
  intros [H1 H2 H3 H4 H5 H6 H7] Hr Hok. split; try done.
  - simpl. by rewrite Hr.
  - intros l h Hl. destruct (H4 l h Hl) as [[Hc [?|Ht]]|[Hc [Ht|?]]];
      [left; auto|left|right|right; auto]; (split; [done|]); [right|left]; by apply list_elem_of_further.
  - intros s S HS. destruct (H6 s S HS) as (h & Hh & Hopen). exists h. split; [done|].
    intros Hc. destruct (Hopen Hc) as [?|[Ht|Ht]]; [by left| |]; right; [left|right];
      by apply list_elem_of_further.
  - intros t' [->|Ht]%elem_of_cons; [done|by apply H7].
Qed.
(** A call that leaves nothing to do ends. *)
Lemma dinv_end w t ts : dinv w (t :: ts) → task_res t = [] →
  (∀ l, t = DClosing l → ∃ h, dw_host w !! l = Some h ∧ h_closed h = true) →
  (∀ l, t = DTearing l → ∃ h, dw_host w !! l = Some h ∧ h_conn h = None ∧ h_shells h = ∅) →
  (∀ l s, t = DAttached l s → ∃ h S, dw_host w !! l = Some h ∧ dw_shl w !! s = Some S ∧
     (ds_closed S = true ∨ h_shells h !! ds_ID S = Some s)) →
  (∀ s, t = DShellClosing s → ∃ S, dw_shl w !! s = Some S ∧ ds_closed S = true) →
  dinv w ts.
Proof.
  intros [H1 H2 H3 H4 H5 H6 H7] Hr C1 C2 C3 C4. split; try done.
  - simpl in H1. by rewrite Hr in H1.
  - intros l h Hl. destruct (H4 l h Hl) as [[Hc [?|Ht]]|[Hc [Ht|?]]]; [left; auto| | |right; auto].
    + apply elem_of_cons in Ht as [<-|Ht]; [|left; auto].
      destruct (C1 l eq_refl) as (h' & Hh' & ?). congruence.
    + right. split; [done|]. apply elem_of_cons in Ht as [<-|Ht]; [right|by left].
      destruct (C2 l eq_refl) as (h' & Hh' & ?). by simplify_eq.
  - intros s S HS. destruct (H6 s S HS) as (h & Hh & Hopen). exists h. split; [done|].
    intros Hc. destruct (Hopen Hc) as [?|[Ht|Ht]]; [by left| |];
      apply elem_of_cons in Ht as [<-|Ht]; auto.
    + destruct (C3 _ _ eq_refl) as (h' & S' & ? & ? & [?|?]); simplify_eq; [congruence|by left].
    + destruct (C4 _ eq_refl) as (S' & ? & ?). simplify_eq. congruence.
  - intros t' Ht. by apply H7, list_elem_of_further.
Qed.

(** A shell changes: it may close, and it keeps its host and its id.  Its pump
    may return at the same time ([x]). *)
Definition exited (t : dtask) : Prop := match t with DExited _ => True | _ => False end.
Lemma dinv_shl w n s S g x ts :
  dinv w ts → dw_shl w !! s = Some S →
  ds_host (g S) = ds_host S → ds_ID (g S) = ds_ID S → (ds_closed S = true → ds_closed (g S) = true) →
  (∀ t, t ∈ x → exited t) →
  ledger n (((x ++ ts) ≫= task_res) ++ held own_host (dw_host w) ++ held own_dshl (alter g s (dw_shl w))) →
  dinv (w <| dw_net := n |> <| dw_shl ::= alter g s |>) (x ++ ts).
Proof.
  intros [H1 H2 H3 H4 H5 H6 H7] HS Eh Ei Ec Hx Hl.
  assert (Hin : ∀ t, t ∈ ts → t ∈ x ++ ts) by (intros t Ht; apply elem_of_app; by right).
  assert (Hfind : ∀ s' S', dw_shl w !! s' = Some S' →
    ∃ S'', alter g s (dw_shl w) !! s' = Some S'' ∧ ds_host S'' = ds_host S' ∧ ds_ID S'' = ds_ID S').
  { intros s' S' HS'. destruct (decide (s' = s)) as [->|Hne].
    - exists (g S). rewrite lookup_alter_eq, HS. simplify_eq. done.
    - exists S'. by rewrite lookup_alter_ne. }
  assert (Hback : ∀ s' S'', alter g s (dw_shl w) !! s' = Some S'' →
    ∃ S', dw_shl w !! s' = Some S' ∧ ds_host S'' = ds_host S' ∧ ds_ID S'' = ds_ID S' ∧
      (ds_closed S'' = false → ds_closed S' = false)).
  { intros s' S''. destruct (decide (s' = s)) as [->|Hne].
    - rewrite lookup_alter_eq, HS. intros [= <-]. exists S. split_and!; [done..|].
      intros Hc. destruct (ds_closed S); [|done]. by rewrite Ec in Hc.
    - rewrite lookup_alter_ne by done. eauto. }
  split; simpl; try done.
  - split; [apply (proj1 H2)|]. intros s' [S'' HS'']. apply Hback in HS'' as (S' & HS' & _).
    apply (proj2 H2). by exists S'.
  - intros l h Hl'. destruct (H4 l h Hl') as [[? [?|?%Hin]]|[? [?%Hin|?]]]; auto.
  - intros l h id s' Hh Hid. destruct (H5 l h id s' Hh Hid) as (S' & HS' & <- & <-).
    destruct (Hfind _ _ HS') as (S'' & ? & ? & ?). eauto.
  - intros s' S'' HS''. apply Hback in HS'' as (S' & HS' & -> & -> & Hc).
    destruct (H6 s' S' HS') as (h & Hh & Hopen). exists h. split; [done|].
    intros Hc'. destruct (Hopen (Hc Hc')) as [?|[?%Hin|?%Hin]]; auto.
  - intros t [Ht%Hx|Ht]%elem_of_app; [by destruct t|].
    apply H7 in Ht. destruct t; try done; simpl in *.
    + destruct Ht as (Hh & S' & HS' & E'). destruct (Hfind _ _ HS') as (S'' & ? & ? & ?).
      split; [done|]. exists S''. split; [done|congruence].
    + destruct Ht as [S' HS']. destruct (Hfind _ _ HS') as (S'' & ? & ? & ?). by exists S''.
Qed.

(** A host changes: its list of shells may lose closed shells or shells in the
    hands of a call, and gain shells of its own. *)
Lemma dinv_host_alter w n l h g ts :
  dinv w ts → dw_host w !! l = Some h →
  (∀ id s, h_shells (g h) !! id = Some s →
     h_shells h !! id = Some s ∨ ∃ S, dw_shl w !! s = Some S ∧ ds_host S = l ∧ ds_ID S = id) →
  (∀ id s S, h_shells h !! id = Some s → dw_shl w !! s = Some S →
     h_shells (g h) !! id = Some s ∨ ds_closed S = true ∨ DShellClosing s ∈ ts) →
  (h_closed h = true → h_closed (g h) = true) →
  ((h_closed (g h) = false ∧ ((∃ id, hosts w !! id = Some l) ∨ DClosing l ∈ ts)) ∨
   (h_closed (g h) = true ∧ (DTearing l ∈ ts ∨ (h_conn (g h) = None ∧ h_shells (g h) = ∅)))) →
  ledger n ((ts ≫= task_res) ++ held own_host (alter g l (dw_host w)) ++ held own_dshl (dw_shl w)) →
  dinv (w <| dw_net := n |> <| dw_host ::= alter g l |>) ts.
Proof.
  intros [H1 H2 H3 H4 H5 H6 H7] Hh Hnew Hold Hc Hok Hl.
  assert (Hsome : ∀ l', is_Some (dw_host w !! l') → is_Some (alter g l (dw_host w) !! l')).
  { intros l' [h' Hh']. destruct (decide (l' = l)) as [->|]; [|rewrite lookup_alter_ne by done; by eexists].
    rewrite lookup_alter_eq, Hh. by eexists. }
  split; simpl; try done.
  - split; [|apply (proj2 H2)]. intros l' Hl'. apply (proj1 H2). destruct (decide (l' = l)) as [->|]; [by exists h|].
    by rewrite lookup_alter_ne in Hl'.
  - intros id l' Hid. by apply Hsome, (H3 id).
  - intros l' h' [[-> (h0 & Hh0 & ->)]|[Hne Hl']]%lookup_alter_Some; [by simplify_eq|by apply H4].
  - intros l' h' id s [[-> (h0 & Hh0 & ->)]|[Hne Hl']]%lookup_alter_Some; [simplify_eq|by eapply H5].
    intros [Hid|Hid]%Hnew; [by eapply H5|done].
  - intros s S HS. destruct (H6 s S HS) as (h' & Hh' & Hopen).
    destruct (decide (ds_host S = l)) as [El|Hne].
    + rewrite El in *. rewrite lookup_alter_eq, Hh. exists (g h). split; [done|]. simplify_eq. intros Ho.
      destruct (Hopen Ho) as [Hid|?]; [|by auto].
      destruct (Hold _ _ S Hid HS) as [?|[?|?]]; [by left|congruence|by auto].
    + exists h'. by rewrite lookup_alter_ne.
  - intros t Ht. apply H7 in Ht. destruct t; try done; simpl in *; try by apply Hsome.
    + destruct Ht as (h' & Hh' & Hc'). destruct (decide (l0 = l)) as [->|Hne].
      * rewrite lookup_alter_eq, Hh. simplify_eq. eauto.
      * rewrite lookup_alter_ne by done. eauto.
    + destruct Ht as [? ?]. split; [by apply Hsome|done].
Qed.

(** *** The operations *)
Lemma wp_dshl_at s S Q w : dw_shl w !! s = Some S → Q (Ret S) w → wp (dshl_at s) Q w.
Proof. intros H HQ. unfold wp, dshl_at. by rewrite H. Qed.
Lemma wp_host_at l h Q w : dw_host w !! l = Some h → Q (Ret h) w → wp (host_at l) Q w.
Proof. intros H HQ. unfold wp, host_at. by rewrite H. Qed.
Lemma dworld_net_id (w : DWorld) : w <| dw_net := dw_net w |> = w.
Proof. by destruct w. Qed.

(** Two updates of one shell around a change of the network are one. *)
Lemma dshl_alter2 (w : DWorld) n s f g :
  w <| dw_shl ::= alter f s |> <| dw_net := n |> <| dw_shl ::= alter g s |> =
  w <| dw_net := n |> <| dw_shl ::= alter (λ x, g (f x)) s |>.
Proof.
  pose proof (alter_alter_eq g f (dw_shl w) s) as E. revert E. destruct w.
  unfold upd, upd_dw_shl, upd_dw_net. simpl. by intros ->.
Qed.

Definition closed_shell (s : loc) (w : DWorld) : Prop :=
  ∃ S, dw_shl w !! s = Some S ∧ ds_closed S = true.

Lemma dinv_dshl_Close w ts s :
  dinv w ts → is_Some (dw_shl w !! s) →
  wp (dshl_Close s) (λ o w', o = Ret tt ∧ dinv w' ts ∧ hosts w' = hosts w ∧ dw_host w' = dw_host w ∧
    closed_shell s w') w.
Proof.
  intros Hi [S HS]. unfold dshl_Close. apply wp_bind. eapply wp_dshl_at; [done|].
  destruct (ds_closed S) eqn:Hc.
  { apply wp_ret. split_and!; try done. by exists S. }
  set (g := λ S : DShell, S <| ds_closed := true |> <| ds_done := true |>).
  apply wp_bind, wp_modify, wp_bind, wp_zoom. simpl.
  assert (Hl : ledger (dw_net w) (ds_attach S :: (ts ≫= task_res) ++ held own_host (dw_host w) ++
    held own_dshl (delete s (dw_shl w)))).
  { eapply ledger_perm; [|apply (d_ledger _ _ Hi)]. rewrite (held_lookup own_dshl _ _ _ HS).
    unfold own_dshl at 1. rewrite Hc. solve_Permutation. }
  eapply wp_mono; [apply ledger_close; exact Hl|]. intros o n' [-> Hn]. apply wp_modify.
  rewrite dshl_alter2. change (λ x : DShell, _) with g. split; [done|]. split; [|split_and!; [done|done|]].
  - apply (dinv_shl w n' s S g [] ts Hi HS); try done.
    { intros t Ht. by apply elem_of_nil in Ht. }
    eapply ledger_perm; [|exact Hn]. by rewrite (held_alter own_dshl _ _ _ g HS).
  - exists (g S). simpl. by rewrite lookup_alter_eq, HS.
Qed.

(** [delete(h.shells, id)] of a shell that is closed or in the hands of a call. *)
Lemma dinv_unlist w ts l h id :
  dinv w ts → dw_host w !! l = Some h →
  (∀ s S, h_shells h !! id = Some s → dw_shl w !! s = Some S → ds_closed S = true ∨ DShellClosing s ∈ ts) →
  dinv (w <| dw_host ::= alter (λ h, h <| h_shells ::= delete id |>) l |>) ts.
Proof.
  intros Hi Hh Hid. rewrite <- (dworld_net_id w) at 1.
  apply (dinv_host_alter w (dw_net w) l h _ ts Hi Hh); simpl.
  - intros id' s [_ ?]%lookup_delete_Some. by left.
  - intros id' s S Hs HS. destruct (decide (id' = id)) as [->|]; [by eauto|].
    left. by rewrite lookup_delete_ne.
  - done.
  - destruct (d_host _ _ Hi l h Hh) as [?|[? [?|[? E]]]]; [by left|right; auto|right].
    split; [done|]. right. split; [done|]. rewrite E. apply delete_empty.
  - eapply ledger_perm; [|apply (d_ledger _ _ Hi)].
    by rewrite (held_alter own_host _ _ _ _ Hh), (held_lookup own_host _ _ _ Hh).
Qed.

Lemma ledger_same_host w n l h g R R' :
  dw_host w !! l = Some h → own_host (g h) = own_host h →
  ledger n (R ++ held own_host (dw_host w) ++ R') →
  ledger n (R ++ held own_host (alter g l (dw_host w)) ++ R').
Proof.
  intros Hh Ho. apply ledger_perm.
  by rewrite (held_alter own_host _ _ _ _ Hh), (held_lookup own_host _ _ _ Hh), Ho.
Qed.

(** The loop of [close] over the shells of a host that is being torn down. *)
Lemma dinv_close_dshells w ts l h :
  dinv w ts → dw_host w !! l = Some h →
  wp (close_dshells l) (λ o w', o = Ret tt ∧ dinv w' ts ∧ hosts w' = hosts w ∧
    ∃ h', dw_host w' !! l = Some h' ∧ h_shells h' = ∅ ∧ h_closed h' = h_closed h) w.
Proof.
  intros Hi Hh. unfold close_dshells. apply wp_bind. eapply wp_host_at; [done|].
  apply (wp_forM _ _ (λ todo w', dinv w' ts ∧ hosts w' = hosts w ∧ NoDup todo.*1 ∧
    ∃ h', dw_host w' !! l = Some h' ∧ h_shells h' = list_to_map todo ∧ h_closed h' = h_closed h)).
  - split_and!; [done|done|apply NoDup_fst_map_to_list|]. exists h. by rewrite list_to_map_to_list.
  - clear Hi Hh. intros [id s] todo w1 (Hi & Hhs & Hnd & h' & Hh & Hmap & Hc). simpl in *.
    apply NoDup_cons in Hnd as [Hnew Hnd].
    assert (Hid : h_shells h' !! id = Some s) by (rewrite Hmap; apply lookup_insert_eq).
    destruct (d_shells _ _ Hi l h' id s Hh Hid) as (S & HS & _).
    apply wp_bind. eapply wp_mono; [apply dinv_dshl_Close; [exact Hi|by exists S]|].
    intros o w' (-> & Hi' & Eh & Ehost & S' & HS' & Hcl). apply wp_modify. rewrite <- Ehost in Hh.
    split_and!; [|exact (eq_trans Eh Hhs)|done|].
    + eapply dinv_unlist; [exact Hi'|exact Hh|]. intros s' S'' Hs' HS''. left.
      rewrite Hid in Hs'. injection Hs' as <-. by simplify_eq.
    + exists (h' <| h_shells ::= delete id |>). simpl. rewrite lookup_alter_eq, Hh. split_and!; [done| |done].
      rewrite Hmap, delete_insert_id; [done|]. by apply not_elem_of_list_to_map_1.
  - intros w' (Hi' & Ehs & _ & h' & Hh' & Hmap & Hc). split_and!; [done|done|done|]. by exists h'.
Qed.

Lemma dinv_close_conn w ts l h :
  dinv w ts → dw_host w !! l = Some h →
  wp (close_conn l) (λ o w', o = Ret tt ∧ dinv w' ts ∧ hosts w' = hosts w ∧
    ∃ h', dw_host w' !! l = Some h' ∧ h_conn h' = None ∧ h_shells h' = h_shells h ∧
      h_closed h' = h_closed h) w.
Proof.
  intros Hi Hh. unfold close_conn. apply wp_bind. eapply wp_host_at; [done|].
  destruct (h_conn h) as [c|] eqn:Hc.
  2:{ apply wp_ret. split_and!; [done..|]. by exists h. }
  apply wp_bind, wp_zoom.
  assert (Hl : ledger (dw_net w) (own_conn c ++ (ts ≫= task_res) ++
    held own_host (delete l (dw_host w)) ++ held own_dshl (dw_shl w))).
  { eapply ledger_perm; [|apply (d_ledger _ _ Hi)]. rewrite (held_lookup own_host _ _ _ Hh).
    unfold own_host at 1. rewrite Hc. solve_Permutation. }
  eapply wp_mono; [apply ledger_conn; exact Hl|]. intros o n' [-> Hn]. apply wp_modify.
  split_and!; [done| |done|].
  - apply (dinv_host_alter w n' l h (λ h, h <| h_conn := None |>) ts Hi Hh); simpl; try done; try by left.
    + destruct (d_host _ _ Hi l h Hh) as [?|[? [?|[? ?]]]]; auto 6.
    + eapply ledger_perm; [|exact Hn]. by rewrite (held_alter own_host _ _ _ _ Hh).
  - eexists. simpl. rewrite lookup_alter_eq, Hh. done.
Qed.

Definition closed_host (l : loc) (w : DWorld) : Prop :=
  ∃ h, dw_host w !! l = Some h ∧ h_closed h = true.

Lemma dinv_tear w ts l :
  dinv w (DTearing l :: ts) →
  wp (tear l) (λ o w', o = Ret tt ∧ dinv w' ts ∧ hosts w' = hosts w ∧ closed_host l w') w.
Proof.
  intros Hi. destruct (d_tasks _ _ Hi (DTearing l)) as (h & Hh & Hc); [apply list_elem_of_here|].
  unfold tear. apply wp_bind. eapply wp_mono; [by eapply dinv_close_dshells|].
  intros o w1 (-> & Hi1 & E1 & h1 & Hh1 & Hs1 & Hc1).
  eapply wp_mono; [by eapply dinv_close_conn|].
  intros o w2 (-> & Hi2 & E2 & h2 & Hh2 & Hn2 & Hs2 & Hc2).
  split_and!; [done| |congruence|exists h2; split; congruence].
  apply (dinv_end w2 (DTearing l) ts Hi2); try done.
  intros l' [= <-]. exists h2. split_and!; congruence.
Qed.

(** The compare-and-swap at the top of [close], by a call in flight or not. *)
Lemma dinv_close_begin w ts l h :
  dinv w ts → dw_host w !! l = Some h → h_closed h = false →
  dinv (w <| dw_host ::= alter (λ h, h <| h_closed := true |>) l |>) (DTearing l :: ts).
Proof.
  intros Hi Hh Hc. set (g := λ h : Host, h <| h_closed := true |>).
  destruct Hi as [H1 H2 H3 H4 H5 H6 H7].
  assert (Hcase : ∀ l' h', alter g l (dw_host w) !! l' = Some h' →
    ∃ h0, dw_host w !! l' = Some h0 ∧ h_shells h' = h_shells h0 ∧
      ((l' = l ∧ h' = g h) ∨ h' = h0 ∧ l' ≠ l)).
  { intros l' h' [[-> (h0 & Hh0 & ->)]|[Hne Hl']]%lookup_alter_Some; simplify_eq; eauto 6. }
  assert (Hsome : ∀ l' h', dw_host w !! l' = Some h' →
    ∃ h0, alter g l (dw_host w) !! l' = Some h0 ∧ h_shells h0 = h_shells h' ∧
      (h_closed h' = true → h_closed h0 = true)).
  { intros l' h' Hh'. destruct (decide (l' = l)) as [->|]; [|rewrite lookup_alter_ne by done; eauto].
    rewrite lookup_alter_eq, Hh. simplify_eq. exists (g h). done. }
  split; simpl; try done.
  - by apply (ledger_same_host w _ l h).
  - split; [|apply (proj2 H2)]. intros l' [h' (h0 & ? & _)%Hcase]. apply (proj1 H2). by exists h0.
  - intros id l' Hid. destruct (H3 id l' Hid) as [h' Hh']. destruct (Hsome _ _ Hh') as (h0 & ? & _).
    by exists h0.
  - intros l' h' (h0 & Hh0 & _ & [[-> ->]|[-> Hne]])%Hcase.
    + right. split; [done|]. left. apply list_elem_of_here.
    + destruct (H4 l' h0 Hh0) as [[? [?|Ht]]|[? [Ht|?]]]; [left; auto|left|right|right; auto];
        (split; [done|]); [right|left]; by apply list_elem_of_further.
  - intros l' h' id s (h0 & Hh0 & E & _)%Hcase. rewrite E. by apply H5.
  - intros s S HS. destruct (H6 s S HS) as (h' & Hh' & Hopen). destruct (Hsome _ _ Hh') as (h0 & ? & E & _).
    exists h0. split; [done|]. rewrite E. intros Ho. destruct (Hopen Ho) as [?|[Ht|Ht]]; [by left| |];
      right; [left|right]; by apply list_elem_of_further.
  - intros t [->|Ht]%elem_of_cons.
    + exists (g h). simpl. by rewrite lookup_alter_eq, Hh.
    + apply H7 in Ht. destruct t; try done; simpl in *.
      * destruct Ht as [h' Hh']. destruct (Hsome _ _ Hh') as (h0 & ? & _). by exists h0.
      * destruct Ht as (h' & Hh' & ?). destruct (Hsome _ _ Hh') as (h0 & ? & _ & ?). exists h0. auto.
      * destruct Ht as [h' Hh']. destruct (Hsome _ _ Hh') as (h0 & ? & _). by exists h0.
      * destruct Ht as [[h' Hh'] ?]. destruct (Hsome _ _ Hh') as (h0 & ? & _).
        split; [by exists h0|done].
Qed.

Lemma dinv_host_close w ts l :
  dinv w ts → is_Some (dw_host w !! l) →
  wp (host_close l) (λ o w', o = Ret tt ∧ dinv w' ts ∧ hosts w' = hosts w ∧ closed_host l w') w.
Proof.
  intros Hi [h Hh]. unfold host_close, host_close_begin. apply wp_bind, wp_bind.
  eapply wp_host_at; [done|]. destruct (h_closed h) eqn:Hc.
  - apply wp_ret, wp_ret. split_and!; [done..|]. by exists h.
  - apply wp_bind, wp_modify, wp_ret.
    eapply wp_mono; [apply dinv_tear; by eapply dinv_close_begin|]. by intros o w' ?.
Qed.

(** *** The map of hosts *)
Lemma dinv_unmap w ts id l h :
  dinv w ts → hosts w !! id = Some l → dw_host w !! l = Some h →
  (h_closed h = true ∨ DClosing l ∈ ts) →
  dinv (w <| hosts ::= delete id |>) ts.
Proof.
  intros [H1 H2 H3 H4 H5 H6 H7] Hid Hh Hok. split; simpl; try done.
  - intros id' l' [_ ?]%lookup_delete_Some. by eapply H3.
  - intros l' h' Hl'. destruct (H4 l' h' Hl') as [[Hc [[id' Hid']|?]]|?]; [|left; auto|by right].
    destruct (decide (id' = id)) as [->|].
    + simplify_eq. left. split; [done|]. right. destruct Hok; [congruence|done].
    + left. split; [done|]. left. exists id'. by rewrite lookup_delete_ne.
Qed.

Lemma dinv_CloseAll w ts : dinv w ts → wp CloseAll (λ o w', o = Ret tt ∧ dinv w' ts ∧ hosts w' = ∅) w.
Proof.
  intros Hi. unfold CloseAll. apply wp_bind, wp_gets.
  apply (wp_forM _ _ (λ todo w', dinv w' ts ∧ NoDup todo.*1 ∧ hosts w' = list_to_map todo)).
  - split_and!; [done|apply NoDup_fst_map_to_list|by rewrite list_to_map_to_list].
  - clear. intros [id l] todo w (Hi & Hnd & Hmap). simpl in *. apply NoDup_cons in Hnd as [Hnew Hnd].
    assert (Hid : hosts w !! id = Some l) by (rewrite Hmap; apply lookup_insert_eq).
    apply wp_bind. eapply wp_mono; [apply dinv_host_close; [exact Hi|by eapply d_reg]|].
    intros o w' (-> & Hi' & Eh & h & Hh & Hc). apply wp_modify. rewrite <- Eh in Hid. split_and!; [|done|].
    + eapply dinv_unmap; [exact Hi'|exact Hid|exact Hh|by left].
    + simpl. rewrite Eh, Hmap, delete_insert_id; [done|]. by apply not_elem_of_list_to_map_1.
  - intros w' (Hi' & _ & E). done.
Qed.

(** Forget a call in flight that names no object: all but the ledger. *)
Definition nameless (t : dtask) : Prop :=
  match t with DClosing _ | DTearing _ | DAttached _ _ | DShellClosing _ => False | _ => True end.
Lemma dinv_nameless w t ts : dinv w (t :: ts) → nameless t →
  (∀ l h, dw_host w !! l = Some h →
    (h_closed h = false ∧ ((∃ id, hosts w !! id = Some l) ∨ DClosing l ∈ ts)) ∨
    (h_closed h = true ∧ (DTearing l ∈ ts ∨ (h_conn h = None ∧ h_shells h = ∅)))) ∧
  (∀ s S, dw_shl w !! s = Some S →
    (∃ h, dw_host w !! ds_host S = Some h ∧
      (ds_closed S = false → h_shells h !! ds_ID S = Some s ∨
         DAttached (ds_host S) s ∈ ts ∨ DShellClosing s ∈ ts))) ∧
  (∀ t', t' ∈ ts → task_ok w t').
Proof.
  intros [_ _ _ H4 _ H6 H7] Ht.
  assert (Hd : ∀ u, ¬ nameless u → u ∈ t :: ts → u ∈ ts) by (intros u Hu; apply elem_drop; by intros ->).
  split_and!.
  - intros l h Hl. destruct (H4 l h Hl) as [[? [?|?%Hd]]|[? [?%Hd|?]]]; tauto.
  - intros s S HS. destruct (H6 s S HS) as (h & Hh & Ho). exists h. split; [done|].
    intros Hc. destruct (Ho Hc) as [?|[?%Hd|?%Hd]]; tauto.
  - intros t' Hin. by apply H7, list_elem_of_further.
Qed.

(** A call that names no object ends. *)
Lemma dinv_drop w n t ts : dinv w (t :: ts) → nameless t →
  ledger n ((ts ≫= task_res) ++ held own_host (dw_host w) ++ held own_dshl (dw_shl w)) →
  dinv (w <| dw_net := n |>) ts.
Proof.
  intros Hi Ht Hl. apply (dinv_net w n t ts []); try done; try (intros; intros ->; done).
  intros t' Ht'. by apply elem_of_nil in Ht'.
Qed.

Lemma dinv_new_host w n ts id spec c t :
  dinv w (DDialed id spec c :: ts) → hosts w !! id = None →
  ledger n (own_conn c ++ (ts ≫= task_res) ++ held own_host (dw_host w) ++ held own_dshl (dw_shl w)) →
  dinv (w <| dw_net := n |> <| dw_host ::= <[dw_next w := mkHost id spec (Some c) t "" ∅ false]> |> <| dw_next ::= Pos.succ |>
          <| hosts ::= <[id := dw_next w]> |>) ts.
Proof.
  intros Hi Hid Hl. destruct (dinv_nameless _ _ _ Hi) as (H4 & H6 & H7); [done|].
  destruct Hi as [_ H2 H3 _ H5 _ _].
  assert (Hfresh : dw_host w !! dw_next w = None).
  { destruct (dw_host w !! dw_next w) eqn:E; [|done].
    assert (dw_next w < dw_next w)%positive; [|lia]. apply (proj1 H2). by eexists. }
  assert (Hne : ∀ l h, dw_host w !! l = Some h → dw_next w ≠ l) by (intros l h ? <-; congruence).
  split; simpl.
  - eapply ledger_perm; [|exact Hl]. rewrite held_insert by done. solve_Permutation.
  - split; [|intros s Hs; apply (proj2 H2) in Hs; lia].
    intros l [h [[<- _]|[_ Hl']]%lookup_insert_Some]; [lia|].
    assert (l < dw_next w)%positive by (apply (proj1 H2); by eexists). lia.
  - intros id' l [[_ <-]|[_ Hl']]%lookup_insert_Some; [rewrite lookup_insert_eq; by eexists|].
    destruct (H3 id' l Hl') as [h Hh]. rewrite lookup_insert_ne by (by eapply Hne). by eexists.
  - intros l h [[<- <-]|[_ Hl']]%lookup_insert_Some.
    + left. split; [done|]. left. exists id. apply lookup_insert_eq.
    + destruct (H4 l h Hl') as [[Hc [[id' Hid']|?]]|?]; [|left; auto|by right].
      left. split; [done|]. left. exists id'. rewrite lookup_insert_ne; [done|congruence].
  - intros l h id' s [[<- <-]|[_ Hl']]%lookup_insert_Some; [done|by apply H5].
  - intros s S HS. destruct (H6 s S HS) as (h & Hh & ?). exists h.
    by rewrite lookup_insert_ne by (by eapply Hne).
  - intros tk Ht. apply H7 in Ht. destruct tk; try done; simpl in *.
    + destruct Ht as [h Hh]. rewrite lookup_insert_ne by (by eapply Hne). by eexists.
    + destruct Ht as (h & Hh & ?). exists h. by rewrite lookup_insert_ne by (by eapply Hne).
    + destruct Ht as [h Hh]. rewrite lookup_insert_ne by (by eapply Hne). by eexists.
    + destruct Ht as [[h Hh] ?]. rewrite lookup_insert_ne by (by eapply Hne). split; [by eexists|done].
Qed.

Lemma dinv_new_dshl w n t ts sh h :
  dinv w (t :: ts) → nameless t → dw_host w !! ds_host sh = Some h → ds_closed sh = false →
  ledger n (ds_attach sh :: (ts ≫= task_res) ++ held own_host (dw_host w) ++ held own_dshl (dw_shl w)) →
  dinv (w <| dw_net := n |> <| dw_shl ::= <[dw_next w := sh]> |> <| dw_next ::= Pos.succ |>)
       (DAttached (ds_host sh) (dw_next w) :: ts).
Proof.
  intros Hi Ht Hh Hc Hl. destruct (dinv_nameless _ _ _ Hi Ht) as (H4 & H6 & H7).
  destruct Hi as [_ H2 H3 _ H5 _ _].
  assert (Hfresh : dw_shl w !! dw_next w = None).
  { destruct (dw_shl w !! dw_next w) eqn:E; [|done].
    assert (dw_next w < dw_next w)%positive; [|lia]. apply (proj2 H2). by eexists. }
  assert (Hne : ∀ s S, dw_shl w !! s = Some S → dw_next w ≠ s) by (intros l S ? <-; congruence).
  split; simpl; [|split| | | | |].
  - eapply ledger_perm; [|exact Hl]. rewrite held_insert by done.
    unfold own_dshl at 2. rewrite Hc. solve_Permutation.
  - intros l Hl'. apply (proj1 H2) in Hl'. lia.
  - intros s [S [[<- _]|[_ HS]]%lookup_insert_Some]; [lia|].
    assert (s < dw_next w)%positive by (apply (proj2 H2); by eexists). lia.
  - done.
  - intros l h' Hl'. destruct (H4 l h' Hl') as [[? [?|Hin]]|[? [Hin|?]]]; [left; auto|left|right|right; auto];
      (split; [done|]); [right|left]; by apply list_elem_of_further.
  - intros l h' id s Hl' Hs. destruct (H5 l h' id s Hl' Hs) as (S & HS & ?). exists S.
    by rewrite lookup_insert_ne by (by eapply Hne).
  - intros s S [[<- <-]|[_ HS]]%lookup_insert_Some.
    + exists h. split; [done|]. intros _. right. left. apply list_elem_of_here.
    + destruct (H6 s S HS) as (h' & Hh' & Hopen). exists h'. split; [done|].
      intros Ho. destruct (Hopen Ho) as [?|[Hin|Hin]]; [by left| |]; right; [left|right];
        by apply list_elem_of_further.
  - intros tk [->|Hin]%elem_of_cons; simpl.
    + split; [by exists h|]. exists sh. by rewrite lookup_insert_eq.
    + apply H7 in Hin. destruct tk; try done; simpl in *.
      * destruct Hin as (? & S & HS & ?). split; [done|]. exists S. by rewrite lookup_insert_ne by (by eapply Hne).
      * destruct Hin as [S HS]. rewrite lookup_insert_ne by (by eapply Hne). by eexists.
Qed.

(** *** The calls *)
Section calls.
Context {E : Env} (PKH : string → option (list string * option string * string)).

Lemma dinv_register id spec c w ts :
  dinv w (DDialed id spec c :: ts) → dinv (connect_register id spec c w).2 ts.
Proof.
  intros Hi. change (wp (connect_register id spec c) (λ _ w', dinv w' ts) w).
  unfold connect_register. apply wp_bind, wp_zoom, harmless_wp; [apply harmless_now|].
  intros t n Ho Hn. apply wp_bind, wp_gets. simpl.
  assert (Hl : ledger n (own_conn c ++ (ts ≫= task_res) ++ held own_host (dw_host w) ++
    held own_dshl (dw_shl w))).
  { destruct (d_ledger _ _ Hi) as [Hw Hd Hop]. cbn [mbind list_bind task_res] in Hd, Hop.
    rewrite <- !(assoc_L (++)) in Hd, Hop.
    split; [by eapply net_wf_same|done|]. by rewrite Ho. }
  destruct (hosts w !! id) as [l|] eqn:Hid.
  - apply wp_bind, wp_zoom. eapply wp_mono; [apply ledger_conn; exact Hl|].
    intros o n' [-> Hn']. apply wp_fail.
    change (dinv (w <| dw_net := n' |>) ts). by eapply dinv_drop.
  - exact (dinv_new_host w n ts id spec c t Hi Hid Hl).
Qed.

(** [OpenShell] up to the attached exec. *)
Lemma dinv_open_exec l id c opts w ts h :
  dinv w (DOpening l id c opts :: ts) → dw_host w !! l = Some h →
  wp (open_exec l (h_ID h) c id opts)
    (λ o w', match o with
      | Ret s => dinv w' (DAttached l s :: ts)
      | Err _ => dinv w' ts
      | Panic _ => False end) w.
Proof.
  intros Hi Hh. unfold open_exec.
  assert (Hend : ∀ n, ledger n ((ts ≫= task_res) ++ held own_host (dw_host w) ++ held own_dshl (dw_shl w)) →
    dinv (w <| dw_net := n |>) ts).
  { intros n Hn. by eapply dinv_drop. }
  destruct (decide _) as [_|_]. { apply wp_fail. rewrite <- (dworld_net_id w). apply Hend, (d_ledger _ _ Hi). }
  apply wp_bind, wp_zoom, wp_wrapE.
  eapply (wp_gives (λ _, [])); [apply gives_quiet; solve_quiet|apply (d_ledger _ _ Hi)|
    |intros e n1 Hn1; by apply Hend].
  intros execID n Hn. apply wp_bind, wp_zoom, wp_wrapE.
  eapply (wp_gives (λ p : rid * unit, [p.1])); [apply gives_acquire|exact Hn| |intros e n' Hn'; by apply Hend].
  intros [attach []] n' Hn'. apply wp_bind, wp_zoom, harmless_wp; [apply harmless_now|].
  intros t n2 Ho2 Hn2. apply wp_bind, wp_gets, wp_bind, wp_modify, wp_ret.
  refine (dinv_new_dshl w n2 _ ts (mkDShell id (h_ID h) opts t execID l attach false [] _ false false) h Hi I Hh eq_refl _).
  destruct Hn' as [Hw Hd Hop]. split; [by eapply net_wf_same|done|]. by rewrite Ho2.
Qed.

Lemma dinv_closed_attached w ts l s :
  dinv w (DAttached l s :: ts) → closed_shell s w → dinv w ts.
Proof.
  intros Hi (S & HS & Hc). pose proof (d_tasks _ _ Hi (DAttached l s)) as Ht.
  destruct Ht as [[h Hh] (S' & HS' & El)]; [apply list_elem_of_here|]. simplify_eq.
  apply (dinv_end w _ ts Hi); try done. intros l' s' [= <- <-]. eauto 10.
Qed.

Lemma dinv_register_dshell w ts l s :
  dinv w (DAttached l s :: ts) → wp (register_dshell l s) (λ _ w', dinv w' ts) w.
Proof.
  intros Hi. destruct (d_tasks _ _ Hi (DAttached l s)) as [[h Hh] (S & HS & El)];
    [apply list_elem_of_here|].
  assert (Hclose : ∀ e : error, wp (dshl_Close s;; fail e) (λ (_ : outcome unit) w', dinv w' ts) w).
  { intros e. apply wp_bind. eapply wp_mono; [apply dinv_dshl_Close; [exact Hi|by exists S]|].
    intros o w' (-> & Hi' & _ & _ & Hc). apply wp_fail. by eapply dinv_closed_attached. }
  unfold register_dshell. apply wp_bind. eapply wp_dshl_at; [done|]. apply wp_bind.
  eapply wp_host_at; [done|]. destruct (h_closed h) eqn:Hc; [apply Hclose|].
  destruct (h_shells h !! ds_ID S) as [s0|] eqn:Hid; [apply Hclose|]. apply wp_modify.
  set (g := λ h : Host, h <| h_shells ::= <[ds_ID S := s]> |>).
  assert (Hi' : dinv (w <| dw_net := dw_net w |> <| dw_host ::= alter g l |>) (DAttached l s :: ts)).
  { apply (dinv_host_alter w (dw_net w) l h g _ Hi Hh); simpl.
    - intros id s' [[<- <-]|[_ ?]]%lookup_insert_Some; [right; by exists S|by left].
    - intros id s' S' Hs' _. left. rewrite lookup_insert_ne; [done|]. intros <-. congruence.
    - done.
    - destruct (d_host _ _ Hi l h Hh) as [?|[? _]]; [by left|congruence].
    - by apply (ledger_same_host w _ l h), (d_ledger _ _ Hi). }
  rewrite dworld_net_id in Hi'. apply (dinv_end _ _ ts Hi'); try done.
  intros l' s' [= <- <-]. exists (g h), S. simpl. rewrite lookup_alter_eq, Hh.
  split_and!; [done|done|]. right. apply lookup_insert_eq.
Qed.

Lemma dinv_take_shell w ts l id s w' :
  dinv w ts → take_shell l id w = (Ret s, w') → dinv w' (DShellClosing s :: ts).
Proof.
  intros Hi. unfold take_shell, GetShell, mbind, M_bind, host_at.
  destruct (dw_host w !! l) as [h|] eqn:Hh; [|done].
  destruct (h_shells h !! id) as [s'|] eqn:Hid; [|done]. intros [= <- <-].
  destruct (d_shells _ _ Hi l h id s' Hh Hid) as (S & HS & _).
  assert (Hi1 : dinv w (DShellClosing s' :: ts)) by (apply dinv_start; [done|done|by exists S]).
  eapply dinv_unlist; [exact Hi1|exact Hh|]. intros s0 S0 Hs0 _. right.
  rewrite Hid in Hs0. injection Hs0 as <-. apply list_elem_of_here.
Qed.

(** A pump that returns: the shell counts as closed and its connection stays. *)
Lemma dinv_pump_exit w ts s S :
  dinv w ts → dw_shl w !! s = Some S →
  dinv (pump_exit s w).2 (if ds_closed S then ts else DExited (ds_attach S) :: ts).
Proof.
  intros Hi HS. set (ts' := if ds_closed S then ts else _).
  change (wp (pump_exit s) (λ _ w', dinv w' ts') w).
  unfold pump_exit. apply wp_bind, wp_modify, wp_bind, wp_modify.
  set (g := λ S : DShell, S <| ds_closed := true |> <| ds_done := true |>).
  destruct (d_shell _ _ Hi s S HS) as (h & Hh & Hopen).
  set (w1 := w <| dw_net := dw_net w |> <| dw_shl ::= alter g s |>).
  assert (Hi1 : dinv w1 ts').
  { assert (Hts : ∃ x, ts' = x ++ ts ∧ (x ≫= task_res) = own_dshl S ∧ ∀ t, t ∈ x → exited t).
    { unfold ts', own_dshl. destruct (ds_closed S); [exists []|exists [DExited (ds_attach S)]];
        (split_and!; [done|done|]); intros t Ht; [by apply elem_of_nil in Ht|].
      by apply list_elem_of_singleton in Ht as ->. }
    destruct Hts as (x & -> & Hres & Hx). apply (dinv_shl w (dw_net w) s S g x ts Hi HS); try done.
    eapply ledger_perm; [|apply (d_ledger _ _ Hi)].
    rewrite (held_alter own_dshl _ _ _ g HS), (held_lookup own_dshl _ _ _ HS).
    rewrite bind_app, Hres. change (own_dshl (g S)) with (@nil rid). solve_Permutation. }
  assert (Ew : w <| dw_shl ::= alter (λ sh, sh <| ds_closed := true |>) s |>
                 <| dw_shl ::= alter (λ sh, sh <| ds_done := true |>) s |> = w1)
    by apply (dshl_alter2 w (dw_net w)).
  rewrite Ew. assert (HS1 : dw_shl w1 !! s = Some (g S)) by (simpl; by rewrite lookup_alter_eq, HS).
  apply wp_bind. eapply wp_dshl_at; [exact HS1|]. apply wp_bind. eapply wp_host_at; [exact Hh|].
  case_bool_decide as Hid; [|by apply wp_ret]. apply wp_modify.
  eapply dinv_unlist; [exact Hi1|exact Hh|]. intros s' S' Hs' HS'. left.
  assert (s' = s) as -> by congruence. by simplify_eq.
Qed.
End calls.

Section reach.
Context {E : Env} (PKH : string → option (list string * option string * string)).

Lemma wp_run_ret {S A} (m : M S A) (Q : outcome A → S → Prop) s o s' :
  wp m Q s → m s = (o, s') → Q o s'.
Proof. unfold wp. intros H Em. by rewrite Em in H. Qed.

Lemma dinv_drun t w ts' w' ts :
  dinv w (t :: ts) → drun PKH t w ts' w' → dinv w' (ts' ++ ts).
Proof.
  intros Hi Hr. inversion Hr; subst; clear Hr.
  - assert (Hg : wp (dnetM (dialDocker PKH spec))
      (λ o w', match o with Ret c => dinv w' (DDialed id spec c :: ts) | _ => True end) w).
    { apply wp_zoom. eapply (wp_gives own_conn); [apply gives_dialDocker|apply (d_ledger _ _ Hi)| |done].
      intros c' n Hn. apply (dinv_net w n _ ts [DDialed id spec c'] Hi); try done;
        [|by intros t' ->%list_elem_of_singleton].
      simpl. by rewrite <- (assoc_L (++)). }
    exact (wp_run_ret _ _ _ _ _ Hg H).
  - assert (Hg : wp (dnetM (dialDocker PKH spec))
      (λ o w', match o with Err _ => dinv w' ts | _ => True end) w).
    { apply wp_zoom. eapply (wp_gives own_conn); [apply gives_dialDocker|apply (d_ledger _ _ Hi)|done|].
      intros e' n Hn. by eapply dinv_drop. }
    exact (wp_run_ret _ _ _ _ _ Hg H).
  - by apply dinv_register.
  - destruct (d_tasks _ _ Hi (DClosing l)) as [h Hh]; [apply list_elem_of_here|].
    revert H. unfold host_close_begin, mbind, M_bind, host_at. rewrite Hh.
    destruct (h_closed h) eqn:Hc; intros [= <- <-].
    + apply (dinv_end w (DClosing l) ts Hi); try done. intros l' [= <-]. eauto.
    + assert (Hi' : dinv (w <| dw_host ::= alter (λ h, h <| h_closed := true |>) l |>)
                      (DClosing l :: DTearing l :: ts)).
      { eapply dinv_perm; [|by eapply dinv_close_begin]. solve_Permutation. }
      apply (dinv_end _ _ _ Hi'); try done. intros l' [= <-]. eexists.
      simpl. by rewrite lookup_alter_eq, Hh.
  - by destruct (dinv_tear w ts l Hi) as (_ & ? & _).
  - assert (Hg := dinv_open_exec l id c o w ts h Hi H). exact (wp_run_ret _ _ _ _ _ Hg H0).
  - assert (Hg := dinv_open_exec l id c o w ts h Hi H). exact (wp_run_ret _ _ _ _ _ Hg H0).
  - by apply (dinv_register_dshell w ts l s).
  - destruct (d_tasks _ _ Hi (DShellClosing s)) as [S HS]; [apply list_elem_of_here|].
    destruct (dinv_dshl_Close w _ s Hi) as (_ & Hi' & _ & _ & Hc); [by exists S|].
    apply (dinv_end _ _ ts Hi'); try done. by intros s' [= <-].
Qed.

Lemma dinv_step w ts w' ts' : dinv w ts → dstep PKH (w, ts) (w', ts') → dinv w' ts'.
Proof.
  intros Hi Hst. inversion Hst; subst; clear Hst.
  - match goal with H : connect_check _ _ = _ |- _ => revert H end.
    unfold connect_check, mbind, M_bind, gets. destruct (decide _); [done|].
    destruct (hosts w !! id); [done|]. intros [= <-]. by apply dinv_start.
  - match goal with H : unregister_host _ _ = _ |- _ => revert H end.
    unfold unregister_host, Get, mbind, M_bind, gets. destruct (hosts w !! id) as [l0|] eqn:Hid; [|done].
    intros [= <- <-]. destruct (d_reg _ _ Hi id l0 Hid) as [h Hh].
    apply (dinv_unmap w _ id l0 h); [by apply dinv_start; [|done|exists h]|done|done|].
    right. apply list_elem_of_here.
  - match goal with H : host_client _ _ = _ |- _ => revert H end.
    unfold host_client, mbind, M_bind, host_at. destruct (dw_host w !! l) as [h|] eqn:Hh; [|done].
    destruct (h_conn h); [|done]. intros [= _ <-]. apply dinv_start; [done|done|by exists h].
  - by eapply dinv_take_shell.
  - by destruct (dinv_CloseAll w _ Hi) as (_ & ? & _).
  - by apply dinv_pump_exit.
  - change (wp (dnetM m) (λ _ w', dinv w' ts') w). apply wp_zoom.
    assert (Hend : ∀ n, ledger n ((ts' ≫= task_res) ++ held own_host (dw_host w) ++
      held own_dshl (dw_shl w)) → dinv (w <| dw_net := n |>) ts').
    { intros n Hn. by destruct Hi as [_ H2 H3 H4 H5 H6 H7]. }
    eapply (wp_gives (λ _, [])); [eassumption|apply (d_ledger _ _ Hi)| |]; intros; by apply Hend.
  - eapply dinv_perm; [|eapply (dinv_drun _ _ _ _ (t1 ++ t2)); [|eassumption]].
    + solve_Permutation.
    + eapply dinv_perm; [|exact Hi]. solve_Permutation.
Qed.

Lemma dinv_dworld0 : dinv dworld0 [].
Proof.
  split; try done.
  - change (ledger net0 ([] ++ held own_host ∅ ++ held own_dshl ∅)). rewrite !held_empty.
    split; [by intros r Hr; apply elem_of_empty in Hr|constructor|done].
  - split; intros l [y Hy]; done.
  - intros t Ht. by apply elem_of_nil in Ht.
Qed.

Lemma dinv_rtc w ts : rtc (dstep PKH) (dworld0, []) (w, ts) → dinv w ts.
Proof.
  intros H. assert (Hgen : ∀ p q, rtc (dstep PKH) p q → dinv p.1 p.2 → dinv q.1 q.2).
  { induction 1 as [|[w1 t1] [w2 t2] q Hst _ IH]; [done|]. intros Hi. apply IH. by eapply dinv_step. }
  by apply (Hgen _ _ H), dinv_dworld0.
Qed.
End reach.

(** ** Properties *)

(** What a call in flight holds, directly or through the objects it was given. *)
Definition host_holds (w : DWorld) (l : loc) (r : rid) : Prop :=
  ∃ h, dw_host w !! l = Some h ∧
    (r ∈ own_host h ∨ ∃ id s S, h_shells h !! id = Some s ∧ dw_shl w !! s = Some S ∧
       ds_closed S = false ∧ r = ds_attach S).
Definition task_holds (w : DWorld) (t : dtask) (r : rid) : Prop :=
  match t with
  | DDialed _ _ c => r ∈ own_conn c
  | DClosing l | DTearing l => host_holds w l r
  | DAttached _ s | DShellClosing s => ∃ S, dw_shl w !! s = Some S ∧ ds_closed S = false ∧ r = ds_attach S
  | DExited r' => r = r'
  | _ => False
  end.

(** C31: every open Docker connection has a holder.  However the calls of the
    manager interleave, a connection that is open belongs to a host of the map
    (its client, its ssh client, or one of its listed shells), or to a call still
    in flight (a Connect, a Disconnect, an OpenShell, a CloseShell), or to a shell
    whose pump has returned: nothing closes that one. *)
Theorem docker_accounts {E : Env} PKH w ts (Hreach : rtc (dstep PKH) (dworld0, []) (w, ts)) r
    (Hr : r ∈ n_open (dw_net w)) :
  (∃ id l, hosts w !! id = Some l ∧ host_holds w l r) ∨ (∃ t, t ∈ ts ∧ task_holds w t r).
Proof.
  pose proof (dinv_rtc PKH w ts Hreach) as Hi.
  rewrite (lg_open _ _ (d_ledger _ _ Hi)), elem_of_list_to_set, !elem_of_app in Hr.
  assert (Hhost : ∀ l h, dw_host w !! l = Some h → (h_conn h ≠ None ∨ h_shells h ≠ ∅) → host_holds w l r →
    (∃ id l, hosts w !! id = Some l ∧ host_holds w l r) ∨ (∃ t, t ∈ ts ∧ task_holds w t r)).
  { intros l h Hl Hne Hh. destruct (d_host _ _ Hi l h Hl) as [[_ [[id ?]|?]]|[_ [?|[? ?]]]];
      [left; eauto|right; by exists (DClosing l)|right; by exists (DTearing l)|].
    destruct Hne; congruence. }
  destruct Hr as [Hr|[Hr|Hr]].
  - apply list_elem_of_bind in Hr as (t & Hr & Ht). right. exists t. split; [done|].
    destruct t; simpl in *; try (by apply elem_of_nil in Hr); [done|by apply list_elem_of_singleton].
  - apply list_elem_of_bind in Hr as (h & Hr & Ht). apply list_elem_of_fmap in Ht as ([l h'] & -> & Ht).
    apply elem_of_map_to_list in Ht. apply (Hhost l h' Ht).
    + left. unfold own_host in Hr. simpl in Hr. destruct (h_conn h'); [done|by apply elem_of_nil in Hr].
    + exists h'. auto.
  - apply list_elem_of_bind in Hr as (S & Hr & Ht). apply list_elem_of_fmap in Ht as ([s S'] & -> & Ht).
    apply elem_of_map_to_list in Ht. unfold own_dshl in Hr. simpl in Hr.
    destruct (ds_closed S') eqn:Hc; [by apply elem_of_nil in Hr|]. apply list_elem_of_singleton in Hr as ->.
    destruct (d_shell _ _ Hi s S' Ht) as (h & Hh & Hopen).
    destruct (Hopen Hc) as [Hid|[Hin|Hin]].
    + apply (Hhost _ h Hh); [right; intros E0; by rewrite E0 in Hid|].
      exists h. split; [done|]. right. eauto 10.
    + right. exists (DAttached (ds_host S') s). split; [done|]. by exists S'.
    + right. exists (DShellClosing s). split; [done|]. by exists S'.
Qed.

(** A run for the examples: connect, open a shell, its process exits, disconnect. *)
Definition spec_tcp : DockerSpec :=
  mkDockerSpec "tcp://10.0.0.1:2375" "" "" "" "" "" "" false "" "" "" false false.
Definition opts_sh : DShellOptions := mkDShellOptions "web" [] [] "" "" 0 0 0.
Ltac drun_step H := eapply rtc_l; [H; vm_compute; reflexivity|].

Lemma docker_run_shell : ∃ w, rtc (@dstep env_ok (λ _, None)) (dworld0, []) (w, [DExited 2%positive]) ∧
  hosts w = {["d" := 1%positive]} ∧ n_open (dw_net w) = {[1%positive; 2%positive]}.
Proof.
  eexists. split.
  - drun_step ltac:(eapply (dstep_connect _ "d" spec_tcp)).
    drun_step ltac:(eapply (dstep_task _ _ _ _ _ [] []); eapply drun_dial_ok).
    eapply rtc_l; [eapply (dstep_task _ _ _ _ _ [] []); apply drun_register|].
    drun_step ltac:(eapply (dstep_open _ 1%positive "sh" opts_sh)).
    eapply rtc_l; [eapply (dstep_task _ _ _ _ _ [] []);
      eapply drun_attach; [vm_compute; reflexivity|vm_compute; reflexivity]|].
    eapply rtc_l; [eapply (dstep_task _ _ _ _ _ [] []); apply drun_attached|].
    eapply rtc_l; [eapply (dstep_exit _ 2%positive); vm_compute; reflexivity|].
    apply rtc_refl.
  - split; vm_compute; reflexivity.
Qed.

Lemma docker_accounts_witness :
  ∃ w, rtc (@dstep env_ok (λ _, None)) (dworld0, []) (w, [DExited 2%positive]) ∧
    ((∃ id l, hosts w !! id = Some l ∧ host_holds w l 1%positive) ∨
     (∃ t, t ∈ [DExited 2%positive] ∧ task_holds w t 1%positive)).
Proof.
  destruct docker_run_shell as (w & Hrun & _ & Ho). exists w. split; [exact Hrun|].
  apply (@docker_accounts env_ok (λ _, None) w _ Hrun). rewrite Ho. set_solver.
Defined.

Section exits.
Context {E : Env} (PKH : string → option (list string * option string * string)).

Lemma dstep_keeps_exit r w ts w' ts' :
  dstep PKH (w, ts) (w', ts') → DExited r ∈ ts → DExited r ∈ ts'.
Proof.
  intros Hst Hin. inversion Hst; subst; clear Hst; try done; try by apply list_elem_of_further.
  - destruct (ds_closed sh); [done|by apply list_elem_of_further].
  - assert (t ≠ DExited r) by (intros ->; match goal with H : drun _ _ _ _ _ |- _ => inversion H end).
    rewrite !elem_of_app, elem_of_cons in *. destruct Hin as [?|[?|?]]; [by left|congruence|by right; right].
Qed.
End exits.

(** A shell whose process ends leaks its connection.  [pump] marks the shell
    closed without closing the attached connection, and every later [Close] finds
    it closed already: whatever is called afterwards, [CloseShell], [Disconnect]
    and [CloseAll] included, the connection stays open. *)
Theorem docker_exit_leaks {E : Env} PKH w ts s sh (Hreach : rtc (dstep PKH) (dworld0, []) (w, ts))
    (Hsh : dw_shl w !! s = Some sh) (Hopen : ds_closed sh = false) w' ts'
    (Hlater : rtc (dstep PKH) ((pump_exit s w).2, DExited (ds_attach sh) :: ts) (w', ts')) :
  ds_attach sh ∈ n_open (dw_net w').
Proof.
  assert (Hstep : dstep PKH (w, ts) ((pump_exit s w).2, DExited (ds_attach sh) :: ts)).
  { pose proof (dstep_exit PKH s sh w ts Hsh) as H. by rewrite Hopen in H. }
  assert (Hin : DExited (ds_attach sh) ∈ ts').
  { assert (Hgen : ∀ p q, rtc (dstep PKH) p q → DExited (ds_attach sh) ∈ p.2 → DExited (ds_attach sh) ∈ q.2).
    { induction 1 as [|[w1 t1] [w2 t2] q Hst _ IH]; [done|]. intros Hi. apply IH.
      by eapply dstep_keeps_exit. }
    apply (Hgen _ _ Hlater). apply list_elem_of_here. }
  assert (Hall : rtc (dstep PKH) (dworld0, []) (w', ts')).
  { etrans; [exact Hreach|]. eapply rtc_l; [exact Hstep|exact Hlater]. }
  pose proof (dinv_rtc PKH w' ts' Hall) as Hi.
  rewrite (lg_open _ _ (d_ledger _ _ Hi)), elem_of_list_to_set, elem_of_app. left.
  apply list_elem_of_bind. exists (DExited (ds_attach sh)). split; [|done]. by apply list_elem_of_singleton.
Qed.

Lemma docker_exit_leaks_witness :
  ∃ w s sh, rtc (@dstep env_ok (λ _, None)) (dworld0, []) (w, []) ∧
    dw_shl w !! s = Some sh ∧ ds_closed sh = false ∧ hosts (CloseAll (pump_exit s w).2).2 = ∅ ∧
    ds_attach sh ∈ n_open (dw_net (CloseAll (pump_exit s w).2).2).
Proof.
  eexists _, 2%positive, _. match goal with |- ?P ∧ _ => assert (Hrun : P) end.
  - drun_step ltac:(eapply (dstep_connect _ "d" spec_tcp)).
    drun_step ltac:(eapply (dstep_task _ _ _ _ _ [] []); eapply drun_dial_ok).
    eapply rtc_l; [eapply (dstep_task _ _ _ _ _ [] []); apply drun_register|].
    drun_step ltac:(eapply (dstep_open _ 1%positive "sh" opts_sh)).
    eapply rtc_l; [eapply (dstep_task _ _ _ _ _ [] []);
      eapply drun_attach; [vm_compute; reflexivity|vm_compute; reflexivity]|].
    eapply rtc_l; [eapply (dstep_task _ _ _ _ _ [] []); apply drun_attached|].
    apply rtc_refl.
  - split; [exact Hrun|]. split; [vm_compute; reflexivity|]. split; [vm_compute; reflexivity|].
    split; [vm_compute; reflexivity|].
    eapply (@docker_exit_leaks env_ok (λ _, None) _ [] 2%positive _ Hrun); [vm_compute; reflexivity..|].
    eapply rtc_l; [apply dstep_close_all|apply rtc_refl].
Defined.

(** ** The address behind an ssh:// host *)

(** An [ssh://user@host:port/socket] host is dialed as written: the user and
    the host are the ones of the URL, the port is 22 when it names none, and the
    socket on the other side is the path, or Docker's default without one. *)
Theorem docker_ssh_target user host port path
    (Huser : plain_text user = true) (Hname : user ≠ "") (Hhost : plain_host host = true)
    (Hne : host ≠ "") (Hport : forall_str is_digit port = true) (Hpath : forall_str path_char path = true) :
  ssh_target (user +:+ String "@"%char (url_host host port +:+ String slash path)) =
  inr (user, host, (host +:+ String colon (if decide (port = "") then "22" else port))%string,
       if decide (path = "") then "/var/run/docker.sock" else String slash path).
Proof.
  unfold ssh_target. rewrite ParseHier_plain by done. simpl. rewrite decide_False by done.
  unfold Hostname, Port. simpl. rewrite url_split_host by done. simpl.
  change (TrimPrefix (String slash path) "/") with path.
  assert (Hc : In_str colon host = false) by (eapply forall_str_not_In; [|exact Hhost]; done).
  unfold JoinHostPort. rewrite Hc. destruct (decide (port = "")); destruct (decide (path = "")); done.
Qed.
Lemma docker_ssh_target_witness :
  ssh_target "ops@db.example.com:2222/run/docker.sock" =
    inr ("ops", "db.example.com", "db.example.com:2222", "/run/docker.sock") ∧
  ssh_target "ops@db.example.com/" =
    inr ("ops", "db.example.com", "db.example.com:22", "/var/run/docker.sock").
Proof.
  split.
  - assert (H := docker_ssh_target "ops" "db.example.com" "2222" "run/docker.sock").
    apply H; vm_compute; congruence.
  - assert (H := docker_ssh_target "ops" "db.example.com" "" "").
    apply H; vm_compute; congruence.
Defined.
