(* ===== verification/State.v ===== *)
(** * The persisted state (internal/state)

    [Capture] turns the two managers into a snapshot and [Restore] turns a
    snapshot into calls of the managers.  [Store] keeps the snapshot in a file:
    [Save] writes a temporary file and renames it.  The state here is the pair of
    the ssh manager's world and the Docker manager's world; the specs of a
    snapshot keep their slices, so what [ScrubSSH] writes through them is seen by
    the live sessions. *)

From S2P Require Import Docker Prelude GoStrings Url External Spec SshConfig Auth Dial World Session Forward Shell Manager ManagerProps.
From Stdlib Require Import Ascii String.

Record ForwardRecord := mkForwardRecord {
  fr_ID : string;
  fr_SessionID : string;
  fr_Kind : string;
  fr_LocalSpec : option LocalSpec;
  fr_RemoteSpec : option RemoteSpec;
  fr_DynamicSpec : option DynamicSpec;
}.
Record Snapshot := mkSnapshot {
  sn_Version : Z;
  sn_SSHSessions : list (string * ConnectSpec);
  sn_Forwards : list ForwardRecord;
  sn_DockerHosts : list (string * DockerSpec);
}.
Definition eta_Snapshot s := mkSnapshot (sn_Version s) (sn_SSHSessions s) (sn_Forwards s) (sn_DockerHosts s).
#[export] Instance upd_sn_Version : Setter sn_Version. Proof. mk_setter eta_Snapshot. Defined.
#[export] Instance upd_sn_SSHSessions : Setter sn_SSHSessions. Proof. mk_setter eta_Snapshot. Defined.
#[export] Instance upd_sn_Forwards : Setter sn_Forwards. Proof. mk_setter eta_Snapshot. Defined.
#[export] Instance upd_sn_DockerHosts : Setter sn_DockerHosts. Proof. mk_setter eta_Snapshot. Defined.

(** ** Scrubbing *)
Definition scrub_auth (a : AuthSpec) : AuthSpec := a <| Password := "" |> <| KeyPassphrase := "" |>.
Definition scrub_jump (j : JumpHost) : JumpHost := j <| jh_Auth ::= scrub_auth |>.

(** [for i := range out.JumpHosts]: the writes go to the array that the spec
    shares with the session it was copied from. *)
Definition scrub_array (s : slice) (m : Mem) : Mem :=
  match s with
  | Some l => m <| m_jumps ::= alter (map scrub_jump) l |>
  | None => m
  end.
Definition ScrubSSH (spec : ConnectSpec) : M Mem ConnectSpec :=
  let out := spec <| Auth ::= scrub_auth |> in
  modify (scrub_array (JumpHosts out));; mret out.
Definition ScrubDocker (spec : DockerSpec) : DockerSpec :=
  spec <| d_Password := "" |> <| d_KeyPassphrase := "" |>.

(** ** Capture *)
Definition Both : Type := World * Docker.DWorld.
Definition sshM {A} (m : M World A) : M Both A := zoom fst (λ w b, (w, b.2)) m.
Definition dkM {A} (m : M Docker.DWorld A) : M Both A := zoom snd (λ d b, (b.1, d)) m.
Definition memM {A} (m : M Mem A) : M World A := zoom w_mem (λ m w, w <| w_mem := m |>) m.

(** The record of a forward: the spec the user gave, not the port it got. *)
Definition record_of (sessionID : string) (f : ForwardInfo) : ForwardRecord :=
  let rec l r d := mkForwardRecord (fi_ID f) sessionID (fi_Kind f) l r d in
  match fi_Spec f with
  | ForwardLocal s => rec (Some s) None None
  | ForwardRemote s => rec None (Some s) None
  | ForwardDynamic s => rec None None (Some s)
  end.

(** The loop over the sessions. *)
Fixpoint capture_sessions (ls : list loc) (snap : Snapshot) : M World Snapshot :=
  match ls with
  | [] => mret snap
  | l :: rest =>
    s ← sess_at l;
    if Persistent (s_Spec s) then
      spec ← memM (ScrubSSH (s_Spec s));
      forwards ← try (ListForwards (s_ID s));
      let recs := match forwards with inr fs => map (record_of (s_ID s)) fs | inl _ => [] end in
      capture_sessions rest
        (snap <| sn_SSHSessions ::= (λ x, x ++ [(s_ID s, spec)]) |>
              <| sn_Forwards ::= (λ x, x ++ recs) |>)
    else capture_sessions rest snap
  end.
(** The loop over the Docker hosts. *)
Fixpoint capture_hosts (ls : list loc) (snap : Snapshot) : M Docker.DWorld Snapshot :=
  match ls with
  | [] => mret snap
  | l :: rest =>
    h ← Docker.host_at l;
    if d_Persistent (Docker.h_Spec h) then
      capture_hosts rest
        (snap <| sn_DockerHosts ::= (λ x, x ++ [(Docker.h_ID h, ScrubDocker (Docker.h_Spec h))]) |>)
    else capture_hosts rest snap
  end.
Definition Capture : M Both Snapshot :=
  m ← sshM Sessions;
  snap ← sshM (capture_sessions (map_to_list m).*2 (mkSnapshot 1 [] [] []));
  hs ← dkM Docker.Hosts;
  dkM (capture_hosts (map_to_list hs).*2 snap).

(** ** Restore *)
Record Counts := mkCounts {
  sshOK : Z; sshFail : Z; fwdOK : Z; fwdFail : Z; dkOK : Z; dkFail : Z;
}.

Section restore.
Context {E : Env}.
Variable PKH : string → option (list string * option string * string).
Variable CfgGet : string → string → string.
Variable depth : nat.

Definition restoreForward (r : ForwardRecord) : M World unit :=
  if decide (fr_Kind r = "local") then
    match fr_LocalSpec r with
    | None => fail (Msg "missing local spec")
    | Some s => OpenLocalForward (fr_SessionID r) (fr_ID r) s;; mret tt
    end
  else if decide (fr_Kind r = "remote") then
    match fr_RemoteSpec r with
    | None => fail (Msg "missing remote spec")
    | Some s => OpenRemoteForward (fr_SessionID r) (fr_ID r) s;; mret tt
    end
  else if decide (fr_Kind r = "dynamic") then
    match fr_DynamicSpec r with
    | None => fail (Msg "missing dynamic spec")
    | Some s => OpenDynamicForward (fr_SessionID r) (fr_ID r) s;; mret tt
    end
  else fail (Fmt "unknown kind %q" [fr_Kind r]).

(** A loop that goes on after an error, counting both outcomes. *)
Fixpoint count_each {S A} (f : A → M S unit) (l : list A) (ok failed : Z) : M S (Z * Z) :=
  match l with
  | [] => mret (ok, failed)
  | x :: rest =>
    r ← try (f x);
    match r with
    | inr _ => count_each f rest (ok + 1) failed
    | inl _ => count_each f rest ok (failed + 1)
    end
  end.

Definition Restore (snap : Snapshot) : M Both Counts :=
  '(so, sf) ← sshM (count_each (λ r, Connect PKH CfgGet depth r.1 r.2;; mret tt) (sn_SSHSessions snap) 0 0);
  '(fo, ff) ← sshM (count_each restoreForward (sn_Forwards snap) 0 0);
  '(ko, kf) ← dkM (count_each (λ r, Docker.Connect PKH r.1 r.2;; mret tt) (sn_DockerHosts snap) 0 0);
  mret (mkCounts so sf fo ff ko kf).
End restore.

(** ** What Capture computes *)
Definition ssh_record (w : World) (l : loc) : list (string * ConnectSpec) :=
  match w_sess w !! l with
  | Some s => if Persistent (s_Spec s) then [(s_ID s, s_Spec s <| Auth ::= scrub_auth |>)] else []
  | None => []
  end.
Definition forward_records (w : World) (l : loc) : list ForwardRecord :=
  match w_sess w !! l with
  | Some s => if Persistent (s_Spec s) then map (record_of (s_ID s)) (session_forwards w l) else []
  | None => []
  end.
Definition scrub_session (w : World) (m : Mem) (l : loc) : Mem :=
  match w_sess w !! l with
  | Some s => if Persistent (s_Spec s) then scrub_array (JumpHosts (s_Spec s)) m else m
  | None => m
  end.
Definition host_record (d : Docker.DWorld) (l : loc) : list (string * DockerSpec) :=
  match Docker.dw_host d !! l with
  | Some h => if d_Persistent (Docker.h_Spec h)
              then [(Docker.h_ID h, ScrubDocker (Docker.h_Spec h))] else []
  | None => []
  end.

Lemma capture_sessions_run ls snap w m :
  (∀ l, l ∈ ls → ∃ s, w_sess w !! l = Some s ∧ s_ID s ≠ "" ∧ sessions w !! s_ID s = Some l) →
  capture_sessions ls snap (w <| w_mem := m |>) =
  (Ret (snap <| sn_SSHSessions ::= (λ x, x ++ (ls ≫= ssh_record w)) |>
             <| sn_Forwards ::= (λ x, x ++ (ls ≫= forward_records w)) |>),
   w <| w_mem := foldl (scrub_session w) m ls |>).
Proof.
  revert snap m. induction ls as [|l ls IH]; intros snap m Hls.
  { simpl. unfold mret, M_ret. destruct snap. unfold upd, upd_sn_SSHSessions, upd_sn_Forwards. simpl.
    by rewrite !app_nil_r. }
  destruct (Hls l) as (s & Hs & Hne & Hid); [apply list_elem_of_here|].
  assert (Hrest : ∀ l, l ∈ ls → ∃ s, w_sess w !! l = Some s ∧ s_ID s ≠ "" ∧ sessions w !! s_ID s = Some l).
  { intros l' Hl'. by apply Hls, list_elem_of_further. }
  change ((l :: ls) ≫= ssh_record w) with (ssh_record w l ++ (ls ≫= ssh_record w)).
  change ((l :: ls) ≫= forward_records w) with (forward_records w l ++ (ls ≫= forward_records w)).
  change (foldl (scrub_session w) m (l :: ls)) with (foldl (scrub_session w) (scrub_session w m l) ls).
  unfold ssh_record at 1, forward_records at 1, scrub_session at 2. rewrite Hs.
  cbn [capture_sessions]. unfold mbind at 1, M_bind at 1, sess_at.
  change (w_sess (w <| w_mem := m |>) !! l) with (w_sess w !! l). rewrite Hs.
  destruct (Persistent (s_Spec s)).
  2:{ rewrite IH by done. done. }
  set (w1 := w <| w_mem := scrub_array (JumpHosts (s_Spec s)) m |>).
  rewrite (bind_ret _ _ _ (s_Spec s <| Auth ::= scrub_auth |>) w1) by done.
  assert (Hf : try (ListForwards (s_ID s)) w1 = (Ret (inr (session_forwards w l)), w1)).
  { unfold try, ListForwards. rewrite decide_False by done.
    rewrite (bind_ret _ _ _ l w1); [done|]. unfold Get, mbind, M_bind, gets. simpl. by rewrite Hid. }
  rewrite (bind_ret _ _ _ _ _ Hf). unfold w1. rewrite IH by done. f_equal. f_equal.
  destruct snap. unfold upd, upd_sn_SSHSessions, upd_sn_Forwards.
  simpl. by rewrite <- !(assoc_L (++)).
Qed.
Lemma capture_hosts_run ls snap d :
  (∀ l, l ∈ ls → is_Some (Docker.dw_host d !! l)) →
  capture_hosts ls snap d =
  (Ret (snap <| sn_DockerHosts ::= (λ x, x ++ (ls ≫= host_record d)) |>), d).
Proof.
  revert snap. induction ls as [|l ls IH]; intros snap Hls.
  { simpl. unfold mret, M_ret. destruct snap. unfold upd, upd_sn_DockerHosts. simpl. by rewrite app_nil_r. }
  destruct (Hls l) as [h Hh]; [apply list_elem_of_here|].
  assert (Hrest : ∀ l, l ∈ ls → is_Some (Docker.dw_host d !! l)).
  { intros l' Hl'. by apply Hls, list_elem_of_further. }
  cbn [capture_hosts].
  assert (Hat : Docker.host_at l d = (Ret h, d)) by (unfold Docker.host_at; by rewrite Hh).
  rewrite (bind_ret _ _ _ _ _ Hat).
  change ((l :: ls) ≫= host_record d) with (host_record d l ++ (ls ≫= host_record d)).
  unfold host_record at 1. rewrite Hh. destruct (d_Persistent _); [|by apply IH].
  rewrite IH by done. destruct snap. unfold upd, upd_sn_DockerHosts. simpl. by rewrite <- !(assoc_L (++)).
Qed.

(** What the managers keep between calls, as far as [Capture] relies on it. *)
Record managers_ok (w : World) (d : Docker.DWorld) : Prop := {
  ok_reg : reg_ok w;
  ok_id : sessions w !! "" = None;
  ok_hosts : ∀ id l, Docker.hosts d !! id = Some l → is_Some (Docker.dw_host d !! l);
}.

Definition listed {A} (m : gmap string A) : list A := (map_to_list m).*2.
Lemma elem_of_listed {A} (m : gmap string A) a : a ∈ listed m ↔ ∃ id, m !! id = Some a.
Proof.
  unfold listed. rewrite list_elem_of_fmap. split.
  - intros ([id b] & -> & Hin). exists id. by apply elem_of_map_to_list.
  - intros [id Hid]. exists (id, a). by rewrite elem_of_map_to_list.
Qed.

Definition scrub_all (w : World) : Mem := foldl (scrub_session w) (w_mem w) (listed (sessions w)).

Lemma Capture_run w d : managers_ok w d →
  Capture (w, d) =
  (Ret (mkSnapshot 1 (listed (sessions w) ≫= ssh_record w) (listed (sessions w) ≫= forward_records w)
          (listed (Docker.hosts d) ≫= host_record d)),
   (w <| w_mem := scrub_all w |>, d)).
Proof.
  intros [Hr Hid Hh]. unfold Capture.
  rewrite (bind_ret _ _ _ (sessions w) (w, d)) by done.
  assert (Hs : capture_sessions (map_to_list (sessions w)).*2 (mkSnapshot 1 [] [] []) w =
    (Ret (mkSnapshot 1 (listed (sessions w) ≫= ssh_record w) (listed (sessions w) ≫= forward_records w) []),
     w <| w_mem := scrub_all w |>)).
  { pose proof (capture_sessions_run (listed (sessions w)) (mkSnapshot 1 [] [] []) w (w_mem w)) as H.
    assert (Ew : w <| w_mem := w_mem w |> = w) by (by destruct w).
    rewrite Ew in H. apply H. intros l [id Hl]%elem_of_listed.
    destruct (Hr id l Hl) as (s & Hs & <-). exists s. split_and!; [done| |done].
    intros E0. rewrite E0 in Hl. congruence. }
  rewrite (bind_ret _ _ _ (mkSnapshot 1 (listed (sessions w) ≫= ssh_record w)
    (listed (sessions w) ≫= forward_records w) []) (w <| w_mem := scrub_all w |>, d)).
  2:{ unfold sshM, zoom. cbn [fst]. rewrite Hs. done. }
  rewrite (bind_ret _ _ _ (Docker.hosts d) (w <| w_mem := scrub_all w |>, d)) by done.
  unfold dkM, zoom. cbn [snd fst].
  rewrite capture_hosts_run; [done|]. intros l [id Hl]%elem_of_listed. by eapply Hh.
Qed.

(** *** Scrubbing only erases *)
Definition clean_auth (a : AuthSpec) : Prop := Password a = "" ∧ KeyPassphrase a = "".
Definition clean_jump (j : JumpHost) : Prop := clean_auth (jh_Auth j).

Lemma scrub_auth_clean a : clean_auth (scrub_auth a).
Proof. done. Qed.
Lemma scrub_jump_idem j : scrub_jump (scrub_jump j) = scrub_jump j.
Proof. done. Qed.

(** The array behind [a] is scrubbed or as it was. *)
Lemma scrub_array_at s m a :
  jumps_at (scrub_array s m) a = jumps_at m a ∨
  (jumps_at (scrub_array s m) a = map scrub_jump (jumps_at m a)).
Proof.
  destruct s as [l|], a as [l'|]; simpl; try by left.
  destruct (decide (l' = l)) as [->|Hne]; [|left; by rewrite lookup_alter_ne].
  rewrite lookup_alter_eq. destruct (m_jumps m !! l); simpl; auto.
Qed.
Lemma scrub_array_same s m : jumps_at (scrub_array s m) s = map scrub_jump (jumps_at m s).
Proof. destruct s as [l|]; [|done]. simpl. rewrite lookup_alter_eq. by destruct (m_jumps m !! l). Qed.
Lemma map_scrub_idem l : map scrub_jump (map scrub_jump l) = map scrub_jump l.
Proof. rewrite map_map. by apply map_ext. Qed.

Lemma scrub_session_at w m l a :
  jumps_at (scrub_session w m l) a = jumps_at m a ∨
  jumps_at (scrub_session w m l) a = map scrub_jump (jumps_at m a).
Proof.
  unfold scrub_session. destruct (w_sess w !! l) as [s|]; [|by left].
  destruct (Persistent _); [apply scrub_array_at|by left].
Qed.

(** Once scrubbed, an array stays as it is. *)
Lemma foldl_scrubbed w ls m a :
  map scrub_jump (jumps_at m a) = jumps_at m a →
  jumps_at (foldl (scrub_session w) m ls) a = jumps_at m a.
Proof.
  revert m. induction ls as [|l ls IH]; intros m Hm; [done|]. simpl.
  assert (E : jumps_at (scrub_session w m l) a = jumps_at m a).
  { destruct (scrub_session_at w m l a) as [?|E]; [done|by rewrite E]. }
  rewrite IH by (by rewrite E). done.
Qed.
Lemma foldl_scrub_at w ls m l s :
  l ∈ ls → w_sess w !! l = Some s → Persistent (s_Spec s) = true →
  jumps_at (foldl (scrub_session w) m ls) (JumpHosts (s_Spec s)) =
  map scrub_jump (jumps_at m (JumpHosts (s_Spec s))).
Proof.
  intros Hin Hs Hp. revert m. induction ls as [|l' ls IH]; intros m; [by apply elem_of_nil in Hin|].
  apply elem_of_cons in Hin as [<-|Hin]; simpl.
  - assert (E : jumps_at (scrub_session w m l) (JumpHosts (s_Spec s)) =
      map scrub_jump (jumps_at m (JumpHosts (s_Spec s)))).
    { unfold scrub_session. rewrite Hs, Hp. apply scrub_array_same. }
    rewrite foldl_scrubbed; [done|]. by rewrite E, map_scrub_idem.
  - rewrite IH by done. destruct (scrub_session_at w m l' (JumpHosts (s_Spec s))) as [E|E]; rewrite E;
      [done|apply map_scrub_idem].
Qed.

Lemma elem_of_ssh_records w ls id sp :
  (id, sp) ∈ ls ≫= ssh_record w ↔ ∃ l s, l ∈ ls ∧ w_sess w !! l = Some s ∧ Persistent (s_Spec s) = true ∧
    id = s_ID s ∧ sp = s_Spec s <| Auth ::= scrub_auth |>.
Proof.
  rewrite list_elem_of_bind. unfold ssh_record. split.
  - intros (l & Hr & Hl). destruct (w_sess w !! l) as [s|] eqn:Hs; [|by apply elem_of_nil in Hr].
    destruct (Persistent (s_Spec s)) eqn:Hp; [|by apply elem_of_nil in Hr].
    apply list_elem_of_singleton in Hr. injection Hr as -> ->. exists l, s. done.
  - intros (l & s & Hl & Hs & Hp & -> & ->). exists l. split; [|done]. rewrite Hs, Hp.
    by apply list_elem_of_singleton.
Qed.
Lemma elem_of_forward_records w r : reg_ok w →
  r ∈ listed (sessions w) ≫= forward_records w ↔ ∃ id l s fid f F,
    sessions w !! id = Some l ∧ w_sess w !! l = Some s ∧ Persistent (s_Spec s) = true ∧
    forwards s !! fid = Some f ∧ w_fwd w !! f = Some F ∧ r = record_of id (fwd_Info F).
Proof.
  intros Hreg. rewrite list_elem_of_bind. split.
  - intros (l & Hr & [id Hl]%elem_of_listed). destruct (Hreg id l Hl) as (s & Hs & <-).
    unfold forward_records in Hr. rewrite Hs in Hr.
    destruct (Persistent (s_Spec s)) eqn:Hp; [|by apply elem_of_nil in Hr].
    apply list_elem_of_fmap in Hr as (i & -> & Hi). unfold session_forwards in Hi. rewrite Hs in Hi.
    apply list_elem_of_omap in Hi as (f & Hf & Hi). apply list_elem_of_fmap in Hf as ([fid f'] & -> & Hf).
    apply elem_of_map_to_list in Hf. simpl in Hi.
    destruct (w_fwd w !! f') as [F|] eqn:HF; [|done]. injection Hi as <-. eauto 12.
  - intros (id & l & s & fid & f & F & Hl & Hs & Hp & Hf & HF & ->). exists l.
    split; [|apply elem_of_listed; by exists id]. destruct (Hreg id l Hl) as (s' & Hs' & <-).
    simplify_eq. unfold forward_records. rewrite Hs, Hp. apply list_elem_of_fmap.
    exists (fwd_Info F). split; [done|]. unfold session_forwards. rewrite Hs.
    apply list_elem_of_omap. exists f. rewrite HF. split; [|done].
    apply list_elem_of_fmap. exists (fid, f). by rewrite elem_of_map_to_list.
Qed.
Lemma elem_of_host_records d ls id sp :
  (id, sp) ∈ ls ≫= host_record d ↔ ∃ l h, l ∈ ls ∧ Docker.dw_host d !! l = Some h ∧
    d_Persistent (Docker.h_Spec h) = true ∧ id = Docker.h_ID h ∧ sp = ScrubDocker (Docker.h_Spec h).
Proof.
  rewrite list_elem_of_bind. unfold host_record. split.
  - intros (l & Hr & Hl). destruct (Docker.dw_host d !! l) as [h|] eqn:Hh; [|by apply elem_of_nil in Hr].
    destruct (d_Persistent _) eqn:Hp; [|by apply elem_of_nil in Hr].
    apply list_elem_of_singleton in Hr. injection Hr as -> ->. exists l, h. done.
  - intros (l & h & Hl & Hs & Hp & -> & ->). exists l. split; [|done]. rewrite Hs, Hp.
    by apply list_elem_of_singleton.
Qed.

(** ** Properties of Capture *)

(** C33: no secret is persisted.  Every spec of the snapshot, read through its
    slices after the capture, has an empty password and an empty key passphrase,
    in its own credentials and in those of every jump host; so has every Docker
    spec. *)
Theorem capture_no_secrets w d snap w' d' (Hok : managers_ok w d)
    (Hcap : Capture (w, d) = (Ret snap, (w', d'))) :
  (∀ id sp, (id, sp) ∈ sn_SSHSessions snap →
     clean_auth (Auth sp) ∧ ∀ j, j ∈ jumps_at (w_mem w') (JumpHosts sp) → clean_jump j) ∧
  (∀ id sp, (id, sp) ∈ sn_DockerHosts snap → d_Password sp = "" ∧ d_KeyPassphrase sp = "").
Proof.
  rewrite (Capture_run w d Hok) in Hcap. injection Hcap as <- <- <-. simpl. split.
  - intros id sp Hin. apply elem_of_ssh_records in Hin as (l & s & Hl & Hs & Hp & -> & ->).
    split; [done|]. intros j. unfold scrub_all. simpl.
    rewrite (foldl_scrub_at w _ (w_mem w) l s Hl Hs Hp). intros Hj.
    apply list_elem_of_fmap in Hj as (j0 & -> & _). done.
  - intros id sp Hin. by apply elem_of_host_records in Hin as (l & h & _ & _ & _ & -> & ->).
Qed.

(** What [Restore] does with the record of a forward: open it again as the user
    asked for it. *)
Definition reopen {E : Env} (sid fid : string) (spec : ForwardSpec) : M World unit :=
  match spec with
  | ForwardLocal s => OpenLocalForward sid fid s;; mret tt
  | ForwardRemote s => OpenRemoteForward sid fid s;; mret tt
  | ForwardDynamic s => OpenDynamicForward sid fid s;; mret tt
  end.
Lemma restoreForward_record {E : Env} sid F :
  restoreForward (record_of sid (fwd_Info F)) = reopen sid (f_ID F) (f_Spec F).
Proof. unfold restoreForward, fwd_Info. by destruct (f_Spec F). Qed.


(** A jump host that only has a password cannot be dialed once it is scrubbed. *)
Definition password_only (j : JumpHost) : Prop :=
  KeyPath (jh_Auth j) = "" ∧ UseAgent (jh_Auth j) = false.

(** [m] never returns a value, whatever the environment answers. *)
Definition refuses {S A} (m : M S A) : Prop := ∀ s a, (m s).1 ≠ Ret a.
Lemma refuses_bind {S A B} (m : M S A) (k : A → M S B) : (∀ a, refuses (k a)) → refuses (m ≫= k).
Proof. intros Hk s b. unfold mbind, M_bind. destruct (m s) as [[a|e|p] s']; [apply Hk|done|done]. Qed.
Lemma refuses_bind_l {S A B} (m : M S A) (k : A → M S B) : refuses m → refuses (m ≫= k).
Proof.
  intros Hm s b. unfold mbind, M_bind. specialize (Hm s).
  destruct (m s) as [[a|e|p] s']; [by destruct (Hm a)|done|done].
Qed.
Lemma refuses_fail {S A} e : refuses (fail e : M S A). Proof. done. Qed.
Lemma refuses_try {S A B} (m : M S A) (k : error + A → M S B) :
  refuses m → (∀ e, refuses (k (inl e))) → refuses (try m ≫= k).
Proof.
  intros Hm Hk s b. unfold mbind, M_bind, try. specialize (Hm s).
  destruct (m s) as [[a|e|p] s']; [by destruct (Hm a)|apply Hk|done].
Qed.
Lemma refuses_finally {S A} (m : M S A) d : refuses m → refuses (finally m d).
Proof. intros Hm. apply refuses_try; [done|]. intros e. apply refuses_bind. intros _. apply refuses_fail. Qed.

Section scrubbed.
Context {E : Env} (PKH : string → option (list string * option string * string)).

Lemma refuses_scrubbed j chain : password_only j → refuses (dialOneJump (scrub_jump j) chain).
Proof.
  intros [Hk Ha]. apply refuses_bind. intros addrs. apply refuses_bind_l.
  unfold Build, Build_agent. simpl. rewrite Ha. intros n a.
  unfold mbind, M_bind, mret, M_ret, Build_keys. simpl. by rewrite Hk.
Qed.
Lemma refuses_dialFinal m spec j rest :
  jumps_at m (JumpHosts spec) = j :: rest → refuses (dialOneJump j []) →
  refuses (dialFinal PKH m spec).
Proof.
  intros Hj Hbad. apply refuses_bind. intros addrs. apply refuses_bind. intros [ms cl].
  apply refuses_finally, refuses_bind. intros hk. cbv zeta. apply refuses_bind_l.
  rewrite Hj. simpl. apply refuses_try; [done|]. intros e. apply refuses_bind. intros _. apply refuses_fail.
Qed.
End scrubbed.

(** C34: capturing breaks persistent live sessions.  [ScrubSSH] copies the spec but not the
    array of jump hosts, so it erases the secrets of the session itself: after a
    [Capture] (the daemon makes one after every change) each jump host of a
    persistent session has lost its password and its key passphrase, and if the first
    one has nothing but its password to authenticate with, the session can never be
    dialed again, by [Reconnect] or by the automatic reconnect, whatever the
    environment answers.  The sessions that are not persistent are left alone. *)
Theorem capture_wipes_live_secrets w d snap w' d' id l s (Hok : managers_ok w d)
    (Hcap : Capture (w, d) = (Ret snap, (w', d')))
    (Hid : sessions w !! id = Some l) (Hs : w_sess w !! l = Some s)
    (Hp : Persistent (s_Spec s) = true) :
  w_sess w' !! l = Some s ∧
  jumps_at (w_mem w') (JumpHosts (s_Spec s)) =
    map scrub_jump (jumps_at (w_mem w) (JumpHosts (s_Spec s))) ∧
  (∀ j rest, jumps_at (w_mem w) (JumpHosts (s_Spec s)) = j :: rest → password_only j →
     ∀ (E : Env) PKH n c, (dialFinal PKH (w_mem w') (s_Spec s) n).1 ≠ Ret c).
Proof.
  rewrite (Capture_run w d Hok) in Hcap. injection Hcap as <- <- <-. simpl.
  assert (Hin : l ∈ listed (sessions w)) by (apply elem_of_listed; by exists id).
  pose proof (foldl_scrub_at w _ (w_mem w) l s Hin Hs Hp) as Hj.
  split_and!; [done|exact Hj|]. intros j rest Hjr Hpw E PKH.
  apply (refuses_dialFinal PKH _ _ (scrub_jump j) (map scrub_jump rest)).
  - unfold scrub_all. rewrite Hj, Hjr. done.
  - by apply refuses_scrubbed.
Qed.

(** A persistent session behind a jump host with a password, with a forward on a
    free port; and a persistent Docker host. *)
Definition auth_pw_ex : AuthSpec := mkAuthSpec "" "" false "" "hunter2".
Definition jump_pw : JumpHost := mkJumpHost "root" ["10.0.0.9"] auth_pw_ex "" true 0.
Definition spec_persist : ConnectSpec :=
  mkConnectSpec "root" None None auth_pw_ex "" true 0 0 false true false true.
Definition calls_persist : list mcall :=
  [CConnect "a" ["10.0.0.1"] [jump_pw] spec_persist; COpenDynamic "a" "socks" (mkDynamicSpec "" 0)].
Definition run_persist := @run_calls env_ok (λ _, None) (λ _ _, "") 5 calls_persist world0.
Definition spec_docker : DockerSpec :=
  mkDockerSpec "ssh://root@10.0.0.2" "" "" "" "" "" "pp" false "" "pw" "" true true.
Definition run_docker := @Docker.Connect env_ok (λ _, None) "d" spec_docker Docker.dworld0.

Lemma managers_ok_ex : managers_ok run_persist.2 run_docker.2.
Proof.
  split.
  - assert (H : wp (@run_calls env_ok (λ _, None) (λ _ _, "") 5 calls_persist) (λ _ w, sys w) world0).
    { apply run_calls_sys; [apply sys_world0| |done|done]. repeat constructor; vm_compute; discriminate. }
    destruct H as [_ (_ & H & _)]. exact H.
  - vm_compute. reflexivity.
  - intros id l Hl.
    assert (Hall : Docker.hosts run_docker.2 = {["d" := 1%positive]}) by (vm_compute; reflexivity).
    rewrite Hall in Hl. apply lookup_singleton_Some in Hl as [_ <-]. vm_compute. by eexists.
Qed.

Lemma capture_no_secrets_witness :
  ∃ snap b, Capture (run_persist.2, run_docker.2) = (Ret snap, b) ∧
    List.length (sn_SSHSessions snap) = 1%nat ∧ List.length (sn_DockerHosts snap) = 1%nat ∧
    ∀ id sp, (id, sp) ∈ sn_SSHSessions snap →
      clean_auth (Auth sp) ∧ ∀ j, j ∈ jumps_at (w_mem b.1) (JumpHosts sp) → clean_jump j.
Proof.
  destruct (Capture (run_persist.2, run_docker.2)) as [o b] eqn:Hc.
  pose proof (Capture_run _ _ managers_ok_ex) as Hr. rewrite Hc in Hr.
  destruct b as [w' d']. destruct o as [snap|e|p]; [|discriminate Hr|discriminate Hr].
  exists snap, (w', d'). split; [done|].
  destruct (capture_no_secrets _ _ snap w' d' managers_ok_ex Hc) as [H _].
  injection Hr as -> _ _. split; [vm_compute; reflexivity|]. split; [vm_compute; reflexivity|exact H].
Defined.


Lemma capture_wipes_live_secrets_witness :
  ∃ snap b l s, Capture (run_persist.2, run_docker.2) = (Ret snap, b) ∧
    w_sess b.1 !! l = Some s ∧ state s = StateConnected ∧
    ∀ (E : Env) PKH n c, (dialFinal PKH (w_mem b.1) (s_Spec s) n).1 ≠ Ret c.
Proof.
  destruct (Capture (run_persist.2, run_docker.2)) as [o b] eqn:Hc.
  pose proof (Capture_run _ _ managers_ok_ex) as Hr. rewrite Hc in Hr.
  destruct b as [w' d']. destruct o as [snap|e|p]; [|discriminate Hr|discriminate Hr].
  assert (Hl : ∃ l s, sessions run_persist.2 !! "a" = Some l ∧ w_sess run_persist.2 !! l = Some s ∧
    Persistent (s_Spec s) = true ∧ state s = StateConnected ∧
    jumps_at (w_mem run_persist.2) (JumpHosts (s_Spec s)) = [jump_pw]).
  { eexists _, _. split; [vm_compute; reflexivity|]. split; [vm_compute; reflexivity|].
    split; [reflexivity|]. split; [reflexivity|vm_compute; reflexivity]. }
  destruct Hl as (l & s & Hid & Hs & Hp & Hst & Hj). exists snap, (w', d'), l, s. split; [done|].
  destruct (capture_wipes_live_secrets _ _ snap w' d' "a" l s managers_ok_ex Hc Hid Hs Hp) as (H1 & _ & H3).
  split; [exact H1|]. split; [exact Hst|]. by apply (H3 jump_pw []).
Defined.
