(* ===== verification/Files.v ===== *)
(** * Files with crashes

    The file operations the daemon persists with.  A crash may come after any of
    them, or in the middle of a write: [fs_seen] is every content of the directory
    that the operations passed through.  An operation's [fate] says whether it
    succeeds. *)

From S2P Require Import Prelude GoStrings.
From Stdlib Require Import Ascii String.

(** ** Files *)
Abbreviation files := (gmap string string).

Record FS := mkFS {
  fs_files : files;
  fs_seen : list files;        (* what a crash could have found so far, in order *)
  fs_tick : nat;
}.

(** The fate of the [n]-th operation: it succeeds, or it fails after [k] bytes. *)
Abbreviation fate := (nat → option (error * nat)).

Section files.
Variable io : fate.

Definition at_disk (f : files) (s : FS) : FS :=
  mkFS f (fs_seen s ++ [f]) (fs_tick s).
Definition tick (s : FS) : FS := mkFS (fs_files s) (fs_seen s) (S (fs_tick s)).

(** [os.WriteFile]: created or truncated, then written byte by byte. *)
Definition put (path data : string) (s : FS) : FS := at_disk (<[path := data]> (fs_files s)) s.
Fixpoint write_prefixes (path data : string) (upto : nat) (s : FS) : FS :=
  match upto with
  | O => put path "" s
  | S n => put path (take_str upto data) (write_prefixes path data n s)
  end.
Definition WriteFile (path data : string) : M FS unit := λ s,
  match io (fs_tick s) with
  | None => (Ret tt, tick (write_prefixes path data (String.length data) s))
  | Some (e, k) =>
    (Err e, tick (if decide (k = 0%nat) then s
                  else write_prefixes path data (Nat.min (pred k) (String.length data)) s))
  end.
(** [os.Rename]: atomic, or it fails. *)
Definition Rename (old new : string) : M FS unit := λ s,
  match io (fs_tick s), fs_files s !! old with
  | None, Some data => (Ret tt, tick (at_disk (<[new := data]> (delete old (fs_files s))) s))
  | None, None => (Err (Msg "no such file or directory"), tick s)
  | Some (e, _), _ => (Err e, tick s)
  end.
Definition Remove (path : string) : M FS unit := λ s,
  match io (fs_tick s) with
  | None => (Ret tt, tick (at_disk (delete path (fs_files s)) s))
  | Some (e, _) => (Err e, tick s)
  end.

(** [os.Open]: [None] is a file that does not exist. *)
Definition Open (path : string) : M FS (option string) := λ s,
  match io (fs_tick s) with
  | None => (Ret (fs_files s !! path), tick s)
  | Some (e, _) => (Err e, tick s)
  end.
(** [f.Stat], and [io.ReadAll(io.LimitReader(f, limit))] on the content [data]. *)
Definition Size (data : string) : M FS Z := λ s,
  match io (fs_tick s) with
  | None => (Ret (Z.of_nat (String.length data)), tick s)
  | Some (e, _) => (Err e, tick s)
  end.
Definition ReadLimited (data : string) (limit : Z) : M FS string := λ s,
  match io (fs_tick s) with
  | None => (Ret (take_str (Z.to_nat limit) data), tick s)
  | Some (e, _) => (Err e, tick s)
  end.

(** [os.MkdirAll]: directories hold no content of the model. *)
Definition MkdirAll : M FS unit := λ s,
  match io (fs_tick s) with None => (Ret tt, tick s) | Some (e, _) => (Err e, tick s) end.

(** Write a temporary file and rename it over [path]; the temporary file is
    removed when the rename fails. *)
Definition replace_file (path data : string) : M FS unit :=
  let tmp := (path +:+ ".tmp")%string in
  WriteFile tmp data;;
  r ← try (Rename tmp path);
  match r with
  | inr _ => mret tt
  | inl e => ignore (Remove tmp);; fail e
  end.
End files.


Lemma put_spec path data s :
  fs_seen (put path data s) = fs_seen s ++ [<[path := data]> (fs_files s)] ∧
  fs_files (put path data s) = <[path := data]> (fs_files s).
Proof. done. Qed.

(** A write passes through the prefixes of what it writes. *)
Lemma write_prefixes_spec path data n s :
  ∃ l, fs_seen (write_prefixes path data n s) = fs_seen s ++ l ∧
    fs_files (write_prefixes path data n s) = <[path := take_str n data]> (fs_files s) ∧
    ∀ f, f ∈ l → ∃ p, f = <[path := p]> (fs_files s).
Proof.
  induction n as [|n IH]; cbn [write_prefixes].
  - exists [<[path := ""]> (fs_files s)]. split_and!; [done|by destruct data|].
    intros f ->%list_elem_of_singleton. by eexists.
  - destruct IH as (l & E1 & E2 & Hl). destruct (put_spec path (take_str (S n) data) (write_prefixes path data n s)) as [-> ->].
    rewrite E1, E2, insert_insert_eq. exists (l ++ [<[path := take_str (S n) data]> (fs_files s)]).
    split_and!; [by rewrite <- (assoc_L (++))|done|].
    intros f [Hf|Hf]%elem_of_app; [by apply Hl|]. apply list_elem_of_singleton in Hf as ->. by eexists.
Qed.

(** What a temporary file's operations may do: the other files keep their
    content, now and in every state passed through. *)
Definition only (path : string) (s s' : FS) : Prop :=
  (∀ p, p ≠ path → fs_files s' !! p = fs_files s !! p) ∧
  ∃ l, fs_seen s' = fs_seen s ++ l ∧ ∀ f p, f ∈ l → p ≠ path → f !! p = fs_files s !! p.
Lemma only_trans path a b c : only path a b → only path b c → only path a c.
Proof.
  intros [H1 (l1 & E1 & L1)] [H2 (l2 & E2 & L2)]. split.
  - intros p Hp. by rewrite H2, H1.
  - exists (l1 ++ l2). rewrite E2, E1, (assoc_L (++)). split; [done|].
    intros f p [Hf|Hf]%elem_of_app Hp; [by apply L1|]. by rewrite L2, H1.
Qed.
Lemma only_refl path s : only path s s.
Proof. split; [done|]. exists []. rewrite app_nil_r. split; [done|]. by intros f p ?%elem_of_nil. Qed.

Lemma only_tick path s : only path s (tick s).
Proof. apply (only_refl path s). Qed.

Section save.
Context (io : fate).

Lemma WriteFile_spec path data s :
  match WriteFile io path data s with
  | (Ret _, s') => only path s s' ∧ fs_files s' !! path = Some data
  | (Err _, s') => only path s s'
  | (Panic _, _) => False
  end.
Proof.
  assert (Hw : ∀ n, only path s (tick (write_prefixes path data n s))).
  { intros n. destruct (write_prefixes_spec path data n s) as (l & E1 & E2 & Hl). split; simpl.
    - intros p Hp. by rewrite E2, lookup_insert_ne.
    - exists l. split; [done|]. intros f p (q & ->)%Hl Hp. by rewrite lookup_insert_ne. }
  unfold WriteFile. destruct (io (fs_tick s)) as [[e k]|].
  - destruct (decide _); [apply only_tick|apply Hw].
  - split; [apply Hw|]. simpl.
    destruct (write_prefixes_spec path data (String.length data) s) as (l & _ & -> & _).
    by rewrite lookup_insert_eq, take_str_all.
Qed.
Lemma Remove_spec path s : only path s (Remove io path s).2.
Proof.
  unfold Remove. destruct (io (fs_tick s)) as [[e k]|]; [apply only_tick|]. split; simpl.
  - intros p Hp. by rewrite lookup_delete_ne.
  - eexists. split; [done|]. intros f p ->%list_elem_of_singleton Hp. by rewrite lookup_delete_ne.
Qed.
End save.

Lemma tmp_ne path : (path +:+ ".tmp")%string ≠ path.
Proof.
  intros H. apply (f_equal String.length) in H.
  assert (E : ∀ a b, String.length (a +:+ b) = (String.length a + String.length b)%nat).
  { intros a b. induction a; simpl; congruence. }
  rewrite E in H. simpl in H. lia.
Qed.

Lemma Rename_spec io old new s :
  old ≠ new →
  match Rename io old new s with
  | (Ret _, s') => ∃ data, fs_files s !! old = Some data ∧ fs_files s' !! new = Some data ∧
      fs_seen s' = fs_seen s ++ [fs_files s'] ∧ ∀ p, p ≠ old → p ≠ new → fs_files s' !! p = fs_files s !! p
  | (Err _, s') => fs_files s' = fs_files s ∧ fs_seen s' = fs_seen s
  | (Panic _, _) => False
  end.
Proof.
  intros Hne. unfold Rename. destruct (io (fs_tick s)) as [[e k]|]; [done|].
  destruct (fs_files s !! old) as [data|] eqn:Ho; [|done]. exists data. simpl.
  split_and!; [done|by rewrite lookup_insert_eq|done|].
  intros p H1 H2. by rewrite lookup_insert_ne, lookup_delete_ne.
Qed.

(** Every state passed through has, under [path], the old content or the whole
    new one, and no other file is touched but the temporary one. *)
Definition atomic (path data : string) (s s' : FS) : Prop :=
  ∃ l, fs_seen s' = fs_seen s ++ l ∧ ∀ f, f ∈ l →
    (f !! path = fs_files s !! path ∨ f !! path = Some data) ∧
    ∀ p, p ≠ path → p ≠ (path +:+ ".tmp")%string → f !! p = fs_files s !! p.

Lemma replace_file_spec io path data s :
  match replace_file io path data s with
  | (o, s') => atomic path data s s' ∧
    match o with
    | Ret _ => fs_files s' !! path = Some data
    | Err _ => fs_files s' !! path = fs_files s !! path
    | Panic _ => False
    end
  end.
Proof.
  pose proof (tmp_ne path) as Hne. unfold replace_file, atomic. cbv zeta. set (tmp := (path +:+ ".tmp")%string) in *.
  assert (Hold : ∀ s' l, fs_seen s' = fs_seen s ++ l → (∀ f p, f ∈ l → p ≠ tmp → f !! p = fs_files s !! p) →
    ∃ l, fs_seen s' = fs_seen s ++ l ∧ ∀ f, f ∈ l →
       (f !! path = fs_files s !! path ∨ f !! path = Some data) ∧
       ∀ p, p ≠ path → p ≠ tmp → f !! p = fs_files s !! p).
  { intros s' l El Hl. exists l. split; [done|]. intros f Hf. split; [left; by apply Hl|]. intros. by apply Hl. }
  pose proof (WriteFile_spec io tmp data s) as Hw.
  destruct (WriteFile io tmp data s) as [[[]|e|p] s1] eqn:Ew; [| |done].
  2:{ rewrite (bind_err _ _ _ _ _ Ew). destruct Hw as [Hf (l & El & Hl)]. split; [by eapply Hold|]. by apply Hf. }
  rewrite (bind_ret _ _ _ _ _ Ew). destruct Hw as [[Hf (l & El & Hl)] Htmp].
  pose proof (Rename_spec io tmp path s1 Hne) as Hr.
  destruct (Rename io tmp path s1) as [[[]|e|p] s2] eqn:Er; [| |done].
  - assert (Ht : try (Rename io tmp path) s1 = (Ret (inr tt), s2)) by (unfold try; by rewrite Er).
    rewrite (bind_ret _ _ _ _ _ Ht). destruct Hr as (d & Hd & Hnew & Hseen & Hother).
    assert (d = data) as -> by congruence. split; [|done].
    exists (l ++ [fs_files s2]). rewrite Hseen, El, (assoc_L (++)). split; [done|].
    intros f [Hin|Hin]%elem_of_app.
    + split; [left; by apply Hl|]. intros. by apply Hl.
    + apply list_elem_of_singleton in Hin as ->. split; [by right|].
      intros p H1 H2. rewrite Hother by done. by apply Hf.
  - assert (Ht : try (Rename io tmp path) s1 = (Ret (inl e), s2)) by (unfold try; by rewrite Er).
    rewrite (bind_ret _ _ _ _ _ Ht). destruct Hr as [E1 E2].
    pose proof (Remove_spec io tmp s2) as Hrm.
    assert (Hig : ignore (Remove io tmp) s2 = (Ret tt, (Remove io tmp s2).2)).
    { unfold ignore, mbind, M_bind, try. unfold Remove. by destruct (io (fs_tick s2)) as [[? ?]|]. }
    rewrite (bind_ret _ _ _ _ _ Hig).
    assert (Hall : only tmp s (Remove io tmp s2).2).
    { eapply only_trans; [|exact Hrm]. split; [intros; rewrite E1; by apply Hf|].
      exists l. rewrite E2. done. }
    destruct Hall as [Hf' (l' & El' & Hl')]. split; [by eapply Hold|]. by apply Hf'.
Qed.
