(* ===== verification/Store.v ===== *)
(** * The state file (internal/state/store.go) and what Restore restores

    [Save] and [Load] on the files of Files.v, whose operations may fail or be cut
    short by a crash.  The JSON codec ([encoding/json]) is a parameter:
    [marshal] and [unmarshal] of a snapshot whose slices are read out. *)

From S2P Require Import Docker Prelude GoStrings Files Url External Spec SshConfig Auth Dial World Session Forward Shell Manager ManagerProps State.
From Stdlib Require Import Ascii String.

Section store.
Variable io : fate.

(** ** store.go *)
(** A snapshot as the file holds it. *)
Record SnapView := mkSnapView {
  sv_Version : Z;
  sv_SSH : list (string * SpecView);
  sv_Forwards : list ForwardRecord;
  sv_Docker : list (string * DockerSpec);
}.
Definition with_version (v : SnapView) : SnapView :=
  if decide (sv_Version v = 0) then mkSnapView 1 (sv_SSH v) (sv_Forwards v) (sv_Docker v) else v.

Variable marshal : SnapView → error + string.     (* json.MarshalIndent *)
Variable unmarshal : string → error + SnapView.   (* json.Unmarshal *)

Definition maxStateFileBytes : Z := 16 * 1024 * 1024.

Definition Save (path : string) (snap : SnapView) : M FS unit :=
  let snap := with_version snap in
  data ← of_sum (marshal snap);
  replace_file io path data.

Definition Load (path : string) : M FS SnapView :=
  f ← Open io path;
  match f with
  | None => mret (mkSnapView 1 [] [] [])
  | Some content =>
    st ← try (Size io content);
    if match st with inr n => bool_decide (n > maxStateFileBytes) | inl _ => false end then
      fail (Fmt "state file %s is %d bytes (>%d max)" [path; Itoa maxStateFileBytes])
    else
      data ← ReadLimited io content (maxStateFileBytes + 1);
      if bool_decide (Z.of_nat (String.length data) > maxStateFileBytes) then
        fail (Fmt "state file %s exceeds %d bytes" [path; Itoa maxStateFileBytes])
      else
        match unmarshal data with
        | inl e => fail (Wrap "parse state file: %w" [] e)
        | inr snap => mret (with_version snap)
        end
  end.

End store.

(** ** Saving *)
Lemma Save_spec io marshal path snap s data
    (Hdata : marshal (with_version snap) = inr data) :
  match Save io marshal path snap s with
  | (o, s') => atomic path data s s' ∧
    match o with
    | Ret _ => fs_files s' !! path = Some data
    | Err _ => fs_files s' !! path = fs_files s !! path
    | Panic _ => False
    end
  end.
Proof.
  unfold Save. rewrite Hdata. unfold of_sum. rewrite (bind_ret _ _ _ data s) by done.
  apply replace_file_spec.
Qed.

(** C35: [Save] is atomic.  Whatever operation fails and wherever a crash comes,
    every state of the directory it passes through has, under the state file's
    name, the old content or the whole new one; the other files, the temporary
    one apart, are not touched.  When it returns the file holds the new content;
    when it fails, the old one. *)
Theorem store_save_atomic io marshal path snap s data
    (Hdata : marshal (with_version snap) = inr data) :
  match Save io marshal path snap s with
  | (o, s') =>
    atomic path data s s' ∧
    match o with
    | Ret _ => fs_files s' !! path = Some data
    | Err _ => fs_files s' !! path = fs_files s !! path
    | Panic _ => False
    end
  end.
Proof. by apply Save_spec. Qed.

Lemma take_str_long n s : (String.length s ≤ n)%nat → take_str n s = s.
Proof. revert s. induction n as [|n IH]; intros [|a s]; simpl; intros H; [done|lia|done|]. rewrite IH; [done|lia]. Qed.

(** C36: what [Save] wrote, [Load] reads back: when the codec decodes what it
    encodes and the file fits the limit, a [Load] whose reads succeed returns the
    snapshot that was saved, with its version filled in.  A file over the limit is
    refused, whatever it holds. *)
Theorem store_roundtrip io marshal unmarshal path snap s s' data
    (Hjson : ∀ v d, marshal v = inr d → unmarshal d = inr v)
    (Hdata : marshal (with_version snap) = inr data)
    (Hsave : Save io marshal path snap s = (Ret tt, s'))
    (Hio : ∀ n, (fs_tick s' ≤ n)%nat → io n = None) :
  if bool_decide (Z.of_nat (String.length data) ≤ maxStateFileBytes)
  then (Load io unmarshal path s').1 = Ret (with_version snap)
  else ∃ e, (Load io unmarshal path s').1 = Err e.
Proof.
  pose proof (Save_spec io marshal path snap s data Hdata) as H. rewrite Hsave in H.
  destruct H as [_ Hfile].
  assert (Hopen : Open io path s' = (Ret (Some data), tick s'))
    by (unfold Open; rewrite Hio by lia; by rewrite Hfile).
  assert (Hstat : try (Size io data) (tick s') = (Ret (inr (Z.of_nat (String.length data))), tick (tick s'))).
  { unfold try, Size. simpl. by rewrite Hio by lia. }
  unfold Load. rewrite (bind_ret _ _ _ _ _ Hopen), (bind_ret _ _ _ _ _ Hstat).
  case_bool_decide as Hsize; case_bool_decide as Hmax; [lia| |by eexists|lia].
  assert (Hread : ReadLimited io data (maxStateFileBytes + 1) (tick (tick s')) = (Ret data, tick (tick (tick s')))).
  { unfold ReadLimited. cbn [fs_tick tick]. rewrite Hio by lia. rewrite take_str_long; [done|].
    apply Nat2Z.inj_le. rewrite Z2Nat.id; lia. }
  rewrite (bind_ret _ _ _ _ _ Hread). rewrite bool_decide_false by lia.
  rewrite (Hjson _ _ Hdata). unfold mret, M_ret. simpl. f_equal. unfold with_version.
  destruct (decide (sv_Version snap = 0)) as [H0|H0]; simpl; [done|by rewrite decide_False].
Qed.

(** What a [Load] that succeeds returns is what the file holds. *)
Lemma take_str_short n s : (String.length (take_str n s) < n)%nat → take_str n s = s.
Proof. revert s. induction n as [|n IH]; intros [|a s]; simpl; intros H; [done|lia|done|]. rewrite IH; [done|lia]. Qed.
Lemma with_version_idem v : with_version (with_version v) = with_version v.
Proof. unfold with_version. destruct (decide (sv_Version v = 0)) as [H|H]; simpl; [done|by rewrite decide_False]. Qed.
Lemma Load_reads io unmarshal path s v s' data : fs_files s !! path = Some data →
  Load io unmarshal path s = (Ret v, s') → ∃ snap, unmarshal data = inr snap ∧ v = with_version snap.
Proof.
  intros Hfile. unfold Load. set (k := λ data, if bool_decide (Z.of_nat (String.length data) > maxStateFileBytes) then _ else _).
  assert (Hrest : ∀ s1, (ReadLimited io data (maxStateFileBytes + 1) ≫= k) s1 = (Ret v, s') →
    ∃ snap, unmarshal data = inr snap ∧ v = with_version snap).
  { intros s1. unfold mbind, M_bind, ReadLimited. destruct (io (fs_tick s1)) as [[e n]|]; [done|]. unfold k.
    case_bool_decide as Hmax; [done|]. rewrite take_str_short in * by lia.
    destruct (unmarshal data) as [e|snap]; [done|]. intros [= <- _]. by exists snap. }
  unfold mbind at 1, M_bind, Open. destruct (io (fs_tick s)) as [[e n]|]; [done|]. rewrite Hfile.
  unfold mbind at 1, M_bind, try. destruct (Size io data (tick s)) as [[n|e|p] s1]; [|apply Hrest|done].
  destruct (bool_decide (n > maxStateFileBytes)); [done|apply Hrest].
Qed.

(** A rename that fails: the old file is still there, and no temporary one. *)
Definition io_rename : fate := λ n, if decide (n = 1%nat) then Some (Msg "disk full", 0%nat) else None.
Definition marshal_ex (v : SnapView) : error + string :=
  match v with mkSnapView 1 [] [] [] => inr "{}" | _ => inl (Msg "unsupported") end.
Definition unmarshal_ex (d : string) : error + SnapView :=
  if decide (d = "{}") then inr (mkSnapView 1 [] [] []) else inl (Msg "syntax").
Definition fs_ex : FS := mkFS {["state.json" := "old"]} [] 0.

Lemma store_save_atomic_witness :
  fs_files (Save io_rename marshal_ex "state.json" (mkSnapView 0 [] [] []) fs_ex).2 !! "state.json" = Some "old" ∧
  List.length (fs_seen (Save io_rename marshal_ex "state.json" (mkSnapView 0 [] [] []) fs_ex).2) = 4%nat.
Proof.
  split; [|vm_compute; reflexivity].
  pose proof (store_save_atomic io_rename marshal_ex "state.json" (mkSnapView 0 [] [] []) fs_ex "{}" eq_refl) as H.
  assert (Ho : (Save io_rename marshal_ex "state.json" (mkSnapView 0 [] [] []) fs_ex).1 = Err (Msg "disk full"))
    by (vm_compute; reflexivity).
  destruct (Save io_rename marshal_ex "state.json" (mkSnapView 0 [] [] []) fs_ex) as [o s'].
  simpl in *. subst o. destruct H as [_ H]. rewrite H. vm_compute. reflexivity.
Defined.

Lemma store_roundtrip_witness :
  (Load (λ _, None) unmarshal_ex "state.json"
     (Save (λ _, None) marshal_ex "state.json" (mkSnapView 0 [] [] []) fs_ex).2).1 = Ret (mkSnapView 1 [] [] []).
Proof.
  refine (store_roundtrip (λ _, None) marshal_ex unmarshal_ex "state.json" (mkSnapView 0 [] [] []) fs_ex _ "{}" _ _ _ _).
  - intros [[|[]|] [] [] []] d; simpl; try done. intros [= <-]. reflexivity.
  - reflexivity.
  - vm_compute. reflexivity.
  - done.
Defined.

(** ** Restoring *)

(** [f] tries to add an entry to the map [g] of the state. *)
Definition adds {S A V} (g : S → gmap string V) (key : A → string) (f : A → M S unit) : Prop :=
  ∀ x s, match f x s with
    | (Ret _, s') => ∃ l, g s !! key x = None ∧ g s' = <[key x := l]> (g s)
    | (Err _, s') => g s' = g s
    | (Panic _, _) => True
    end.

Lemma count_each_sum {S A} (f : A → M S unit) l ok failed s ok' failed' s' :
  count_each f l ok failed s = (Ret (ok', failed'), s') →
  ok' + failed' = ok + failed + Z.of_nat (List.length l).
Proof.
  revert ok failed s. induction l as [|x l IH]; intros ok failed s; simpl.
  { unfold mret, M_ret. intros [= <- <- _]. lia. }
  unfold mbind, M_bind, try. destruct (f x s) as [[[]|e|p] s1]; [| |done]; intros H%IH; lia.
Qed.

Lemma count_each_adds {S A V} (g : S → gmap string V) key (f : A → M S unit) l ok failed s ok' failed' s' :
  adds g key f → count_each f l ok failed s = (Ret (ok', failed'), s') →
  Z.of_nat (size (g s')) - ok' = Z.of_nat (size (g s)) - ok ∧ g s ⊆ g s' ∧
  (∀ id v, g s' !! id = Some v → g s !! id = Some v ∨ id ∈ map key l).
Proof.
  intros Hf. revert ok failed s. induction l as [|x l IH]; intros ok failed s; cbn [count_each].
  { unfold mret, M_ret. intros [= <- <- <-]. split_and!; [done|done|]. by left. }
  unfold mbind, M_bind, try. pose proof (Hf x s) as Hx.
  destruct (f x s) as [[[]|e|p] s1]; [| |done]; intros (H1 & H2 & H3)%IH.
  - destruct Hx as (v & Hn & Hs1). rewrite Hs1 in H1, H2, H3. rewrite map_size_insert_None in H1 by done.
    split_and!; [lia| |].
    + trans (<[key x := v]> (g s)); [by apply insert_subseteq|done].
    + intros id v' Hid. destruct (H3 id v' Hid) as [Hin|Hin]; [|right; by apply list_elem_of_further].
      apply lookup_insert_Some in Hin as [[<- _]|[_ ?]]; [right; apply list_elem_of_here|by left].
  - rewrite Hx in H1, H2, H3. split_and!; [lia|done|]. intros id v' Hid.
    destruct (H3 id v' Hid) as [?|?]; [by left|right; by apply list_elem_of_further].
Qed.

Lemma count_each_stays {S A} (R : S → S → Prop) `{!PreOrder R} (f : A → M S unit) l ok failed :
  (∀ x, stays R (f x)) → stays R (count_each f l ok failed).
Proof.
  intros Hf. revert ok failed. induction l as [|x l IH]; intros ok failed; simpl; [solve_stays|].
  apply stays_bind; [done|by apply stays_try|]. intros []; apply IH.
Qed.

Section restore.
Context {E : Env} (PKH : string → option (list string * option string * string)).
Context (CfgGet : string → string → string) (depth : nat).

Lemma adds_ssh : adds sessions fst (λ r : string * ConnectSpec, Connect PKH CfgGet depth r.1 r.2;; mret tt).
Proof.
  intros [id spec] w. pose proof (Connect_track PKH CfgGet depth id spec w) as H. unfold wp in H.
  unfold mbind, M_bind. simpl. destruct (Connect PKH CfgGet depth id spec w) as [[l|e|p] w']; simpl in H; [|done|done].
  destruct H as (? & ? & _). by exists l.
Qed.
Lemma adds_docker : adds Docker.hosts fst (λ r : string * DockerSpec, Docker.Connect PKH r.1 r.2;; mret tt).
Proof.
  intros [id spec] d. unfold mbind, M_bind, Docker.Connect, Docker.connect_check. simpl.
  destruct (decide (id = "")) as [_|_]; [done|]. unfold gets, mbind, M_bind.
  destruct (Docker.hosts d !! id) eqn:Hid; [done|]. simpl.
  unfold Docker.dnetM, zoom. destruct (Docker.dialDocker PKH spec _) as [[c|e|p] n]; [|done|done].
  unfold Docker.connect_register, mbind, M_bind, Docker.dnetM, zoom, gets. simpl.
  destruct (now n) as [[t|e|p] n']; [|done|done]. simpl. rewrite Hid. simpl. by eexists.
Qed.
Lemma same_Get id : stays same_sessions (Get id).
Proof. intros w. unfold Get. by destruct (_ !! _). Qed.
Lemma same_getClient l : stays same_sessions (getClient l).
Proof. unfold getClient. solve_stays. Qed.
Lemma same_register l F ln : stays same_sessions (register_or_close l F ln).
Proof. unfold register_or_close, registerForward, new_fwd. solve_stays. Qed.
Lemma same_restoreForward r : stays same_sessions (restoreForward r).
Proof.
  unfold restoreForward, OpenLocalForward, OpenRemoteForward, OpenDynamicForward.
  repeat first [apply same_Get | apply same_getClient | apply same_register | progress solve_stays].
Qed.
End restore.

Lemma Restore_spec {E : Env} PKH CfgGet depth snap w d c w' d'
    (Hres : Restore PKH CfgGet depth snap (w, d) = (Ret c, (w', d'))) :
  sshOK c + sshFail c = Z.of_nat (List.length (sn_SSHSessions snap)) ∧
  fwdOK c + fwdFail c = Z.of_nat (List.length (sn_Forwards snap)) ∧
  dkOK c + dkFail c = Z.of_nat (List.length (sn_DockerHosts snap)) ∧
  sessions w ⊆ sessions w' ∧ Docker.hosts d ⊆ Docker.hosts d' ∧
  Z.of_nat (size (sessions w')) = Z.of_nat (size (sessions w)) + sshOK c ∧
  Z.of_nat (size (Docker.hosts d')) = Z.of_nat (size (Docker.hosts d)) + dkOK c ∧
  (∀ id l, sessions w' !! id = Some l → sessions w !! id = Some l ∨ id ∈ map fst (sn_SSHSessions snap)) ∧
  (∀ id l, Docker.hosts d' !! id = Some l → Docker.hosts d !! id = Some l ∨ id ∈ map fst (sn_DockerHosts snap)).
Proof.
  unfold Restore, mbind, M_bind, sshM, dkM, zoom in Hres. simpl in Hres.
  destruct (count_each _ (sn_SSHSessions snap) 0 0 w) as [[[so sf]|e|p] w1] eqn:E1; [|done|done]. simpl in Hres.
  destruct (count_each _ (sn_Forwards snap) 0 0 w1) as [[[fo ff]|e|p] w2] eqn:E2; [|done|done]. simpl in Hres.
  destruct (count_each _ (sn_DockerHosts snap) 0 0 d) as [[[ko kf]|e|p] d1] eqn:E3; [|done|done].
  injection Hres as <- <- <-. simpl.
  pose proof (count_each_stays same_sessions restoreForward (sn_Forwards snap) 0 0 same_restoreForward w1) as Hsame.
  rewrite E2 in Hsame. unfold same_sessions in Hsame. simpl in Hsame. rewrite Hsame.
  pose proof (count_each_adds _ _ _ _ _ _ _ _ _ _ (adds_ssh PKH CfgGet depth) E1) as (H1 & H2 & H3).
  pose proof (count_each_adds _ _ _ _ _ _ _ _ _ _ (adds_docker PKH) E3) as (H4 & H5 & H6).
  apply count_each_sum in E1, E2, E3. split_and!; [lia..|done|done|lia|lia|exact H3|exact H6].
Qed.

(** [Restore] goes on after a failure and loses nothing that was there.  Every
    record is tried and counted once; the managers keep all they had; each restored
    count is the number of sessions (hosts) that were added, and what was added
    carries the id of a record.  It can only end otherwise by the stack overflow of
    a cyclic ProxyJump or another panic. *)
Theorem restore_best_effort {E : Env} PKH CfgGet depth snap w d c w' d'
    (Hres : Restore PKH CfgGet depth snap (w, d) = (Ret c, (w', d'))) :
  sshOK c + sshFail c = Z.of_nat (List.length (sn_SSHSessions snap)) ∧
  fwdOK c + fwdFail c = Z.of_nat (List.length (sn_Forwards snap)) ∧
  dkOK c + dkFail c = Z.of_nat (List.length (sn_DockerHosts snap)) ∧
  sessions w ⊆ sessions w' ∧ Docker.hosts d ⊆ Docker.hosts d' ∧
  Z.of_nat (size (sessions w')) = Z.of_nat (size (sessions w)) + sshOK c ∧
  Z.of_nat (size (Docker.hosts d')) = Z.of_nat (size (Docker.hosts d)) + dkOK c ∧
  (∀ id l, sessions w' !! id = Some l → sessions w !! id = Some l ∨ id ∈ map fst (sn_SSHSessions snap)) ∧
  (∀ id l, Docker.hosts d' !! id = Some l → Docker.hosts d !! id = Some l ∨ id ∈ map fst (sn_DockerHosts snap)).
Proof. by eapply Restore_spec. Qed.

(** Two records with one id, a forward of a session that is not there, a host. *)
Definition spec_one : ConnectSpec :=
  mkConnectSpec "root" (Some 1%positive) None auth_pw_ex "" true 0 0 false true false true.
Definition snap_ex : Snapshot :=
  mkSnapshot 1 [("a", spec_one); ("a", spec_one)]
    [mkForwardRecord "f" "a" "dynamic" None None (Some (mkDynamicSpec "" 0));
     mkForwardRecord "g" "b" "dynamic" None None (Some (mkDynamicSpec "" 0));
     mkForwardRecord "h" "a" "reverse" None None None]
    [("d", spec_docker)].
Definition both_ex : Both :=
  (world0 <| w_mem := mkMem {[1%positive := ["10.0.0.1"]]} ∅ 2%positive |>, Docker.dworld0).

Lemma restore_best_effort_witness :
  ∃ c b, @Restore env_ok (λ _, None) (λ _ _, "") 5 snap_ex both_ex = (Ret c, b) ∧
    sshOK c = 1 ∧ sshFail c = 1 ∧ fwdOK c = 1 ∧ fwdFail c = 2 ∧ size (sessions b.1) = 1%nat.
Proof.
  destruct (@Restore env_ok (λ _, None) (λ _ _, "") 5 snap_ex both_ex) as [o [w' d']] eqn:Hr.
  assert (Ho : match o with Ret c => sshOK c = 1 ∧ sshFail c = 1 ∧ fwdOK c = 1 ∧ fwdFail c = 2 | _ => False end).
  { apply (f_equal fst) in Hr. simpl in Hr. rewrite <- Hr. vm_compute. done. }
  destruct o as [c|e|p]; [|done|done]. exists c, (w', d'). destruct Ho as (H1 & H2 & H3 & H4).
  destruct (restore_best_effort _ _ _ _ _ _ _ _ _ Hr) as (_ & _ & _ & _ & _ & Hsz & _).
  do 5 (split; [done|]). simpl. rewrite H1 in Hsz. change (size (sessions both_ex.1)) with 0%nat in Hsz.
  apply Nat2Z.inj. rewrite Hsz. reflexivity.
Defined.
