(* ===== verification/Paths.v ===== *)
(** * Slash-separated paths (Go's [path], and [path/filepath] on Unix)

    [Clean], [Join], [Dir], [Base] and what the file-copying code relies on: how a
    joined path relates to the directory it starts from. *)

From S2P Require Import Prelude GoStrings Url.
From Stdlib Require Import Ascii String.

(** ** Elements *)
Definition rooted (s : string) : bool := has_prefix "/" s.
Definition elems (s : string) : list string := filter (λ e, e ≠ "" ∧ e ≠ ".") (Split slash s).

(** Eliminate the [..] elements: [out] is what was kept so far, last element first. *)
Fixpoint norm (r : bool) (out : list string) (l : list string) : list string :=
  match l with
  | [] => reverse out
  | e :: l =>
    if decide (e = "..") then
      match out with
      | o :: out' => if decide (o = "..") then norm r (e :: out) l else norm r out' l
      | [] => if r then norm r [] l else norm r [e] l
      end
    else norm r (e :: out) l
  end.

Definition render (r : bool) (l : list string) : string :=
  let s := ((if r then "/" else "") +:+ Join l "/")%string in if decide (s = "") then "." else s.
Definition Clean (s : string) : string := render (rooted s) (norm (rooted s) [] (elems s)).

(** [path.Join]: empty elements are dropped. *)
Definition path_Join (l : list string) : string :=
  match filter (λ e, e ≠ "") l with [] => "" | l => Clean (Join l "/") end.

(** [path.Split], then [Clean] *)
Definition Dir (s : string) : string :=
  Clean (match cut_last slash s with Some (d, _) => (d +:+ "/")%string | None => "" end).

Fixpoint drop_slashes (s : string) : string :=
  match s with String a s' => if decide (a = slash) then drop_slashes s' else s | "" => "" end.
(** [strings.TrimRight(s, "/")] *)
Definition TrimRight_slash (s : string) : string := String.rev (drop_slashes (String.rev s)).
Definition Base (s : string) : string :=
  if decide (s = "") then "." else
  let s := TrimRight_slash s in
  let b := match cut_last slash s with Some (_, b) => b | None => s end in
  if decide (b = "") then "/" else b.

Example clean_ex : map Clean ["a//b/./c/.."; "/../x"; "../a"; "a/.."; ""; "/"] = ["a/b"; "/x"; "../a"; "."; "."; "/"].
Proof. vm_compute. reflexivity. Qed.
Example base_ex : map Base ["/data/"; "x"; "/"; ""; "a/b"] = ["data"; "x"; "/"; "."; "b"].
Proof. vm_compute. reflexivity. Qed.
Example dir_ex : map Dir ["/data/x"; "x"; "/"; ""; "a/b/"] = ["/data"; "."; "/"; "."; "a/b"].
Proof. vm_compute. reflexivity. Qed.

(** ** Lemmas *)

(** An element of a path: a name, without a slash, that is not special. *)
Definition ordinary (e : string) : Prop := In_str slash e = false ∧ e ≠ "" ∧ e ≠ "." ∧ e ≠ "..".

Lemma Split_slash_no s : Forall (λ e, In_str slash e = false) (Split slash s).
Proof.
  induction s as [|a s IH]; simpl; [by constructor|].
  destruct (decide (a = slash)) as [_|Ha]; [by constructor|].
  destruct (Split slash s) as [|h t]; [by repeat constructor; simpl; rewrite bool_decide_eq_false_2|].
  apply Forall_cons in IH as [Hh Ht]. constructor; [|done]. simpl. by rewrite Hh, bool_decide_eq_false_2.
Qed.
Lemma Split_nonnil c s : Split c s ≠ [].
Proof. destruct s as [|a s]; simpl; [done|]. destruct (decide _); [done|]. by destruct (Split c s). Qed.

Lemma Split_app_gen c s t :
  ∃ l x y r, Split c s = l ++ [x] ∧ Split c t = y :: r ∧ Split c (s +:+ t) = l ++ [(x +:+ y)%string] ++ r.
Proof.
  induction s as [|a s IH]; simpl.
  - destruct (Split c t) as [|y r] eqn:Ht; [by apply Split_nonnil in Ht|]. by exists [], "", y, r.
  - destruct IH as (l & x & y & r & Hs & Ht & Hst). rewrite Hs, Hst. destruct (decide (a = c)) as [|].
    + by exists ("" :: l), x, y, r.
    + destruct l as [|h l]; simpl; [by exists [], (String a x), y, r|].
      by exists (String a h :: l), x, y, r.
Qed.

Lemma elems_app s t : elems (s +:+ String slash t) = elems s ++ elems t.
Proof.
  unfold elems. destruct (Split_app_gen slash s (String slash t)) as (l & x & y & r & Hs & Ht & Hst).
  rewrite Hst, Hs. cbn [Split] in Ht. rewrite decide_True in Ht by done. injection Ht as <- <-.
  rewrite app_nil_r_str, app_assoc, filter_app. done.
Qed.
Lemma elems_slash s : elems (String slash s) = elems s.
Proof. unfold elems. cbn [Split]. rewrite decide_True by done. by rewrite filter_cons, decide_False by naive_solver. Qed.
Lemma elems_ordinary e : ordinary e → elems e = [e].
Proof.
  intros (Hn & He & Hd & _). unfold elems. rewrite Split_no by done. rewrite filter_cons.
  by rewrite decide_True by done.
Qed.
Lemma elems_shape s : Forall (λ e, In_str slash e = false ∧ e ≠ "" ∧ e ≠ ".") (elems s).
Proof.
  apply Forall_forall. intros e [He Hin]%list_elem_of_filter. split; [|done].
  pose proof (Split_slash_no s) as H. rewrite Forall_forall in H. by apply H.
Qed.

Lemma elems_Join l : Forall (λ e, In_str slash e = false ∧ e ≠ "" ∧ e ≠ ".") l → elems (Join l "/") = l.
Proof.
  induction 1 as [|e l (Hn & He & Hd) Hl IH]; [done|].
  assert (Hone : elems e = [e]).
  { unfold elems. rewrite Split_no by done. by rewrite filter_cons, decide_True by done. }
  destruct l as [|e' l]; [exact Hone|].
  change (Join (e :: e' :: l) "/") with (e +:+ "/" +:+ Join (e' :: l) "/")%string.
  change (e +:+ "/" +:+ Join (e' :: l) "/")%string with (e +:+ String slash (Join (e' :: l) "/"))%string.
  by rewrite elems_app, Hone, IH.
Qed.

Lemma norm_app r out l l' : norm r out (l ++ l') = norm r (reverse (norm r out l)) l'.
Proof.
  revert out. induction l as [|e l IH]; intros out; simpl; [by rewrite reverse_involutive|].
  repeat case_match; apply IH.
Qed.
Lemma norm_plain r out l : ".." ∉ l → norm r out l = reverse out ++ l.
Proof.
  revert out. induction l as [|e l IH]; intros out; simpl; [by rewrite app_nil_r|].
  intros [He Hl]%not_elem_of_cons. rewrite decide_False by done. rewrite IH by done.
  by rewrite reverse_cons, <- app_assoc.
Qed.
Lemma norm_incl r out l e : e ∈ norm r out l → e ∈ out ∨ e ∈ l.
Proof.
  revert out. induction l as [|x l IH]; intros out; simpl.
  - rewrite elem_of_reverse. by left.
  - repeat case_match; intros Hin; apply IH in Hin; subst; set_solver.
Qed.

Lemma rooted_app s t : rooted (String slash s +:+ t) = true.
Proof. done. Qed.
Lemma rooted_elem l : Forall (λ e, In_str slash e = false ∧ e ≠ "" ∧ e ≠ ".") l → rooted (Join l "/") = false.
Proof.
  intros H. destruct H as [|e l (Hn & He & _) _]; [done|].
  destruct e as [|a e]; [done|]. cbn [In_str] in Hn. apply orb_false_elim in Hn as [Ha%bool_decide_eq_false _].
  assert (Hr : ∀ t, rooted (String a t) = false).
  { intros t. unfold rooted. cbn [has_prefix]. rewrite bool_decide_eq_false_2; [done|]. by intros <-. }
  destruct l; apply Hr.
Qed.

(** What [Clean] keeps: whether the path is rooted, and its normalised elements. *)
Lemma render_spec r l : Forall (λ e, In_str slash e = false ∧ e ≠ "" ∧ e ≠ ".") l →
  rooted (render r l) = r ∧ elems (render r l) = l.
Proof.
  intros Hl. unfold render. destruct r.
  - change ("/" +:+ Join l "/")%string with (String slash (Join l "/")). rewrite decide_False by done.
    split; [done|]. by rewrite elems_slash, elems_Join.
  - change ("" +:+ Join l "/")%string with (Join l "/"). case_decide as He.
    + split; [done|]. rewrite <- (elems_Join l Hl), He. done.
    + split; [by apply rooted_elem|by apply elems_Join].
Qed.
Lemma norm_shape r s : Forall (λ e, In_str slash e = false ∧ e ≠ "" ∧ e ≠ ".") (norm r [] (elems s)).
Proof.
  apply Forall_forall. intros e [He|He]%norm_incl; [by apply not_elem_of_nil in He|].
  pose proof (elems_shape s) as H. rewrite Forall_forall in H. by apply H.
Qed.
Lemma Clean_spec s : rooted (Clean s) = rooted s ∧ elems (Clean s) = norm (rooted s) [] (elems s).
Proof. apply render_spec, norm_shape. Qed.

(** [p] is [dir] or lies under it. *)
Definition inside (dir p : string) : Prop :=
  rooted p = rooted dir ∧ ∃ l, elems p = elems (Clean dir) ++ l ∧ ".." ∉ l.

Lemma Join_two a b : path_Join [a; b] =
  if decide (a = "") then (if decide (b = "") then "" else Clean b)
  else if decide (b = "") then Clean a else Clean (a +:+ String slash b).
Proof.
  unfold path_Join. rewrite !filter_cons. change (filter _ []) with (@nil string).
  repeat case_decide; subst; try naive_solver; done.
Qed.

(** Joining a relative path without [..] stays inside. *)
Lemma Join_inside dir rel : dir ≠ "" → rel ≠ "" → ".." ∉ elems rel →
  rooted (path_Join [dir; rel]) = rooted dir ∧
  elems (path_Join [dir; rel]) = elems (Clean dir) ++ elems rel.
Proof.
  intros Hd Hr Hdd. rewrite Join_two, !decide_False by done.
  destruct (Clean_spec (dir +:+ String slash rel)) as [-> ->].
  assert (Hroot : rooted (dir +:+ String slash rel) = rooted dir) by (by destruct dir as [|a dir]).
  rewrite Hroot. split; [done|]. destruct (Clean_spec dir) as [_ ->].
  by rewrite elems_app, norm_app, norm_plain, reverse_involutive by done.
Qed.
Lemma Clean_eq s t : rooted s = rooted t → elems s = elems t → Clean s = Clean t.
Proof. unfold Clean. by intros -> ->. Qed.

(** ** Below a cleaned root *)
Lemma Join_app_str l l' : l ≠ [] → l' ≠ [] → Join (l ++ l') "/" = (Join l "/" +:+ String slash (Join l' "/"))%string.
Proof.
  intros Hl Hl'. induction l as [|e l IH]; [done|]. destruct l as [|e' l]; [by destruct l'|].
  change (Join ((e :: e' :: l) ++ l') "/") with (e +:+ "/" +:+ Join ((e' :: l) ++ l') "/")%string.
  rewrite IH by done. change (Join (e :: e' :: l) "/") with (e +:+ "/" +:+ Join (e' :: l) "/")%string.
  by rewrite !app_assoc_str.
Qed.
(** The path of the entry [rel] of the tree at [root]. *)
Definition below (root : string) (rel : list string) : string :=
  match rel with [] => root | _ => path_Join [root; Join rel "/"] end.

Lemma ordinary_shape l : Forall ordinary l → Forall (λ e, In_str slash e = false ∧ e ≠ "" ∧ e ≠ ".") l ∧ ".." ∉ l.
Proof.
  intros H. split; [by eapply Forall_impl; [exact H|unfold ordinary; naive_solver]|].
  intros Hin. rewrite Forall_forall in H. by destruct (H _ Hin) as (_ & _ & _ & Hd).
Qed.
Lemma Join_ordinary l : Forall ordinary l → l ≠ [] → Join l "/" ≠ "".
Proof.
  intros Hl Hne H. destruct (ordinary_shape l Hl) as [Hs _]. apply elems_Join in Hs. rewrite H in Hs.
  by destruct l.
Qed.

Lemma rooted_slash s t : s ≠ "" → rooted (s +:+ String slash t) = rooted s.
Proof. by destruct s. Qed.

Section clean.
Context (root : string) (Hclean : Clean root = root).

Lemma clean_nonempty : root ≠ "".
Proof using Hclean. intros ->. by vm_compute in Hclean. Qed.
Lemma elems_below rel : Forall ordinary rel → rooted (below root rel) = rooted root ∧ elems (below root rel) = elems root ++ rel.
Proof using Hclean.
  intros Hrel. destruct rel as [|x rel]; [by rewrite app_nil_r|].
  destruct (ordinary_shape _ Hrel) as [Hs Hdd]. unfold below.
  destruct (Join_inside root (Join (x :: rel) "/")) as [Hr He].
  - apply clean_nonempty.
  - by apply Join_ordinary.
  - by rewrite elems_Join.
  - by rewrite Hr, He, Hclean, elems_Join.
Qed.
(** Joining the names one by one is joining them at once. *)
Lemma below_snoc rel name : Forall ordinary rel → ordinary name →
  path_Join [below root rel; name] = below root (rel ++ [name]).
Proof using Hclean.
  intros Hrel Hname. assert (Hsn : Forall ordinary (rel ++ [name])) by (apply Forall_app; split; [done|by apply Forall_singleton]).
  destruct (elems_below rel Hrel) as [Hr He]. destruct (ordinary_shape _ Hsn) as [Hs _].
  assert (Hne : below root rel ≠ "").
  { destruct rel as [|x rel]; [apply clean_nonempty|]. unfold below.
    rewrite Join_two, decide_False by apply clean_nonempty.
    rewrite decide_False by by apply Join_ordinary. unfold Clean, render. by case_decide. }
  rewrite Join_two, !decide_False by (done || apply Hname).
  assert (Hb : below root (rel ++ [name]) = path_Join [root; Join (rel ++ [name]) "/"]) by by destruct rel.
  rewrite Hb, Join_two, !decide_False by (apply clean_nonempty || (apply Join_ordinary; [done|by destruct rel])).
  apply Clean_eq.
  - by rewrite !rooted_slash by (done || apply clean_nonempty).
  - rewrite !elems_app, He, elems_Join by done. rewrite (elems_ordinary name) by done. by rewrite app_assoc.
Qed.
(** What is left of the path once the root is cut off. *)
Lemma below_rel rel : Forall ordinary rel → root ≠ "." →
  TrimPrefix (TrimPrefix (below root rel) root) "/" = Join rel "/".
Proof using Hclean.
  intros Hrel Hdot. destruct rel as [|x rel].
  { simpl. unfold TrimPrefix. assert (H : strip root root = Some "") by (apply strip_Some; by rewrite app_nil_r_str).
    by rewrite H. }
  destruct (ordinary_shape _ Hrel) as [Hs Hdd]. destruct (Clean_spec root) as [_ Hel]. rewrite Hclean in Hel.
  assert (Hroot : root = render (rooted root) (elems root)) by (rewrite <- Hclean at 1; unfold Clean; by rewrite <- Hel).
  assert (Hb : below root (x :: rel) = render (rooted root) (elems root ++ x :: rel)).
  { unfold below. rewrite Join_two, !decide_False by (apply clean_nonempty || by apply Join_ordinary).
    unfold Clean. assert (Hr : rooted (root +:+ String slash (Join (x :: rel) "/")) = rooted root).
    { apply rooted_slash, clean_nonempty. }
    rewrite Hr, elems_app, elems_Join, norm_app by done. rewrite norm_plain by done.
    by rewrite reverse_involutive, <- Hel. }
  assert (Hns : rooted (Join (x :: rel) "/") = false) by by apply rooted_elem.
  assert (Hts : TrimPrefix (Join (x :: rel) "/") "/" = Join (x :: rel) "/").
  { unfold TrimPrefix. destruct (strip "/" _) as [t|] eqn:Ht; [|done]. apply strip_Some in Ht.
    rewrite Ht in Hns. done. }
  destruct (elems root) as [|y l] eqn:HE.
  - destruct (rooted root); [|done]. rewrite Hb. rewrite Hroot at 1. exact Hts.
  - assert (Hst : below root (x :: rel) = (root +:+ String slash (Join (x :: rel) "/"))%string).
    { rewrite Hb. rewrite Hroot at 2. unfold render. rewrite Join_app_str by done.
      assert (Hy : Join (y :: l) "/" ≠ "").
      { pose proof (elems_shape root) as Hsh. rewrite HE in Hsh. apply elems_Join in Hsh. intros Hz. by rewrite Hz in Hsh. }
      destruct (Join (y :: l) "/") as [|b q]; [done|]. destruct (rooted root); rewrite !decide_False by done; done. }
    unfold TrimPrefix at 2. rewrite Hst.
    assert (H : strip root (root +:+ String slash (Join (x :: rel) "/"))%string = Some (String slash (Join (x :: rel) "/")))
      by by apply strip_Some.
    rewrite H. done.
Qed.
End clean.
