(* ===== verification/Duration.v ===== *)
(** * Durations in JSON (internal/sshx/spec.go)

    [Duration.UnmarshalJSON] accepts a JSON string, parsed by [time.ParseDuration],
    or a bare number of nanoseconds, parsed digit by digit in int64 arithmetic
    whose wrap-around is written out.  [time.ParseDuration] is the standard
    library's: its uint64 overflow checks are kept, and the float64 product that
    scales a fraction is computed by [SpecFloat]. *)

From S2P Require Import Prelude GoStrings.
From Stdlib Require Import Ascii String.
From Stdlib Require Import Floats.SpecFloat.

(** ** Machine integers *)
Definition wrap64 (z : Z) : Z := (z + 2 ^ 63) mod 2 ^ 64 - 2 ^ 63.
Definition wrapu64 (z : Z) : Z := z mod 2 ^ 64.

(** ** [time.ParseDuration] *)

(** [leadingInt]: the digits in front, and what follows them. *)
Fixpoint leadingInt (x : Z) (s : string) : option (Z * string) :=
  match s with
  | "" => Some (x, "")
  | String a s' =>
    match digit a with
    | None => Some (x, s)
    | Some d =>
      if bool_decide (x > 2 ^ 63 / 10) then None
      else if bool_decide (x * 10 + d > 2 ^ 63) then None
      else leadingInt (x * 10 + d) s'
    end
  end.

(** [leadingFraction]: digits that would overflow are read and ignored. *)
Fixpoint leadingFraction (x scale : Z) (overflow : bool) (s : string) : Z * Z * string :=
  match s with
  | "" => (x, scale, "")
  | String a s' =>
    match digit a with
    | None => (x, scale, s)
    | Some d =>
      if overflow || bool_decide (x > (2 ^ 63 - 1) / 10) || bool_decide (x * 10 + d > 2 ^ 63)
      then leadingFraction x scale true s'
      else leadingFraction (x * 10 + d) (scale * 10) false s'
    end
  end.

(** [uint64(float64(f) * (float64(unit) / scale))] *)
Definition float64 (z : Z) : spec_float := binary_normalize 53 1024 z 0 false.
Definition trunc_float (x : spec_float) : Z :=
  match x with S754_finite false m e => Z.shiftl (Zpos m) e | _ => 0 end.
Definition scale_fraction (f unit scale : Z) : Z :=
  trunc_float (SFmul 53 1024 (float64 f) (SFdiv 53 1024 (float64 unit) (float64 scale))).

Definition unitMap (u : string) : option Z :=
  if decide (u = "ns") then Some 1
  else if decide (u = "us") then Some 1000
  else if decide (u = String "194" (String "181" "s")) then Some 1000
  else if decide (u = String "206" (String "188" "s")) then Some 1000
  else if decide (u = "ms") then Some 1000000
  else if decide (u = "s") then Some 1000000000
  else if decide (u = "m") then Some 60000000000
  else if decide (u = "h") then Some 3600000000000
  else None.

(** The unit: the bytes before the next digit or dot. *)
Definition dot : ascii := "."%char.
Fixpoint span_unit (s : string) : string * string :=
  match s with
  | "" => ("", "")
  | String a s' =>
    if bool_decide (a = dot) || bool_decide (is_Some (digit a)) then ("", s)
    else let '(u, r) := span_unit s' in (String a u, r)
  end.

Definition bad_duration (orig : string) : error := Fmt "time: invalid duration %q" [orig].

(** One number and its unit: nanoseconds, at most [2^63], and the rest. *)
Definition duration_item (orig s : string) : error + (Z * string) :=
  match s with
  | "" => inl (bad_duration orig)
  | String a _ =>
    if negb (bool_decide (a = dot) || bool_decide (is_Some (digit a))) then inl (bad_duration orig) else
    match leadingInt 0 s with
    | None => inl (bad_duration orig)
    | Some (v, s1) =>
      let pre := bool_decide (String.length s1 ≠ String.length s) in
      let '(f, scale, post, s2) :=
        match s1 with
        | String b s1' =>
          if decide (b = dot) then
            let '(f, scale, s2) := leadingFraction 0 1 false s1' in
            (f, scale, bool_decide (String.length s2 ≠ String.length s1'), s2)
          else (0, 1, false, s1)
        | "" => (0, 1, false, s1)
        end in
      if negb pre && negb post then inl (bad_duration orig) else
      let '(u, s3) := span_unit s2 in
      if decide (u = "") then inl (Fmt "time: missing unit in duration %q" [orig]) else
      match unitMap u with
      | None => inl (Fmt "time: unknown unit %q in duration %q" [u; orig])
      | Some unit =>
        if bool_decide (v > 2 ^ 63 / unit) then inl (bad_duration orig) else
        let v := v * unit in
        let v := if bool_decide (f > 0) then wrapu64 (v + scale_fraction f unit scale) else v in
        if bool_decide (f > 0) && bool_decide (v > 2 ^ 63) then inl (bad_duration orig)
        else inr (v, s3)
      end
    end
  end.

Fixpoint duration_items (fuel : nat) (orig : string) (d : Z) (s : string) : error + Z :=
  match s, fuel with
  | "", _ => inr d
  | _, O => inl (Msg "out of fuel")
  | _, S fuel =>
    match duration_item orig s with
    | inl e => inl e
    | inr (v, s') =>
      let d := wrapu64 (d + v) in
      if bool_decide (d > 2 ^ 63) then inl (bad_duration orig) else duration_items fuel orig d s'
    end
  end.

Definition ParseDuration (s : string) : error + Z :=
  let '(neg, body) :=
    match s with
    | String a s' =>
      if decide (a = "-"%char) then (true, s') else if decide (a = "+"%char) then (false, s')
      else (false, s)
    | "" => (false, s)
    end in
  if decide (body = "0") then inr 0 else
  if decide (body = "") then inl (bad_duration s) else
  match duration_items (String.length body) s 0 body with
  | inl e => inl e
  | inr d =>
    if (neg : bool) then inr (wrap64 (- wrap64 d))
    else if bool_decide (d > 2 ^ 63 - 1) then inl (bad_duration s) else inr d
  end.

(** ** [Duration.UnmarshalJSON] *)
Definition dq : ascii := "034"%char.

(** The digit loop: [next < ns] is how the code sees the int64 overflow. *)
Fixpoint digits_loop (orig : string) (ns : Z) (b : string) : error + Z :=
  match b with
  | "" => inr ns
  | String c b' =>
    match digit c with
    | None => inl (Fmt "duration %q is not a string or non-negative integer (nanoseconds)" [orig])
    | Some d =>
      let next := wrap64 (wrap64 (ns * 10) + d) in
      if bool_decide (next < ns) then inl (Fmt "duration %q overflows int64 nanoseconds" [orig])
      else digits_loop orig next b'
    end
  end.

Definition UnmarshalJSON (b : string) : error + Z :=
  let integer :=
    if decide (b = "") then inl (Msg "empty duration") else
    if bool_decide (19 < String.length b)%nat
    then inl (Fmt "duration %q overflows int64 nanoseconds" [b])
    else digits_loop b 0 b in
  match b with
  | String a b' =>
    if bool_decide (2 ≤ String.length b)%nat && bool_decide (a = dq) then
      let s := take_str (String.length b' - 1) b' in
      match ParseDuration s with
      | inl e => inl e
      | inr v => if bool_decide (v < 0) then inl (Fmt "duration %q is negative" [s]) else inr v
      end
    else integer
  | "" => integer
  end.

(** ** Facts *)
Lemma wrap64_id z : - 2 ^ 63 ≤ z < 2 ^ 63 → wrap64 z = z.
Proof. intros H. unfold wrap64. rewrite Z.mod_small; lia. Qed.
Lemma wrap64_over z : 2 ^ 63 ≤ z < 2 ^ 64 → wrap64 z = z - 2 ^ 64.
Proof. intros H. unfold wrap64.
  replace (z + 2 ^ 63) with (z - 2 ^ 63 + 1 * 2 ^ 64) by lia.
  rewrite Z.mod_add, Z.mod_small; lia.
Qed.
Lemma wrap64_add a d : wrap64 (wrap64 a + d) = wrap64 (a + d).
Proof.
  unfold wrap64. replace (_ - 2 ^ 63 + d + 2 ^ 63) with ((a + 2 ^ 63) mod 2 ^ 64 + d) by lia.
  rewrite Z.add_mod_idemp_l by lia. f_equal. f_equal. lia.
Qed.

(** One step of the digit loop: exact below [2^63], negative above. *)
Lemma loop_step ns d : 0 ≤ ns < 10 ^ 18 → 0 ≤ d < 10 →
  wrap64 (wrap64 (ns * 10) + d) =
  if bool_decide (ns * 10 + d < 2 ^ 63) then ns * 10 + d else ns * 10 + d - 2 ^ 64.
Proof.
  intros Hn Hd. rewrite wrap64_add. case_bool_decide.
  - apply wrap64_id. lia.
  - apply wrap64_over. lia.
Qed.

Lemma digits_loop_spec o b ns v : 0 ≤ ns < 2 ^ 63 → (String.length b ≤ 19)%nat →
  ns < 10 ^ (19 - Z.of_nat (String.length b)) →
  digits_loop o ns b = inr v ↔ digits_val 10 ns b = Some v ∧ v < 2 ^ 63.
Proof.
  revert ns. induction b as [|c b IH]; intros ns Hns Hlen Hb.
  { simpl. split; [intros [= <-]; split; [done|lia]|intros [[= <-] _]; done]. }
  cbn [digits_loop digits_val String.length] in *.
  destruct (digit c) as [d|] eqn:Hd; [|naive_solver]. apply digit_range in Hd as Hd'.
  assert (H18 : ns < 10 ^ 18).
  { eapply Z.lt_le_trans; [exact Hb|]. apply Z.pow_le_mono_r; lia. }
  rewrite loop_step by lia. rewrite (bool_decide_eq_true_2 (d < 10)) by lia.
  destruct (decide (ns * 10 + d < 2 ^ 63)) as [Hlt|Hge].
  - rewrite (bool_decide_eq_true_2 _ Hlt). rewrite bool_decide_eq_false_2 by lia. apply IH; [lia|lia|].
    replace (19 - Z.of_nat (S (String.length b))) with (Z.pred (19 - Z.of_nat (String.length b))) in Hb by lia.
    replace (19 - Z.of_nat (String.length b)) with (Z.succ (Z.pred (19 - Z.of_nat (String.length b)))) by lia.
    rewrite Z.pow_succ_r by lia. lia.
  - rewrite (bool_decide_eq_false_2 _ Hge), bool_decide_eq_true_2 by lia.
    split; [done|]. intros [Hv Hlim]. apply digits_val_le in Hv; lia.
Qed.

(** The text of a number is read back, up to [2^63]. *)
Lemma leadingInt_val p x n r : 0 ≤ x → digits_val 10 x p = Some n →
  (match r with String a _ => digit a | "" => None end) = None →
  leadingInt x (p +:+ r) = if bool_decide (n ≤ 2 ^ 63) then Some (n, r) else if decide (p = "") then Some (n, r) else None.
Proof.
  revert x. induction p as [|a p IH]; intros x Hx; simpl.
  - intros [= ->] Hr. destruct r as [|a r]; simpl; [by case_bool_decide|]. rewrite Hr. by case_bool_decide.
  - destruct (digit a) as [d|] eqn:Hd; [|done]. apply digit_range in Hd.
    rewrite (bool_decide_eq_true_2 (d < 10)) by lia. intros Hv Hr.
    pose proof (digits_val_le (x * 10 + d) p n ltac:(lia) Hv) as Hle.
    assert (Hdiv : x > 2 ^ 63 / 10 → x * 10 > 2 ^ 63) by (intros; pose proof (Z.mul_succ_div_gt (2 ^ 63) 10 ltac:(lia)); lia).
    destruct (decide (x * 10 + d ≤ 2 ^ 63)) as [Hs|Hs].
    + rewrite (bool_decide_eq_false_2 (x > _)) by lia. rewrite (bool_decide_eq_false_2 (_ > _)) by lia.
      rewrite (IH (x * 10 + d)) by (done || lia). case_bool_decide as Hn; [done|].
      destruct (decide (p = "")) as [->|]; [|done]. simpl in Hv. injection Hv as Hv; lia.
    + rewrite (bool_decide_eq_false_2 (n ≤ _)) by lia.
      repeat case_bool_decide; done || lia.
Qed.

(** ** What a timeout in a request means *)

(** A bare JSON number is accepted exactly when it is all digits, at most 19
    of them, and its value fits an int64; its value is then the duration in
    nanoseconds, leading zeros included. *)
Theorem unmarshal_integer_exact a b v (Ha : a ≠ dq) :
  UnmarshalJSON (String a b) = inr v ↔
  (String.length (String a b) ≤ 19)%nat ∧ digits_val 10 0 (String a b) = Some v ∧ v < 2 ^ 63.
Proof.
  unfold UnmarshalJSON. rewrite (bool_decide_eq_false_2 (a = dq)), andb_false_r by done.
  rewrite decide_False by done.
  set (s := String a b). case_bool_decide as Hlen.
  - split; [done|lia].
  - assert (Hz : 0 < 10 ^ (19 - Z.of_nat (String.length s))) by (apply Z.pow_pos_nonneg; lia).
    rewrite digits_loop_spec by (done || lia). naive_solver lia.
Qed.
Lemma unmarshal_integer_exact_witness :
  UnmarshalJSON "9223372036854775807" = inr (2 ^ 63 - 1) ∧
  ¬ UnmarshalJSON "9223372036854775808" = inr (2 ^ 63).
Proof.
  split.
  - apply (unmarshal_integer_exact "9"%char "223372036854775807" (2 ^ 63 - 1)); [done|].
    split; [|split]; vm_compute; (done || lia).
  - intros H. apply (unmarshal_integer_exact "9"%char "223372036854775808" (2 ^ 63)) in H; [|done].
    destruct H as (_ & _ & H). vm_compute in H. done.
Defined.

Lemma span_unit_known u k : unitMap u = Some k → span_unit u = (u, "") ∧ u ≠ "".
Proof.
  unfold unitMap. repeat case_decide; intros H'; try discriminate H'; subst; (split; [by vm_compute|done]).
Qed.
Lemma unit_pos u k : unitMap u = Some k → 1 ≤ k.
Proof. unfold unitMap. repeat case_decide; intros [= <-]; lia. Qed.
Lemma unit_front u k : unitMap u = Some k →
  ∃ a r, u = String a r ∧ digit a = None ∧ a ≠ dot.
Proof. unfold unitMap. repeat case_decide; intros [= <-]; subst; eexists _, _; done. Qed.

(** A whole number followed by its unit is one item. *)
Lemma duration_item_whole orig n u k : 0 ≤ n → unitMap u = Some k →
  duration_item orig (utoa n +:+ u) =
  if bool_decide (n * k ≤ 2 ^ 63) then inr (n * k, "") else inl (bad_duration orig).
Proof.
  intros Hn Hu. destruct (span_unit_known u k Hu) as [Hspan Hne].
  destruct (unit_front u k Hu) as (a & r & -> & Ha & Hdot). pose proof (unit_pos _ _ Hu) as Hk.
  pose proof (utoa_val n Hn) as Hv. pose proof (utoa_nonempty n Hn) as He.
  assert (Hlead : leadingInt 0 (utoa n +:+ String a r) =
    if bool_decide (n ≤ 2 ^ 63) then Some (n, String a r) else None).
  { rewrite (leadingInt_val (utoa n) 0 n) by done. by rewrite (decide_False _ _ He). }
  assert (Hlen : String.length (String a r) ≠ String.length (utoa n +:+ String a r)).
  { rewrite length_app_str. destruct (utoa n); [done|simpl; lia]. }
  unfold duration_item. destruct (utoa n +:+ String a r) as [|c t] eqn:Heq.
  { destruct (utoa n); done. }
  assert (Hc : is_Some (digit c)).
  { destruct (utoa n) as [|c' t']; [done|]. injection Heq as -> _. simpl in Hv.
    destruct (digit c); [done|discriminate Hv]. }
  rewrite (bool_decide_eq_true_2 (is_Some _) Hc), orb_true_r, Hlead. cbn [negb].
  assert (Hdiv : n * k ≤ 2 ^ 63 → n ≤ 2 ^ 63 / k) by (intros; apply Z.div_le_lower_bound; lia).
  assert (Hdiv' : n ≤ 2 ^ 63 / k → n * k ≤ 2 ^ 63).
  { intros H1. pose proof (Z.mul_div_le (2 ^ 63) k ltac:(lia)). nia. }
  destruct (decide (n ≤ 2 ^ 63)) as [Hle|Hgt].
  - rewrite (bool_decide_eq_true_2 _ Hle), decide_False by done.
    rewrite (bool_decide_eq_true_2 _ Hlen), Hspan, decide_False, Hu by done. cbn [negb andb].
    rewrite (bool_decide_eq_false_2 (0 > 0)) by lia. cbn [andb].
    repeat case_bool_decide; done || lia.
  - rewrite (bool_decide_eq_false_2 _ Hgt), bool_decide_eq_false_2 by nia. done.
Qed.

Lemma ParseDuration_whole n u k : 0 ≤ n → unitMap u = Some k →
  ParseDuration (utoa n +:+ u) =
  if bool_decide (n * k < 2 ^ 63) then inr (n * k) else inl (bad_duration (utoa n +:+ u)).
Proof.
  intros Hn Hu. pose proof (utoa_val n Hn) as Hv. pose proof (utoa_nonempty n Hn) as He.
  pose proof (unit_pos _ _ Hu) as Hk.
  unfold ParseDuration. destruct (unit_front u k Hu) as (a & r & -> & Ha & Hdot).
  set (s := utoa n +:+ String a r).
  assert (Hs : ∃ c t, s = String c t ∧ is_Some (digit c)).
  { subst s. destruct (utoa n) as [|c t]; [done|]. exists c, (t +:+ String a r). split; [done|].
    simpl in Hv. destruct (digit c); [done|discriminate Hv]. }
  destruct Hs as (c & t & Heq & Hc).
  assert (Hsign : match s with
     | String a s' => if decide (a = "-"%char) then (true, s') else if decide (a = "+"%char) then (false, s') else (false, s)
     | "" => (false, s) end = (false, s)).
  { rewrite Heq. rewrite !decide_False; [done| |]; intros ->; destruct Hc as [? Hc]; discriminate Hc. }
  rewrite Hsign. cbv iota.
  rewrite decide_False.
  2:{ intros Hx. apply (f_equal String.length) in Hx. unfold s in Hx. rewrite length_app_str in Hx.
      destruct (utoa n); [done|simpl in Hx; lia]. }
  rewrite decide_False by (rewrite Heq; done).
  assert (Hit : ∀ f, duration_items (S f) s 0 s =
    if bool_decide (n * k ≤ 2 ^ 63) then inr (n * k) else inl (bad_duration s)).
  { intros f. rewrite Heq at 2. cbn [duration_items]. rewrite <- Heq. unfold s at 2.
    rewrite (duration_item_whole s n (String a r) k Hn Hu). case_bool_decide as Hle; [|done].
    unfold wrapu64. rewrite Z.add_0_l, Z.mod_small by lia. rewrite bool_decide_eq_false_2 by lia.
    by destruct f. }
  destruct (String.length s) as [|f] eqn:Hl; [by rewrite Heq in Hl|]. rewrite Hit.
  repeat case_bool_decide; try done; lia.
Qed.

Lemma quoted_take a s : take_str (String.length (s +:+ String a "") - 1) (s +:+ String a "") = s.
Proof.
  rewrite length_app_str. simpl. replace (String.length s + 1 - 1)%nat with (String.length s) by lia.
  induction s as [|c s IH]; simpl; [done|]. by rewrite IH.
Qed.

(** A quoted whole number with its unit ([15s], [500ms], [2h]) is that many
    nanoseconds when they fit an int64, and an error otherwise; nothing wraps
    around to a shorter timeout. *)
Theorem unmarshal_unit_exact n u k (Hn : 0 ≤ n) (Hu : unitMap u = Some k) v :
  UnmarshalJSON (String dq ((utoa n +:+ u) +:+ String dq "")) = inr v ↔
  v = n * k ∧ n * k < 2 ^ 63.
Proof.
  pose proof (unit_pos _ _ Hu) as Hk. unfold UnmarshalJSON.
  rewrite (bool_decide_eq_true_2 (dq = dq)) by done.
  rewrite bool_decide_eq_true_2; [|cbn [String.length]; rewrite !length_app_str; simpl; lia].
  cbn [andb]. rewrite quoted_take, (ParseDuration_whole n u k Hn Hu).
  destruct (decide (n * k < 2 ^ 63)) as [Hlt|Hge].
  - rewrite (bool_decide_eq_true_2 _ Hlt). rewrite bool_decide_eq_false_2 by nia. naive_solver.
  - rewrite (bool_decide_eq_false_2 _ Hge). naive_solver.
Qed.
Lemma unmarshal_unit_exact_witness :
  UnmarshalJSON (String dq (("15" +:+ "s") +:+ String dq "")) = inr 15000000000 ∧
  ¬ UnmarshalJSON (String dq (("2562048" +:+ "h") +:+ String dq "")) = inr (2562048 * 3600000000000).
Proof.
  split.
  - apply (unmarshal_unit_exact 15 "s" 1000000000 ltac:(lia) eq_refl). lia.
  - intros H. apply (unmarshal_unit_exact 2562048 "h" 3600000000000 ltac:(lia) eq_refl) in H. lia.
Defined.
