(* ===== verification/Containers.v ===== *)
(** * Docker containers and images (internal/dockerx)

    container.go (list, lifecycle, logs, exec), image.go (list, pull, remove) and
    run.go (create and start from scratch, with the port syntax of the Docker
    command line).  A Go map that the code ranges over is the list of its entries
    in the order of that iteration.  [network.PortFrom] is a parameter. *)

From S2P Require Import Docker.
From S2P Require Import Prelude GoStrings Url External Spec Auth World Ledger Session DockerProps.
From Stdlib Require Import Ascii String.

(** The client of a registered host, then code that talks to the daemon. *)
Definition with_client {A} (l : loc) (k : rid → M Net A) : M DWorld A :=
  c ← host_client l; dnetM (k c).

(** ** container.go *)
Record ContainerPort := mkContainerPort {
  cp_IP : string;
  cp_PrivatePort : Z;
  cp_PublicPort : Z;
  cp_Type : string;
}.
Record ContainerSummary := mkContainerSummary {
  cs_ID : string;
  cs_Names : list string;
  cs_Image : string;
  cs_Command : string;
  cs_State : string;
  cs_Status : string;
  cs_Created : Z;
  cs_Ports : list ContainerPort;
  cs_Labels : list (string * string);
}.
Record ContainerRow := mkContainerRow {
  cr_ID : string;
  cr_Name : string;
  cr_Image : string;
  cr_State : string;
  cr_Status : string;
  cr_Ports : string;
}.

Definition port_text (p : ContainerPort) : string :=
  (if decide (cp_PublicPort p ≠ 0) then
     if decide (cp_IP p ≠ "")
     then cp_IP p +:+ ":" +:+ utoa (cp_PublicPort p) +:+ "->" +:+ utoa (cp_PrivatePort p) +:+ "/" +:+ cp_Type p
     else utoa (cp_PublicPort p) +:+ "->" +:+ utoa (cp_PrivatePort p) +:+ "/" +:+ cp_Type p
   else utoa (cp_PrivatePort p) +:+ "/" +:+ cp_Type p)%string.

Definition container_Row (c : ContainerSummary) : ContainerRow :=
  let id := if bool_decide (12 < String.length (cs_ID c))%nat then take_str 12 (cs_ID c) else cs_ID c in
  let name := match cs_Names c with n :: _ => TrimPrefix n "/" | [] => "" end in
  mkContainerRow id name (cs_Image c) (cs_State c) (cs_Status c)
    (Join (map port_text (cs_Ports c)) ",").

Definition summaryToOurs (s : ContainerItem) : ContainerSummary :=
  mkContainerSummary (ci_ID s) (ci_Names s) (ci_Image s) (ci_Command s) (ci_State s) (ci_Status s)
    (ci_Created s)
    (map (λ p, mkContainerPort (default "" (pi_IP p)) (pi_PrivatePort p) (pi_PublicPort p) (pi_Type p))
       (ci_Ports s))
    (ci_Labels s).

Record ListContainersOptions := mkListContainersOptions {
  lc_All : bool;
  lc_Limit : Z;
  lc_Filters : list (string * list string);
}.
Record LogsOptions := mkLogsOptions {
  lo_Tail : string;
  lo_Since : string;
  lo_Until : string;
  lo_Timestamps : bool;
  lo_Stdout : bool;
  lo_Stderr : bool;
}.
Record ExecOptions := mkExecOptions {
  eo_Cmd : list string;
  eo_WorkingDir : string;
  eo_Env : list (string * string);
  eo_User : string;
  eo_Stdin : string;
}.
Record ExecResult := mkExecResult {
  er_Stdout : string;
  er_Stderr : string;
  er_ExitCode : Z;
}.

(** [k+"="+v] for every entry *)
Definition env_pairs (env : list (string * string)) : list string :=
  map (λ '(k, v), (k +:+ "=" +:+ v)%string) env.

Section ops.
Context {E : Env}.

Definition ListContainers (l : loc) (opts : ListContainersOptions) : M DWorld (list ContainerSummary) :=
  with_client l (λ c,
    items ← call (ContainerList c (lc_All opts) (lc_Limit opts) (lc_Filters opts));
    mret (map summaryToOurs items)).

Definition Inspect (l : loc) (id : string) : M DWorld (option bool) :=
  with_client l (λ c, call (ContainerInspect c id)).
Definition Start (l : loc) (id : string) : M DWorld unit :=
  with_client l (λ c, call (ContainerStart c id)).
Definition Stop (l : loc) (id : string) (timeoutSec : option Z) : M DWorld unit :=
  with_client l (λ c, call (ContainerStop c id timeoutSec)).
Definition Restart (l : loc) (id : string) (timeoutSec : option Z) : M DWorld unit :=
  with_client l (λ c, call (ContainerRestart c id timeoutSec)).
Definition Kill (l : loc) (id signal : string) : M DWorld unit :=
  with_client l (λ c, call (ContainerKill c id signal)).
Definition Remove (l : loc) (id : string) (force removeVolumes : bool) : M DWorld unit :=
  with_client l (λ c, call (ContainerRemove c id force removeVolumes)).

(** The log text once the stream [rc] is open; it is closed on every path. *)
Definition read_logs (c : rid) (id : string) (rc : rid) : M Net string :=
  insp ← call (ContainerInspect c id);
  let tty := match insp with Some t => t | None => false end in
  if (tty : bool) then call (ReadAll rc)
  else
    '(out, stderr) ← call (StdCopy rc);
    if decide (stderr ≠ "") then
      mret (out +:+ String "010" ("--- STDERR ---" +:+ String "010" stderr))%string
    else mret out.

Definition Logs (l : loc) (id : string) (opts : LogsOptions) : M DWorld string :=
  with_client l (λ c,
    let none := negb (lo_Stdout opts) && negb (lo_Stderr opts) in
    '(rc, _) ← acquire (ContainerLogs c id (none || lo_Stdout opts) (none || lo_Stderr opts)
                          (lo_Timestamps opts) (lo_Tail opts) (lo_Since opts) (lo_Until opts));
    finally (read_logs c id rc) (closeR rc)).

(** Feed stdin, copy the output until it ends or the context does, then ask for
    the exit code. *)
Definition exec_attached (c : rid) (execID stdin : string) (attach : rid) : M Net ExecResult :=
  (if decide (stdin ≠ "") then ignore (call (WriteTo attach stdin));; ignore (call (CloseWrite attach))
   else mret tt);;
  r ← call (StdCopyUntil attach);
  match r with
  | CopyCtxDone e => fail e
  | Copied _ _ (Some e) => fail e
  | Copied out err None =>
    code ← call (ExecInspect c execID);
    mret (mkExecResult out err code)
  end.

Definition Exec (l : loc) (containerID : string) (opts : ExecOptions) : M DWorld ExecResult :=
  with_client l (λ c,
    match eo_Cmd opts with
    | [] => fail (Msg "cmd is required")
    | cmd =>
      execID ← wrapE "exec create: %w"
        (call (ExecCreate c containerID cmd (env_pairs (eo_Env opts)) (eo_User opts) (eo_WorkingDir opts)
                 (bool_decide (eo_Stdin opts ≠ "")) None));
      '(attach, _) ← wrapE "exec attach: %w" (acquire (ExecAttach c execID None));
      finally (exec_attached c execID (eo_Stdin opts) attach) (closeR attach)
    end).

(** ** image.go *)
Record ImageSummary := mkImageSummary {
  is_ID : string;
  is_RepoTags : list string;
  is_RepoDigests : list string;
  is_Created : Z;
  is_Size : Z;
  is_Labels : list (string * string);
}.
Record ImageRow := mkImageRow { ir_ID : string; ir_Tag : string; ir_Size : Z; ir_Created : Z }.

Definition image_Row (i : ImageSummary) : ImageRow :=
  let id := if bool_decide (19 < String.length (is_ID i))%nat then take_str 19 (is_ID i) else is_ID i in
  mkImageRow id (match is_RepoTags i with t :: _ => t | [] => "" end) (is_Size i) (is_Created i).

Definition ListImages (l : loc) (all : bool) : M DWorld (list ImageSummary) :=
  with_client l (λ c,
    items ← call (ImageList c all "");
    mret (map (λ im, mkImageSummary (im_ID im) (im_RepoTags im) (im_RepoDigests im) (im_Created im)
                       (im_Size im) (im_Labels im)) items)).

(** The decode loop: the last status and the last error of the stream. *)
Fixpoint pull_fold (lastStatus lastError : string) (msgs : list PullMsg) : string * string :=
  match msgs with
  | [] => (lastStatus, lastError)
  | m :: msgs =>
    let lastError :=
      if decide (pm_Error m ≠ "") then pm_Error m
      else if decide (pm_Detail m ≠ "") then pm_Detail m else lastError in
    let lastStatus := if decide (pm_Status m ≠ "") then pm_Status m else lastStatus in
    pull_fold lastStatus lastError msgs
  end.

(** The result of a pull from what the progress stream holds and how it ends:
    [None] is [io.EOF]. *)
Definition pull_result (msgs : list PullMsg) (ending : option error) : error + string :=
  let '(lastStatus, lastError) := pull_fold "" "" msgs in
  match ending with
  | Some e => inl (Wrap "decode pull progress: %w" [] e)
  | None => if decide (lastError ≠ "") then inl (Fmt "%s" [lastError]) else inr lastStatus
  end.

Definition PullImage (l : loc) (ref : string) : M DWorld string :=
  with_client l (λ c,
    '(res, _) ← acquire (ImagePull c ref);
    finally ('(msgs, ending) ← call (PullProgress res); of_sum (pull_result msgs ending)) (closeR res)).

Definition RemoveImage (l : loc) (ref : string) (force pruneChildren : bool) : M DWorld unit :=
  with_client l (λ c, call (ImageRemove c ref force pruneChildren)).
End ops.

(** ** run.go *)
Record RunOptions := mkRunOptions {
  ro_Image : string;
  ro_Name : string;
  ro_Cmd : list string;
  ro_Entrypoint : list string;
  ro_Env : list (string * string);
  ro_WorkingDir : string;
  ro_User : string;
  ro_Hostname : string;
  ro_Ports : list string;
  ro_Volumes : list string;
  ro_RestartPolicy : string;
  ro_AutoRemove : bool;
  ro_Labels : list (string * string);
  ro_NetworkMode : string;
  ro_Tty : bool;
  ro_PullIfMissing : bool;
}.
Record RunResult := mkRunResult { rr_ID : string; rr_Warnings : list string }.

(** [netip.ParseAddr] of a text without colon: four decimal fields of at most
    three digits, without leading zeros, up to 255.  The text of the parsed
    address is the text itself. *)
Definition ip4_field (f : string) : bool :=
  match ParseUint f 10 8 with
  | Some _ => bool_decide (String.length f = 1)%nat ||
              (negb (has_prefix "0" f) && bool_decide (String.length f ≤ 3)%nat)
  | None => false
  end.
Definition ParseAddr (s : string) : error + string :=
  match Split "."%char s with
  | [a; b; c; d] =>
    if ip4_field a && ip4_field b && ip4_field c && ip4_field d then inr s
    else inl (Fmt "ParseAddr(%q): unable to parse IP" [s])
  | _ => inl (Fmt "ParseAddr(%q): unable to parse IP" [s])
  end.

(** [exposed[port] = struct{}{}] *)
Definition expose (port : DockerPort) (exposed : list DockerPort) : list DockerPort :=
  if decide (port ∈ exposed) then exposed else exposed ++ [port].
(** [bindings[port] = append(bindings[port], b)] *)
Fixpoint bind_port (port : DockerPort) (b : PortBinding) (m : list (DockerPort * list PortBinding))
    : list (DockerPort * list PortBinding) :=
  match m with
  | [] => [(port, [b])]
  | (p, bs) :: m => if decide (p = port) then (p, bs ++ [b]) :: m else (p, bs) :: bind_port port b m
  end.

Section run.
Context {E : Env}.
Variable PortFrom : Z → string → option DockerPort.

Definition parsePortSpec (spec : string) : error + (DockerPort * option PortBinding) :=
  let '(spec, proto) :=
    match cut_last slash spec with Some (s, p) => (s, ToLower p) | None => (spec, "tcp") end in
  if negb (bool_decide (proto = "tcp" ∨ proto = "udp" ∨ proto = "sctp"))
  then inl (Fmt "unknown protocol %q" [proto]) else
  let '(hostIP, hostPort, cport) :=
    match Split colon spec with
    | [c] => ("", "", Some c)
    | [h; c] => ("", h, Some c)
    | [i; h; c] => (i, h, Some c)
    | _ => ("", "", None)
    end in
  match cport with
  | None => inl (Msg "too many `:` separators")
  | Some cport =>
    match ParseUint cport 10 16 with
    | None => inl (Fmt "invalid container port %q" [cport])
    | Some cn =>
      if decide (cn = 0) then inl (Fmt "invalid container port %q" [cport]) else
      match PortFrom cn proto with
      | None => inl (Msg "invalid container port spec")
      | Some port =>
        if decide (hostPort = "") then inr (port, None) else
        match ParseUint (default "" (head (Split "-"%char hostPort))) 10 16 with
        | None => inl (Fmt "invalid host port %q" [hostPort])
        | Some _ =>
          if decide (hostIP = "") then inr (port, Some (mkPortBinding "" hostPort)) else
          match ParseAddr hostIP with
          | inl e => inl (Wrap "invalid host ip %q: %w" [hostIP] e)
          | inr ip => inr (port, Some (mkPortBinding ip hostPort))
          end
        end
      end
    end
  end.

(** The loop over [opts.Ports] *)
Fixpoint run_ports (exposed : list DockerPort) (bindings : list (DockerPort * list PortBinding))
    (specs : list string) : error + (list DockerPort * list (DockerPort * list PortBinding)) :=
  match specs with
  | [] => inr (exposed, bindings)
  | spec :: specs =>
    match parsePortSpec spec with
    | inl e => inl (Wrap "parse port %q: %w" [spec] e)
    | inr (port, binding) =>
      run_ports (expose port exposed)
        (match binding with Some b => bind_port port b bindings | None => bindings end) specs
    end
  end.

Definition create_and_start (c : rid) (o : CreateOptions) : M Net RunResult :=
  '(id, warnings) ← wrapE "create: %w" (call (ContainerCreate c o));
  r ← try (call (ContainerStart c id));
  match r with
  | inl e => ignore (call (ContainerRemove c id true false));; fail (Wrap "start: %w" [] e)
  | inr _ => mret (mkRunResult id warnings)
  end.

Definition Run (l : loc) (opts : RunOptions) : M DWorld RunResult :=
  c ← host_client l;
  if decide (ro_Image opts = "") then fail (Msg "image is required") else
  (if ro_PullIfMissing opts then
     res ← dnetM (try (call (ImageList c false (ro_Image opts))));
     match res with
     | inr (_ :: _) => mret tt
     | _ =>
       wrapA "pull %s: %w" [ro_Image opts] (PullImage l (ro_Image opts));; mret tt
     end
   else mret tt);;
  '(exposed, bindings) ← of_sum (run_ports [] [] (ro_Ports opts));
  dnetM (create_and_start c
    (mkCreateOptions (ro_Image opts) (ro_Cmd opts) (ro_Entrypoint opts) (env_pairs (ro_Env opts))
       (ro_WorkingDir opts) (ro_User opts) (ro_Hostname opts) (ro_Labels opts) (ro_Tty opts)
       exposed bindings (ro_Volumes opts) (ro_AutoRemove opts) (ro_NetworkMode opts)
       (if decide (ro_RestartPolicy opts = "") then None else Some (ro_RestartPolicy opts))
       (ro_Name opts))).
End run.

(** ** The port syntax *)

(** The forms of the command line: an optional IPv4 address, an optional host
    port, the container port and an optional protocol. *)
Definition ip4 : Type := Z * Z * Z * Z.
Definition ip4_ok (i : ip4) : Prop :=
  let '(a, b, c, d) := i in 0 ≤ a < 256 ∧ 0 ≤ b < 256 ∧ 0 ≤ c < 256 ∧ 0 ≤ d < 256.
Definition ip4_text (i : ip4) : string :=
  let '(a, b, c, d) := i in
  (utoa a +:+ String "." (utoa b +:+ String "." (utoa c +:+ String "." (utoa d))))%string.
Definition port_form (ip : option ip4) (host : option Z) (cont : Z) (proto : option string) : string :=
  ((match ip, host with
    | Some i, Some h => ip4_text i +:+ String colon (utoa h +:+ String colon (utoa cont))
    | Some i, None => ip4_text i +:+ String colon (String colon (utoa cont))
    | None, Some h => utoa h +:+ String colon (utoa cont)
    | None, None => utoa cont
    end) +:+ match proto with Some p => String slash p | None => "" end)%string.

Lemma octet_ok a : 0 ≤ a < 256 → ip4_field (utoa a) = true.
Proof.
  intros Ha. assert (Hall : forallb (λ n, ip4_field (utoa (Z.of_nat n))) (seq 0 256) = true) by (vm_compute; done).
  rewrite forallb_forall in Hall. rewrite <- (Z2Nat.id a) by lia. apply Hall, in_seq. lia.
Qed.
Lemma ip4_no c i : ip4_ok i → digit c = None → c ≠ "."%char → In_str c (ip4_text i) = false.
Proof.
  destruct i as [[[a b] c'] d]. intros (Ha & Hb & Hc & Hd) Hdig Hdot. simpl.
  rewrite !In_str_app. cbn [In_str]. rewrite !In_str_app. cbn [In_str]. rewrite !In_str_app. cbn [In_str].
  rewrite !(utoa_no c), (bool_decide_eq_false_2 ("."%char = c)) by (done || lia). done.
Qed.
Lemma ParseAddr_ip4 i : ip4_ok i → ParseAddr (ip4_text i) = inr (ip4_text i).
Proof.
  destruct i as [[[a b] c] d]. intros (Ha & Hb & Hc & Hd). unfold ParseAddr. simpl.
  rewrite !Split_app, Split_no by (apply utoa_no; (done || lia)). by rewrite !octet_ok.
Qed.
Lemma ip4_nonempty i : ip4_ok i → ip4_text i ≠ "".
Proof.
  destruct i as [[[a b] c] d]. intros (Ha & _) H. pose proof (utoa_nonempty a ltac:(lia)).
  simpl in H. by destruct (utoa a).
Qed.

(** Cutting the protocol off *)
Lemma proto_no_slash p : ToLower p = "tcp" ∨ ToLower p = "udp" ∨ ToLower p = "sctp" → In_str slash p = false.
Proof.
  assert (H : ∀ p, In_str slash p = true → In_str slash (ToLower p) = true).
  { intros q. induction q as [|a q IH]; simpl; [done|]. intros [Ha%bool_decide_eq_true|Hq]%orb_true_elim.
    - subst a. done.
    - rewrite IH by done. apply orb_true_r. }
  intros Hp. destruct (In_str slash p) eqn:Hs; [|done]. apply H in Hs.
  by destruct Hp as [E|[E|E]]; rewrite E in Hs.
Qed.

Section ports.
Variable PortFrom : Z → string → option DockerPort.
Hypothesis PortFrom_known : ∀ n p, 0 < n < 65536 → p = "tcp" ∨ p = "udp" ∨ p = "sctp" →
  PortFrom n p = Some (n, p).

(** A port specification of the Docker command line is read as what it says:
    container port, protocol (in any case, tcp when absent) and host binding; a
    port outside 1-65535 inside the container, or above 65535 on the host, is
    refused.  An address without a host port ([127.0.0.1::80]) is accepted too,
    but then nothing is bound. *)
Theorem parsePortSpec_docker_cli ip host cont proto
    (Hip : from_option ip4_ok True ip) (Hhost : from_option (Z.le 0) True host) (Hcont : 0 ≤ cont)
    (Hproto : from_option (λ p, ToLower p = "tcp" ∨ ToLower p = "udp" ∨ ToLower p = "sctp") True proto) :
  parsePortSpec PortFrom (port_form ip host cont proto) =
  if bool_decide (1 ≤ cont < 65536) then
    let port := (cont, from_option ToLower "tcp" proto) in
    match host with
    | None => inr (port, None)
    | Some h =>
      if bool_decide (h < 65536) then inr (port, Some (mkPortBinding (from_option ip4_text "" ip) (utoa h)))
      else inl (Fmt "invalid host port %q" [utoa h])
    end
  else inl (Fmt "invalid container port %q" [utoa cont]).
Proof.
  unfold parsePortSpec, port_form.
  set (body := match ip, host with Some i, Some h => _ | Some i, None => _ | None, Some h => _ | None, None => _ end).
  assert (Hc : ∀ c, digit c = None → In_str c (utoa cont) = false) by (intros; by apply utoa_no).
  assert (Hh : ∀ h c, 0 ≤ h → digit c = None → In_str c (utoa h) = false) by (intros; by apply utoa_no).
  assert (Hb : In_str slash body = false).
  { unfold body. destruct ip as [i|], host as [h|]; simpl in *;
      repeat first [rewrite In_str_app | progress cbn [In_str]];
      rewrite ?ip4_no, ?Hh, ?Hc by done; done. }
  assert (Hcut : (match cut_last slash (body +:+ match proto with Some p => String slash p | None => "" end)
     with Some (s, p) => (s, ToLower p) | None => (body +:+ match proto with Some p => String slash p | None => "" end, "tcp") end)
     = (body, from_option ToLower "tcp" proto)).
  { destruct proto as [p|]; simpl in *.
    - by rewrite cut_last_app by (by apply proto_no_slash).
    - rewrite app_nil_r_str. apply cut_last_None in Hb. by rewrite Hb. }
  rewrite Hcut. cbv beta iota.
  assert (Hpr : from_option ToLower "tcp" proto = "tcp" ∨ from_option ToLower "tcp" proto = "udp" ∨
                from_option ToLower "tcp" proto = "sctp") by (destruct proto; simpl in *; auto).
  rewrite (bool_decide_eq_true_2 _ Hpr). cbn [negb].
  assert (Hsplit : Split colon body = match ip, host with
     | Some i, Some h => [ip4_text i; utoa h; utoa cont] | Some i, None => [ip4_text i; ""; utoa cont]
     | None, Some h => [utoa h; utoa cont] | None, None => [utoa cont] end).
  { unfold body. destruct ip as [i|], host as [h|]; simpl in *;
      rewrite ?(Split_app colon (ip4_text i)) by (by apply ip4_no); 
      rewrite ?Split_app by (by apply Hh); simpl; rewrite ?Split_no by (by apply Hc); try done. }
  rewrite Hsplit.
  assert (Hhd : ∀ h, 0 ≤ h → default "" (head (Split "-"%char (utoa h))) = utoa h)
    by (intros; by rewrite Split_no by (by apply Hh)).
  assert (Hhp : ∀ h, 0 ≤ h → ParseUint (utoa h) 10 16 = if bool_decide (h < 65536) then Some h else None).
  { intros h Hh0. case_bool_decide; [by apply ParseUint_utoa|]. unfold ParseUint.
    rewrite decide_False by (by apply utoa_nonempty). rewrite utoa_val by done.
    by rewrite bool_decide_eq_false_2 by lia. }
  destruct (decide (1 ≤ cont < 65536)) as [Hr|Hr].
  - rewrite (bool_decide_eq_true_2 _ Hr). 
    destruct ip as [i|], host as [h|]; simpl in Hip, Hhost |- *; rewrite Hhp by done;
      rewrite bool_decide_eq_true_2 by lia; rewrite decide_False by lia; rewrite PortFrom_known by (done || lia).
    + rewrite (decide_False _ _ (utoa_nonempty h Hhost)), Hhd, Hhp by done. case_bool_decide; [|done].
      by rewrite (decide_False _ _ (ip4_nonempty i Hip)), ParseAddr_ip4.
    + done.
    + rewrite (decide_False _ _ (utoa_nonempty h Hhost)), Hhd, Hhp by done. by case_bool_decide.
    + done.
  - rewrite (bool_decide_eq_false_2 _ Hr).
    destruct ip as [i|], host as [h|]; simpl; rewrite Hhp by done;
      (case_bool_decide; [rewrite decide_True by lia|]; done).
Qed.
End ports.

Lemma parsePortSpec_docker_cli_witness :
  let PortFrom := λ n p, Some (n, p) in
  parsePortSpec PortFrom "127.0.0.1:8080:80/TCP" =
    inr ((80, "tcp"), Some (mkPortBinding "127.0.0.1" "8080")) ∧
  parsePortSpec PortFrom "127.0.0.1::80" = inr ((80, "tcp"), None) ∧
  parsePortSpec PortFrom "8080:0" = inl (Fmt "invalid container port %q" ["0"]).
Proof.
  split; [|split].
  - apply (parsePortSpec_docker_cli (λ n p, Some (n, p)) ltac:(done) (Some (127, 0, 0, 1)) (Some 8080) 80 (Some "TCP"));
      simpl; (lia || by left).
  - apply (parsePortSpec_docker_cli (λ n p, Some (n, p)) ltac:(done) (Some (127, 0, 0, 1)) None 80 None);
      simpl; (lia || done).
  - apply (parsePortSpec_docker_cli (λ n p, Some (n, p)) ltac:(done) None (Some 8080) 0 None);
      simpl; (lia || done).
Defined.

(** ** The port bindings of a container *)

(** What the parsed specifications [l] bind to [p], in the order they were given. *)
Definition bound (p : DockerPort) (l : list (DockerPort * option PortBinding)) : list PortBinding :=
  l ≫= λ '(q, b), if decide (q = p) then option_list b else [].
Definition bindings_of (p : DockerPort) (m : list (DockerPort * list PortBinding)) : list PortBinding :=
  m ≫= λ '(q, bs), if decide (q = p) then bs else [].

Lemma bindings_of_cons p q bs m :
  bindings_of p ((q, bs) :: m) = (if decide (q = p) then bs else []) ++ bindings_of p m.
Proof. done. Qed.
Lemma bindings_of_absent p m : p ∉ m.*1 → bindings_of p m = [].
Proof.
  unfold bindings_of. induction m as [|[x y] m IH]; [done|]. simpl. intros [Hx Hm]%not_elem_of_cons.
  rewrite decide_False by congruence. by apply IH.
Qed.
Lemma bind_port_of p q b m : NoDup m.*1 →
  bindings_of p (bind_port q b m) = bindings_of p m ++ (if decide (q = p) then [b] else []) ∧
  (∀ r, r ∈ (bind_port q b m).*1 ↔ r = q ∨ r ∈ m.*1) ∧ NoDup (bind_port q b m).*1.
Proof.
  induction m as [|[r bs] m IH]; intros Hnd.
  - split; [|split].
    + unfold bindings_of. simpl. by rewrite app_nil_r.
    + intros r. simpl. rewrite list_elem_of_singleton. set_solver.
    + simpl. apply NoDup_singleton.
  - apply NoDup_cons in Hnd as [Hr Hnd]. simpl in Hr. destruct (IH Hnd) as (Hb & Hin & Hnd'). clear IH.
    cbn [bind_port]. destruct (decide (r = q)) as [->|Hne].
    + split; [|split].
      * rewrite !bindings_of_cons. destruct (decide (q = p)) as [->|].
        -- rewrite (bindings_of_absent _ _ Hr). by rewrite !app_nil_r.
        -- by rewrite app_nil_r.
      * intros x. simpl. rewrite elem_of_cons. tauto.
      * simpl. by apply NoDup_cons.
    + split; [|split].
      * rewrite !bindings_of_cons, Hb. by rewrite app_assoc.
      * intros x. simpl. rewrite !elem_of_cons, Hin. tauto.
      * simpl. apply NoDup_cons. split; [|done]. rewrite Hin. intros [->|?]; done.
Qed.

Section run_ports.
Variable PortFrom : Z → string → option DockerPort.

Lemma run_ports_from specs ex bs : NoDup ex → NoDup bs.*1 →
  match run_ports PortFrom ex bs specs with
  | inr (ex', bs') => ∃ l, mapM (λ s, match parsePortSpec PortFrom s with inr x => Some x | inl _ => None end) specs = Some l ∧
      NoDup ex' ∧ (∀ p, p ∈ ex' ↔ p ∈ ex ∨ p ∈ l.*1) ∧ (∀ p, bindings_of p bs' = bindings_of p bs ++ bound p l)
  | inl _ => Exists (λ s, ∃ e, parsePortSpec PortFrom s = inl e) specs
  end.
Proof.
  revert ex bs. induction specs as [|s specs IH]; intros ex bs Hex Hbs; simpl.
  - exists []. split; [done|]. split; [done|]. split; [set_solver|]. intros p. by rewrite app_nil_r.
  - destruct (parsePortSpec PortFrom s) as [e|[port b]] eqn:Hp; [by apply Exists_cons_hd; exists e|].
    assert (Hex' : NoDup (expose port ex) ∧ ∀ p, p ∈ expose port ex ↔ p = port ∨ p ∈ ex).
    { unfold expose. destruct (decide (port ∈ ex)); [set_solver|]. split; [|set_solver].
      apply NoDup_app. split; [done|]. split; [set_solver|apply NoDup_singleton]. }
    destruct Hex' as [Hex' Hin].
    set (bs1 := match b with Some b => bind_port port b bs | None => bs end).
    assert (Hb1 : NoDup bs1.*1 ∧ ∀ p, bindings_of p bs1 = bindings_of p bs ++ bound p [(port, b)]).
    { unfold bs1. destruct b as [b|].
      - split; [by apply (bind_port_of port port b bs)|]. intros p. destruct (bind_port_of p port b bs Hbs) as [-> _].
        unfold bound. simpl. rewrite app_nil_r. by case_decide.
      - split; [done|]. intros p. unfold bound. simpl. case_decide; simpl; by rewrite app_nil_r. }
    destruct Hb1 as [Hnd1 Hb1]. specialize (IH (expose port ex) bs1 Hex' Hnd1).
    destruct (run_ports PortFrom (expose port ex) bs1 specs) as [e|[ex' bs']]; [by apply Exists_cons_tl|].
    destruct IH as (l & Hl & Hnd & Hi & Hb). exists ((port, b) :: l). rewrite Hl. split; [done|].
    split; [done|]. split.
    + intros p. rewrite Hi, Hin. simpl. rewrite elem_of_cons. tauto.
    + intros p. rewrite Hb, Hb1, <- app_assoc. f_equal. unfold bound. simpl. by rewrite app_nil_r.
Qed.

(** What [Run] asks the daemon for is what the port specifications say: it
    exposes each port once, binds to it every host address given for it, in that
    order, and refuses the whole request exactly when one specification is bad. *)
Theorem run_ports_exact specs :
  match run_ports PortFrom [] [] specs with
  | inr (exposed, bindings) =>
    ∃ parsed, Forall2 (λ s x, parsePortSpec PortFrom s = inr x) specs parsed ∧
      NoDup exposed ∧ (∀ p, p ∈ exposed ↔ p ∈ parsed.*1) ∧ ∀ p, bindings_of p bindings = bound p parsed
  | inl _ => Exists (λ s, ∃ e, parsePortSpec PortFrom s = inl e) specs
  end.
Proof.
  pose proof (run_ports_from specs [] [] (NoDup_nil_2) (NoDup_nil_2)) as H.
  destruct (run_ports PortFrom [] [] specs) as [e|[ex bs]]; [done|].
  destruct H as (l & Hl & Hnd & Hin & Hb). exists l. split.
  - apply mapM_Some in Hl. eapply Forall2_impl; [exact Hl|]. intros s x. simpl.
    destruct (parsePortSpec PortFrom s); intros; by simplify_eq.
  - split; [done|]. split; [|done]. intros p. rewrite Hin. set_solver.
Qed.
End run_ports.

(** ** Calls to the daemon leave nothing behind *)
#[local] Hint Extern 1 (quiet (ignore _)) => apply quiet_ignore : quiet.

(** Code of a host that changes nothing but the network, and nothing of that in
    the end. *)
Definition keeps {A} (m : M DWorld A) : Prop := ∀ w R, ledger (dw_net w) R →
  wp m (λ _ w', ∃ n, w' = w <| dw_net := n |> ∧ ledger n R) w.

Lemma keeps_fail {A} e : keeps (fail e : M DWorld A).
Proof. intros w R Hl. apply wp_fail. exists (dw_net w). split; [by destruct w|done]. Qed.
Lemma keeps_ret {A} (a : A) : keeps (mret a : M DWorld A).
Proof. intros w R Hl. apply wp_ret. exists (dw_net w). split; [by destruct w|done]. Qed.
Lemma keeps_of_sum {A} (r : error + A) : keeps (of_sum r : M DWorld A).
Proof. destruct r; [apply keeps_fail|apply keeps_ret]. Qed.
Lemma keeps_bind {A B} (m : M DWorld A) (k : A → M DWorld B) :
  keeps m → (∀ a, keeps (k a)) → keeps (m ≫= k).
Proof.
  intros Hm Hk w R Hl. apply wp_bind. eapply wp_mono; [by apply Hm|].
  intros [a|e|p] w' (n & -> & H); [|by exists n..].
  eapply wp_mono; [by apply Hk|]. intros o w' (n' & -> & H'). by exists n'.
Qed.
Lemma keeps_try {A} (m : M DWorld A) : keeps m → keeps (try m).
Proof.
  intros Hm w R Hl. apply wp_try. eapply wp_mono; [by apply Hm|]. by intros [a|e|p] w' H.
Qed.
Lemma keeps_client l : keeps (host_client l).
Proof.
  apply keeps_bind; [|intros h; destruct (h_conn h); [apply keeps_ret|apply keeps_fail]].
  intros w R Hl. unfold wp, host_at. destruct (dw_host w !! l); (exists (dw_net w); split; [by destruct w|done]).
Qed.
Lemma keeps_dnet {A} (m : M Net A) : gives (λ _, []) m → keeps (dnetM m).
Proof.
  intros Hm w R Hl. apply wp_zoom. eapply wp_mono; [by apply Hm|].
  intros o n [_ H]. exists n. split; [done|]. by destruct o.
Qed.
Lemma keeps_with_client {A} l (k : rid → M Net A) : (∀ c, gives (λ _, []) (k c)) → keeps (with_client l k).
Proof. intros Hk. apply keeps_bind; [apply keeps_client|]. intros c. by apply keeps_dnet. Qed.
Lemma keeps_call {E : Env} {T} l (c : rid → ext T) : keeps (with_client l (λ r, call (c r))).
Proof. apply keeps_with_client. intros r. apply gives_quiet, quiet_call. Qed.

Section calls.
Context {E : Env} (PortFrom : Z → string → option DockerPort).

Lemma quiet_of_sum {A} (r : error + A) : quiet (of_sum r : M Net A).
Proof. by destruct r. Qed.
#[local] Hint Resolve quiet_of_sum : quiet.

Lemma keeps_PullImage l ref : keeps (PullImage l ref).
Proof.
  apply keeps_with_client. intros c. apply gives_with_closed; [apply gives_acquire|].
  intros r _. apply quiet_bind; [apply quiet_call|]. intros [? ?]. apply quiet_of_sum.
Qed.
Lemma keeps_Logs l id opts : keeps (Logs l id opts).
Proof.
  apply keeps_with_client. intros c. apply gives_with_closed; [apply gives_acquire|].
  intros r _. unfold read_logs. solve_quiet.
Qed.
Lemma keeps_Exec l id opts : keeps (Exec l id opts).
Proof.
  apply keeps_with_client. intros c. destruct (eo_Cmd opts) as [|a cmd]; [by apply gives_quiet|].
  apply gives_bind_quiet; [apply quiet_wrapE, quiet_call|]. intros execID.
  apply gives_with_closed; [apply gives_wrapE, gives_acquire|].
  intros r _. unfold exec_attached. solve_quiet.
Qed.
Lemma keeps_create c o : keeps (dnetM (create_and_start c o)).
Proof. apply keeps_dnet, gives_quiet. unfold create_and_start. solve_quiet. Qed.
Lemma keeps_Run l opts : keeps (Run PortFrom l opts).
Proof.
  apply keeps_bind; [apply keeps_client|]. intros c.
  destruct (decide _) as [_|_]; [apply keeps_fail|].
  apply keeps_bind.
  - destruct (ro_PullIfMissing opts); [|apply keeps_ret]. apply keeps_bind.
    + apply keeps_dnet, gives_quiet, quiet_try, quiet_call.
    + assert (Hp : keeps (wrapA "pull %s: %w" [ro_Image opts] (PullImage l (ro_Image opts));; mret tt)).
      { apply keeps_bind; [|intros; apply keeps_ret]. apply keeps_bind; [apply keeps_try, keeps_PullImage|].
        intros [e|a]; [apply keeps_fail|apply keeps_ret]. }
      intros [e|[|x xs]]; [exact Hp|exact Hp|apply keeps_ret].
  - intros _. apply keeps_bind; [apply keeps_of_sum|]. intros [ex bs]. apply keeps_create.
Qed.

(** No call on a Docker host, whether it succeeds, fails in the middle or is
    cancelled, leaves a stream or a hijacked connection open, and none touches
    the hosts and the shells. *)
Theorem docker_calls_keep_world l :
  (∀ opts, keeps (ListContainers l opts)) ∧ (∀ id, keeps (Inspect l id)) ∧
  (∀ id, keeps (Start l id)) ∧ (∀ id t, keeps (Stop l id t)) ∧ (∀ id t, keeps (Restart l id t)) ∧
  (∀ id signal, keeps (Kill l id signal)) ∧ (∀ id force volumes, keeps (Remove l id force volumes)) ∧
  (∀ id opts, keeps (Logs l id opts)) ∧ (∀ id opts, keeps (Exec l id opts)) ∧
  (∀ all, keeps (ListImages l all)) ∧ (∀ ref, keeps (PullImage l ref)) ∧
  (∀ ref force prune, keeps (RemoveImage l ref force prune)) ∧ ∀ opts, keeps (Run PortFrom l opts).
Proof.
  repeat split; intros; try apply keeps_call; auto using keeps_Logs, keeps_Exec, keeps_PullImage, keeps_Run.
  - apply keeps_with_client. intros c. apply gives_quiet. solve_quiet.
  - apply keeps_with_client. intros c. apply gives_quiet. solve_quiet.
Qed.
End calls.

(** ** The result of a pull *)
Definition reports (m : PullMsg) : Prop := pm_Error m ≠ "" ∨ pm_Detail m ≠ "".
#[export] Instance reports_dec m : Decision (reports m).
Proof. unfold reports. apply _. Defined.

Lemma pull_fold_spec ms st le :
  (le ≠ "" ∨ Exists reports ms) ↔ (pull_fold st le ms).2 ≠ "".
Proof.
  revert st le. induction ms as [|m ms IH]; intros st le; simpl.
  - rewrite Exists_nil. tauto.
  - rewrite <- IH, Exists_cons. unfold reports at 1. repeat case_decide; naive_solver.
Qed.
Lemma pull_fold_status ms st le :
  (pull_fold st le ms).1 = List.last (filter (λ s, s ≠ "") (map pm_Status ms)) st.
Proof.
  revert st le. induction ms as [|m ms IH]; intros st le; simpl; [done|]. rewrite IH.
  rewrite filter_cons. destruct (decide (pm_Status m ≠ "")); [|done].
  set (l := filter _ _). clearbody l. clear. revert st. induction l as [|x l IHl]; intros st; [done|].
  destruct l; [done|]. apply (IHl st).
Qed.

(** A pull succeeds exactly when the progress stream ended properly and no
    message of it, however early, reported an error; it returns the last status. *)
Theorem pull_result_reports ms ending st :
  pull_result ms ending = inr st ↔
  ending = None ∧ Forall (λ m, ¬ reports m) ms ∧
  st = List.last (filter (λ s, s ≠ "") (map pm_Status ms)) "".
Proof.
  unfold pull_result. pose proof (pull_fold_spec ms "" "") as Hs.
  pose proof (pull_fold_status ms "" "") as Hst. destruct (pull_fold "" "" ms) as [s le]. simpl in *.
  rewrite <- Hst, Forall_Exists_neg. destruct ending as [e|]; [naive_solver|].
  destruct (decide (le ≠ "")) as [H|H]; naive_solver.
Qed.
