(* ===== verification/Disk.v ===== *)
(** * The local disk, next to a manager's world

    Uploads and downloads read and write files where the daemon runs.  [Local T]
    puts the disk next to the world [T] of one of the managers, which reaches the
    network through [NetIn]: the contents of the files that were written and the
    directories that were asked for, by path.  Symbolic links on the disk are not
    modelled.  What an upload reads is a [node]. *)

From S2P Require Import Prelude GoStrings Url Paths External Auth World Ledger.
From Stdlib Require Import Ascii String.

Record Local (T : Type) := mkLocal {
  lo_world : T;
  lo_files : gmap string string;
  lo_dirs : gset string;
}.
Arguments mkLocal {T}.
Arguments lo_world {T}.
Arguments lo_files {T}.
Arguments lo_dirs {T}.
Section setters.
Context {T : Type}.
Definition eta_Local (w : Local T) := mkLocal (lo_world w) (lo_files w) (lo_dirs w).
#[export] Instance upd_lo_world : Setter (@lo_world T). Proof. mk_setter eta_Local. Defined.
#[export] Instance upd_lo_files : Setter (@lo_files T). Proof. mk_setter eta_Local. Defined.
#[export] Instance upd_lo_dirs : Setter (@lo_dirs T). Proof. mk_setter eta_Local. Defined.
End setters.
#[export, refine] Instance Local_net {T} {N : NetIn T} : NetIn (Local T) :=
  mkNetIn _ (λ w, net_of (lo_world w)) (λ n w, w <| lo_world ::= set_net n |>) _.
Proof. intros n w. apply net_of_set. Defined.

Section disk.
Context {E : Env} {T : Type} {N : NetIn T}.

Definition onWorld {A} (m : M T A) : M (Local T) A := zoom lo_world (λ d w, w <| lo_world := d |>) m.
Definition onNet {A} (m : M Net A) : M (Local T) A := onWorld (zoom net_of set_net m).

Definition MkdirAll (path : string) (perm : Z) : M (Local T) unit :=
  onNet (call (OsMkdirAll path perm));;
  modify (λ w, w <| lo_dirs ::= λ d, {[path]} ∪ d |>).
Definition OpenFile (path : string) (perm : Z) : M (Local T) rid :=
  '(f, _) ← onNet (acquire (OsOpenFile path perm));
  modify (λ w, w <| lo_files ::= <[path := ""]> |>);;
  mret f.
(** [io.Copy(f, tr)]: what was copied is in the file also when it stops early. *)
Definition copy_body (f : rid) (path body : string) : M (Local T) (Z * option error) :=
  r ← try (onNet (call (IoCopy f (Z.of_nat (String.length body)))));
  let '(n, err) := match r with inr x => x | inl e => (0, Some e) end in
  modify (λ w, w <| lo_files ::= <[path := take_str (Z.to_nat n) body]> |>);;
  mret (n, err).
End disk.

(** Only [MkdirAll] asks for directories. *)
Definition same_dirs {T} (w w' : Local T) : Prop := lo_dirs w' = lo_dirs w.
#[export] Instance same_dirs_pre {T} : PreOrder (@same_dirs T).
Proof. split; unfold same_dirs; [by intros w|]. intros w1 w2 w3 H1 H2. congruence. Qed.
Section same_dirs.
Context {E : Env} {T : Type} {N : NetIn T}.
Lemma same_dirs_onNet {A} (m : M Net A) : stays same_dirs (onNet (T := T) m).
Proof. intros w. unfold same_dirs, onNet, onWorld, zoom. by destruct (m (net_of (lo_world w))). Qed.
Lemma same_dirs_OpenFile path perm : stays same_dirs (OpenFile (T := T) path perm).
Proof.
  apply stays_bind; [apply _|apply same_dirs_onNet|]. intros [f _]. apply stays_bind; [apply _|by apply stays_modify|].
  intros _. apply stays_ret, _.
Qed.
Lemma same_dirs_copy_body f path body : stays same_dirs (copy_body (T := T) f path body).
Proof.
  apply stays_bind; [apply _|apply stays_try, same_dirs_onNet|]. intros r.
  destruct (match r with inr x => x | inl e => _ end) as [n err].
  apply stays_bind; [apply _|by apply stays_modify|]. intros _. apply stays_ret, _.
Qed.
End same_dirs.

(** ** Which files change *)
(** The files that differ are [localPath] or lie under it. *)
Definition only_under (localPath : string) {T} (w w' : Local T) : Prop :=
  ∀ p, lo_files w' !! p ≠ lo_files w !! p → p = localPath ∨ inside localPath p.
#[export] Instance only_under_pre {T} localPath : PreOrder (@only_under localPath T).
Proof.
  split; [by intros w p H|]. intros w1 w2 w3 H12 H23 p H.
  destruct (decide (lo_files w2 !! p = lo_files w1 !! p)) as [He|He]; [|by apply H12].
  apply H23. by rewrite He.
Qed.


Section under.
Context {E : Env} {T : Type} {N : NetIn T} (localPath : string).
Abbreviation under := (@only_under localPath T).

Lemma under_same w w' : lo_files w' = lo_files w → under w w'.
Proof. intros H p Hp. by rewrite H in Hp. Qed.
Lemma under_onWorld {A} (m : M T A) : stays under (onWorld m).
Proof.
  intros w. apply under_same. unfold onWorld, zoom. by destruct (m (lo_world w)).
Qed.
Lemma under_onNet {A} (m : M Net A) : stays under (onNet m).
Proof. apply under_onWorld. Qed.
Lemma under_modify_file path f : path = localPath ∨ inside localPath path →
  stays under (modify (λ w, w <| lo_files ::= <[path := f]> |>)).
Proof.
  intros Hp w q Hq. simpl in Hq. destruct (decide (q = path)) as [->|Hne]; [done|].
  rewrite lookup_insert_ne in Hq; done.
Qed.
Lemma under_MkdirAll path perm : stays under (MkdirAll path perm).
Proof.
  apply stays_bind; [apply _|apply under_onNet|]. intros _. apply stays_modify. intros w.
  by apply under_same.
Qed.
Lemma under_OpenFile path perm : path = localPath ∨ inside localPath path → stays under (OpenFile path perm).
Proof.
  intros Hp. apply stays_bind; [apply _|apply under_onNet|]. intros [f _].
  apply stays_bind; [apply _| |intros; apply stays_ret; apply _]. by apply under_modify_file.
Qed.
Lemma under_copy_body f path body : path = localPath ∨ inside localPath path → stays under (copy_body f path body).
Proof.
  intros Hp. apply stays_bind; [apply _|apply stays_try; apply under_onNet|]. intros r.
  destruct (match r with inr x => x | inl e => _ end) as [n err].
  apply stays_bind; [apply _| |intros; apply stays_ret; apply _]. by apply under_modify_file.
Qed.
End under.
#[export] Hint Resolve under_onNet under_onWorld under_MkdirAll under_OpenFile under_copy_body : stays.

(** ** What the operations leave open *)
Section balanced.
Context {E : Env} {T : Type} {N : NetIn T}.

Lemma yields_onWorld {A} (res : A → list rid) (m : M T A) : yields res m → yields res (onWorld m).
Proof. intros Hm w R Hl. apply wp_zoom. eapply wp_mono; [by apply Hm|]. by intros []. Qed.
Lemma balanced_onWorld {A} (m : M T A) : balanced m → balanced (onWorld m).
Proof. apply yields_onWorld. Qed.
Lemma balanced_onNet {A} (m : M Net A) : quiet m → balanced (onNet (T := T) m).
Proof. intros Hm. by apply balanced_onWorld, balanced_lift. Qed.
Lemma closes_onNet r : closes (onNet (T := T) (closeR r)) [r].
Proof.
  intros w R Hl. apply wp_zoom. eapply wp_mono; [by apply closes_closeR|]. by intros o t [-> H].
Qed.
Lemma balanced_MkdirAll path perm : balanced (MkdirAll (T := T) path perm).
Proof.
  apply balanced_bind; [apply balanced_onNet, quiet_call|]. intros _. by apply balanced_modify.
Qed.
Lemma yields_OpenFile path perm : yields (λ f, [f]) (OpenFile (T := T) path perm).
Proof.
  intros w R Hl. apply wp_bind. eapply wp_mono.
  { apply (yields_onWorld (λ p : rid * unit, [p.1])); [apply yields_lift, gives_acquire|exact Hl]. }
  intros [[f []]|e|p] w' H; [|done|done]. apply wp_bind, wp_modify, wp_ret. done.
Qed.
Lemma balanced_copy_body f path body : balanced (copy_body (T := T) f path body).
Proof.
  apply balanced_bind; [apply balanced_try, balanced_onNet, quiet_call|]. intros r.
  destruct (match r with inr x => x | inl e => _ end) as [n err].
  apply balanced_bind; [by apply balanced_modify|]. intros _. apply balanced_ret.
Qed.
Lemma noerr_copy_body f path body : noerr (copy_body (T := T) f path body).
Proof.
  apply noerr_bind; [apply noerr_try|]. intros r.
  destruct (match r with inr x => x | inl e => _ end) as [n err].
  apply noerr_bind; [apply noerr_modify|]. intros _. apply noerr_ret.
Qed.
End balanced.
#[export] Hint Resolve balanced_onWorld balanced_onNet balanced_MkdirAll balanced_copy_body quiet_call : balanced.

(** ** A disk that accepts everything *)
Definition disk_accepts {E : Env} : Prop :=
  (∀ n p m, env _ n (OsMkdirAll p m) = inr tt) ∧ (∀ n p m, env _ n (OsOpenFile p m) = inr tt) ∧
  ∀ n f len, env _ n (IoCopy f len) = inr (len, None).


Definition write_all (l : list (string * string)) (m : gmap string string) : gmap string string :=
  foldl (λ m '(p, d), <[p := d]> m) m l.
Definition total_len (l : list (string * string)) : Z :=
  foldr (λ '(_, d) n, Z.of_nat (String.length d) + n) 0 l.

Section accepts.
Context {E : Env} {T : Type} {N : NetIn T} (Hacc : disk_accepts).

Lemma run_call {X} (c : ext X) x (w : Local T) : (∀ n, env X n c = inr x) →
  ∃ w', onNet (call c) w = (Ret x, w') ∧ lo_files w' = lo_files w.
Proof.
  intros H. eexists. unfold onNet, onWorld, zoom, call. rewrite H. by split.
Qed.
Lemma run_MkdirAll path perm w : ∃ w', MkdirAll path perm w = (Ret tt, w') ∧ lo_files w' = lo_files w.
Proof.
  destruct (run_call (OsMkdirAll path perm) tt w) as (w' & Hr & Hf); [intros; apply Hacc|].
  unfold MkdirAll. rewrite (bind_ret _ _ _ _ _ Hr). by eexists.
Qed.
Lemma run_OpenFile path perm w :
  ∃ f w', OpenFile path perm w = (Ret f, w') ∧ lo_files w' = <[path := ""]> (lo_files w).
Proof.
  unfold OpenFile, acquire.
  assert (H : ∃ f w', onNet (acquire (OsOpenFile path perm)) w = (Ret (f, tt), w') ∧ lo_files w' = lo_files w).
  { unfold onNet, onWorld, zoom, acquire, call, mbind, M_bind. destruct Hacc as (_ & Ho & _).
    rewrite Ho. simpl. eexists _, _. split; [reflexivity|done]. }
  destruct H as (f & w' & Hr & Hf). exists f. eexists. rewrite (bind_ret _ _ _ _ _ Hr). split; [reflexivity|].
  simpl. by rewrite Hf.
Qed.
Lemma run_copy_body f path body w :
  ∃ w', copy_body f path body w = (Ret (Z.of_nat (String.length body), None), w') ∧
        lo_files w' = <[path := body]> (lo_files w).
Proof.
  destruct (run_call (IoCopy f (Z.of_nat (String.length body))) (Z.of_nat (String.length body), None) w)
    as (w' & Hr & Hf); [intros; apply Hacc|].
  unfold copy_body. rewrite (bind_ret _ _ _ (inr (Z.of_nat (String.length body), None)) w') by (unfold try; by rewrite Hr).
  eexists. split; [reflexivity|]. simpl. by rewrite Nat2Z.id, take_str_all, Hf.
Qed.

(** The directories that are asked for. *)
Lemma dirs_onNet {A} (m : M Net A) (w : Local T) : lo_dirs (onNet m w).2 = lo_dirs w.
Proof. unfold onNet, onWorld, zoom. by destruct (m (net_of (lo_world w))). Qed.
Lemma dirs_MkdirAll path perm w : lo_dirs (MkdirAll path perm w).2 = {[path]} ∪ lo_dirs w.
Proof.
  destruct (run_call (OsMkdirAll path perm) tt w) as (w' & Hr & _); [intros; apply Hacc|].
  pose proof (dirs_onNet (call (OsMkdirAll path perm)) w) as Hd. rewrite Hr in Hd. simpl in Hd.
  unfold MkdirAll. rewrite (bind_ret _ _ _ _ _ Hr). simpl. by rewrite Hd.
Qed.
Lemma write_all_app l l' m : write_all (l ++ l') m = write_all l' (write_all l m).
Proof. apply foldl_app. Qed.
Lemma total_len_app l l' : total_len (l ++ l') = total_len l + total_len l'.
Proof. induction l as [|[p d] l IH]; simpl; [done|]. unfold total_len in *. simpl. rewrite IH. lia. Qed.
End accepts.

(** ** Trees *)
Section node_ind.
Variable P : node → Prop.
Hypothesis HFile : ∀ perm c, P (NFile perm c).
Hypothesis HDir : ∀ perm kids, Forall (λ k, P k.2) kids → P (NDir perm kids).
Hypothesis HLink : ∀ perm size t, P (NLink perm size t).
Hypothesis HBad : ∀ e, P (NBad e).
Fixpoint node_ind' (n : node) : P n :=
  match n with
  | NFile perm c => HFile perm c
  | NDir perm kids => HDir perm kids
     ((fix go kids : Forall (λ k, P k.2) kids :=
         match kids with
         | [] => Forall_nil_2 _
         | k :: kids => Forall_cons_2 _ _ _ (node_ind' k.2) (go kids)
         end) kids)
  | NLink perm size t => HLink perm size t
  | NBad e => HBad e
  end.
End node_ind.

(** A tree that can be read, with ordinary names. *)
Fixpoint readable (n : node) : Prop :=
  match n with
  | NFile _ c => match c with inr _ => True | inl _ => False end
  | NDir _ kids =>
    (fix go kids := match kids with [] => True | (name, k) :: kids => ordinary name ∧ readable k ∧ go kids end) kids
  | NLink _ _ _ => True
  | NBad _ => False
  end.
(** The regular files of a tree, by their path from its root. *)
Fixpoint tree_files (rel : list string) (n : node) : list (list string * string) :=
  match n with
  | NFile _ c => match c with inr d => [(rel, d)] | inl _ => [] end
  | NDir _ kids =>
    (fix go kids := match kids with [] => [] | (name, k) :: kids => tree_files (rel ++ [name]) k ++ go kids end) kids
  | _ => []
  end.

(** The directories of a tree, with its root. *)
Fixpoint tree_dirs (rel : list string) (n : node) : list (list string) :=
  match n with
  | NDir _ kids =>
    rel :: (fix go kids := match kids with [] => [] | (name, k) :: kids => tree_dirs (rel ++ [name]) k ++ go kids end) kids
  | _ => []
  end.

(** Where a file of the tree lands. *)
Definition lands (local : string) (f : list string * string) : string * string :=
  (path_Join [local; Join f.1 "/"], f.2).

