(* ===== verification/Copy.v ===== *)
(** * Copying files into and out of containers (internal/dockerx/copy.go)

    [Upload] writes a local tree as a tar stream, [Download] extracts one.  The
    local disk that [Download] writes is part of the state: the contents of the
    files it wrote and the directories it asked for, by path.  What [Upload] reads
    is a [node].  Symbolic links on the destination side are not modelled. *)

From S2P Require Import Docker.
From S2P Require Import Prelude GoStrings Url Paths External Disk Spec Auth World Ledger Session DockerProps Containers.
From Stdlib Require Import Ascii String.

#[export] Instance DWorld_net : NetIn DWorld :=
  mkNetIn DWorld dw_net (λ n w, w <| dw_net := n |>) (λ _ _, eq_refl).
Abbreviation CWorld := (Local DWorld).

(** ** Upload: the tar stream of a local tree *)

(** What [tarFile] puts into the stream, why it stopped, and how much it copied:
    the tar writer refuses more than the header announced. *)
Definition tarFile (name : string) (perm size : Z) (content : error + string)
    : list TarEntry * option error * Z :=
  match content with
  | inl e => ([], Some e, 0)
  | inr d =>
    let n := Z.of_nat (String.length d) in
    if bool_decide (n ≤ size) then ([mkTarEntry name perm size TypeReg d], None, n)
    else ([mkTarEntry name perm size TypeReg (take_str (Z.to_nat size) d)],
          Some (Msg "archive/tar: write too long"), size)
  end.

Definition entry_path (entryName : string) (rel : list string) : string :=
  match rel with [] => entryName | _ => path_Join [entryName; Join rel "/"] end.

(** The walk: [rel] is the path from the root in elements.  Links are skipped, the
    first error ends it. *)
Fixpoint walkTar (entryName : string) (rel : list string) (n : node) : list TarEntry * option error * Z :=
  match n with
  | NBad e => ([], Some e, 0)
  | NLink _ _ _ => ([], None, 0)
  | NFile perm c =>
    let size := match c with inr d => Z.of_nat (String.length d) | inl _ => 0 end in
    tarFile (entry_path entryName rel) perm size c
  | NDir perm kids =>
    let hdr := mkTarEntry (entry_path entryName rel +:+ "/")%string perm 0 TypeDir "" in
    let go := fix go (kids : list (string * node)) :=
      match kids with
      | [] => ([], None, 0)
      | (name, k) :: kids =>
        let '(es, err, w) := walkTar entryName (rel ++ [name]) k in
        match err with
        | Some e => (es, Some e, w)
        | None => let '(es', err', w') := go kids in (es ++ es', err', w + w')
        end
      end in
    let '(es, err, w) := go kids in (hdr :: es, err, w)
  end.

Definition writeTar (entryName : string) (root : node) : list TarEntry * option error * Z :=
  match root with
  | NLink perm size target => tarFile entryName perm size target
  | root => walkTar entryName [] root
  end.

(** [os.FileMode(m).Perm()] *)
Definition Perm (m : Z) : Z := Z.land m 511.

Section copy.
Context {E : Env}.

Definition Upload (l : loc) (containerID localPath remotePath : string) : M CWorld Z :=
  c ← onWorld (host_client l);
  root ← onNet (call (LocalTree localPath));
  let dstDir := Dir remotePath in
  let dstBase := Base remotePath in
  let dstDir := if decide (dstDir = "" ∨ dstDir = ".") then "/" else dstDir in
  let '(tar, werr, written) := writeTar dstBase root in
  onNet (call (CopyToContainer c containerID dstDir (tar, werr)));;
  mret written.

(** ** Download *)
Definition strip_root (name rootPrefix : string) : string :=
  TrimPrefix (TrimPrefix name rootPrefix) "/".

(** One round of the extraction loop: the bytes it adds to the total. *)
Definition extract_entry (rootPrefix localPath : string) (hdr : TarEntry) : M CWorld Z :=
  let rel := strip_root (te_Name hdr) rootPrefix in
  if decide (rel = "") then mret 0 else
  let out := path_Join [localPath; rel] in
  match te_Type hdr with
  | TypeDir => MkdirAll out (Perm (te_Mode hdr));; mret 0
  | TypeReg | TypeRegA =>
    (if decide (Dir out ≠ "") then ignore (MkdirAll (Dir out) 493) else mret tt);;
    f ← OpenFile out (Perm (te_Mode hdr));
    '(n, copyErr) ← copy_body f out (te_Body hdr);
    onNet (closeR f);;
    match copyErr with Some e => fail e | None => mret n end
  | TypeSymlink | TypeLink => mret 0
  | TypeOther _ => fail (Fmt "unexpected tar entry type %d for %s" [te_Name hdr])
  end.
Fixpoint extract (rootPrefix localPath : string) (total : Z) (es : list TarEntry) : M CWorld Z :=
  match es with
  | [] => mret total
  | e :: es => n ← extract_entry rootPrefix localPath e; extract rootPrefix localPath (total + n) es
  end.

Definition download_file (localPath : string) (entries : list TarEntry) (ending : option error) : M CWorld Z :=
  match entries with
  | [] => fail (default (Msg "EOF") ending)
  | e :: _ =>
    let dir := Dir localPath in
    (if decide (dir ≠ "." ∧ dir ≠ "") then ignore (MkdirAll dir 493) else mret tt);;
    out ← OpenFile localPath 438;
    '(n, err) ← finally (copy_body out localPath (te_Body e)) (onNet (closeR out));
    match err with Some e => fail e | None => mret n end
  end.

Definition Download (l : loc) (containerID remotePath localPath : string) : M CWorld Z :=
  c ← onWorld (host_client l);
  '(content, isDir) ← onNet (acquire (CopyFromContainer c containerID remotePath));
  finally (
    '(entries, ending) ← onNet (call (TarEntries content));
    let rootPrefix := Base (TrimRight_slash remotePath) in
    if negb isDir then download_file localPath entries ending else
    MkdirAll localPath 493;;
    total ← extract rootPrefix localPath 0 entries;
    match ending with Some e => fail e | None => mret total end)
  (onNet (closeR content)).
End copy.

(** ** Nothing is written outside the destination *)
Definition entry_ok (rootPrefix : string) (e : TarEntry) : Prop :=
  ".." ∉ elems (strip_root (te_Name e) rootPrefix).

Section contained.
Context {E : Env} (localPath : string).
Abbreviation under := (only_under localPath).


Lemma under_extract_entry rootPrefix e : localPath ≠ "" → entry_ok rootPrefix e →
  stays under (extract_entry rootPrefix localPath e).
Proof.
  intros Hl Hok. unfold extract_entry. destruct (decide _) as [_|Hrel]; [apply stays_ret, _|].
  assert (Hin : path_Join [localPath; strip_root (te_Name e) rootPrefix] = localPath ∨
                inside localPath (path_Join [localPath; strip_root (te_Name e) rootPrefix])).
  { right. destruct (Join_inside localPath (strip_root (te_Name e) rootPrefix) Hl Hrel Hok) as [Hr He].
    split; [done|]. by eexists. }
  destruct (te_Type e); solve_stays.
Qed.
Lemma under_extract rootPrefix total es : localPath ≠ "" → Forall (entry_ok rootPrefix) es →
  stays under (extract rootPrefix localPath total es).
Proof.
  intros Hl Hes. revert total. induction Hes as [|e es He Hes IH]; intros total; simpl; [apply stays_ret, _|].
  apply stays_bind; [apply _|by apply under_extract_entry|]. intros n. apply IH.
Qed.
Lemma under_download_file entries ending : stays under (download_file localPath entries ending).
Proof.
  assert (Hl : localPath = localPath ∨ inside localPath localPath) by by left.
  unfold download_file. destruct entries as [|e es]; [apply stays_fail, _|]. solve_stays.
Qed.
End contained.

(** C37: when no entry of the stream climbs with [..], [Download] writes [localPath]
    and files below it only, whatever the daemon sends and wherever it fails. *)
Theorem download_contained {E : Env} l id remotePath localPath w (Hlocal : localPath ≠ "")
    (Hnames : ∀ n s es ending, env _ n (TarEntries s) = inr (es, ending) →
      Forall (entry_ok (Base (TrimRight_slash remotePath))) es) p :
  lo_files (Download l id remotePath localPath w).2 !! p ≠ lo_files w !! p →
  p = localPath ∨ inside localPath p.
Proof.
  assert (H : stays (only_under localPath) (Download l id remotePath localPath)); [|exact (H w p)].
  unfold Download. apply stays_bind; [apply _|apply under_onWorld|]. intros c.
  apply stays_bind; [apply _|apply under_onNet|]. intros [content isDir].
  apply stays_finally; [apply _| |apply under_onNet].
  intros v. unfold mbind at 1, M_bind.
  destruct (onNet (call (TarEntries content)) v) as [o v'] eqn:Hrun.
  assert (Hv : only_under localPath v v').
  { pose proof (under_onNet localPath (call (TarEntries content)) v) as Hs. by rewrite Hrun in Hs. }
  assert (Hes : ∀ es e, o = Ret (es, e) → Forall (entry_ok (Base (TrimRight_slash remotePath))) es).
  { intros es e ->. unfold onNet, onWorld, zoom, call in Hrun.
    destruct (env _ _ _) as [er|[es' e']] eqn:Henv; [done|]. injection Hrun as -> -> _.
    by eapply Hnames. }
  destruct o as [[es ending]|e|q]; simpl; [|done|done]. etrans; [exact Hv|].
  destruct (negb isDir); [apply under_download_file|].
  apply (stays_bind (only_under localPath)); [apply under_MkdirAll|]. intros _.
  apply stays_bind; [apply _|apply under_extract; by eauto|].
  intros total. destruct ending; [apply stays_fail, _|apply stays_ret, _].
Qed.

(** ** Extraction on a disk that accepts everything *)
Definition known_type (e : TarEntry) : Prop :=
  match te_Type e with TypeOther _ => False | _ => True end.
(** What an entry writes. *)
Definition entry_file (rootPrefix localPath : string) (e : TarEntry) : option (string * string) :=
  let rel := strip_root (te_Name e) rootPrefix in
  if decide (rel = "") then None else
  match te_Type e with
  | TypeReg | TypeRegA => Some (path_Join [localPath; rel], te_Body e)
  | _ => None
  end.
(** The directories it asks for: itself, or the parent of its file. *)
Definition entry_dirs (rootPrefix localPath : string) (e : TarEntry) : list string :=
  let rel := strip_root (te_Name e) rootPrefix in
  if decide (rel = "") then [] else
  let out := path_Join [localPath; rel] in
  match te_Type e with
  | TypeDir => [out]
  | TypeReg | TypeRegA => if decide (Dir out ≠ "") then [Dir out] else []
  | _ => []
  end.
Section accepts.
Context {E : Env} (Hacc : disk_accepts).

Lemma run_extract_entry rp local e w : known_type e →
  ∃ w', extract_entry rp local e w = (Ret (total_len (option_list (entry_file rp local e))), w') ∧
        lo_files w' = write_all (option_list (entry_file rp local e)) (lo_files w) ∧
        lo_dirs w' = list_to_set (entry_dirs rp local e) ∪ lo_dirs w.
Proof.
  intros Hk. unfold extract_entry, entry_file, entry_dirs, known_type in *. cbv zeta.
  destruct (decide _) as [_|_]; [eexists; split_and!; [done|done|]; simpl; set_solver|].
  set (out := path_Join _).
  assert (Hreg : ∃ w', ((if decide (Dir out ≠ "") then ignore (MkdirAll (Dir out) 493) else mret tt);;
      f ← OpenFile out (Perm (te_Mode e)); '(n, copyErr) ← copy_body f out (te_Body e);
      onNet (closeR f);; match copyErr with Some e => fail e | None => mret n end) w
      = (Ret (Z.of_nat (String.length (te_Body e))), w') ∧ lo_files w' = <[out := te_Body e]> (lo_files w) ∧
      lo_dirs w' = list_to_set (if decide (Dir out ≠ "") then [Dir out] else []) ∪ lo_dirs w).
  { assert (H0 : ∃ w0, (if decide (Dir out ≠ "") then ignore (MkdirAll (Dir out) 493) else mret tt) w = (Ret tt, w0)
              ∧ lo_files w0 = lo_files w ∧ lo_dirs w0 = list_to_set (if decide (Dir out ≠ "") then [Dir out] else []) ∪ lo_dirs w).
    { destruct (decide _); [|eexists; split_and!; [done|done|]; simpl; set_solver].
      destruct (run_MkdirAll Hacc (Dir out) 493 w) as (w0 & Hr & Hf). pose proof (dirs_MkdirAll Hacc (Dir out) 493 w) as Hd.
      rewrite Hr in Hd. exists w0. split_and!; [unfold ignore, try, mbind, M_bind; by rewrite Hr|done|]. simpl in *. rewrite Hd. set_solver. }
    destruct H0 as (w0 & H0 & Hf0 & Hd0). rewrite (bind_ret _ _ _ _ _ H0).
    destruct (run_OpenFile Hacc out (Perm (te_Mode e)) w0) as (f & w1 & H1 & Hf1). rewrite (bind_ret _ _ _ _ _ H1).
    pose proof (same_dirs_OpenFile out (Perm (te_Mode e)) w0) as Hd1. rewrite H1 in Hd1.
    destruct (run_copy_body Hacc f out (te_Body e) w1) as (w2 & H2 & Hf2). rewrite (bind_ret _ _ _ _ _ H2).
    pose proof (same_dirs_copy_body f out (te_Body e) w1) as Hd2. rewrite H2 in Hd2. unfold same_dirs in *. simpl in Hd1, Hd2.
    eexists. split; [reflexivity|]. simpl. rewrite Hf2, Hf1, Hf0, Hd2, Hd1, Hd0. by rewrite insert_insert_eq. }
  destruct (te_Type e); try done.
  - destruct Hreg as (w' & Hr & Hf & Hd). exists w'. rewrite Hr. simpl. split_and!; [by rewrite Z.add_0_r|done|done].
  - destruct Hreg as (w' & Hr & Hf & Hd). exists w'. rewrite Hr. simpl. split_and!; [by rewrite Z.add_0_r|done|done].
  - destruct (run_MkdirAll Hacc out (Perm (te_Mode e)) w) as (w' & Hr & Hf). pose proof (dirs_MkdirAll Hacc out (Perm (te_Mode e)) w) as Hd.
    rewrite Hr in Hd. exists w'. rewrite (bind_ret _ _ _ _ _ Hr). split_and!; [done|done|]. simpl in *. rewrite Hd. set_solver.
  - eexists. split_and!; [done|done|]. simpl. set_solver.
  - eexists. split_and!; [done|done|]. simpl. set_solver.
Qed.

Lemma run_extract rp local es total w : Forall known_type es →
  ∃ w', extract rp local total es w = (Ret (total + total_len (omap (entry_file rp local) es)), w') ∧
        lo_files w' = write_all (omap (entry_file rp local) es) (lo_files w) ∧
        lo_dirs w' = list_to_set (es ≫= entry_dirs rp local) ∪ lo_dirs w.
Proof.
  intros Hk. revert total w. induction Hk as [|e es He Hes IH]; intros total w.
  { eexists. split_and!; [|done|]; simpl; [by rewrite Z.add_0_r|set_solver]. }
  cbn [extract]. destruct (run_extract_entry rp local e w He) as (w1 & H1 & Hf1 & Hd1).
  rewrite (bind_ret _ _ _ _ _ H1).
  destruct (IH (total + total_len (option_list (entry_file rp local e))) w1) as (w2 & H2 & Hf2 & Hd2).
  exists w2. rewrite H2, Hf2, Hf1, Hd2, Hd1, bind_cons, list_to_set_app_L. cbn [omap list_omap].
  destruct (entry_file rp local e) as [[p d]|]; simpl; (split_and!; [|done|set_solver]); do 2 f_equal; lia.
Qed.
End accepts.

(** An entry that climbs out with [..] is followed: the file it names is
    written where the path leads, outside [localPath] (the containment above needs
    its hypothesis). *)
Theorem download_escapes {E : Env} (Hacc : disk_accepts) rootPrefix localPath up body w
    (Hl : localPath ≠ "") (Hup : up ≠ "") :
  let e := mkTarEntry (rootPrefix +:+ "/../" +:+ up)%string 420 (Z.of_nat (String.length body)) TypeReg body in
  ∃ w', extract rootPrefix localPath 0 [e] w = (Ret (Z.of_nat (String.length body)), w') ∧
        lo_files w' !! path_Join [localPath; ("../" +:+ up)%string] = Some body.
Proof.
  intros e. destruct (run_extract Hacc rootPrefix localPath [e] 0 w) as (w' & Hr & Hf & _);
    [by repeat constructor|].
  assert (Hs : strip_root (te_Name e) rootPrefix = ("../" +:+ up)%string).
  { unfold strip_root, TrimPrefix, e. cbn [te_Name].
    assert (H1 : strip rootPrefix (rootPrefix +:+ "/../" +:+ up)%string = Some ("/../" +:+ up)%string) by by apply strip_Some.
    by rewrite H1. }
  assert (He : entry_file rootPrefix localPath e = Some (path_Join [localPath; ("../" +:+ up)%string], body)).
  { unfold entry_file. by rewrite Hs, decide_False by done. }
  exists w'. rewrite Hr, Hf. cbn [omap list_omap]. rewrite He. simpl. split; [by rewrite Z.add_0_r|].
  by rewrite lookup_insert_eq.
Qed.

(** ** The round trip of a tree *)
Lemma entry_path_plain b rel : ordinary b → Forall ordinary rel → entry_path b rel = Join (b :: rel) "/".
Proof.
  intros Hb Hrel. unfold entry_path. destruct rel as [|x rel]; [done|].
  assert (Hall : Forall (λ e, In_str slash e = false ∧ e ≠ "" ∧ e ≠ ".") (b :: x :: rel)).
  { eapply Forall_impl; [by apply Forall_cons_2|]. unfold ordinary. naive_solver. }
  assert (Hdd : ".." ∉ b :: x :: rel).
  { intros Hin. assert (Hp : Forall ordinary (b :: x :: rel)) by by constructor.
    rewrite Forall_forall in Hp. by destruct (Hp _ Hin) as (_ & _ & _ & H). }
  assert (Hne : Join (x :: rel) "/" ≠ "").
  { intros H. apply Forall_cons in Hall as [_ Hall]. pose proof (elems_Join _ Hall) as He. by rewrite H in He. }
  rewrite Join_two, !decide_False by (done || apply Hb).
  change (Join (b :: x :: rel) "/") with (b +:+ String slash (Join (x :: rel) "/"))%string.
  assert (Hel : elems (b +:+ String slash (Join (x :: rel) "/")) = b :: x :: rel).
  { change (b +:+ String slash (Join (x :: rel) "/"))%string with (Join (b :: x :: rel) "/"). by apply elems_Join. }
  assert (Hr : rooted (b +:+ String slash (Join (x :: rel) "/")) = false).
  { change (b +:+ String slash (Join (x :: rel) "/"))%string with (Join (b :: x :: rel) "/"). by apply rooted_elem. }
  unfold Clean. rewrite Hr, Hel, norm_plain by done. unfold render. simpl. by destruct b.
Qed.

(** What the extraction strips is what the walk prepended. *)
Lemma strip_root_entry b rel : ordinary b → Forall ordinary rel → rel ≠ [] →
  strip_root (entry_path b rel) b = Join rel "/".
Proof.
  intros Hb Hrel Hne. rewrite entry_path_plain by done. destruct rel as [|x rel]; [done|].
  unfold strip_root, TrimPrefix.
  change (Join (b :: x :: rel) "/") with (b +:+ String slash (Join (x :: rel) "/"))%string.
  assert (H : strip b (b +:+ String slash (Join (x :: rel) "/"))%string = Some (String slash (Join (x :: rel) "/")))
    by by apply strip_Some.
  by rewrite H.
Qed.
Lemma Join_nonempty rel : Forall ordinary rel → rel ≠ [] → Join rel "/" ≠ "".
Proof.
  intros Hrel Hne H. assert (He : elems (Join rel "/") = rel); [|by rewrite H in He; destruct rel].
  apply elems_Join. eapply Forall_impl; [done|]. unfold ordinary. naive_solver.
Qed.

Definition walk_kids (b : string) (rel : list string) :=
  fix go (kids : list (string * node)) : list TarEntry * option error * Z :=
    match kids with
    | [] => ([], None, 0)
    | (name, k) :: kids =>
      let '(es, err, w) := walkTar b (rel ++ [name]) k in
      match err with
      | Some e => (es, Some e, w)
      | None => let '(es', err', w') := go kids in (es ++ es', err', w + w')
      end
    end.

(** The directories that are made below [local]: those of the tree, and the parents of its files. *)
Definition made (local : string) (dirs : list (list string)) (files : list (list string * string)) (p : string) : Prop :=
  (∃ rel, rel ∈ dirs ∧ rel ≠ [] ∧ p = path_Join [local; Join rel "/"]) ∨
  (∃ f, f ∈ files ∧ p = Dir (lands local f).1 ∧ p ≠ "").
Lemma made_app local d d' f f' p : made local (d ++ d') (f ++ f') p ↔ made local d f p ∨ made local d' f' p.
Proof. unfold made. set_solver. Qed.

Definition faithful (b local : string) (dirs : list (list string)) (files : list (list string * string))
    (r : list TarEntry * option error * Z) : Prop :=
  let '(es, err, n) := r in
  err = None ∧ Forall known_type es ∧
  omap (entry_file b local) es = map (lands local) files ∧ n = total_len (map (lands local) files) ∧
  ∀ p, p ∈ es ≫= entry_dirs b local ↔ made local dirs files p.

Lemma Join_trailing l x : x ≠ "" → path_Join [l; (x +:+ "/")%string] = path_Join [l; x].
Proof.
  intros Hx. assert (Hx' : (x +:+ "/")%string ≠ "") by by destruct x.
  rewrite !Join_two. destruct (decide (x = "")), (decide ((x +:+ "/")%string = "")); [done..|]. destruct (decide (l = "")) as [->|Hl].
  - apply Clean_eq; [by apply rooted_slash|]. change (x +:+ "/")%string with (x +:+ String slash "")%string.
    rewrite elems_app. apply app_nil_r.
  - apply Clean_eq; [by destruct l|]. change (x +:+ "/")%string with (x +:+ String slash "")%string.
    rewrite !elems_app. by rewrite app_nil_r.
Qed.
Lemma strip_root_dir b rel : ordinary b → Forall ordinary rel →
  strip_root (entry_path b rel +:+ "/") b = match rel with [] => "" | _ => Join rel "/" +:+ "/" end%string.
Proof.
  intros Hb Hrel. rewrite entry_path_plain by done. unfold strip_root, TrimPrefix. destruct rel as [|x rel].
  - assert (H : strip b (Join [b] "/" +:+ "/") = Some "/") by by apply strip_Some. by rewrite H.
  - assert (H : strip b (Join (b :: x :: rel) "/" +:+ "/") = Some (String slash (Join (x :: rel) "/" +:+ "/"))).
    { apply strip_Some. change (Join (b :: x :: rel) "/") with (b +:+ String slash (Join (x :: rel) "/"))%string.
      by rewrite app_assoc_str. }
    by rewrite H.
Qed.
Lemma dir_entry b local rel perm p : ordinary b → Forall ordinary rel →
  p ∈ entry_dirs b local (mkTarEntry (entry_path b rel +:+ "/") perm 0 TypeDir "") ↔ made local [rel] [] p.
Proof.
  intros Hb Hrel. unfold entry_dirs, made. cbn [te_Name te_Type]. rewrite strip_root_dir by done. destruct rel as [|x rel].
  - simpl. set_solver.
  - pose proof (Join_nonempty (x :: rel) Hrel ltac:(done)) as Hne.
    rewrite decide_False by (by destruct (Join (x :: rel) "/")). rewrite Join_trailing by done. set_solver.
Qed.
Lemma file_entry b local rel perm size d p : ordinary b → Forall ordinary rel → rel ≠ [] →
  p ∈ entry_dirs b local (mkTarEntry (entry_path b rel) perm size TypeReg d) ↔ made local [] [(rel, d)] p.
Proof.
  intros Hb Hrel Hne. unfold entry_dirs, made. cbn [te_Name te_Type]. rewrite strip_root_entry by done.
  rewrite decide_False by by apply Join_nonempty. cbv zeta. unfold lands. case_decide; set_solver.
Qed.

Lemma walk_faithful b local n rel : ordinary b → readable n → Forall ordinary rel →
  match n with NDir _ _ => True | _ => rel ≠ [] end →
  faithful b local (tree_dirs rel n) (tree_files rel n) (walkTar b rel n).
Proof.
  intros Hb. revert rel. induction n as [perm c|perm kids IH|perm size t|e] using node_ind';
    intros rel Hn Hrel Hne; simpl in Hn.
  - destruct c as [e|d]; [done|]. simpl. unfold tarFile. rewrite bool_decide_eq_true_2 by done.
    split; [done|]. split; [by repeat constructor|]. split_and!.
    + unfold entry_file. simpl. by rewrite strip_root_entry, decide_False by (done || by apply Join_nonempty).
    + unfold total_len. simpl. lia.
    + intros p. rewrite bind_cons, app_nil_r. by apply file_entry.
  - set (dirs := (fix go kids := match kids with [] => [] | (name, k) :: kids => tree_dirs (rel ++ [name]) k ++ go kids end) kids).
    assert (Hk : faithful b local dirs (tree_files rel (NDir perm kids)) (walk_kids b rel kids)).
    { clear Hne. subst dirs. induction IH as [|[name k] kids Hk _ IHk].
      { split_and!; try done. unfold made. simpl. set_solver. }
      destruct Hn as (Hname & Hread & Hrest). specialize (IHk Hrest).
      assert (Hrel' : Forall ordinary (rel ++ [name])) by (apply Forall_app; split; [done|by apply Forall_singleton]).
      specialize (Hk (rel ++ [name]) Hread Hrel' ltac:(destruct k; [by destruct rel|done|by destruct rel|by destruct rel])).
      cbn [walk_kids]. simpl in Hk.
      destruct (walkTar b (rel ++ [name]) k) as [[es err] n]. destruct Hk as (-> & Ht & Ho & -> & Hd).
      destruct (walk_kids b rel kids) as [[es' err'] n']. destruct IHk as (-> & Ht' & Ho' & -> & Hd').
      split; [done|]. split; [by apply Forall_app|]. cbn [tree_files] in Ho', Hd' |- *.
      rewrite omap_app, Ho, Ho', map_app, total_len_app. split_and!; [done|done|].
      intros p. by rewrite bind_app, elem_of_app, Hd, Hd', made_app. }
    change (walkTar b rel (NDir perm kids)) with
      (let '(es, err, w) := walk_kids b rel kids in
       (mkTarEntry (entry_path b rel +:+ "/")%string perm 0 TypeDir "" :: es, err, w)).
    change (tree_dirs rel (NDir perm kids)) with ([rel] ++ dirs).
    destruct (walk_kids b rel kids) as [[es err] n]. destruct Hk as (-> & Ht & Ho & -> & Hd).
    split; [done|]. split; [by constructor|]. cbn [omap list_omap].
    assert (Hdir : ∀ nm, entry_file b local (mkTarEntry nm perm 0 TypeDir "") = None).
    { intros nm. unfold entry_file. simpl. by destruct (decide _). }
    rewrite Hdir. split_and!; [done|done|]. intros p. rewrite bind_cons, elem_of_app, Hd, dir_entry by done.
    by rewrite <- (made_app local [rel] dirs [] (tree_files rel (NDir perm kids))).
  - split_and!; try done. unfold made. simpl. set_solver.
  - done.
Qed.

(** C38: extracting the archive that [Upload] makes of a directory recreates its regular
    files and its directories.  Each regular file, and no other file, is written with
    its content at its place below the destination; every directory of the tree, empty
    ones too, is made at its place, and no directory is made but these and the
    parents of the files; and the byte count is the same on both sides.  Symbolic links
    are left out, and the modes are not compared. *)
Theorem copy_roundtrip {E : Env} (Hacc : disk_accepts) base perm kids local total w
    (Hbase : ordinary base) (Hread : readable (NDir perm kids)) :
  let root := NDir perm kids in
  let '(entries, err, written) := writeTar base root in
  err = None ∧
  ∃ w', extract base local total entries w = (Ret (total + written), w') ∧
        lo_files w' = write_all (map (lands local) (tree_files [] root)) (lo_files w) ∧
        ∀ p, p ∈ lo_dirs w' ↔ p ∈ lo_dirs w ∨ made local (tree_dirs [] root) (tree_files [] root) p.
Proof.
  intros root. pose proof (walk_faithful base local root [] Hbase Hread (Forall_nil_2 _) I) as H.
  change (writeTar base root) with (walkTar base [] root).
  destruct (walkTar base [] root) as [[es err] n]. destruct H as (-> & Ht & Ho & -> & Hm). split; [done|].
  destruct (run_extract Hacc base local es total w Ht) as (w' & Hr & Hf & Hd). exists w'.
  rewrite Hr, Hf, Ho. split_and!; [done|done|]. intros p. rewrite Hd, elem_of_union, elem_of_list_to_set, Hm. tauto.
Qed.

(** ** The theorems on concrete streams *)
Definition env_tar (entries : list TarEntry) : Env := λ T n c,
  match c in ext T return error + T → error + T with
  | TarEntries _ => λ _, inr (entries, None)
  | _ => λ r, r
  end (env_ok T n c).
Lemma env_tar_accepts es : @disk_accepts (env_tar es).
Proof. by split; [|split]. Qed.

Definition host_ex : Host :=
  mkHost "d" (mkDockerSpec "tcp://10.0.0.1:2375" "" "" "" "" "" "" false "" "" "" false false)
    (Some (mkHostConn 1%positive None)) 0 "" ∅ false.
Definition world_ex : CWorld :=
  mkLocal (mkDWorld net0 {["d" := 2%positive]} {[2%positive := host_ex]} ∅ 3%positive) ∅ ∅.

Definition stream_ex : list TarEntry :=
  [mkTarEntry "data/" 493 0 TypeDir ""; mkTarEntry "data/sub/f" 420 2 TypeReg "hi"].

Lemma download_contained_witness :
  let w' := (@Download (env_tar stream_ex) 2%positive "c" "/data/" "/home/u/dl" world_ex).2 in
  lo_files w' !! "/home/u/dl/sub/f" = Some "hi" ∧
  ("/home/u/dl/sub/f" = "/home/u/dl" ∨ inside "/home/u/dl" "/home/u/dl/sub/f").
Proof.
  split; [vm_compute; reflexivity|].
  apply (@download_contained (env_tar stream_ex) 2%positive "c" "/data/" "/home/u/dl" world_ex).
  - done.
  - intros n s es ending [= <- _]. repeat constructor; unfold entry_ok; apply (bool_decide_eq_true_1 _); vm_compute; reflexivity.
  - intros H. apply (f_equal (option_map String.length)) in H. vm_compute in H. discriminate H.
Defined.

Lemma download_escapes_witness :
  ∃ w', @extract env_ok "data" "/home/u/dl" 0
          [mkTarEntry "data/../../.ssh/authorized_keys" 420 3 TypeReg "key"] world_ex = (Ret 3, w') ∧
        lo_files w' !! "/home/.ssh/authorized_keys" = Some "key".
Proof.
  exact (@download_escapes env_ok ltac:(by split; [|split]) "data" "/home/u/dl" "../.ssh/authorized_keys" "key"
    world_ex ltac:(done) ltac:(done)).
Defined.

Lemma copy_roundtrip_witness :
  ∃ w', @extract env_ok "data" "/dl" 0
    [mkTarEntry "data/" 493 0 TypeDir ""; mkTarEntry "data/a" 420 1 TypeReg "x";
     mkTarEntry "data/b/" 493 0 TypeDir ""; mkTarEntry "data/b/c" 420 2 TypeReg "yz";
     mkTarEntry "data/e/" 493 0 TypeDir ""] world_ex = (Ret 3, w') ∧
    lo_files w' = <["/dl/b/c" := "yz"]> (<["/dl/a" := "x"]> ∅) ∧ "/dl/e" ∈ lo_dirs w'.
Proof.
  pose proof (@copy_roundtrip env_ok ltac:(by split; [|split]) "data" 493
    [("a", NFile 420 (inr "x")); ("b", NDir 493 [("c", NFile 420 (inr "yz")); ("l", NLink 511 4 (inr "root"))]); ("e", NDir 493 [])]
    "/dl" 0 world_ex ltac:(done) ltac:(by repeat split)) as H.
  destruct (proj2 H) as (w' & H1 & H2 & H3). exists w'. split; [exact H1|]. split; [exact H2|]. apply H3. right. left.
  exists ["e"]. split; [apply (bool_decide_eq_true_1 _); vm_compute; reflexivity|]. split; [discriminate|vm_compute; reflexivity].
Defined.

(** ** Copies leave nothing open *)
Section leaves.
Context {E : Env}.

Lemma balanced_host_client l : balanced (host_client l).
Proof.
  apply balanced_bind; [|intros h; destruct (h_conn h); [apply balanced_ret|apply balanced_fail]].
  intros w R Hl. unfold wp, host_at. by destruct (dw_host w !! l).
Qed.
#[local] Hint Resolve balanced_host_client : balanced.

Lemma balanced_extract_entry rp local e : balanced (extract_entry rp local e).
Proof.
  unfold extract_entry. destruct (decide _) as [_|_]; [apply balanced_ret|].
  destruct (te_Type e); [| |solve_balanced..].
  all: apply balanced_bind; [solve_balanced|]; intros _.
  all: apply (balanced_then_close (λ f, [f]) _ _ (λ f, onNet (closeR f)));
    intros; eauto using yields_OpenFile, noerr_copy_body, closes_onNet with balanced; solve_balanced.
Qed.
Lemma balanced_extract rp local total es : balanced (extract rp local total es).
Proof.
  revert total. induction es as [|e es IH]; intros total; simpl; [apply balanced_ret|].
  apply balanced_bind; [apply balanced_extract_entry|]. intros n. apply IH.
Qed.
Lemma balanced_download_file local es ending : balanced (download_file local es ending).
Proof.
  unfold download_file. destruct es as [|e es]; [apply balanced_fail|].
  apply balanced_bind; [solve_balanced|]. intros _.
  apply (balanced_finally_then (λ f, [f]) _ _ (λ f, onNet (closeR f)));
    intros; eauto using yields_OpenFile, closes_onNet with balanced; solve_balanced.
Qed.

(** A copy in either direction closes what it opened: the stream from the
    daemon and each local file, whichever call fails, also in the middle of a
    file. *)
Theorem copies_leave_nothing_open l id localPath remotePath (w : CWorld) R (Hl : ledger (net_of w) R) :
  wp (Upload l id localPath remotePath)
    (λ o w', is_panic o = false → ledger (net_of w') R) w ∧
  wp (Download l id remotePath localPath)
    (λ o w', is_panic o = false → ledger (net_of w') R) w.
Proof.
  split.
  - assert (H : balanced (Upload l id localPath remotePath)).
    { unfold Upload. apply balanced_bind; [solve_balanced|]. intros c.
      apply balanced_bind; [solve_balanced|]. intros root. destruct (writeTar _ root) as [[es err] n]. solve_balanced. }
    eapply wp_mono; [by apply H|]. by intros [] w'.
  - assert (H : balanced (Download l id remotePath localPath)).
    { unfold Download. apply balanced_bind; [solve_balanced|]. intros c.
      apply (balanced_finally2 (λ s, [s]) _ _ (λ s, onNet (closeR s))).
      - apply yields_onWorld, yields_lift, gives_acquire.
      - intros s d. apply balanced_bind; [solve_balanced|]. intros [es ending].
        destruct (negb d); [apply balanced_download_file|]. apply balanced_bind; [solve_balanced|]. intros _.
        apply balanced_bind; [apply balanced_extract|]. intros total. solve_balanced.
      - intros s. apply closes_onNet. }
    eapply wp_mono; [by apply H|]. by intros [] w'.
Qed.
End leaves.

Lemma copies_leave_nothing_open_witness :
  ledger (net_of (@Download (env_tar stream_ex) 2%positive "c" "/data/" "/home/u/dl" world_ex).2) [].
Proof.
  assert (Hl : ledger (net_of world_ex) []) by (split; [intros r; set_solver|constructor|done]).
  pose proof (proj2 (@copies_leave_nothing_open (env_tar stream_ex) 2%positive "c" "/home/u/dl" "/data/" world_ex [] Hl)) as H.
  apply H. vm_compute. reflexivity.
Defined.
