(* ===== verification/Sftp.v ===== *)
(** * Files over SFTP (internal/sshx/sftp.go)

    Every operation takes the SFTP client of its session, opening it when there is
    none ([sftpClient] of Session.v), and then talks to the server.  The files
    that uploads created on the server are remembered next to the local disk. *)

From S2P Require Import Prelude GoStrings Url Paths External Disk Spec Auth World Ledger Session.
From Stdlib Require Import Ascii String.

Record RWorld := mkRWorld {
  rw_ssh : World;
  rw_remote : gmap string string;      (* contents, by path on the server *)
  rw_rdirs : gset string;              (* directories asked for *)
}.
Definition eta_RWorld w := mkRWorld (rw_ssh w) (rw_remote w) (rw_rdirs w).
#[export] Instance upd_rw_ssh : Setter rw_ssh. Proof. mk_setter eta_RWorld. Defined.
#[export] Instance upd_rw_remote : Setter rw_remote. Proof. mk_setter eta_RWorld. Defined.
#[export] Instance upd_rw_rdirs : Setter rw_rdirs. Proof. mk_setter eta_RWorld. Defined.
#[export] Instance RWorld_net : NetIn RWorld :=
  mkNetIn RWorld (λ w, w_net (rw_ssh w)) (λ n w, w <| rw_ssh ::= λ s, s <| w_net := n |> |>) (λ _ _, eq_refl).

Definition onSsh {A} (m : M World A) : M (Local RWorld) A :=
  onWorld (zoom rw_ssh (λ s w, w <| rw_ssh := s |>) m).
Definition onRemote (f : gmap string string → gmap string string) : M (Local RWorld) unit :=
  modify (λ w, w <| lo_world ::= λ r, r <| rw_remote ::= f |> |>).
Abbreviation SM := (M (Local RWorld)).

Record FileEntry := mkFileEntry {
  fe_Name : string;
  fe_Size : Z;
  fe_Mode : string;
  fe_ModTime : Z;
  fe_IsDir : bool;
  fe_Target : string;
}.
Definition entry_of (st : FileInfo) (target : string) : FileEntry :=
  mkFileEntry (st_Name st) (st_Size st) (st_Mode st) (st_ModTime st) (st_IsDir st) target.

Definition maxFileReadBytes : Z := 64 * 1024 * 1024.

Section ops.
Context {E : Env}.

(** [c, err := s.sftpClient()] *)
Definition with_sftp {A} (s : loc) (k : rid → SM A) : SM A := c ← onSsh (sftpClient s); k c.

Fixpoint list_entries (c : rid) (path : string) (l : list FileInfo) : SM (list FileEntry) :=
  match l with
  | [] => mret []
  | e :: l =>
    target ← (if st_IsLink e then
                r ← try (onNet (call (SftpReadLink c (path_Join [path; st_Name e]))));
                mret (match r with inr t => t | inl _ => "" end)
              else mret "");
    out ← list_entries c path l;
    mret (entry_of e target :: out)
  end.
Definition FileList (s : loc) (path : string) : SM (list FileEntry) :=
  with_sftp s (λ c, entries ← onNet (call (SftpReadDir c path)); list_entries c path entries).

Definition FileStat (s : loc) (path : string) : SM FileEntry :=
  with_sftp s (λ c, st ← onNet (call (SftpStat c path)); mret (entry_of st "")).

(** What is read from the open file: at most [limit] bytes of it. *)
Definition read_up_to (f : rid) (limit : Z) : SM string :=
  '(data, stop) ← onNet (call (SftpRead f limit));
  let data := take_str (Z.to_nat limit) data in
  match stop with
  | Some e => if bool_decide (Z.of_nat (String.length data) = limit) then mret data else fail e
  | None => mret data
  end.
Definition read_file (f : rid) (offset length : Z) : SM string :=
  (if bool_decide (offset > 0) then onNet (call (SftpSeek f offset)) else mret tt);;
  if bool_decide (length > 0) then read_up_to f (Z.min length maxFileReadBytes)
  else read_up_to f maxFileReadBytes.
Definition FileRead (s : loc) (path : string) (offset length : Z) : SM string :=
  with_sftp s (λ c,
    '(f, _) ← onNet (acquire (SftpOpen c path));
    finally (read_file f offset length) (onNet (closeR f))).

Definition FileWrite (s : loc) (path data : string) (append : bool) : SM unit :=
  with_sftp s (λ c,
    '(f, _) ← onNet (acquire (SftpOpenFile c path append (negb append)));
    finally (onNet (call (SftpWrite f data))) (onNet (closeR f))).

Definition FileDelete (s : loc) (path : string) : SM unit :=
  with_sftp s (λ c, onNet (call (SftpRemove c path))).
Definition FileMkdir (s : loc) (path : string) (recursive : bool) : SM unit :=
  with_sftp s (λ c, onNet (if recursive then call (SftpMkdirAll c path) else call (SftpMkdir c path))).
Definition FileChmod (s : loc) (path : string) (mode : Z) : SM unit :=
  with_sftp s (λ c, onNet (call (SftpChmod c path mode))).
Definition FileRename (s : loc) (from to : string) : SM unit :=
  with_sftp s (λ c, onNet (call (SftpRename c from to))).

(** ** Upload *)

(** [c.Create(remote)] *)
Definition sftp_Create (c : rid) (remote : string) : SM rid :=
  '(f, _) ← onNet (acquire (SftpOpenFile c remote false true));
  onRemote (<[remote := ""]>);;
  mret f.
(** [io.Copy(out, in)] of the local content *)
Definition send_body (f : rid) (remote body : string) : SM (Z * option error) :=
  r ← try (onNet (call (IoCopy f (Z.of_nat (String.length body)))));
  let '(n, err) := match r with inr x => x | inl e => (0, Some e) end in
  onRemote (<[remote := take_str (Z.to_nat n) body]>);;
  mret (n, err).

(** [content] is what opening and reading the local file gives; the local file is
    not among the resources. *)
Definition uploadFile (c : rid) (content : error + string) (remote : string) (mode : Z) : SM Z :=
  body ← of_sum content;
  out ← sftp_Create c remote;
  finally (
    '(n, err) ← send_body out remote body;
    match err with
    | Some e => fail e
    | None => ignore (onNet (call (SftpChmod c remote (Z.land mode 511))));; mret n
    end) (onNet (closeR out)).

Definition sftp_MkdirAll (c : rid) (path : string) : SM unit :=
  onNet (call (SftpMkdirAll c path));;
  modify (λ w, w <| lo_world ::= λ r, r <| rw_rdirs ::= λ d, {[path]} ∪ d |> |>).

(** The walk of a local tree: [rel] is the path from its root in elements.  The bytes
    sent before an error, which Go returns beside it and no caller reads, are dropped. *)
Fixpoint upload_walk (c : rid) (remotePath : string) (rel : list string) (n : node) : SM Z :=
  let rem := match rel with [] => remotePath | _ => path_Join [remotePath; Join rel "/"] end in
  match n with
  | NBad e => fail e
  | NLink _ _ _ => mret 0
  | NFile perm content => uploadFile c content rem perm
  | NDir _ kids =>
    sftp_MkdirAll c rem;;
    (fix go (kids : list (string * node)) : SM Z :=
       match kids with
       | [] => mret 0
       | (name, k) :: kids => n ← upload_walk c remotePath (rel ++ [name]) k; m ← go kids; mret (n + m)
       end) kids
  end.

Definition Upload (s : loc) (localPath remotePath : string) : SM Z :=
  with_sftp s (λ c,
    root ← onNet (call (LocalTree localPath));
    match root with
    | NFile perm content => uploadFile c content remotePath perm
    | NLink perm _ target => uploadFile c target remotePath perm
    | _ => sftp_MkdirAll c remotePath;; upload_walk c remotePath [] root
    end).

(** ** Download *)
Definition receive_body (out : rid) (local : string) (src : rid) : SM (Z * option error) :=
  r ← try (onNet (call (IoCopyFrom out src)));
  let '(data, err) := match r with inr x => x | inl e => ("", Some e) end in
  modify (λ w, w <| lo_files ::= <[local := data]> |>);;
  mret (Z.of_nat (String.length data), err).

Definition downloadFile (c : rid) (remote local : string) : SM Z :=
  (if decide (Dir local ≠ "." ∧ Dir local ≠ "") then ignore (MkdirAll (Dir local) 493) else mret tt);;
  '(src, _) ← onNet (acquire (SftpOpen c remote));
  finally (
    out ← OpenFile local 438;
    '(n, err) ← finally (receive_body out local src) (onNet (closeR out));
    match err with Some e => fail e | None => mret n end)
  (onNet (closeR src)).

(** Where the file at [path] of the walk goes. *)
Definition local_of (remotePath localPath path : string) : string :=
  let rel := TrimPrefix (TrimPrefix path remotePath) "/" in
  if decide (rel = "") then localPath else path_Join [localPath; rel].

Fixpoint download_walk (c : rid) (remotePath localPath : string) (total : Z)
    (items : list (error + (string * FileInfo))) : SM Z :=
  match items with
  | [] => mret total
  | inl e :: _ => fail e
  | inr (path, st) :: items =>
    let loc := local_of remotePath localPath path in
    if st_IsLink st then download_walk c remotePath localPath total items
    else if st_IsDir st then
      MkdirAll loc 493;; download_walk c remotePath localPath total items
    else
      n ← downloadFile c path loc;
      download_walk c remotePath localPath (total + n) items
  end.

Definition Download (s : loc) (remotePath localPath : string) : SM Z :=
  with_sftp s (λ c,
    info ← onNet (call (SftpLstat c remotePath));
    if negb (st_IsDir info) then downloadFile c remotePath localPath else
    MkdirAll localPath 493;;
    items ← onNet (call (SftpWalk c remotePath));
    download_walk c remotePath localPath 0 items).
End ops.

(** ** A session whose client is open *)
Definition sftp_ready (s : loc) (c : rid) (w : Local RWorld) : Prop :=
  ∃ ss, w_sess (rw_ssh (lo_world w)) !! s = Some ss ∧ sftp ss = Some c.

Section facts.
Context {E : Env}.

Lemma with_sftp_ready {A} s c (k : rid → SM A) w : sftp_ready s c w → with_sftp s k w = k c w.
Proof.
  intros (ss & Hs & Hc). unfold with_sftp. apply bind_ret.
  unfold onSsh, onWorld, zoom, sftpClient, sess_at, mbind, M_bind. rewrite Hs. rewrite Hc.
  by destruct w as [[] ? ?].
Qed.

(** What [m] returns satisfies [P]. *)
Definition returns {A} (P : A → Prop) (m : SM A) : Prop := ∀ w, wp m (λ o _, match o with Ret a => P a | _ => True end) w.
Lemma returns_bind {A B} (P : B → Prop) (m : SM A) (k : A → SM B) : (∀ a, returns P (k a)) → returns P (m ≫= k).
Proof. intros Hk w. unfold wp, mbind, M_bind. destruct (m w) as [[a|e|p] w'] eqn:Hm; [apply Hk|done|done]. Qed.
Lemma returns_finally {A} (P : A → Prop) (m : SM A) d : returns P m → returns P (finally m d).
Proof.
  intros Hm w. unfold finally. apply wp_bind, wp_try. eapply wp_mono; [by apply Hm|].
  intros [a|e|p] w' H; [| |done]; apply wp_bind; unfold wp at 1; by destruct (d w') as [[]].
Qed.
Lemma returns_ret {A} (P : A → Prop) (a : A) : P a → returns P (mret a : SM A).
Proof. by intros H w. Qed.
Lemma returns_fail {A} (P : A → Prop) e : returns P (fail e : SM A).
Proof. done. Qed.

Lemma returns_read_up_to f limit : 0 ≤ limit →
  returns (λ d, Z.of_nat (String.length d) ≤ limit) (read_up_to f limit).
Proof.
  intros Hl. apply returns_bind. intros [d stop].
  pose proof (length_take_str_le (Z.to_nat limit) d) as Hd.
  unfold mret in *. destruct stop; [destruct (bool_decide _)|]; [|apply returns_fail|]; apply returns_ret; lia.
Qed.
End facts.

(** One read returns at most 64 MiB, and at most [length] bytes when a length
    is asked for: the daemon's memory is bounded whatever the client asks. *)
Theorem FileRead_bounded {E : Env} s path offset length w data w'
    (H : FileRead s path offset length w = (Ret data, w')) :
  Z.of_nat (String.length data) ≤ maxFileReadBytes ∧
  (0 < length → Z.of_nat (String.length data) ≤ length).
Proof.
  assert (Hr : returns (λ d, Z.of_nat (String.length d) ≤ maxFileReadBytes ∧
      (0 < length → Z.of_nat (String.length d) ≤ length)) (FileRead s path offset length)).
  { apply returns_bind. intros c. apply returns_bind. intros [f []]. apply returns_finally.
    unfold read_file. apply returns_bind. intros _. unfold maxFileReadBytes. destruct (decide (length > 0)) as [Hl|Hl];
      [rewrite (bool_decide_eq_true_2 _ Hl)|rewrite (bool_decide_eq_false_2 _ Hl)].
    - intros w0. eapply wp_mono; [apply returns_read_up_to; lia|]. intros [d| |] w1 Hd; [|done|done]. lia.
    - intros w0. eapply wp_mono; [apply returns_read_up_to; lia|]. intros [d| |] w1 Hd; [|done|done]. lia. }
  specialize (Hr w). unfold wp in Hr. by rewrite H in Hr.
Qed.

(** ** What transfers leave open *)
Section balanced.
Context {E : Env}.

Lemma yields_acquire {X} (c : ext X) : yields (λ p : rid * X, [p.1]) (onNet (T := RWorld) (acquire c)).
Proof. apply (yields_onWorld (λ p : rid * X, [p.1])), yields_lift, gives_acquire. Qed.
Lemma balanced_opened {A} (c : ext unit) (k : rid → SM A) : (∀ f, balanced (k f)) →
  balanced ('(f, _) ← onNet (acquire c); finally (k f) (onNet (closeR f))).
Proof.
  intros Hk. apply (balanced_finally2 (λ f, [f]) _ (λ f (_ : unit), k f) (λ f, onNet (closeR f))).
  - apply yields_acquire.
  - intros f _. apply Hk.
  - intros f. apply closes_onNet.
Qed.

Lemma balanced_read_file f offset length : balanced (read_file f offset length).
Proof. unfold read_file, read_up_to. solve_balanced. Qed.
Lemma balanced_send_body f remote body : balanced (send_body f remote body).
Proof.
  unfold send_body, onRemote. apply balanced_bind; [solve_balanced|]. intros r.
  destruct (match r with inr x => x | inl e => _ end) as [n err].
  apply balanced_bind; [by apply balanced_modify|]. intros _. apply balanced_ret.
Qed.
Lemma balanced_receive_body out local src : balanced (receive_body out local src).
Proof.
  unfold receive_body. apply balanced_bind; [solve_balanced|]. intros r.
  destruct (match r with inr x => x | inl e => _ end) as [n err].
  apply balanced_bind; [by apply balanced_modify|]. intros _. apply balanced_ret.
Qed.
Lemma yields_Create c remote : yields (λ f, [f]) (sftp_Create c remote).
Proof.
  intros w R Hl. apply wp_bind. eapply wp_mono; [by apply yields_acquire|].
  intros [[f []]|e|p] w' H; [|done|done]. apply wp_bind, wp_modify, wp_ret. done.
Qed.
Lemma balanced_uploadFile c content remote mode : balanced (uploadFile c content remote mode).
Proof.
  apply balanced_bind; [apply balanced_of_sum|]. intros body.
  apply (balanced_finally (λ f, [f]) _ _ (λ f, onNet (closeR f))).
  - apply yields_Create.
  - intros f. apply balanced_bind; [apply balanced_send_body|]. intros [n err]. solve_balanced.
  - intros f. apply closes_onNet.
Qed.
Lemma balanced_sftp_MkdirAll c path : balanced (sftp_MkdirAll c path).
Proof. apply balanced_bind; [solve_balanced|]. intros _. by apply balanced_modify. Qed.
Lemma balanced_upload_walk c remotePath n rel : balanced (upload_walk c remotePath rel n).
Proof.
  revert rel. induction n as [perm x|perm kids IH|perm size t|e] using node_ind'; intros rel; simpl.
  - apply balanced_uploadFile.
  - apply balanced_bind; [apply balanced_sftp_MkdirAll|]. intros _.
    induction IH as [|[name k] kids Hk _ IHk]; [apply balanced_ret|].
    apply balanced_bind; [by apply Hk|]. intros n. apply balanced_bind; [exact IHk|]. intros m. apply balanced_ret.
  - apply balanced_ret.
  - apply balanced_fail.
Qed.
Lemma balanced_downloadFile c remote local : balanced (downloadFile c remote local).
Proof.
  unfold downloadFile. apply balanced_bind; [solve_balanced|]. intros _. apply balanced_opened. intros src.
  apply (balanced_finally_then (λ f, [f]) _ _ (λ f, onNet (closeR f))).
  - apply yields_OpenFile.
  - intros f. apply balanced_receive_body.
  - intros f. apply closes_onNet.
  - intros f [n err]. solve_balanced.
Qed.
Lemma balanced_download_walk c remotePath localPath items total :
  balanced (download_walk c remotePath localPath total items).
Proof.
  revert total. induction items as [|[e|[p st]] items IH]; intros total; simpl;
    [apply balanced_ret|apply balanced_fail|].
  repeat case_match; [apply IH| |];
    (apply balanced_bind; [eauto using balanced_MkdirAll, balanced_downloadFile|]; intros; apply IH).
Qed.
End balanced.

(** C40: reading, writing and transferring files leave nothing open but the session's
    client: every remote and local file is closed, whichever call fails, also in the
    middle of a tree. *)
Theorem sftp_leaves_nothing_open {E : Env} s c w R (Hready : sftp_ready s c w) (Hl : ledger (net_of w) R) :
  let clean {A} (m : SM A) := wp m (λ o w', is_panic o = false → ledger (net_of w') R) w in
  (∀ path offset length, clean (FileRead s path offset length)) ∧
  (∀ path data append, clean (FileWrite s path data append)) ∧
  (∀ localPath remotePath, clean (Upload s localPath remotePath)) ∧
  (∀ remotePath localPath, clean (Download s remotePath localPath)).
Proof.
  intros clean.
  assert (Hc : ∀ A (k : rid → SM A), balanced (k c) → clean A (with_sftp s k)).
  { intros A k Hk. unfold clean, wp. rewrite (with_sftp_ready s c k w Hready).
    specialize (Hk w R Hl). unfold wp in Hk. by destruct (k c w) as [[]]. }
  split; [|split; [|split]]; intros; apply Hc.
  - apply balanced_opened. intros f. apply balanced_read_file.
  - apply balanced_opened. intros f. solve_balanced.
  - apply balanced_bind; [solve_balanced|]. intros root.
    destruct root; try apply balanced_uploadFile;
      (apply balanced_bind; [apply balanced_sftp_MkdirAll|]; intros _; apply balanced_upload_walk).
  - apply balanced_bind; [solve_balanced|]. intros info. destruct (negb _); [apply balanced_downloadFile|].
    apply balanced_bind; [solve_balanced|]. intros _. apply balanced_bind; [solve_balanced|]. intros items.
    apply balanced_download_walk.
Qed.

(** ** Uploads mirror a tree *)
Definition server_accepts {E : Env} : Prop :=
  (∀ n c p, env _ n (SftpMkdirAll c p) = inr tt) ∧
  (∀ n c p a t, env _ n (SftpOpenFile c p a t) = inr tt) ∧
  ∀ n f len, env _ n (IoCopy f len) = inr (len, None).
Local Abbreviation remote w := (rw_remote (lo_world w)).

Section runs.
Context {E : Env}.

Lemma run_net {A} (m : M Net A) a (w : Local RWorld) : (∀ n, ∃ n', m n = (Ret a, n')) →
  ∃ w', onNet m w = (Ret a, w') ∧ remote w' = remote w ∧ lo_files w' = lo_files w.
Proof.
  intros H. destruct (H (net_of w)) as [n' Hm]. eexists. unfold onNet, onWorld, zoom.
  change (net_of (lo_world w)) with (net_of w). rewrite Hm. by repeat split.
Qed.
Lemma run_ok {X} (c : ext X) x w : (∀ n, env X n c = inr x) →
  ∃ w', onNet (call c) w = (Ret x, w') ∧ remote w' = remote w ∧ lo_files w' = lo_files w.
Proof. intros H. apply run_net. intros n. unfold call. rewrite H. by eexists. Qed.
Lemma run_open (c : ext unit) (w : Local RWorld) : (∀ n, env _ n c = inr tt) →
  ∃ f w', onNet (acquire c) w = (Ret (f, tt), w') ∧ remote w' = remote w ∧ lo_files w' = lo_files w.
Proof.
  intros H. unfold onNet, onWorld, zoom, acquire, call, mbind, M_bind. rewrite H. by repeat eexists.
Qed.
Lemma run_close f (w : Local RWorld) :
  ∃ w', onNet (closeR f) w = (Ret tt, w') ∧ remote w' = remote w ∧ lo_files w' = lo_files w.
Proof. apply run_net. intros n. by eexists. Qed.
Lemma run_ignored {X} (c : ext X) (w : Local RWorld) :
  ∃ w', ignore (onNet (call c)) w = (Ret tt, w') ∧ remote w' = remote w ∧ lo_files w' = lo_files w.
Proof.
  unfold ignore, try, onNet, onWorld, zoom, call, mbind, M_bind.
  destruct (env _ _ _); by repeat eexists.
Qed.

Context (Hacc : server_accepts).

Lemma run_uploadFile c d rem mode w : ∃ w',
  uploadFile c (inr d) rem mode w = (Ret (Z.of_nat (String.length d)), w') ∧
  remote w' = <[rem := d]> (remote w).
Proof.
  destruct Hacc as (_ & Hopen & Hcopy). unfold uploadFile.
  destruct (run_open (SftpOpenFile c rem false true) w) as (f & w1 & H1 & Hr1 & _); [by intros|].
  assert (Hc : sftp_Create c rem w = (Ret f, w1 <| lo_world ::= λ r : RWorld, r <| rw_remote ::= <[rem := ""]> |> |>)).
  { unfold sftp_Create. rewrite (bind_ret _ _ _ _ _ H1). done. }
  change (of_sum (inr d) ≫= ?k) with (k d). cbv beta. rewrite (bind_ret _ _ _ _ _ Hc).
  set (w2 := w1 <| lo_world ::= λ r : RWorld, r <| rw_remote ::= <[rem := ""]> |> |>).
  destruct (run_ok (IoCopy f (Z.of_nat (String.length d))) (Z.of_nat (String.length d), None) w2)
    as (w3 & H3 & Hr3 & _); [by intros|].
  set (w4 := w3 <| lo_world ::= λ r : RWorld, r <| rw_remote ::= <[rem := d]> |> |>).
  assert (Hb : send_body f rem d w2 = (Ret (Z.of_nat (String.length d), None), w4)).
  { unfold send_body. erewrite bind_ret; [|unfold try; by rewrite H3].
    cbv beta iota. rewrite Nat2Z.id, take_str_all. done. }
  destruct (run_ignored (SftpChmod c rem (Z.land mode 511)) w4) as (w5 & H5 & Hr5 & _).
  destruct (run_close f w5) as (w6 & H6 & Hr6 & _).
  exists w6. split.
  - apply finally_ret with w5; [|done]. rewrite (bind_ret _ _ _ _ _ Hb). cbv beta iota.
    by rewrite (bind_ret _ _ _ _ _ H5).
  - rewrite Hr6, Hr5. simpl. rewrite Hr3. simpl. by rewrite Hr1, insert_insert_eq.
Qed.
Lemma run_sftp_MkdirAll c path w : ∃ w', sftp_MkdirAll c path w = (Ret tt, w') ∧ remote w' = remote w.
Proof.
  destruct (run_ok (SftpMkdirAll c path) tt w) as (w1 & H1 & Hr1 & _); [intros; apply Hacc|].
  eexists. unfold sftp_MkdirAll. rewrite (bind_ret _ _ _ _ _ H1). by split.
Qed.
Lemma run_upload_walk c remotePath n rel w : readable n →
  match n with NDir _ _ => True | _ => rel ≠ [] end → ∃ w',
  upload_walk c remotePath rel n w = (Ret (total_len (map (lands remotePath) (tree_files rel n))), w') ∧
  remote w' = write_all (map (lands remotePath) (tree_files rel n)) (remote w).
Proof.
  revert rel w. induction n as [perm x|perm kids IH|perm size t|e] using node_ind'; intros rel w Hn Hrel.
  - destruct x as [e|d]; [done|]. cbn [upload_walk]. destruct rel as [|x rel]; [done|].
    destruct (run_uploadFile c d (path_Join [remotePath; Join (x :: rel) "/"]) perm w) as (w' & -> & Hw').
    exists w'. simpl. rewrite Z.add_0_r. by split.
  - cbn [upload_walk].
    destruct (run_sftp_MkdirAll c (match rel with [] => remotePath | _ => path_Join [remotePath; Join rel "/"] end) w)
      as (w1 & H1 & <-). rewrite (bind_ret _ _ _ _ _ H1). clear H1 Hrel. revert w1.
    induction IH as [|[name k] kids Hk _ IHk]; intros w1; [by eexists|].
    destruct Hn as (_ & Hread & Hrest).
    destruct (Hk (rel ++ [name]) w1 Hread ltac:(destruct k; by destruct rel)) as (w2 & H2 & Hw2).
    rewrite (bind_ret _ _ _ _ _ H2). destruct (IHk Hrest w2) as (w3 & H3 & Hw3).
    rewrite (bind_ret _ _ _ _ _ H3). exists w3. cbn [tree_files] in *.
    rewrite map_app, total_len_app, write_all_app, Hw3, Hw2. by split.
  - by eexists.
  - done.
Qed.
End runs.

(** C39: uploading a directory that can be read to a server that accepts it recreates
    the tree there: each regular file, and nothing else, with its content, at its
    place below [remotePath]; the byte count is the sum of the files.  Permission
    bits may be refused; symbolic links are left out. *)
Theorem sftp_upload_mirrors {E : Env} (Hacc : server_accepts) s c localPath remotePath perm kids w
    (Hready : sftp_ready s c w) (Hread : readable (NDir perm kids))
    (Htree : ∀ n, env _ n (LocalTree localPath) = inr (NDir perm kids)) :
  let files := map (lands remotePath) (tree_files [] (NDir perm kids)) in
  ∃ w', Upload s localPath remotePath w = (Ret (total_len files), w') ∧
        rw_remote (lo_world w') = write_all files (rw_remote (lo_world w)).
Proof.
  intros files. unfold Upload. rewrite (with_sftp_ready s c _ w Hready).
  destruct (run_ok (LocalTree localPath) _ w Htree) as (w1 & H1 & <- & _). rewrite (bind_ret _ _ _ _ _ H1).
  destruct (run_sftp_MkdirAll Hacc c remotePath w1) as (w2 & H2 & <-). rewrite (bind_ret _ _ _ _ _ H2).
  by apply run_upload_walk.
Qed.

(** ** Downloads recreate a tree *)
Definition info_of (name : string) (dir link : bool) : FileInfo := mkFileInfo name 0 "" 0 dir link.
(** What the walk of a tree at [path] yields, in its order: a name is joined to the
    path of its directory. *)
Fixpoint walk_items (path : string) (n : node) : list (error + (string * FileInfo)) :=
  match n with
  | NFile _ _ => [inr (path, info_of (Base path) false false)]
  | NLink _ _ _ => [inr (path, info_of (Base path) false true)]
  | NBad e => [inl e]
  | NDir _ kids =>
    inr (path, info_of (Base path) true false) ::
    (fix go (kids : list (string * node)) :=
       match kids with [] => [] | (name, k) :: kids => walk_items (path_Join [path; name]) k ++ go kids end) kids
  end.
Definition downloads_accepted {E : Env} : Prop :=
  disk_accepts ∧ (∀ n c p, env _ n (SftpOpen c p) = inr tt) ∧
  ∀ n dst src, ∃ d, env _ n (IoCopyFrom dst src) = inr (d, None).

(** Where the code puts an entry of the walk. *)
Lemma local_of_below remotePath localPath rel : Clean remotePath = remotePath → remotePath ≠ "." →
  Forall ordinary rel → local_of remotePath localPath (below remotePath rel) = below localPath rel.
Proof.
  intros Hclean Hdot Hrel. unfold local_of. rewrite below_rel by done.
  destruct rel as [|x rel]; [done|]. rewrite decide_False by by apply Join_ordinary. done.
Qed.

Section lands.
Context {E : Env} (Hacc : downloads_accepted).
Context (c : rid) (remotePath localPath : string) (Hclean : Clean remotePath = remotePath) (Hdot : remotePath ≠ ".").

Lemma run_downloadFile rem local w : ∃ n w', downloadFile c rem local w = (Ret n, w') ∧
  dom (lo_files w') = {[local]} ∪ dom (lo_files w).
Proof using Hacc.
  destruct Hacc as (Hdisk & Hopen & Hcopy). unfold downloadFile.
  assert (H0 : ∃ w0, (if decide (Dir local ≠ "." ∧ Dir local ≠ "") then ignore (MkdirAll (Dir local) 493) else mret tt) w
      = (Ret tt, w0) ∧ lo_files w0 = lo_files w).
  { destruct (decide _); [|by eexists]. destruct (run_MkdirAll Hdisk (Dir local) 493 w) as (w0 & Hr & Hf).
    exists w0. split; [|done]. unfold ignore, try, mbind, M_bind. by rewrite Hr. }
  destruct H0 as (w0 & H0 & Hf0). rewrite (bind_ret _ _ _ _ _ H0).
  destruct (run_open (SftpOpen c rem) w0) as (src & w1 & H1 & _ & Hf1); [by intros|]. rewrite (bind_ret _ _ _ _ _ H1).
  destruct (run_OpenFile Hdisk local 438 w1) as (out & w2 & H2 & Hf2).
  destruct (Hcopy (n_tick (net_of w2)) out src) as [d Hd].
  assert (H3 : ∃ w3, receive_body out local src w2 = (Ret (Z.of_nat (String.length d), None), w3) ∧
      lo_files w3 = <[local := d]> (lo_files w2)).
  { eexists. unfold receive_body. erewrite bind_ret; [|unfold try, onNet, onWorld, zoom, call;
      change (net_of (lo_world w2)) with (net_of w2); rewrite Hd; reflexivity]. by split. }
  destruct H3 as (w3 & H3 & Hf3). destruct (run_close out w3) as (w4 & H4 & _ & Hf4).
  destruct (run_close src w4) as (w5 & H5 & _ & Hf5). eexists _, w5. split.
  - eapply finally_ret; [|exact H5]. rewrite (bind_ret _ _ _ _ _ H2).
    rewrite (bind_ret _ _ _ _ _ (finally_ret _ _ _ _ _ _ H3 H4)). reflexivity.
  - rewrite Hf5, Hf4, Hf3, Hf2, Hf1, Hf0, !dom_insert_L. clear. set_solver.
Qed.

Definition places (l : list (list string * string)) : gset string := list_to_set (map (λ f, below localPath f.1) l).
Lemma run_download_walk n rel items total w : readable n → Forall ordinary rel →
  ∃ total' w', download_walk c remotePath localPath total (walk_items (below remotePath rel) n ++ items) w =
    download_walk c remotePath localPath total' items w' ∧
  dom (lo_files w') = places (tree_files rel n) ∪ dom (lo_files w).
Proof using Hacc Hclean Hdot.
  revert rel items total w. induction n as [perm x|perm kids IH|perm size t|e] using node_ind';
    intros rel items total w Hn Hrel.
  - destruct x as [e|d]; [done|]. cbn [walk_items app download_walk st_IsLink st_IsDir info_of].
    rewrite local_of_below by done. destruct (run_downloadFile (below remotePath rel) (below localPath rel) w) as (n & w' & Hr & Hf).
    rewrite (bind_ret _ _ _ _ _ Hr). eexists _, w'. split; [done|]. rewrite Hf. unfold places. simpl. set_solver.
  - cbn [walk_items]. rewrite <- app_comm_cons. cbn [download_walk st_IsLink st_IsDir info_of].
    rewrite local_of_below by done. destruct Hacc as (Hdisk & _).
    destruct (run_MkdirAll Hdisk (below localPath rel) 493 w) as (w1 & H1 & <-). rewrite (bind_ret _ _ _ _ _ H1).
    clear H1. revert items total w1. induction IH as [|[name k] kids Hk _ IHk]; intros items total w1.
    { eexists _, w1. split; [done|]. unfold places. simpl. set_solver. }
    cbn [snd] in Hk. destruct Hn as (Hname & Hread & Hrest). rewrite below_snoc, <- app_assoc by done.
    assert (Hrel' : Forall ordinary (rel ++ [name])) by (apply Forall_app; split; [done|by apply Forall_singleton]).
    destruct (Hk (rel ++ [name]) ((fix go (kids : list (string * node)) :=
       match kids with [] => [] | (name, k) :: kids => walk_items (path_Join [below remotePath rel; name]) k ++ go kids end)
       kids ++ items) total w1 Hread Hrel') as (t2 & w2 & -> & Hf2).
    destruct (IHk Hrest items t2 w2) as (t3 & w3 & -> & Hf3). exists t3, w3. split; [done|].
    rewrite Hf3, Hf2. unfold places. cbn [tree_files]. rewrite map_app, list_to_set_app_L. set_solver.
  - cbn [walk_items app download_walk st_IsLink info_of]. eexists _, w. split; [done|]. unfold places. simpl. set_solver.
  - done.
Qed.
End lands.

(** Downloading a directory whose path is clean (and is not ".") puts each of its
    regular files, and nothing else, at its place below [localPath]; symbolic links
    are left out. *)
Theorem sftp_download_lands {E : Env} (Hacc : downloads_accepted) s c remotePath localPath perm kids info w
    (Hready : sftp_ready s c w) (Hclean : Clean remotePath = remotePath) (Hdot : remotePath ≠ ".")
    (Hread : readable (NDir perm kids)) (Hdir : st_IsDir info = true)
    (Hlstat : ∀ n, env _ n (SftpLstat c remotePath) = inr info)
    (Hwalk : ∀ n, env _ n (SftpWalk c remotePath) = inr (walk_items remotePath (NDir perm kids))) :
  ∃ total w', Download s remotePath localPath w = (Ret total, w') ∧
    dom (lo_files w') = places localPath (tree_files [] (NDir perm kids)) ∪ dom (lo_files w).
Proof.
  unfold Download. rewrite (with_sftp_ready s c _ w Hready).
  destruct (run_ok _ _ w Hlstat) as (w1 & H1 & _ & <-). rewrite (bind_ret _ _ _ _ _ H1), Hdir. cbn [negb].
  destruct (run_MkdirAll (proj1 Hacc) localPath 493 w1) as (w2 & H2 & <-). rewrite (bind_ret _ _ _ _ _ H2).
  destruct (run_ok _ _ w2 Hwalk) as (w3 & H3 & _ & <-). rewrite (bind_ret _ _ _ _ _ H3).
  destruct (run_download_walk Hacc c remotePath localPath Hclean Hdot (NDir perm kids) [] [] 0 w3 Hread (Forall_nil_2 _))
    as (t & w4 & Hr & Hf). rewrite app_nil_r in Hr. exists t, w4. split; [exact Hr|exact Hf].
Qed.

(** A root that is not clean is not a prefix of the walked paths: the tree lands one
    level too deep, and for "." the leading dot of a name is cut off, so that two
    files share one place. *)
Lemma local_of_unclean :
  local_of "./data" "/dl" (path_Join ["./data"; "f"]) = "/dl/data/f" ∧
  local_of "." "/dl" (path_Join ["."; ".profile"]) = local_of "." "/dl" (path_Join ["."; "profile"]).
Proof. split; vm_compute; reflexivity. Qed.

(** ** The theorems on a concrete session *)
Definition kids_ex : list (string * node) :=
  [("a", NFile 420 (inr "x")); ("b", NDir 493 [("c", NFile 420 (inr "yz")); ("l", NLink 511 4 (inr "root"))])].
Definition tree_ex : node := NDir 493 kids_ex.
Definition env_sftp : Env := λ T n c,
  match c in ext T return error + T → error + T with
  | LocalTree _ => λ _, inr tree_ex
  | SftpLstat _ p => λ _, inr (info_of p true false)
  | SftpWalk _ p => λ _, inr (walk_items p tree_ex)
  | SftpRead _ _ => λ _, inr ("hello", None)
  | SftpChmod _ _ _ => λ _, inl (Msg "permission denied")
  | IoCopyFrom _ _ => λ _, inr ("data", None)
  | _ => λ r, r
  end (env_ok T n c).
Definition session_ex : Session :=
  mkSession "s" (mkConnectSpec "root" None None (mkAuthSpec "" "" true "/run/agent" "") "" true 0 0 true false true true)
    None [] "" StateConnected None 0 ∅ ∅ (Some 1%positive) false None false None false.
Definition sworld_ex : Local RWorld :=
  mkLocal (mkRWorld (world0 <| w_net := mkNet 0 2%positive {[1%positive]} |>
                            <| w_sess := {[1%positive := session_ex]} |>) ∅ ∅) ∅ ∅.
Lemma sftp_ready_ex : sftp_ready 1%positive 1%positive sworld_ex.
Proof. eexists. split; [vm_compute; reflexivity|done]. Qed.

Lemma FileRead_bounded_witness : Z.of_nat (String.length "hel") ≤ maxFileReadBytes ∧ (0 < 3 → Z.of_nat (String.length "hel") ≤ 3).
Proof.
  apply (@FileRead_bounded env_sftp 1%positive "/etc/hostname" 0 3 sworld_ex "hel"
    (@FileRead env_sftp 1%positive "/etc/hostname" 0 3 sworld_ex).2).
  vm_compute. reflexivity.
Defined.
Lemma sftp_leaves_nothing_open_witness :
  ledger (net_of (@Upload env_sftp 1%positive "/src" "/srv/x" sworld_ex).2) [1%positive].
Proof.
  assert (Hl : ledger (net_of sworld_ex) [1%positive]).
  { split; [intros r Hr; change (r ∈ ({[1%positive]} : gset rid)) in Hr; apply elem_of_singleton in Hr as ->; vm_compute; reflexivity|apply NoDup_singleton|by vm_compute]. }
  destruct (@sftp_leaves_nothing_open env_sftp 1%positive 1%positive sworld_ex [1%positive] sftp_ready_ex Hl) as (_ & _ & H & _).
  apply (H "/src" "/srv/x"). vm_compute. reflexivity.
Defined.
Lemma sftp_upload_mirrors_witness :
  ∃ w', @Upload env_sftp 1%positive "/src" "/srv/x" sworld_ex = (Ret 3, w') ∧
        rw_remote (lo_world w') = <["/srv/x/b/c" := "yz"]> (<["/srv/x/a" := "x"]> ∅).
Proof.
  exact (@sftp_upload_mirrors env_sftp ltac:(by split; [|split]) 1%positive 1%positive "/src" "/srv/x" 493 kids_ex sworld_ex
    sftp_ready_ex ltac:(by repeat split) ltac:(done)).
Defined.
Lemma sftp_download_lands_witness :
  ∃ total w', @Download env_sftp 1%positive "/srv/x" "/dl" sworld_ex = (Ret total, w') ∧
    dom (lo_files w') = places "/dl" [(["a"], "x"); (["b"; "c"], "yz")] ∪ ∅.
Proof.
  assert (Hacc : @downloads_accepted env_sftp) by (split; [by split; [|split]|split; [done|by eexists]]).
  exact (@sftp_download_lands env_sftp Hacc 1%positive 1%positive "/srv/x" "/dl" 493 kids_ex (info_of "/srv/x" true false) sworld_ex
    sftp_ready_ex ltac:(by vm_compute) ltac:(done) ltac:(by repeat split) ltac:(done) ltac:(done) ltac:(done)).
Defined.
