(* ===== verification/Records.v ===== *)
(** * Which operations change what is persisted

    The snapshot depends on the managers' maps, on the specs of the registered
    sessions and hosts, and on the forwards of those sessions ([rec_sess],
    [rec_fwd]).  [light] is the part of the managers' invariant it relies on;
    [kept w w'] says that it still holds and that none of this changed.  Everything
    but connecting, disconnecting and opening or closing a forward is [kept]; those
    are [kept] too when they fail, closing a forward apart. *)

From S2P Require Import Docker.
From S2P Require Import Prelude GoStrings Url External Spec SshConfig Auth Dial World Ledger Session Forward Shell Manager ManagerProps State Containers Disk Copy Sftp.
From Stdlib Require Import Ascii String.

(** [m] moves along [G], and when it fails along [K], which is finer. *)
Definition attempts {S A} (K G : S → S → Prop) (m : M S A) : Prop :=
  stays G m ∧ ∀ w, match m w with (Err _, w') => K w w' | _ => True end.

Section attempts.
Context {S : Type} (K G : S → S → Prop) `{!PreOrder K, !PreOrder G} (HKG : ∀ w w', K w w' → G w w').

Lemma attempts_stays {A} (m : M S A) : stays K m → attempts K G m.
Proof.
  intros H. split; [intros w; by apply HKG|]. intros w. specialize (H w). by destruct (m w) as [[] ?].
Qed.
Lemma attempts_bind {A B} (m : M S A) (k : A → M S B) :
  stays K m → (∀ a, attempts K G (k a)) → attempts K G (m ≫= k).
Proof.
  intros Hm Hk. split; [apply stays_bind; [apply _|intros w; by apply HKG|intros a; apply Hk]|].
  intros w. unfold mbind, M_bind. specialize (Hm w). destruct (m w) as [[a|e|p] w1]; simpl in *; [|done|done].
  destruct (Hk a) as [_ H]. specialize (H w1). destruct (k a w1) as [[b|e|p] w2]; [done| |done]. by etrans.
Qed.
Lemma attempts_then {A B} (m : M S A) (k : A → M S B) :
  attempts K G m → (∀ a, stays G (k a)) → (∀ a, noerr (k a)) → attempts K G (m ≫= k).
Proof.
  intros [Hg Hm] Hk Hne. split; [by apply stays_bind; [apply _|..]|].
  intros w. unfold mbind, M_bind. specialize (Hm w). destruct (m w) as [[a|e|p] w1]; [|done|done].
  pose proof (Hne a w1) as H. destruct (k a w1) as [[b|e|p] w2]; [done| |done]. by destruct (H e).
Qed.
End attempts.

(** A loop that takes every entry out of a map, with [P] kept along. *)
Lemma forM_drains {S V} (P : S → Prop) (g : S → gmap string V) (f : string * V → M S unit) l :
  (∀ p s, P s → match f p s with (Ret _, s') => P s' ∧ g s' = delete p.1 (g s) | _ => True end) →
  ∀ s s', P s → forM_ l f s = (Ret tt, s') → ∀ id v, g s' !! id = Some v → g s !! id = Some v ∧ id ∉ l.*1.
Proof.
  intros Hf. induction l as [|p l IH]; cbn [forM_]; intros s s' HP Hrun id v Hid.
  - injection Hrun as <-. split; [done|apply not_elem_of_nil].
  - unfold mbind, M_bind in Hrun. specialize (Hf p s HP). destruct (f p s) as [[[]|e|q] s1]; [|done|done].
    destruct Hf as [HP1 Hg]. destruct (IH s1 s' HP1 Hrun id v Hid) as [Hin Hout].
    rewrite Hg in Hin. apply lookup_delete_Some in Hin as [Hne ?]. split; [done|].
    rewrite fmap_cons. apply not_elem_of_cons. by split.
Qed.
Lemma drained {S V} (P : S → Prop) (g : S → gmap string V) (f : string * V → M S unit) s s' :
  (∀ p s, P s → match f p s with (Ret _, s') => P s' ∧ g s' = delete p.1 (g s) | _ => True end) →
  P s → forM_ (map_to_list (g s)) f s = (Ret tt, s') → g s' = ∅.
Proof.
  intros Hf HP Hrun. apply map_empty. intros id. destruct (g s' !! id) as [v|] eqn:Hid; [|done].
  destruct (forM_drains P g f _ Hf s s' HP Hrun id v Hid) as [Hin Hout].
  destruct Hout. apply list_elem_of_fmap. exists (id, v). by rewrite elem_of_map_to_list.
Qed.

(** ** The ssh manager *)
Definition rec_sess (s : Session) := (s_ID s, s_Spec s, forwards s).
Definition rec_fwd (F : Forward) := (f_ID F, f_Spec F).

(** A forward as it is recorded: addresses that were left out are the local host. *)
Definition asked (s : ForwardSpec) : ForwardSpec :=
  match s with
  | ForwardLocal s => ForwardLocal (mkLocalSpec (or_default (l_BindAddr s) localhost) (l_BindPort s) (l_RemoteHost s) (l_RemotePort s))
  | ForwardRemote s => ForwardRemote (mkRemoteSpec (or_default (r_BindAddr s) localhost) (r_BindPort s)
                         (or_default (r_LocalHost s) localhost) (r_LocalPort s))
  | ForwardDynamic s => ForwardDynamic (mkDynamicSpec (or_default (dy_BindAddr s) localhost) (dy_BindPort s))
  end.
Lemma or_default_idem a b : or_default (or_default a b) b = or_default a b.
Proof. unfold or_default. repeat case_decide; congruence. Qed.
Lemma asked_idem s : asked (asked s) = asked s.
Proof. destruct s; simpl; by rewrite !or_default_idem. Qed.
Definition named_as (id : string) (F : Forward) : Prop := f_ID F = id ∧ asked (f_Spec F) = f_Spec F.

Record light (w : World) : Prop := {
  li_reg : reg_ok w;
  li_noname : sessions w !! "" = None;
  li_fwds : ∀ l s id f, w_sess w !! l = Some s → forwards s !! id = Some f → ∃ F, w_fwd w !! f = Some F ∧ named_as id F;
  li_sess : ∀ l s, w_sess w !! l = Some s → (l < w_next w)%positive;
  li_fwd : ∀ f F, w_fwd w !! f = Some F → (f < w_next w)%positive;
}.
(** What was in the heap is still there, with the same record. *)
Definition heap_kept (w w' : World) : Prop :=
  (∀ l s, w_sess w !! l = Some s → ∃ s', w_sess w' !! l = Some s' ∧ rec_sess s' = rec_sess s) ∧
  (∀ f F, w_fwd w !! f = Some F → ∃ F', w_fwd w' !! f = Some F' ∧ rec_fwd F' = rec_fwd F).
Lemma heap_kept_refl w : heap_kept w w.
Proof. split; eauto. Qed.
Lemma heap_kept_trans w1 w2 w3 : heap_kept w1 w2 → heap_kept w2 w3 → heap_kept w1 w3.
Proof.
  intros [A1 A2] [B1 B2]. split.
  - intros l s (s' & Hs' & E)%A1. apply B1 in Hs' as (s2 & ? & ?). exists s2. split; [done|congruence].
  - intros f F (F' & HF' & E)%A2. apply B2 in HF' as (F2 & ? & ?). exists F2. split; [done|congruence].
Qed.

Definition grows (w w' : World) : Prop := light w → light w'.
Definition holds (w w' : World) : Prop := light w → light w' ∧ heap_kept w w'.
Definition kept (w w' : World) : Prop := light w → light w' ∧ heap_kept w w' ∧ sessions w' = sessions w.
#[export] Instance grows_pre : PreOrder grows.
Proof. split; unfold grows; [by intros w|]. auto. Qed.
#[export] Instance holds_pre : PreOrder holds.
Proof.
  split; unfold holds; [intros w Hl; split; [done|apply heap_kept_refl]|].
  intros w1 w2 w3 H1 H2 Hl. destruct (H1 Hl) as [Hl2 ?], (H2 Hl2). split; [done|by eapply heap_kept_trans].
Qed.
#[export] Instance kept_pre : PreOrder kept.
Proof.
  split; unfold kept; [intros w Hl; split_and!; [done|apply heap_kept_refl|done]|].
  intros w1 w2 w3 H1 H2 Hl. destruct (H1 Hl) as (Hl2 & ? & ?), (H2 Hl2) as (? & ? & ?).
  split_and!; [done|by eapply heap_kept_trans|congruence].
Qed.
Lemma kept_grows w w' : kept w w' → grows w w'.
Proof. intros H Hl. by apply H in Hl as []. Qed.
Lemma kept_holds w w' : kept w w' → holds w w'.
Proof. intros H Hl. by apply H in Hl as (? & ? & _). Qed.
Lemma grows_stays {A} (m : M World A) : stays kept m → stays grows m.
Proof. intros H w. by apply kept_grows. Qed.
Lemma holds_stays {A} (m : M World A) : stays kept m → stays holds m.
Proof. intros H w. by apply kept_holds. Qed.

(** ** Primitives *)
Lemma kept_eq w w' : sessions w' = sessions w → w_sess w' = w_sess w → w_fwd w' = w_fwd w →
  (w_next w ≤ w_next w')%positive → kept w w'.
Proof.
  intros E1 E2 E3 E4 [H1 H2 H3 H4 H5]. split_and!; [|split; rewrite ?E2, ?E3; eauto|done].
  split; unfold reg_ok in *; rewrite ?E1, ?E2, ?E3; [done..| |].
  - intros l s Hl. specialize (H4 l s Hl). lia.
  - intros l F Hl. specialize (H5 l F Hl). lia.
Qed.
Lemma kept_modify f : (∀ w, sessions (f w) = sessions w ∧ w_sess (f w) = w_sess w ∧ w_fwd (f w) = w_fwd w ∧
  (w_next w ≤ w_next (f w))%positive) → stays kept (modify f).
Proof. intros H. apply stays_modify. intros w. destruct (H w) as (? & ? & ? & ?). by apply kept_eq. Qed.
Lemma kept_netM {A} (m : M Net A) : stays kept (netM m).
Proof. intros w. unfold netM, zoom. destruct (m _). by apply kept_eq. Qed.
Lemma kept_memM {A} (m : M Mem A) : stays kept (memM m).
Proof. intros w. unfold memM, zoom. destruct (m _). by apply kept_eq. Qed.
Lemma kept_upd_sess l g : (∀ s, rec_sess (g s) = rec_sess s) → stays kept (upd_sess l g).
Proof.
  intros Hg. apply stays_modify. intros w [H1 H2 H3 H4 H5].
  assert (Hb : ∀ l' s', alter g l (w_sess w) !! l' = Some s' → ∃ s, w_sess w !! l' = Some s ∧ rec_sess s' = rec_sess s).
  { intros l' s'. destruct (decide (l' = l)) as [->|Hne]; [|rewrite lookup_alter_ne by done; eauto].
    rewrite lookup_alter_eq. intros (s & Hs & ->)%fmap_Some. eauto. }
  assert (Hf : ∀ l' s, w_sess w !! l' = Some s → ∃ s', alter g l (w_sess w) !! l' = Some s' ∧ rec_sess s' = rec_sess s).
  { intros l' s Hs. destruct (decide (l' = l)) as [->|Hne]; [|rewrite lookup_alter_ne by done; eauto].
    rewrite lookup_alter_eq, Hs. simpl. eauto. }
  split_and!; [|split; simpl; [exact Hf|eauto]|done]. split; simpl; [|done| | |done].
  - intros id l' Hid. destruct (H1 id l' Hid) as (s & Hs & <-). apply Hf in Hs as (s' & Hs' & E).
    exists s'. split; [done|]. unfold rec_sess in E. congruence.
  - intros l' s' id f Hs'. apply Hb in Hs' as (s & Hs & E). unfold rec_sess in E. injection E as _ _ ->. by eapply H3.
  - intros l' s' Hs'. apply Hb in Hs' as (s & Hs & _). by eapply H4.
Qed.
Lemma kept_upd_fwd f g : (∀ F, rec_fwd (g F) = rec_fwd F) → stays kept (upd_fwd f g).
Proof.
  intros Hg. apply stays_modify. intros w [H1 H2 H3 H4 H5].
  assert (Hf : ∀ f' F, w_fwd w !! f' = Some F → ∃ F', alter g f (w_fwd w) !! f' = Some F' ∧ rec_fwd F' = rec_fwd F).
  { intros f' F HF. destruct (decide (f' = f)) as [->|Hne]; [|rewrite lookup_alter_ne by done; eauto].
    rewrite lookup_alter_eq, HF. simpl. eauto. }
  split_and!; [|split; simpl; [eauto|exact Hf]|done]. split; simpl; [done|done| |done|].
  - intros l s id f' Hs Hin. destruct (H3 l s id f' Hs Hin) as (F & HF & [E1 E2]). apply Hf in HF as (F' & -> & E). exists F'. split; [done|].
    unfold rec_fwd in E. injection E as E3 E4. split; by rewrite ?E3, ?E4.
  - intros f' F'. destruct (decide (f' = f)) as [->|Hne]; [|rewrite lookup_alter_ne by done; eauto].
    rewrite lookup_alter_eq. intros (F & HF & _)%fmap_Some. eauto.
Qed.
Lemma kept_upd_shl h g : stays kept (upd_shl h g).
Proof. by apply kept_modify. Qed.
Lemma kept_new_shl H : stays kept (new_shl H).
Proof.
  apply stays_bind; [apply _|apply stays_gets, _|]. intros l.
  apply stays_bind; [apply _| |intros; apply stays_ret, _]. apply kept_modify. intros w. simpl. split_and!; try done. lia.
Qed.
Lemma kept_sess_at l : stays kept (sess_at l).
Proof. intros w. unfold sess_at. destruct (_ !! _); reflexivity. Qed.
Lemma kept_fwd_at l : stays kept (fwd_at l).
Proof. intros w. unfold fwd_at. destruct (_ !! _); reflexivity. Qed.
Lemma kept_shl_at l : stays kept (shl_at l).
Proof. intros w. unfold shl_at. destruct (_ !! _); reflexivity. Qed.
Lemma kept_close_opt o : stays kept (close_opt o).
Proof. destruct o; [apply kept_netM|apply stays_ret, _]. Qed.
Lemma kept_Get id : stays kept (Get id).
Proof. intros w. unfold Get. destruct (_ !! _); reflexivity. Qed.
#[export] Hint Resolve kept_netM kept_memM kept_upd_shl kept_new_shl kept_sess_at kept_fwd_at kept_shl_at
  kept_close_opt kept_Get : stays.
#[export] Hint Resolve grows_stays holds_stays | 5 : stays.
#[export] Hint Extern 1 (stays kept (upd_sess _ _)) => apply kept_upd_sess; by intros [] : stays.
#[export] Hint Extern 1 (stays kept (upd_fwd _ _)) => apply kept_upd_fwd; by intros [] : stays.
#[export] Hint Extern 1 (stays kept (modify _)) =>
  apply kept_modify; intros; repeat split; simpl; (reflexivity || lia) : stays.

(** ** Operations that keep everything *)
Section kept.
Context {E : Env}.

Lemma kept_getClient l : stays kept (getClient l).
Proof. unfold getClient. solve_stays. Qed.
Lemma kept_setClient l c js a : stays kept (setClient l c js a).
Proof. unfold setClient. solve_stays. Qed.
Lemma kept_markState l st e : stays kept (markState l st e).
Proof. unfold markState. apply kept_upd_sess. intros []. by destruct e. Qed.
#[local] Hint Resolve kept_getClient kept_setClient kept_markState : stays.
Lemma kept_clearClient l : stays kept (clearClient l).
Proof. unfold clearClient. solve_stays. Qed.
Lemma kept_enableAgentForwarding l sock : stays kept (enableAgentForwarding l sock).
Proof. unfold enableAgentForwarding. solve_stays. Qed.
Lemma kept_cancel c : stays kept (cancel c).
Proof. unfold cancel. solve_stays. Qed.
#[local] Hint Resolve kept_clearClient kept_enableAgentForwarding kept_cancel : stays.
Lemma kept_startKeepalive l : stays kept (startKeepalive l).
Proof. unfold startKeepalive. solve_stays. Qed.
Lemma kept_Info l : stays kept (Info l).
Proof. unfold Info. solve_stays. Qed.
#[local] Hint Resolve kept_startKeepalive kept_Info : stays.
Lemma kept_infos ls : stays kept (infos ls).
Proof. induction ls; simpl; solve_stays. Qed.
#[local] Hint Resolve kept_infos : stays.
Lemma kept_List : stays kept List.
Proof. unfold List. solve_stays. Qed.
Lemma kept_Exec l cmd envv stdin : stays kept (Session.Exec l cmd envv stdin).
Proof. unfold Session.Exec. solve_stays. Qed.
Lemma kept_sftpClient l : stays kept (sftpClient l).
Proof. unfold sftpClient. solve_stays. Qed.

Lemma kept_rebindForward l f : stays kept (rebindForward l f).
Proof.
  unfold rebindForward. solve_stays.
Qed.
#[local] Hint Resolve kept_rebindForward : stays.
Lemma kept_rebindForwards l : stays kept (rebindForwards l).
Proof. unfold rebindForwards. solve_stays. Qed.
#[local] Hint Resolve kept_rebindForwards : stays.
Lemma kept_Reconnect PKH id : stays kept (Reconnect PKH id).
Proof. unfold Reconnect, reconnect_body, lock_reconnect, dial. solve_stays. Qed.
Lemma kept_shl_Close h : stays kept (shl_Close h).
Proof. unfold shl_Close. solve_stays. Qed.
#[local] Hint Resolve kept_shl_Close : stays.
Lemma kept_OpenShell l id o : stays kept (OpenShell l id o).
Proof. unfold OpenShell, register_shell. solve_stays. Qed.
Lemma kept_CloseShell l id : stays kept (CloseShell l id).
Proof. unfold CloseShell. solve_stays. Qed.
Lemma kept_GetShell l id : stays kept (GetShell l id).
Proof. unfold GetShell. solve_stays. Qed.
Lemma kept_shl_Write h d : stays kept (shl_Write h d).
Proof. unfold shl_Write. solve_stays. Qed.
Lemma kept_shl_Resize h r c : stays kept (shl_Resize h r c).
Proof. unfold shl_Resize. solve_stays. Qed.
Lemma kept_shl_Read h t : stays kept (shl_Read h t).
Proof.
  unfold shl_Read. apply stays_bind; [apply _|apply kept_shl_at|]. intros s.
  apply stays_bind; [apply _|apply kept_netM|]. intros r. destruct (read_loop _ _ _). solve_stays.
Qed.
Lemma kept_ListShells l : stays kept (ListShells l).
Proof. unfold ListShells. solve_stays. Qed.
Lemma kept_ListForwards id : stays kept (ListForwards id).
Proof. unfold ListForwards. solve_stays. Qed.
Lemma kept_Sessions : stays kept Sessions.
Proof. unfold Sessions. solve_stays. Qed.
Lemma kept_alloc_spec a j sp : stays kept (alloc_spec a j sp).
Proof.
  intros w. unfold alloc_spec. destruct (new_addrs a (w_mem w)) as [a' m]. destruct (new_jumps j m) as [j' m'].
  by apply kept_eq.
Qed.
Lemma kept_connect_user CfgGet depth id sp : stays kept (connect_user CfgGet depth id sp).
Proof. unfold connect_user, resolveSpec. solve_stays. Qed.
Lemma kept_connect_rest l sp : stays kept (connect_rest l sp).
Proof. unfold connect_rest. solve_stays. Qed.
End kept.
#[export] Hint Resolve kept_getClient kept_setClient kept_markState kept_clearClient kept_enableAgentForwarding
  kept_cancel kept_Info kept_List kept_Exec kept_sftpClient kept_rebindForwards kept_Reconnect kept_shl_Close
  kept_OpenShell kept_CloseShell kept_GetShell kept_shl_Write kept_shl_Resize kept_shl_Read kept_ListShells
  kept_ListForwards kept_Sessions kept_alloc_spec kept_connect_user kept_connect_rest : stays.

(** ** Operations that change what is recorded *)
(** For the ssh manager. *)
Abbreviation tries := (attempts kept grows).
Definition tries_kept {A} (m : M World A) := attempts_stays kept grows kept_grows m.
Definition tries_bind {A B} := @attempts_bind World kept grows _ _ kept_grows A B.
Definition tries_then {A B} := @attempts_then World kept grows _ A B.

Section mutators.
Context {E : Env}.

Lemma light_insert w id s : light w → id ≠ "" → s_ID s = id → forwards s = ∅ →
  let w' := w <| w_sess ::= <[w_next w := s]> |> <| w_next ::= Pos.succ |> <| sessions ::= <[id := w_next w]> |> in
  light w' ∧ heap_kept w w'.
Proof.
  intros Hl Hid Hs Hf. pose proof Hl as [H1 H2 H3 H4 H5].
  assert (Hfresh : w_sess w !! w_next w = None).
  { destruct (w_sess w !! w_next w) as [s'|] eqn:Hx; [|done]. apply H4 in Hx. lia. }
  assert (Hkeep : ∀ l s', w_sess w !! l = Some s' → <[w_next w := s]> (w_sess w) !! l = Some s').
  { intros l s' Hx. rewrite lookup_insert_ne; [done|]. intros <-. congruence. }
  split; [|split; simpl; eauto]. split; simpl.
  - intros id' l. simpl. intros [[<- <-]|[_ Hx]]%lookup_insert_Some; [exists s; simpl; by rewrite lookup_insert_eq|].
    destruct (H1 id' l Hx) as (s' & Hs' & ?). exists s'. simpl. auto.
  - by rewrite lookup_insert_ne.
  - intros l s' id' f [[<- <-]|[_ Hx]]%lookup_insert_Some; [by rewrite Hf|by eapply H3].
  - intros l s' [[<- <-]|[_ Hx]]%lookup_insert_Some; [lia|]. apply H4 in Hx. lia.
  - intros f F Hx. apply H5 in Hx. lia.
Qed.
Lemma holds_reserve id sp : id ≠ "" → stays holds (reserve id sp).
Proof.
  intros Hid w Hl. unfold reserve, new_sess, gets, modify, mbind, M_bind. simpl.
  destruct (sessions w !! id); [by split; [|apply heap_kept_refl]|]. simpl. by apply light_insert.
Qed.
Lemma light_delete w id : light w → light (w <| sessions ::= delete id |>).
Proof.
  intros [H1 H2 H3 H4 H5]. split; simpl; try done.
  - intros id' l. simpl. intros [_ Hx]%lookup_delete_Some. by apply H1.
  - apply lookup_delete_None. by right.
Qed.
Lemma holds_unreserve id : stays holds (unreserve id).
Proof. apply stays_modify. intros w Hl. split; [by apply light_delete|by split; simpl; eauto]. Qed.
Lemma holds_unreserve_own id l : stays holds (unreserve_own id l).
Proof.
  apply stays_modify. intros w Hl. destruct (decide _); [|by split; [|apply heap_kept_refl]].
  split; [by apply light_delete|by split; simpl; eauto].
Qed.
#[local] Hint Resolve holds_unreserve holds_unreserve_own : stays.
Lemma holds_Connect PKH CfgGet depth id sp : stays holds (Connect PKH CfgGet depth id sp).
Proof.
  destruct (decide (id = "")) as [->|Hid].
  { intros w Hl. unfold Connect, connect_user, mbind at 1, M_bind. simpl. by split; [|apply heap_kept_refl]. }
  unfold Connect, dial. pose proof (holds_reserve id). solve_stays.
Qed.
Lemma grows_holds {A} (m : M World A) : stays holds m → stays grows m.
Proof. intros H w Hl. by apply H. Qed.
Lemma tries_Connect PKH CfgGet depth id sp : tries (Connect PKH CfgGet depth id sp).
Proof.
  pose proof (holds_Connect PKH CfgGet depth id sp) as Hh. split; [by apply grows_holds|].
  intros w. pose proof (Connect_track PKH CfgGet depth id sp w) as Ht. specialize (Hh w). unfold wp in Ht.
  destruct (Connect PKH CfgGet depth id sp w) as [[l|e|p] w']; [done| |done].
  intros Hl. destruct (Hh Hl). by split_and!.
Qed.
Lemma tries_Clone PKH CfgGet depth src id : tries (CloneSession PKH CfgGet depth src id).
Proof. apply tries_bind; [apply kept_Get|]. intros l. apply tries_bind; [apply kept_sess_at|]. intros s. apply tries_Connect. Qed.

(** Closing *)
Lemma grows_drop_forward l id : stays grows (upd_sess l (λ s, s <| forwards ::= delete id |>)).
Proof.
  apply stays_modify. intros w [H1 H2 H3 H4 H5].
  assert (Hb : ∀ l' s', alter (λ s : Session, s <| forwards ::= delete id |>) l (w_sess w) !! l' = Some s' →
    ∃ s, w_sess w !! l' = Some s ∧ s_ID s' = s_ID s ∧ ∀ k f, forwards s' !! k = Some f → forwards s !! k = Some f).
  { intros l' s'. destruct (decide (l' = l)) as [->|Hne]; [|rewrite lookup_alter_ne by done; eauto].
    rewrite lookup_alter_eq. intros (s & Hs & ->)%fmap_Some. exists s. split_and!; [done..|]. simpl.
    by intros k f [_ ?]%lookup_delete_Some. }
  split; simpl; [|done| | |done].
  - intros id' l' Hid. destruct (H1 id' l' Hid) as (s & Hs & <-).
    destruct (decide (l' = l)) as [->|Hne].
    + simpl. rewrite lookup_alter_eq, Hs. by eexists.
    + simpl. rewrite lookup_alter_ne by done. eauto.
  - intros l' s' k f Hs'. apply Hb in Hs' as (s & Hs & _ & Hk). intros Hf. eapply H3; eauto.
  - intros l' s' Hs'. apply Hb in Hs' as (s & Hs & _). by eapply H4.
Qed.
#[local] Hint Resolve grows_drop_forward : stays.
Lemma kept_fwd_Close f : stays kept (fwd_Close f).
Proof. unfold fwd_Close. solve_stays. Qed.
#[local] Hint Resolve kept_fwd_Close : stays.
Lemma grows_close l : stays grows (close l).
Proof. unfold close, close_forwards, close_shells. solve_stays. Qed.
Lemma noerr_close l : noerr (close l).
Proof.
  unfold close, close_forwards, close_shells, fwd_Close, shl_Close, clearClient, markState, cancel, upd_sess,
    upd_fwd, upd_shl, close_opt, netM, shl_at. solve_noerr; by intros w e; destruct (w_shl w !! _).
Qed.
Lemma CloseAll_empty w w' : CloseAll w = (Ret tt, w') → sessions w' = ∅.
Proof.
  intros H. refine (drained (λ _, True) sessions _ w w' _ I H). intros [id l] s _.
  unfold mbind, M_bind. cbn [fst snd]. pose proof (same_close l s) as Hs. unfold same_sessions in Hs.
  destruct (close l s) as [[[]|e|p] s1]; [|done|done]. cbn. split; [done|]. simpl in Hs. by rewrite Hs.
Qed.
Lemma tries_Disconnect id : tries (Disconnect id).
Proof.
  apply (tries_then (unregister id) close); [|apply grows_close|apply noerr_close].
  apply tries_bind; [apply kept_Get|]. intros l. apply tries_then; [|intros; solve_stays|solve_noerr].
  split; [|done]. apply stays_modify. intros w Hl. by apply light_delete.
Qed.

(** Forwards *)
Lemma grows_registerForward l F w : asked (f_Spec F) = f_Spec F → light w →
  match registerForward l F w with
  | (Ret f, w') => light w'
  | (Err _, w') => w' = w
  | (Panic _, w') => w' = w
  end.
Proof.
  intros Ha Hl. unfold registerForward, sess_at, mbind, M_bind. destruct (w_sess w !! l) as [s|] eqn:Hs; [|done].
  destruct (closed s); [done|]. destruct (forwards s !! f_ID F); [done|].
  unfold new_fwd, gets, modify, upd_sess, mbind, M_bind. simpl. pose proof Hl as [H1 H2 H3 H4 H5].
  set (f := w_next w). assert (Hfresh : w_fwd w !! f = None).
  { destruct (w_fwd w !! f) as [F'|] eqn:Hx; [|done]. apply H5 in Hx. unfold f in Hx. lia. }
  assert (Hkeep : ∀ g k, (∃ F, w_fwd w !! g = Some F ∧ named_as k F) → ∃ F', <[f := F]> (w_fwd w) !! g = Some F' ∧ named_as k F').
  { intros g k (F' & HF' & E'). exists F'. rewrite lookup_insert_ne; [done|]. intros <-. congruence. }
  split; simpl; [|done| | |].
  - intros id l' Hid. destruct (H1 id l' Hid) as (s' & Hs' & <-). simpl.
    destruct (decide (l' = l)) as [->|Hne].
    + rewrite lookup_alter_eq, Hs'. by eexists.
    + rewrite lookup_alter_ne by done. eauto.
  - intros l' s' k g. destruct (decide (l' = l)) as [->|Hne].
    + rewrite lookup_alter_eq, Hs. simpl. intros [= <-]. simpl.
      intros [[<- <-]|[_ Hg]]%lookup_insert_Some; [exists F; rewrite lookup_insert_eq; by split|].
      apply Hkeep. by eapply H3.
    + rewrite lookup_alter_ne by done. intros Hs' Hg. apply Hkeep. by eapply H3.
  - intros l' s'. destruct (decide (l' = l)) as [->|Hne].
    + intros _. apply H4 in Hs. lia.
    + rewrite lookup_alter_ne by done. intros Hx%H4. lia.
  - intros g F' [[<- _]|[_ Hx]]%lookup_insert_Some; [unfold f; lia|]. apply H5 in Hx. lia.
Qed.
Lemma tries_register_or_close l F ln : asked (f_Spec F) = f_Spec F → tries (register_or_close l F ln).
Proof.
  intros Ha. split.
  - intros w Hl. pose proof (grows_registerForward l F w Ha Hl) as H. unfold register_or_close, try, mbind, M_bind.
    destruct (registerForward l F w) as [[f|e|p] w']; simpl.
    + by refine (proj1 (kept_eq w' _ _ _ _ _ H)).
    + subst w'. unfold netM, zoom. simpl. by refine (proj1 (kept_eq w _ _ _ _ _ Hl)).
    + by subst.
  - intros w. unfold register_or_close, try, mbind, M_bind.
    destruct (registerForward l F w) as [[f|e|p] w'] eqn:Hr; [done| |done].
    intros Hl. pose proof (grows_registerForward l F w Ha Hl) as H. rewrite Hr in H. subst w'.
    unfold netM, zoom. simpl. by refine (kept_eq w _ _ _ _ _ Hl).
Qed.
Lemma tries_OpenLocalForward sid fid sp : tries (OpenLocalForward sid fid sp).
Proof.
  apply tries_bind; [apply kept_Get|]. intros l. apply tries_bind; [apply kept_getClient|]. intros c. cbv zeta.
  destruct (decide _); [apply tries_kept, stays_fail, _|]. apply tries_bind; [apply kept_netM|]. intros [ln port].
  apply tries_register_or_close, (asked_idem (ForwardLocal sp)).
Qed.
Lemma tries_OpenRemoteForward sid fid sp : tries (OpenRemoteForward sid fid sp).
Proof.
  apply tries_bind; [apply kept_Get|]. intros l. apply tries_bind; [apply kept_getClient|]. intros c. cbv zeta.
  apply tries_bind; [apply kept_netM|]. intros [ln tcp]. apply tries_register_or_close, (asked_idem (ForwardRemote sp)).
Qed.
Lemma tries_OpenDynamicForward sid fid sp : tries (OpenDynamicForward sid fid sp).
Proof.
  apply tries_bind; [apply kept_Get|]. intros l. apply tries_bind; [apply kept_getClient|]. intros c. cbv zeta.
  apply tries_bind; [apply kept_netM|]. intros [ln port]. apply tries_register_or_close, (asked_idem (ForwardDynamic sp)).
Qed.
Lemma grows_CloseForward sid fid : stays grows (CloseForward sid fid).
Proof. unfold CloseForward. solve_stays. Qed.
End mutators.

(** ** The Docker manager *)
Definition rec_host (h : Host) := (h_ID h, h_Spec h).
Record dlight (d : DWorld) : Prop := {
  dl_reg : ∀ id l, hosts d !! id = Some l → ∃ h, dw_host d !! l = Some h ∧ h_ID h = id;
  dl_next : ∀ l h, dw_host d !! l = Some h → (l < dw_next d)%positive;
}.
Definition dgrows (d d' : DWorld) : Prop := dlight d → dlight d'.
Definition dkept (d d' : DWorld) : Prop := dlight d → dlight d' ∧ hosts d' = hosts d ∧
  ∀ l h, dw_host d !! l = Some h → ∃ h', dw_host d' !! l = Some h' ∧ rec_host h' = rec_host h.
#[export] Instance dgrows_pre : PreOrder dgrows.
Proof. split; unfold dgrows; [by intros w|]. auto. Qed.
#[export] Instance dkept_pre : PreOrder dkept.
Proof.
  split; unfold dkept; [intros d Hl; split_and!; eauto|].
  intros d1 d2 d3 H1 H2 Hl. destruct (H1 Hl) as (Hl2 & ? & Hh1), (H2 Hl2) as (? & ? & Hh2).
  split_and!; [done|congruence|]. intros l h (h' & Hh' & E)%Hh1. apply Hh2 in Hh' as (h2 & ? & ?).
  exists h2. split; [done|congruence].
Qed.
Lemma dkept_dgrows d d' : dkept d d' → dgrows d d'.
Proof. intros H Hl. by apply H in Hl as []. Qed.
Lemma dgrows_stays {A} (m : M DWorld A) : stays dkept m → stays dgrows m.
Proof. intros H w. by apply dkept_dgrows. Qed.
#[export] Hint Resolve dgrows_stays | 5 : stays.
Abbreviation dtries := (attempts dkept dgrows).
Definition dtries_kept {A} (m : M DWorld A) := attempts_stays dkept dgrows dkept_dgrows m.
Definition dtries_bind {A B} := @attempts_bind DWorld dkept dgrows _ _ dkept_dgrows A B.
Definition dtries_then {A B} := @attempts_then DWorld dkept dgrows _ A B.

Lemma dkept_eq d d' : hosts d' = hosts d → dw_host d' = dw_host d → (dw_next d ≤ dw_next d')%positive → dkept d d'.
Proof.
  intros E1 E2 E3 [H1 H2]. split_and!; [|done|rewrite E2; eauto].
  split; rewrite ?E1, ?E2; [done|]. intros l h Hl. specialize (H2 l h Hl). lia.
Qed.
Lemma dkept_modify f : (∀ d, hosts (f d) = hosts d ∧ dw_host (f d) = dw_host d ∧ (dw_next d ≤ dw_next (f d))%positive) →
  stays dkept (modify f).
Proof. intros H. apply stays_modify. intros d. destruct (H d) as (? & ? & ?). by apply dkept_eq. Qed.
Lemma dkept_dnetM {A} (m : M Net A) : stays dkept (dnetM m).
Proof. intros d. unfold dnetM, zoom. destruct (m _). by apply dkept_eq. Qed.
Lemma dkept_upd_host l g : (∀ h, rec_host (g h) = rec_host h) → stays dkept (upd_host l g).
Proof.
  intros Hg. apply stays_modify. intros d [H1 H2].
  assert (Hf : ∀ l' h, dw_host d !! l' = Some h → ∃ h', alter g l (dw_host d) !! l' = Some h' ∧ rec_host h' = rec_host h).
  { intros l' h Hh. destruct (decide (l' = l)) as [->|Hne]; [|rewrite lookup_alter_ne by done; eauto].
    rewrite lookup_alter_eq, Hh. simpl. eauto. }
  split_and!; [|done|exact Hf]. split; simpl.
  - intros id l' Hid. destruct (H1 id l' Hid) as (h & Hh & <-). apply Hf in Hh as (h' & -> & E). exists h'. split; [done|].
    unfold rec_host in E. congruence.
  - intros l' h'. destruct (decide (l' = l)) as [->|Hne]; [|rewrite lookup_alter_ne by done; eauto].
    rewrite lookup_alter_eq. intros (h & Hh & _)%fmap_Some. eauto.
Qed.
Lemma dkept_upd_dshl s g : stays dkept (upd_dshl s g).
Proof. by apply dkept_modify. Qed.
Lemma dkept_new_dshl s : stays dkept (new_dshl s).
Proof.
  apply stays_bind; [apply _|apply stays_gets, _|]. intros l.
  apply stays_bind; [apply _| |intros; apply stays_ret, _]. apply dkept_modify. intros d. simpl. split_and!; try done. lia.
Qed.
Lemma dkept_host_at l : stays dkept (host_at l).
Proof. intros w. unfold host_at. destruct (_ !! _); reflexivity. Qed.
Lemma dkept_dshl_at l : stays dkept (dshl_at l).
Proof. intros w. unfold dshl_at. destruct (_ !! _); reflexivity. Qed.
#[export] Hint Resolve dkept_dnetM dkept_upd_dshl dkept_new_dshl dkept_host_at dkept_dshl_at : stays.
#[export] Hint Extern 1 (stays dkept (upd_host _ _)) => apply dkept_upd_host; by intros [] : stays.

Section dkept.
Context {E : Env}.
Lemma dkept_Get id : stays dkept (Docker.Get id).
Proof. unfold Docker.Get. solve_stays. Qed.
Lemma dkept_host_client l : stays dkept (host_client l).
Proof. unfold host_client. solve_stays. Qed.
#[local] Hint Resolve dkept_Get dkept_host_client : stays.
Lemma dkept_with_client {A} l (k : rid → M Net A) : stays dkept (with_client l k).
Proof. unfold with_client. solve_stays. Qed.
Lemma dkept_host_infos ls : stays dkept (host_infos ls).
Proof. induction ls; simpl; solve_stays. Qed.
Lemma dkept_dshl_infos ls : stays dkept (dshl_infos ls).
Proof. induction ls; simpl; solve_stays. Qed.
#[local] Hint Resolve dkept_with_client dkept_host_infos dkept_dshl_infos : stays.
Lemma dkept_List : stays dkept Docker.List.
Proof. unfold Docker.List. solve_stays. Qed.
Lemma dkept_Hosts : stays dkept Docker.Hosts.
Proof. unfold Docker.Hosts. solve_stays. Qed.
Lemma dkept_PullImage l r : stays dkept (PullImage l r).
Proof. unfold PullImage. solve_stays. Qed.
#[local] Hint Resolve dkept_PullImage : stays.
Lemma dkept_wrapA {A} f a (m : M DWorld A) : stays dkept m → stays dkept (wrapA f a m).
Proof. intros H. unfold wrapA. solve_stays. Qed.
#[local] Hint Resolve dkept_wrapA : stays.
Lemma dkept_Run P l o : stays dkept (Run P l o).
Proof. unfold Run. solve_stays. Qed.
Lemma dkept_dshl_Close s : stays dkept (dshl_Close s).
Proof. unfold dshl_Close. solve_stays. Qed.
#[local] Hint Resolve dkept_dshl_Close : stays.
Lemma dkept_OpenShell l id o : stays dkept (Docker.OpenShell l id o).
Proof. unfold Docker.OpenShell, open_exec, register_dshell. solve_stays. Qed.
Lemma dkept_GetShell l id : stays dkept (Docker.GetShell l id).
Proof. unfold Docker.GetShell. solve_stays. Qed.
#[local] Hint Resolve dkept_GetShell : stays.
Lemma dkept_CloseShell l id : stays dkept (Docker.CloseShell l id).
Proof. unfold Docker.CloseShell, take_shell. solve_stays. Qed.
Lemma dkept_dshl_Write s d : stays dkept (dshl_Write s d).
Proof. unfold dshl_Write. solve_stays. Qed.
Lemma dkept_dshl_Resize s r c : stays dkept (dshl_Resize s r c).
Proof. unfold dshl_Resize. solve_stays. Qed.
Lemma dkept_dshl_Read s t : stays dkept (dshl_Read s t).
Proof.
  unfold dshl_Read. apply stays_bind; [apply _|apply dkept_dshl_at|]. intros sh.
  apply stays_bind; [apply _|apply dkept_dnetM|]. intros r. destruct (dread_loop _ _ _). solve_stays.
Qed.
Lemma dkept_ListShells l : stays dkept (Docker.ListShells l).
Proof. unfold Docker.ListShells. solve_stays. Qed.
Lemma dkept_host_close l : stays dkept (host_close l).
Proof. unfold host_close, host_close_begin, close_dshells, close_conn. solve_stays. Qed.

Lemma dtries_Disconnect id : dtries (Docker.Disconnect id).
Proof.
  apply (dtries_then (unregister_host id) host_close);
    [|intros; apply dgrows_stays, dkept_host_close|intros l].
  - apply dtries_bind; [apply dkept_Get|]. intros l. apply dtries_then; [|intros; solve_stays|solve_noerr].
    split; [|done]. apply stays_modify. intros d [H1 H2]. split; simpl; [|done].
    intros id' l' [_ Hx]%lookup_delete_Some. by eapply H1.
  - unfold host_close, host_close_begin, close_dshells, close_conn, dshl_Close, hostConn_close, upd_host, upd_dshl, dnetM.
    solve_noerr; intros w e; unfold host_at, dshl_at; by case_match.
Qed.
Lemma dtries_Connect PKH id sp : dtries (Docker.Connect PKH id sp).
Proof.
  apply dtries_bind; [unfold connect_check; solve_stays|]. intros _.
  apply dtries_bind; [apply dkept_dnetM|]. intros conn.
  apply dtries_bind; [apply dkept_dnetM|]. intros t.
  apply dtries_bind; [apply stays_gets, _|]. intros hs. destruct (hs !! id).
  { apply dtries_kept. solve_stays. }
  split; [|intros d; done]. intros d [H1 H2]. unfold new_host, gets, modify, mbind, M_bind. simpl. split; simpl.
  - intros id' l' [[<- <-]|[_ Hx]]%lookup_insert_Some; [rewrite lookup_insert_eq; by eexists|].
    destruct (H1 id' l' Hx) as (h & Hh & Eh). exists h. rewrite lookup_insert_ne; [done|]. intros <-. apply H2 in Hh. lia.
  - intros l' h' [[<- _]|[_ Hx]]%lookup_insert_Some; [lia|]. apply H2 in Hx. lia.
Qed.
End dkept.
#[export] Hint Resolve dkept_Get dkept_host_client dkept_with_client dkept_List dkept_Hosts dkept_PullImage dkept_Run
  dkept_OpenShell dkept_GetShell dkept_CloseShell dkept_dshl_Write dkept_dshl_Resize dkept_dshl_Read
  dkept_ListShells : stays.
