(* ===== verification/Registry.v ===== *)
(** * The session manager as a registry (internal/sshx/manager.go, forward.go)

    What the manager promises to the tools is small: a map from session ids to the
    forwards of each, with what each of them was asked for.  [registry] is that map and
    [reg_step] the whole of its behaviour; [abs] reads it off the heap of World.v.  The
    calls of the manager refine it: dialing, reconnecting, keepalives, shells and
    transfers leave the registry alone, and every other call is one step of it, in
    success and in failure. *)

From stdpp Require Import relations.
From S2P Require Import Docker.
From S2P Require Import Prelude GoStrings Url External Spec SshConfig Auth Dial World Ledger Session Forward Shell Manager ManagerProps Records.

(** ** The abstract registry *)
Abbreviation registry := (gmap string (gmap string ForwardSpec)).

(** What a client asks of the manager, as the registry sees it. *)
Inductive request :=
  | QConnect (id : string)
  | QClone (src new : string)
  | QDisconnect (id : string)
  | QCloseAll
  | QOpen (sid fid : string) (s : ForwardSpec)
  | QClose (sid fid : string)
  | QUse (sid : string).               (* reconnects, shells, SFTP *)
Definition request_of (c : mcall) : request :=
  match c with
  | CConnect id _ _ _ => QConnect id
  | CDisconnect id => QDisconnect id
  | CReconnect id => QUse id
  | CClone src new => QClone src new
  | CCloseAll => QCloseAll
  | COpenLocal sid fid s => QOpen sid fid (ForwardLocal s)
  | COpenRemote sid fid s => QOpen sid fid (ForwardRemote s)
  | COpenDynamic sid fid s => QOpen sid fid (ForwardDynamic s)
  | CCloseForward sid fid => QClose sid fid
  | COpenShell sid _ _ => QUse sid
  | CCloseShell sid _ => QUse sid
  | CSftp sid => QUse sid
  end.

(** [reg_step R q ok R']: the request [q] takes [R] to [R'], reporting success or not. *)
Inductive reg_step (R : registry) : request → bool → registry → Prop :=
  | G_connect id : R !! id = None → reg_step R (QConnect id) true (<[id := ∅]> R)
  | G_connect_fails id : reg_step R (QConnect id) false R
  | G_clone src new : is_Some (R !! src) → R !! new = None → reg_step R (QClone src new) true (<[new := ∅]> R)
  | G_clone_fails src new : reg_step R (QClone src new) false R
  | G_disconnect id : is_Some (R !! id) → reg_step R (QDisconnect id) true (delete id R)
  | G_disconnect_fails id : R !! id = None → reg_step R (QDisconnect id) false R
  | G_close_all : reg_step R QCloseAll true ∅
  | G_open sid fid s fs : R !! sid = Some fs → fs !! fid = None →
      reg_step R (QOpen sid fid s) true (<[sid := <[fid := asked s]> fs]> R)
  | G_open_fails sid fid s : reg_step R (QOpen sid fid s) false R
  (* the forward is gone even when closing its listener reports an error *)
  | G_close sid fid fs ok : R !! sid = Some fs → is_Some (fs !! fid) →
      reg_step R (QClose sid fid) ok (<[sid := delete fid fs]> R)
  | G_close_fails sid fid : (∀ fs, R !! sid = Some fs → fs !! fid = None) → reg_step R (QClose sid fid) false R
  | G_use sid ok : (ok = true → is_Some (R !! sid)) → reg_step R (QUse sid) ok R.

Inductive reg_run : registry → list (request * bool) → registry → Prop :=
  | G_done R : reg_run R [] R
  | G_next R q ok R' l R'' : reg_step R q ok R' → reg_run R' l R'' → reg_run R ((q, ok) :: l) R''.

(** ** The registry of a heap *)
Definition view (w : World) (l : loc) : gmap string ForwardSpec :=
  match w_sess w !! l with
  | Some s => omap (λ f, f_Spec <$> w_fwd w !! f) (forwards s)
  | None => ∅
  end.
Definition abs (w : World) : registry := view w <$> sessions w.

Lemma abs_lookup w id l : sessions w !! id = Some l → abs w !! id = Some (view w l).
Proof. intros H. unfold abs. by rewrite lookup_fmap, H. Qed.
Lemma abs_None w id : abs w !! id = None ↔ sessions w !! id = None.
Proof. unfold abs. rewrite lookup_fmap. apply fmap_None. Qed.

(** The same session in a heap that kept it has the same view. *)
Lemma view_same w w' l s s' : light w → w_sess w !! l = Some s → w_sess w' !! l = Some s' → forwards s' = forwards s →
  (∀ f F, w_fwd w !! f = Some F → ∃ F', w_fwd w' !! f = Some F' ∧ f_Spec F' = f_Spec F) → view w' l = view w l.
Proof.
  intros Hl Hs Hs' Hf Hw. unfold view. rewrite Hs, Hs', Hf. apply map_eq. intros k. rewrite !lookup_omap.
  destruct (forwards s !! k) as [f|] eqn:Hk; [|done]. cbn. destruct (li_fwds w Hl l s k f Hs Hk) as (F & HF & _).
  destruct (Hw f F HF) as (F' & HF' & E). rewrite HF, HF'. simpl. by rewrite E.
Qed.
Lemma heap_view w w' id l : light w → heap_kept w w' → sessions w !! id = Some l → view w' l = view w l.
Proof.
  intros Hl [H1 H2] Hid. destruct (li_reg w Hl id l Hid) as (s & Hs & _). destruct (H1 l s Hs) as (s' & Hs' & E).
  injection E as _ _ E. eapply view_same; [done..|]. intros f F HF. destruct (H2 f F HF) as (F' & HF' & E2).
  exists F'. split; [done|]. by injection E2.
Qed.
Lemma heap_abs w w' : light w → heap_kept w w' → sessions w' = sessions w → abs w' = abs w.
Proof.
  intros Hl Hk E. unfold abs. rewrite E. apply map_fmap_ext. intros id l Hid. by eapply heap_view.
Qed.
Lemma kept_abs {A} (m : M World A) w : stays kept m → light w → light (m w).2 ∧ abs (m w).2 = abs w.
Proof. intros Hm Hl. destruct (Hm w Hl) as (H1 & H2 & H3). split; [done|by apply heap_abs]. Qed.

(** ** Everything but the forwards of one session *)
Definition but (l : loc) (w w' : World) : Prop := light w → light w' ∧ sessions w' = sessions w ∧
  (∀ l' s, l' ≠ l → w_sess w !! l' = Some s → ∃ s', w_sess w' !! l' = Some s' ∧ rec_sess s' = rec_sess s) ∧
  (∀ f F, w_fwd w !! f = Some F → ∃ F', w_fwd w' !! f = Some F' ∧ rec_fwd F' = rec_fwd F).
#[export] Instance but_pre l : PreOrder (but l).
Proof.
  split; [intros w Hl; split_and!; eauto|]. intros w1 w2 w3 H1 H2 Hl.
  destruct (H1 Hl) as (Hl2 & E1 & A1 & B1), (H2 Hl2) as (Hl3 & E2 & A2 & B2). split_and!; [done|congruence| |].
  - intros l' s Hne (s2 & Hs2 & E)%A1; [|done]. apply A2 in Hs2 as (s3 & ? & ?); [|done]. exists s3. split; [done|congruence].
  - intros f F (F2 & HF2 & E)%B1. apply B2 in HF2 as (F3 & ? & ?). exists F3. split; [done|congruence].
Qed.
Lemma but_stays {A} l (m : M World A) : stays kept m → stays (but l) m.
Proof. intros Hm w Hl. destruct (Hm w Hl) as (H1 & [H2 H3] & H4). by split_and!; [..|intros l' s _; apply H2|]. Qed.
Lemma but_others l w w' : light w → but l w w' → ∀ id l', sessions w !! id = Some l' → l' ≠ l → view w' l' = view w l'.
Proof.
  intros Hl H id l' Hid Hne. destruct (H Hl) as (_ & _ & H1 & H2).
  destruct (li_reg w Hl id l' Hid) as (s & Hs & _). destruct (H1 l' s Hne Hs) as (s' & Hs' & E).
  injection E as _ _ E. eapply view_same; [done..|]. intros f F HF. destruct (H2 f F HF) as (F' & HF' & E2).
  exists F'. split; [done|]. by injection E2.
Qed.
(** Two ids do not name one session. *)
Lemma one_id w id id' l : light w → sessions w !! id = Some l → sessions w !! id' = Some l → id' = id.
Proof.
  intros Hl H1 H2. destruct (li_reg w Hl id l H1) as (s & Hs & E1), (li_reg w Hl id' l H2) as (s' & Hs' & E2). congruence.
Qed.
Lemma but_abs l w w' id : light w → but l w w' → sessions w !! id = Some l → abs w' = <[id := view w' l]> (abs w).
Proof.
  intros Hl H Hid. destruct (H Hl) as (_ & E & _). apply map_eq. intros k. destruct (decide (k = id)) as [->|Hne].
  - rewrite lookup_insert_eq. apply abs_lookup. by rewrite E.
  - rewrite lookup_insert_ne by done. unfold abs. rewrite !lookup_fmap, E. destruct (sessions w !! k) as [l'|] eqn:Hk; [|done].
    simpl. f_equal. eapply but_others; [done|done|done|]. intros ->. destruct Hne. by eapply one_id.
Qed.

(** ** The calls *)
Section calls.
Context {E : Env}.

Lemma but_drop_forward l id : stays (but l) (upd_sess l (λ s, s <| forwards ::= delete id |>)).
Proof.
  intros w Hl. split; [by apply grows_drop_forward|]. split; [done|]. split; [|eauto].
  intros l' s Hne Hs. exists s. split; [|done]. simpl. by rewrite lookup_alter_ne.
Qed.
#[local] Hint Resolve but_stays | 5 : stays.
#[local] Hint Resolve but_drop_forward kept_fwd_Close : stays.
Lemma but_close l : stays (but l) (close l).
Proof. unfold close, close_forwards, close_shells. solve_stays. Qed.

(** What a call has to do, from every good heap. *)
Definition refines {A} (q : request) (m : M World A) : Prop := ∀ w, light w →
  match m w with
  | (Ret _, w') => light w' ∧ reg_step (abs w) q true (abs w')
  | (Err _, w') => light w' ∧ reg_step (abs w) q false (abs w')
  | (Panic _, _) => True
  end.
Lemma refines_void {A} q (m : M World A) : refines q m → refines q (m;; mret tt).
Proof. intros H w Hl. specialize (H w Hl). unfold mbind, M_bind. by destruct (m w) as [[]]. Qed.
(** A first part that keeps the registry. *)
Lemma refines_kept {A B} q (m : M World A) (k : A → M World B) : stays kept m →
  (∀ R, reg_step R q false R) → (∀ a, refines q (k a)) → refines q (m ≫= k).
Proof.
  intros Hm Hq Hk w Hl. destruct (kept_abs m w Hm Hl) as [Hl1 E1]. unfold mbind, M_bind.
  destruct (m w) as [[a|e|p] w1]; cbn [snd] in *; [|by rewrite E1|done]. specialize (Hk a w1 Hl1). by rewrite E1 in Hk.
Qed.

Lemma Connect_refines PKH CfgGet depth id spec : refines (QConnect id) (Connect PKH CfgGet depth id spec).
Proof.
  intros w Hl. pose proof (Connect_track PKH CfgGet depth id spec w) as Ht. unfold wp in Ht.
  pose proof (holds_Connect PKH CfgGet depth id spec w Hl) as [Hl1 Hk].
  destruct (Connect PKH CfgGet depth id spec w) as [[l|e|p] w']; cbn [snd] in *; [| |done].
  - destruct Ht as (Hfree & Hs & s & Hs' & _ & _ & _ & _ & Hf & _). split; [done|].
    assert (E' : abs w' = <[id := ∅]> (abs w)).
    { apply map_eq. intros k. destruct (decide (k = id)) as [->|Hne].
      - rewrite lookup_insert_eq. rewrite (abs_lookup w' id l) by (by rewrite Hs, lookup_insert_eq).
        f_equal. unfold view. rewrite Hs', Hf. apply omap_empty.
      - rewrite lookup_insert_ne by done. unfold abs. rewrite !lookup_fmap, Hs, lookup_insert_ne by done.
        destruct (sessions w !! k) as [l'|] eqn:Hk'; [|done]. simpl. f_equal. by eapply heap_view. }
    rewrite E'. constructor. by apply abs_None.
  - split; [done|]. rewrite (heap_abs w w') by done. constructor.
Qed.

Lemma Disconnect_refines id : refines (QDisconnect id) (Disconnect id).
Proof.
  intros w Hl. unfold Disconnect, unregister, Get, mbind, M_bind. destruct (sessions w !! id) as [l|] eqn:Hid.
  2:{ split; [done|]. constructor. by apply abs_None. }
  cbn. set (w1 := w <| sessions ::= delete id |>). assert (Hl1 : light w1) by by apply light_delete.
  pose proof (but_close l w1) as Hb. pose proof (noerr_close l w1) as Hne.
  destruct (close l w1) as [[[]|e|p] w']; cbn [snd] in *; [|by destruct (Hne e)|done].
  destruct (Hb Hl1) as (Hl' & Es & _). split; [done|].
  assert (E' : abs w' = delete id (abs w)).
  { apply map_eq. intros k. unfold abs at 1. rewrite lookup_fmap, Es. change (sessions w1) with (delete id (sessions w)).
    destruct (decide (k = id)) as [->|Hne']; [by rewrite !lookup_delete_eq|]. rewrite !lookup_delete_ne by done.
    unfold abs. rewrite lookup_fmap. destruct (sessions w !! k) as [l'|] eqn:Hk; [|done]. simpl. f_equal.
    rewrite (but_others l w1 w' Hl1 Hb k l'); [done|by change (sessions w1) with (delete id (sessions w)); rewrite lookup_delete_ne|].
    intros ->. destruct Hne'. exact (one_id w id k _ Hl Hid Hk). }
  rewrite E'. constructor. exists (view w l). by apply abs_lookup.
Qed.

Lemma grows_CloseAll : stays grows CloseAll.
Proof.
  unfold CloseAll. apply stays_bind; [apply _|solve_stays|]. intros m. apply stays_forM; [apply _|]. intros [id l].
  apply stays_bind; [apply _|apply grows_close|]. intros []. apply stays_modify. intros w Hl. by apply light_delete.
Qed.
Lemma CloseAll_refines : refines QCloseAll CloseAll.
Proof.
  intros w Hl. pose proof (grows_CloseAll w Hl) as Hl'. assert (Hne : noerr CloseAll).
  { unfold CloseAll. pose proof noerr_close. solve_noerr. }
  specialize (Hne w). destruct (CloseAll w) as [[[]|e|p] w'] eqn:Hrun; [|by destruct (Hne e)|done].
  split; [done|]. apply CloseAll_empty in Hrun. unfold abs at 2. rewrite Hrun, fmap_empty. constructor.
Qed.

(** A forward is registered on a session of the map, or nothing is. *)
Lemma register_refines sid l F ln w : asked (f_Spec F) = f_Spec F → light w → sessions w !! sid = Some l →
  match register_or_close l F ln w with
  | (Ret _, w') => light w' ∧ view w l !! f_ID F = None ∧ abs w' = <[sid := <[f_ID F := f_Spec F]> (view w l)]> (abs w)
  | (Err _, w') => light w' ∧ abs w' = abs w
  | (Panic _, _) => True
  end.
Proof.
  intros Ha Hl Hid. pose proof (grows_registerForward l F w Ha Hl) as Hg.
  assert (Hb : match registerForward l F w with
    | (Ret f, w1) => view w l !! f_ID F = None ∧ abs w1 = <[sid := <[f_ID F := f_Spec F]> (view w l)]> (abs w)
    | (Err _, w1) => w1 = w | (Panic _, w1) => True end).
  2:{ unfold register_or_close, try, mbind, M_bind. destruct (registerForward l F w) as [[f|e|p] w1]; [| |done].
      - destruct Hb as [H1 H2]. cbn. set (w2 := w1 <| w_accept ::= _ |>).
        destruct (kept_abs (modify (λ w, w <| w_accept ::= <[ln := f]> |>)) w1 ltac:(solve_stays) Hg) as [H3 H4].
        split; [exact H3|]. split; [done|]. by etransitivity; [exact H4|].
      - subst w1. exact (kept_abs (netM (closeR ln)) w ltac:(solve_stays) Hl). }
  destruct (li_reg w Hl sid l Hid) as (s & Hs & _). unfold registerForward, sess_at, mbind, M_bind. rewrite Hs.
  destruct (closed s); [done|]. destruct (forwards s !! f_ID F) as [f0|] eqn:Hf0; [done|].
  unfold new_fwd, gets, modify, upd_sess, mbind, M_bind. simpl. set (f := w_next w).
  assert (Hfresh : w_fwd w !! f = None).
  { destruct (w_fwd w !! f) as [F'|] eqn:Hx; [|done]. apply (li_fwd w Hl) in Hx. unfold f in Hx. lia. }
  assert (Hview : ∀ l' s' (m : gmap string loc), w_sess w !! l' = Some s' → (∀ k g, m !! k = Some g → forwards s' !! k = Some g) →
    omap (λ g, f_Spec <$> <[f := F]> (w_fwd w) !! g) m = omap (λ g, f_Spec <$> w_fwd w !! g) m :> gmap string ForwardSpec).
  { intros l' s' m Hs' Hm. apply map_eq. intros k. rewrite !lookup_omap. destruct (m !! k) as [g|] eqn:Hg'; [|done]. cbn.
    destruct (li_fwds w Hl l' s' k g Hs' (Hm k g Hg')) as (G & HG & _). rewrite lookup_insert_ne; [done|]. intros ->. congruence. }
  split.
  - unfold view. by rewrite Hs, lookup_omap, Hf0.
  - apply map_eq. intros k. unfold abs at 1. rewrite lookup_fmap. cbn [sessions]. destruct (decide (k = sid)) as [->|Hne].
    + change (sessions _) with (sessions w) at 1. rewrite Hid, lookup_insert_eq. cbn. f_equal. unfold view at 1. cbn. rewrite lookup_alter_eq, Hs. cbn.
      apply map_eq. intros j. rewrite lookup_omap. destruct (decide (j = f_ID F)) as [->|Hj].
      * rewrite !lookup_insert_eq. cbn. by rewrite lookup_insert_eq.
      * rewrite !lookup_insert_ne by done. rewrite <- lookup_omap, (Hview l s (forwards s) Hs) by done. unfold view. by rewrite Hs.
    + rewrite lookup_insert_ne by done. change (sessions _) with (sessions w) at 1. unfold abs. rewrite lookup_fmap.
      destruct (sessions w !! k) as [l'|] eqn:Hk; [|done]. cbn. f_equal. unfold view. cbn. rewrite lookup_alter_ne.
      * destruct (w_sess w !! l') as [s'|] eqn:Hs'; [|done]. by apply (Hview l' s').
      * intros <-. destruct Hne. exact (one_id w sid k _ Hl Hid Hk).
Qed.

(** A call on the session [l] that the id [sid] names. *)
Definition refines_at {A} (sid : string) (l : loc) (q : request) (m : M World A) : Prop :=
  ∀ w, light w → sessions w !! sid = Some l →
  match m w with
  | (Ret _, w') => light w' ∧ reg_step (abs w) q true (abs w')
  | (Err _, w') => light w' ∧ reg_step (abs w) q false (abs w')
  | (Panic _, _) => True
  end.
Lemma refines_Get {A} sid q (k : loc → M World A) :
  (∀ R, R !! sid = None → reg_step R q false R) → (∀ l, refines_at sid l q (k l)) → refines q (Get sid ≫= k).
Proof.
  intros Hq Hk w Hl. unfold Get, mbind, M_bind. destruct (sessions w !! sid) as [l|] eqn:Hid; [by apply Hk|].
  split; [done|]. apply Hq. by apply abs_None.
Qed.
Lemma refines_at_kept {A B} sid l q (m : M World A) (k : A → M World B) : stays kept m →
  (∀ R, reg_step R q false R) → (∀ a, refines_at sid l q (k a)) → refines_at sid l q (m ≫= k).
Proof.
  intros Hm Hq Hk w Hl Hid. destruct (Hm w Hl) as (_ & _ & Es). destruct (kept_abs m w Hm Hl) as [Hl1 E1]. unfold mbind, M_bind.
  destruct (m w) as [[a|e|p] w1]; cbn [snd] in *; [|by rewrite E1|done].
  rewrite <- Es in Hid. specialize (Hk a w1 Hl1 Hid). by rewrite E1 in Hk.
Qed.
Lemma refines_at_fail {A} sid l q e : (∀ R, reg_step R q false R) → refines_at sid l q (fail e : M World A).
Proof. intros Hq w Hl _. by split. Qed.
Lemma refines_at_register sid l fid s F ln : f_ID F = fid → f_Spec F = asked s →
  refines_at sid l (QOpen sid fid s) (register_or_close l F ln).
Proof.
  intros <- Es w Hl Hid. assert (Ha : asked (f_Spec F) = f_Spec F) by (rewrite Es; apply asked_idem).
  pose proof (register_refines sid l F ln w Ha Hl Hid) as H.
  destruct (register_or_close l F ln w) as [[f|e|p] w']; [| |done].
  - destruct H as (H1 & H2 & ->). split; [done|]. rewrite Es. constructor; [by apply abs_lookup|done].
  - destruct H as [H1 ->]. split; [done|constructor].
Qed.
(** A use of a session that keeps the registry. *)
Lemma refines_use {A} sid (m : loc → M World A) : (∀ l, stays kept (m l)) → refines (QUse sid) (Get sid ≫= m).
Proof.
  intros Hm. apply refines_Get; [by intros; constructor|]. intros l w Hl Hid. destruct (kept_abs (m l) w (Hm l) Hl) as [Hl1 E1].
  destruct (m l w) as [[a|e|p] w1]; cbn [snd] in *; [| |done]; rewrite E1; (split; [done|]); constructor; [|done].
  intros _. exists (view w l). by apply abs_lookup.
Qed.
Lemma use_void {A} sid (m : M World A) : refines (QUse sid) m → refines (QUse sid) (m;; mret tt).
Proof. apply refines_void. Qed.

Lemma Open_fails sid fid s R : reg_step R (QOpen sid fid s) false R.
Proof. constructor. Qed.
#[local] Hint Resolve Open_fails : core.
Lemma OpenLocal_refines sid fid s : refines (QOpen sid fid (ForwardLocal s)) (OpenLocalForward sid fid s).
Proof.
  apply refines_Get; [done|]. intros l. apply refines_at_kept; [solve_stays|done|]. intros c. cbv zeta.
  case_decide; [by apply refines_at_fail|]. apply refines_at_kept; [solve_stays|done|]. intros [ln port]. by apply refines_at_register.
Qed.
Lemma OpenRemote_refines sid fid s : refines (QOpen sid fid (ForwardRemote s)) (OpenRemoteForward sid fid s).
Proof.
  apply refines_Get; [done|]. intros l. apply refines_at_kept; [solve_stays|done|]. intros c. cbv zeta.
  apply refines_at_kept; [solve_stays|done|]. intros [ln tcp]. by apply refines_at_register.
Qed.
Lemma OpenDynamic_refines sid fid s : refines (QOpen sid fid (ForwardDynamic s)) (OpenDynamicForward sid fid s).
Proof.
  apply refines_Get; [done|]. intros l. apply refines_at_kept; [solve_stays|done|]. intros c. cbv zeta.
  apply refines_at_kept; [solve_stays|done|]. intros [ln port]. by apply refines_at_register.
Qed.

Lemma drop_view w l id : view (upd_sess l (λ s, s <| forwards ::= delete id |>) w).2 l = delete id (view w l).
Proof.
  unfold view. cbn. rewrite lookup_alter_eq. destruct (w_sess w !! l) as [s|]; cbn; [|by rewrite delete_empty].
  by rewrite omap_delete.
Qed.
Lemma CloseForward_refines sid fid : refines (QClose sid fid) (CloseForward sid fid).
Proof.
  apply refines_Get; [intros R H; constructor; intros fs; congruence|]. intros l w Hl Hid.
  destruct (li_reg w Hl sid l Hid) as (s & Hs & _). unfold sess_at, mbind at 1, M_bind at 1. rewrite Hs.
  assert (Hv : view w l !! fid = None ↔ forwards s !! fid = None).
  { unfold view. rewrite Hs, lookup_omap. destruct (forwards s !! fid) as [f|] eqn:Hf; [|done]. cbn.
    destruct (li_fwds w Hl l s fid f Hs Hf) as (F & -> & _). done. }
  destruct (forwards s !! fid) as [f|] eqn:Hf.
  2:{ split; [done|]. constructor. intros fs. rewrite (abs_lookup w sid l Hid). intros [= <-]. by apply Hv. }
  assert (Hin : is_Some (view w l !! fid)) by (destruct (view w l !! fid); [by eexists|]; discriminate (proj1 Hv eq_refl)).
  set (m := upd_sess l (λ s, s <| forwards ::= delete fid |>)). set (w1 := (m w).2).
  assert (Hb : but l w w1) by apply but_drop_forward. destruct (Hb Hl) as (Hl1 & Es & _).
  assert (E1 : abs w1 = <[sid := delete fid (view w l)]> (abs w)).
  { rewrite (but_abs l w w1 sid Hl Hb Hid). f_equal. apply drop_view. }
  rewrite (bind_ret m _ w tt w1) by done.
  assert (Hrest : ∀ k : M World unit, stays kept k → match k w1 with
    | (Ret _, w') => light w' ∧ reg_step (abs w) (QClose sid fid) true (abs w')
    | (Err _, w') => light w' ∧ reg_step (abs w) (QClose sid fid) false (abs w') | (Panic _, _) => True end).
  { intros k Hk. destruct (kept_abs k w1 Hk Hl1) as [Hl2 E2]. assert (Hst : ∀ ok, reg_step (abs w) (QClose sid fid) ok (abs w1)).
    { intros ok. rewrite E1. by econstructor; [apply abs_lookup|]. }
    destruct (k w1) as [[a|e|p] w2]; cbn [snd] in *; [| |done]; rewrite E2; by split. }
  apply Hrest. solve_stays.
Qed.

Lemma step_connect R id ok R' : reg_step R (QConnect id) ok R' → if ok then R !! id = None ∧ R' = <[id := ∅]> R else R' = R.
Proof. by inversion 1. Qed.
Lemma CloneSession_refines PKH CfgGet depth src new : refines (QClone src new) (CloneSession PKH CfgGet depth src new).
Proof.
  apply refines_Get; [intros; constructor|]. intros l. apply refines_at_kept; [solve_stays|intros; constructor|]. intros s w Hl Hid.
  pose proof (Connect_refines PKH CfgGet depth new (s_Spec s) w Hl) as H.
  destruct (Connect PKH CfgGet depth new (s_Spec s) w) as [[l'|e|p] w']; [| |done]; destruct H as [Hl' H]; (split; [done|]).
  - apply step_connect in H as [Hn ->]. constructor; [|done]. exists (view w l). by apply abs_lookup.
  - apply step_connect in H as ->. constructor.
Qed.

Lemma run_call_refines PKH CfgGet depth c : refines (request_of c) (run_call PKH CfgGet depth c).
Proof.
  destruct c as [id addrs jumps spec|id|id|src new| |sid fid spec|sid fid spec|sid fid spec|sid fid|sid shid opts|sid shid|sid];
    cbn [run_call request_of].
  - apply refines_kept; [apply kept_alloc_spec|intros; constructor|]. intros sp. apply refines_void, Connect_refines.
  - apply Disconnect_refines.
  - apply refines_void, refines_use. intros l. unfold lock_reconnect, reconnect_body, dial. solve_stays.
  - apply refines_void, CloneSession_refines.
  - apply CloseAll_refines.
  - apply refines_void, OpenLocal_refines.
  - apply refines_void, OpenRemote_refines.
  - apply refines_void, OpenDynamic_refines.
  - apply CloseForward_refines.
  - apply refines_use. solve_stays.
  - apply refines_use. solve_stays.
  - apply refines_use. solve_stays.
Qed.

(** The calls made one after the other, with what each reported. *)
Fixpoint trace PKH CfgGet depth (cs : list mcall) (w : World) : list (request * bool) :=
  match cs with
  | [] => []
  | c :: cs =>
    let '(o, w') := run_call PKH CfgGet depth c w in
    (request_of c, match o with Ret _ => true | _ => false end) :: trace PKH CfgGet depth cs w'
  end.
Lemma run_refines PKH CfgGet depth cs w w' : light w → run_calls PKH CfgGet depth cs w = (Ret tt, w') →
  light w' ∧ reg_run (abs w) (trace PKH CfgGet depth cs w) (abs w').
Proof.
  revert w. induction cs as [|c cs IH]; intros w Hl Hrun; cbn [run_calls trace] in *.
  - injection Hrun as <-. split; [done|constructor].
  - unfold ignore, try, mbind, M_bind in Hrun. pose proof (run_call_refines PKH CfgGet depth c w Hl) as H.
    destruct (run_call PKH CfgGet depth c w) as [[a|e|p] w1]; [| |done]; destruct H as [Hl1 Hst];
      (destruct (IH w1 Hl1 Hrun) as [Hl' Hr]; split; [done|by econstructor]).
Qed.
Lemma light_world0 : light world0.
Proof. split; unfold reg_ok; simpl; intros *; rewrite ?lookup_empty; done. Qed.
End calls.

(** C4: the manager implements the registry.  Whatever calls are made, in any order,
    each of them, whether it reports success or an error, is one step of the registry
    on the ids and forwards it names: a connect adds an id that was free, a disconnect
    removes one that was there and fails only for one that was not, a forward is
    recorded as it was asked for with its addresses filled in, closing one removes it
    even when its listener reports an error, and what else goes on with a session
    changes nothing. *)
Theorem manager_refines_registry {E : Env} PKH CfgGet depth cs (Hcs : Forall call_ok cs) :
  match run_calls PKH CfgGet depth cs world0 with
  | (Ret _, w) => reg_run ∅ (trace PKH CfgGet depth cs world0) (abs w)
  | (Err _, _) => False
  | (Panic p, _) => p = "stack overflow"
  end.
Proof.
  pose proof (run_calls_sys PKH CfgGet depth cs world0 (λ o _, match o with Ret _ => True | Err _ => False | Panic p => p = "stack overflow" end)
    sys_world0 Hcs) as H. unfold wp in H.
  pose proof (run_refines PKH CfgGet depth cs world0) as Hr.
  destruct (run_calls PKH CfgGet depth cs world0) as [[[]|e|p] w]; [|by apply H|by apply H].
  destruct (Hr w light_world0 eq_refl) as [_ Hrun]. assert (E0 : abs world0 = ∅) by apply fmap_empty. by rewrite E0 in Hrun.
Qed.

(** A session with two forwards, an id that is taken, and a forward closed again. *)
Definition calls_reg : list mcall := calls_ex ++ [CCloseForward "a" "socks"; CDisconnect "b"].
Lemma manager_refines_registry_witness :
  match @run_calls env_ok (λ _, None) (λ _ _, "") 5 calls_reg world0 with
  | (Ret _, w) =>
    reg_run ∅ [(QConnect "a", true); (QOpen "a" "socks" (ForwardDynamic (mkDynamicSpec "" 0)), true);
      (QOpen "a" "web" (ForwardRemote (mkRemoteSpec "" 8080 "" 80)), true); (QUse "a", true); (QUse "a", true);
      (QConnect "a", false); (QClose "a" "socks", true); (QDisconnect "b", false)] (abs w)
  | _ => False
  end.
Proof.
  pose proof (@manager_refines_registry env_ok (λ _, None) (λ _ _, "") 5 calls_reg) as H.
  specialize (H ltac:(repeat constructor; vm_compute; discriminate)).
  assert (Ht : @trace env_ok (λ _, None) (λ _ _, "") 5 calls_reg world0 =
    [(QConnect "a", true); (QOpen "a" "socks" (ForwardDynamic (mkDynamicSpec "" 0)), true);
      (QOpen "a" "web" (ForwardRemote (mkRemoteSpec "" 8080 "" 80)), true); (QUse "a", true); (QUse "a", true);
      (QConnect "a", false); (QClose "a" "socks", true); (QDisconnect "b", false)]) by (vm_compute; reflexivity).
  assert (Hn : match (@run_calls env_ok (λ _, None) (λ _ _, "") 5 calls_reg world0).1 with Ret _ => True | _ => False end)
    by (vm_compute; exact I).
  rewrite Ht in H. destruct (@run_calls env_ok (λ _, None) (λ _ _, "") 5 calls_reg world0) as [[[]|e|p] w]; [exact H|exact H|exact Hn].
Defined.
