(* ===== verification/DRegistry.v ===== *)
(** * The Docker manager as a registry (internal/dockerx/manager.go)

    The map of hosts, with the spec each was connected with, is all the manager
    promises.  [host_reg] is that map; [dabs] reads it off the heap.  The calls of the
    manager are the atomic steps of DockerProps.v, which interleave as they like:
    every step of every call is a step of the registry or leaves it alone, and each
    call takes effect in one of its steps. *)

From stdpp Require Import relations.
From S2P Require Import Docker.
From S2P Require Import Prelude GoStrings External Spec Ledger Dial World State Containers Disk Copy Sftp Records DockerProps.
From Stdlib Require Import Ascii.

(** ** The abstract registry *)
Abbreviation host_reg := (gmap string DockerSpec).

Inductive hevent :=
  | HConnected (id : string) (spec : DockerSpec)
  | HDisconnected (id : string)
  | HCleared
  | HQuiet.
Inductive hreg_step (R : host_reg) : hevent → host_reg → Prop :=
  | H_connected id spec : R !! id = None → hreg_step R (HConnected id spec) (<[id := spec]> R)
  | H_disconnected id : is_Some (R !! id) → hreg_step R (HDisconnected id) (delete id R)
  | H_cleared : hreg_step R HCleared ∅
  | H_quiet : hreg_step R HQuiet R.

Definition dabs (d : DWorld) : host_reg := omap (λ l, h_Spec <$> dw_host d !! l) (hosts d).

Lemma dabs_lookup d id l h : hosts d !! id = Some l → dw_host d !! l = Some h → dabs d !! id = Some (h_Spec h).
Proof. intros H1 H2. unfold dabs. rewrite lookup_omap, H1. cbn. by rewrite H2. Qed.
Lemma dabs_None d id : dlight d → dabs d !! id = None ↔ hosts d !! id = None.
Proof.
  intros Hl. unfold dabs. rewrite lookup_omap. destruct (hosts d !! id) as [l|] eqn:Hid; [|done]. cbn.
  destruct (dl_reg d Hl id l Hid) as (h & -> & _). done.
Qed.
Lemma dabs_empty d : hosts d = ∅ → dabs d = ∅.
Proof. intros E. unfold dabs. rewrite E. apply omap_empty. Qed.
Lemma dkept_dabs d d' : dlight d → dkept d d' → dlight d' ∧ dabs d' = dabs d.
Proof.
  intros Hl H. destruct (H Hl) as (Hl' & E & Hh). split; [done|]. apply map_eq. intros id. unfold dabs. rewrite !lookup_omap, E.
  destruct (hosts d !! id) as [l|] eqn:Hid; [|done]. cbn. destruct (dl_reg d Hl id l Hid) as (h & Hlh & _).
  destruct (Hh l h Hlh) as (h' & Hlh' & Er). rewrite Hlh, Hlh'. unfold rec_host in Er. simpl. congruence.
Qed.
Lemma dabs_delete d id : dlight d →
  dlight (d <| hosts ::= delete id |>) ∧ dabs (d <| hosts ::= delete id |>) = delete id (dabs d).
Proof.
  intros [H1 H2]. split; [|unfold dabs; simpl; by rewrite omap_delete]. split; simpl; [|done].
  intros id' l [_ Hx]%lookup_delete_Some. by apply H1.
Qed.

(** ** The steps *)
Section steps.
Context {E : Env} (PKH : string → option (list string * option string * string)).

(** The two looks at the map of a [Connect]. *)
Lemma register_dabs id spec c d : dlight d → let '(o, d') := connect_register id spec c d in
  dlight d' ∧
  match o with
  | Ret _ => dabs d !! id = None ∧ dabs d' = <[id := spec]> (dabs d)
  | _ => dabs d' = dabs d
  end.
Proof.
  intros Hl. unfold connect_register.
  assert (Ht : stays dkept (dnetM now)) by apply dkept_dnetM. specialize (Ht d). unfold mbind, M_bind.
  destruct (dnetM now d) as [[t|e|p] d1]; cbn [snd] in Ht; [|by apply dkept_dabs..].
  destruct (dkept_dabs d d1 Hl Ht) as [Hl1 E1]. unfold gets. destruct (hosts d1 !! id) as [l|] eqn:Hid.
  - assert (Hk : stays dkept (dnetM (hostConn_close c);; fail (Fmt "docker host %q created concurrently" [id]) : M DWorld loc))
      by solve_stays.
    specialize (Hk d1). unfold mbind, M_bind in Hk. destruct (dnetM (hostConn_close c) d1) as [[t'|e|p] d2]; cbn [fail snd fst] in *;
      destruct (dkept_dabs d1 d2 Hl1 Hk) as [? ?]; (split; [done|congruence]).
  - rewrite <- E1. unfold new_host, gets, modify, mbind, M_bind. cbn. set (h := mkHost id spec (Some c) t "" ∅ false).
    set (l := dw_next d1). destruct Hl1 as [H1 H2]. assert (Hne : ∀ l' h', dw_host d1 !! l' = Some h' → l ≠ l').
    { intros l' h' Hx <-. apply H2 in Hx. unfold l in Hx. lia. }
    split; [split; simpl|split].
    + intros id' l' [[<- <-]|[_ Hx]]%lookup_insert_Some; [exists h; by rewrite lookup_insert_eq|].
      destruct (H1 id' l' Hx) as (h' & Hh' & ?). exists h'. by rewrite lookup_insert_ne by (by eapply Hne).
    + intros l' h' [[<- _]|[_ Hx]]%lookup_insert_Some; [unfold l; lia|]. apply H2 in Hx. lia.
    + unfold dabs. by rewrite lookup_omap, Hid.
    + apply map_eq. intros k. unfold dabs. simpl. rewrite lookup_omap. destruct (decide (k = id)) as [->|Hk].
      * rewrite !lookup_insert_eq. cbn. by rewrite lookup_insert_eq.
      * rewrite !lookup_insert_ne, lookup_omap by done. destruct (hosts d1 !! k) as [l'|] eqn:Hk'; [|done]. cbn.
        destruct (H1 k l' Hk') as (h' & Hh' & _). by rewrite lookup_insert_ne by (by eapply Hne).
Qed.

(** The calls that change the map, made one at a time. *)
Lemma Connect_dabs id spec d : dlight d →
  match Connect PKH id spec d with
  | (Ret _, d') => dlight d' ∧ dabs d !! id = None ∧ dabs d' = <[id := spec]> (dabs d)
  | (Err _, d') => dlight d' ∧ dabs d' = dabs d
  | (Panic _, _) => True
  end.
Proof.
  intros Hl. unfold Connect. assert (Hc : stays dkept (connect_check id)) by (unfold connect_check; solve_stays).
  unfold mbind, M_bind. specialize (Hc d). destruct (connect_check id d) as [[[]|e|p] d1]; cbn [snd] in Hc; [| |done];
    destruct (dkept_dabs d d1 Hl Hc) as [Hl1 <-]; [|done].
  pose proof (dkept_dnetM (dialDocker PKH spec) d1) as Hd.
  destruct (dnetM (dialDocker PKH spec) d1) as [[c|e|p] d2]; cbn [snd] in Hd; [| |done];
    destruct (dkept_dabs d1 d2 Hl1 Hd) as [Hl2 <-]; [|done].
  pose proof (register_dabs id spec c d2 Hl2) as Hr. by destruct (connect_register id spec c d2) as [[l|e|p] d3].
Qed.
Lemma Disconnect_dabs id d : dlight d →
  match Disconnect id d with
  | (Ret _, d') => dlight d' ∧ is_Some (dabs d !! id) ∧ dabs d' = delete id (dabs d)
  | (Err _, d') => dlight d' ∧ dabs d' = dabs d
  | (Panic _, _) => True
  end.
Proof.
  intros Hl. pose proof (dtries_Disconnect id) as [_ He]. specialize (He d). revert He. unfold Disconnect, unregister_host, Get, mbind, M_bind, gets.
  destruct (hosts d !! id) as [l|] eqn:Hid; [|intros He; by apply dkept_dabs]. cbn.
  set (d1 := d <| hosts ::= delete id |>). destruct (dabs_delete d id Hl) as [Hl1 E1]. fold d1 in Hl1, E1.
  pose proof (dkept_host_close l d1) as Hk. destruct (host_close l d1) as [[[]|e|p] d2]; cbn [snd] in Hk;
    destruct (dkept_dabs d1 d2 Hl1 Hk) as [Hl2 E2]; [|intros He; by apply dkept_dabs|done].
  intros _. split; [done|]. rewrite E2, E1. split; [|done]. destruct (dl_reg d Hl id l Hid) as (h & Hh & _).
  exists (h_Spec h). by eapply dabs_lookup.
Qed.

Lemma dlight_CloseAll : stays dgrows CloseAll.
Proof.
  unfold CloseAll. apply stays_bind; [apply _|apply stays_gets, _|]. intros m. apply stays_forM; [apply _|]. intros [id l].
  apply stays_bind; [apply _|apply dgrows_stays, dkept_host_close|]. intros []. apply stays_modify. intros d Hl.
  by apply dabs_delete.
Qed.

Lemma dkept_tear l : stays dkept (tear l).
Proof. unfold tear, close_dshells, close_conn. pose proof dkept_dshl_Close. solve_stays. Qed.
Lemma dkept_register_dshell l s : stays dkept (register_dshell l s).
Proof. unfold register_dshell. pose proof dkept_dshl_Close. solve_stays. Qed.
Lemma dkept_open_exec l h c id o : stays dkept (open_exec l h c id o).
Proof. unfold open_exec. solve_stays. Qed.
Lemma dkept_close_begin l : stays dkept (host_close_begin l).
Proof. unfold host_close_begin. solve_stays. Qed.
Lemma dkept_pump_exit s : stays dkept (pump_exit s).
Proof. unfold pump_exit. solve_stays. Qed.
Lemma dkept_at {A} (m : M DWorld A) d o d' : stays dkept m → m d = (o, d') → dkept d d'.
Proof. intros H E0. specialize (H d). by rewrite E0 in H. Qed.
Lemma dkept_after {A} (m : M DWorld A) d : stays dkept m → dkept d (m d).2.
Proof. intros H. apply H. Qed.


(** Which call an event belongs to. *)
Definition caused (e : hevent) (w : DWorld) (ts ts' : list dtask) : Prop :=
  match e with
  | HConnected id spec => ∃ t1 c t2, ts = t1 ++ DDialed id spec c :: t2 ∧ ts' = t1 ++ t2
  | HDisconnected id => ∃ l, hosts w !! id = Some l ∧ ts' = DClosing l :: ts
  | HCleared => ts' = ts
  | HQuiet => True
  end.
Definition effect (w : DWorld) (ts : list dtask) (w' : DWorld) (ts' : list dtask) : Prop :=
  dlight w' ∧ ∃ e, hreg_step (dabs w) e (dabs w') ∧ caused e w ts ts'.

Lemma effect_quiet w ts w' ts' : dlight w → dkept w w' → effect w ts w' ts'.
Proof. intros Hl Hk. destruct (dkept_dabs w w' Hl Hk) as [Hl' E0]. split; [done|]. exists HQuiet. rewrite E0. by split; [constructor|]. Qed.

Lemma drun_effect t w ts w' t1 t2 : dlight w → drun PKH t w ts w' → effect w (t1 ++ t :: t2) w' (t1 ++ ts ++ t2).
Proof.
  intros Hl Hr. inversion Hr; subst; clear Hr;
    lazymatch goal with
    | |- context [connect_register ?id ?spec ?c w] => pose proof (register_dabs id spec c w Hl) as Hreg
    | _ => apply effect_quiet; [done|]
    end.
  - eapply dkept_at; [apply dkept_dnetM|done].
  - eapply dkept_at; [apply dkept_dnetM|done].
  - destruct (connect_register id spec c w) as [[l|e|p] w1]; destruct Hreg as [Hl1 Hreg]; cbn [snd].
    + destruct Hreg as [Hid E0]. split; [done|]. exists (HConnected id spec). rewrite E0. split; [by constructor|].
      by exists t1, c, t2.
    + split; [done|]. exists HQuiet. rewrite Hreg. by split; [constructor|].
    + split; [done|]. exists HQuiet. rewrite Hreg. by split; [constructor|].
  - eapply dkept_at; [apply dkept_close_begin|done].
  - apply dkept_after, dkept_tear.
  - eapply dkept_at; [apply dkept_open_exec|done].
  - eapply dkept_at; [apply dkept_open_exec|done].
  - apply dkept_after, dkept_register_dshell.
  - apply dkept_after, dkept_dshl_Close.
Qed.
Lemma dstep_effect w ts w' ts' : dinv w ts → dlight w → dstep PKH (w, ts) (w', ts') → effect w ts w' ts'.
Proof.
  intros Hi Hl Hst. inversion Hst; subst; clear Hst.
  - apply effect_quiet; [done|]. eapply dkept_at; [|eassumption]. unfold connect_check. solve_stays.
  - match goal with H : unregister_host _ _ = _ |- _ => revert H end. unfold unregister_host, Get, mbind, M_bind, gets.
    destruct (hosts w !! id) as [l0|] eqn:Hid; [|done]. intros [= <- <-]. destruct (dabs_delete w id Hl) as [Hl' E0].
    split; [done|]. exists (HDisconnected id). split; [|by exists l0]. rewrite E0. constructor.
    destruct (dl_reg w Hl id l0 Hid) as (h & Hh & _). exists (h_Spec h). by eapply dabs_lookup.
  - apply effect_quiet; [done|]. eapply dkept_at; [|eassumption]. apply dkept_host_client.
  - apply effect_quiet; [done|]. eapply dkept_at; [|eassumption]. unfold take_shell. pose proof dkept_GetShell. solve_stays.
  - pose proof (dlight_CloseAll w Hl) as Hl'. destruct (dinv_CloseAll w _ Hi) as (_ & _ & He). split; [done|].
    exists HCleared. split; [|done]. rewrite (dabs_empty _ He). constructor.
  - apply effect_quiet; [done|]. apply dkept_after, dkept_pump_exit.
  - apply effect_quiet; [done|]. apply dkept_after, dkept_dnetM.
  - by apply drun_effect.
Qed.

Inductive hreg_run : host_reg → list hevent → host_reg → Prop :=
  | H_done R : hreg_run R [] R
  | H_next R e R' es R'' : hreg_step R e R' → hreg_run R' es R'' → hreg_run R (e :: es) R''.
Lemma hreg_run_snoc R es R' e R'' : hreg_run R es R' → hreg_step R' e R'' → hreg_run R (es ++ [e]) R''.
Proof. induction 1; intros Hst; simpl; [by econstructor; [|constructor]|econstructor; [done|auto]]. Qed.

Lemma dlight_dworld0 : dlight dworld0.
Proof. split; simpl; intros *; by rewrite lookup_empty. Qed.
Lemma reach_run w ts : rtc (dstep PKH) (dworld0, []) (w, ts) → dlight w ∧ ∃ es, hreg_run ∅ es (dabs w).
Proof.
  intros H. change ((λ s : DWorld * list dtask, dlight s.1 ∧ ∃ es, hreg_run ∅ es (dabs s.1)) (w, ts)).
  revert H. generalize (w, ts). clear w ts. intros s H.
  apply (rtc_ind_r (R := dstep PKH) (λ s, dlight s.1 ∧ ∃ es, hreg_run ∅ es (dabs s.1)) (dworld0, [])); [| |exact H].
  - split; [apply dlight_dworld0|]. exists []. simpl. rewrite dabs_empty by done. constructor.
  - intros [w1 ts1] [w2 ts2] Hr Hst (Hl & es & Hes). simpl in *.
    destruct (dstep_effect w1 ts1 w2 ts2) as (Hl' & e & He & _); [by eapply dinv_rtc|done|done|].
    split; [done|]. exists (es ++ [e]). by eapply hreg_run_snoc.
Qed.
End steps.

(** C5: the Docker manager implements the registry, however its calls interleave.  In
    every state that clients can bring it to, the map of hosts is the result of a run
    of the registry; the next step of any call, wherever the others stand, is one step
    of the registry.  A host appears in the second half of the [Connect] that dialed
    it, under an id that is free at that moment, and at most there; it disappears when
    a [Disconnect] takes it out of the map, or with [CloseAll]; no other step of any
    call adds, removes or changes a host.  And a [Connect] reports success exactly when
    it added its host. *)
Theorem docker_refines_registry {E : Env} PKH w ts (Hreach : rtc (dstep PKH) (dworld0, []) (w, ts)) :
  (∃ es, hreg_run ∅ es (dabs w)) ∧
  (∀ w' ts', dstep PKH (w, ts) (w', ts') → ∃ e, hreg_step (dabs w) e (dabs w') ∧ caused e w ts ts') ∧
  (∀ id spec c, let '(o, w') := connect_register id spec c w in
    match o with
    | Ret _ => hreg_step (dabs w) (HConnected id spec) (dabs w')
    | _ => hreg_step (dabs w) HQuiet (dabs w')
    end).
Proof.
  destruct (reach_run PKH w ts Hreach) as [Hl Hrun]. split; [done|]. split.
  - intros w' ts' Hst. destruct (dstep_effect PKH w ts w' ts') as (_ & He); [by eapply dinv_rtc|done..].
  - intros id spec c. pose proof (register_dabs id spec c w Hl) as H. destruct (connect_register id spec c w) as [[l|e|p] w'].
    + destruct H as (_ & Hid & ->). by constructor.
    + destruct H as [_ ->]. constructor.
    + destruct H as [_ ->]. constructor.
Qed.

(** Two connects with one id, both past the first look at the map; one registers. *)
Definition conn_ex (c : rid) : HostConn := mkHostConn c None.
Lemma docker_race_run : ∃ w, rtc (@dstep env_ok (λ _, None)) (dworld0, []) (w, [DDialed "d" spec_tcp (conn_ex 1%positive)]) ∧
  dabs w = {["d" := spec_tcp]} ∧ 
  match (@connect_register env_ok "d" spec_tcp (conn_ex 1%positive) w).1 with Err _ => True | _ => False end.
Proof.
  eexists. split.
  - drun_step ltac:(eapply (dstep_connect _ "d" spec_tcp)).
    drun_step ltac:(eapply (dstep_task _ _ _ _ _ [] []); eapply drun_dial_ok).
    drun_step ltac:(eapply (dstep_connect _ "d" spec_tcp)).
    drun_step ltac:(eapply (dstep_task _ _ _ _ _ [] [_]); eapply drun_dial_ok).
    eapply rtc_l; [eapply (dstep_task _ _ _ _ _ [] [_]); apply drun_register|].
    apply rtc_refl.
  - split; vm_compute; [reflexivity|exact I].
Qed.
Lemma docker_refines_registry_witness : ∃ w,
  rtc (@dstep env_ok (λ _, None)) (dworld0, []) (w, [DDialed "d" spec_tcp (conn_ex 1%positive)]) ∧
  hreg_step {["d" := spec_tcp]} HQuiet (dabs (@connect_register env_ok "d" spec_tcp (conn_ex 1%positive) w).2).
Proof.
  destruct docker_race_run as (w & Hrun & Hd & He). exists w. split; [exact Hrun|].
  destruct (@docker_refines_registry env_ok (λ _, None) w _ Hrun) as (_ & _ & H).
  specialize (H "d" spec_tcp (conn_ex 1%positive)). rewrite Hd in H.
  destruct (@connect_register env_ok "d" spec_tcp (conn_ex 1%positive) w) as [[l|e|p] w']; [destruct He|exact H|exact H].
Defined.
