(* ===== verification/DaemonLock.v ===== *)
(** * One daemon at a time (internal/daemon/lock.go)

    The lock file: a directory entry that names an inode, and advisory locks
    (flock) that belong to inodes, not to names.  [AcquireLock] and [Release] run
    over [LWorld]; [lstep] cuts them at their system calls, for the daemons that
    start and stop at the same time.  Windows' LockFileEx has the same contract
    (lock_windows.go). *)

From stdpp Require Import relations.
From S2P Require Import Prelude GoStrings Paths External.
From Stdlib Require Import Ascii String.

Abbreviation ino := positive.
Abbreviation pid := Z.

Record LWorld := mkLWorld {
  lw_path : option ino;            (* what the lock path names *)
  lw_lock : gmap ino pid;          (* flock: the process that holds it *)
  lw_text : gmap ino string;       (* the contents *)
  lw_next : ino;
}.
Definition eta_LWorld w := mkLWorld (lw_path w) (lw_lock w) (lw_text w) (lw_next w).
#[export] Instance upd_lw_path : Setter lw_path. Proof. mk_setter eta_LWorld. Defined.
#[export] Instance upd_lw_lock : Setter lw_lock. Proof. mk_setter eta_LWorld. Defined.
#[export] Instance upd_lw_text : Setter lw_text. Proof. mk_setter eta_LWorld. Defined.
#[export] Instance upd_lw_next : Setter lw_next. Proof. mk_setter eta_LWorld. Defined.
Definition lworld0 : LWorld := mkLWorld None ∅ ∅ 1%positive.

(** Which system calls of [AcquireLock] and [Release] fail for a reason of their own. *)
Record lock_faults := mkLockFaults {
  fail_mkdir : option error;
  fail_open : option error;
  fail_truncate : option error;
  fail_write : option error;
  fail_unlock : option error;
  fail_remove : option error;
}.
Definition no_faults : lock_faults := mkLockFaults None None None None None None.
Definition check (e : option error) : M LWorld unit :=
  match e with Some e => fail e | None => mret tt end.

(** [os.OpenFile(path, O_RDWR|O_CREATE)] *)
Definition open_lock : M LWorld ino := λ w,
  match lw_path w with
  | Some i => (Ret i, w)
  | None => (Ret (lw_next w),
             w <| lw_path := Some (lw_next w) |> <| lw_text ::= <[lw_next w := ""]> |>
               <| lw_next ::= Pos.succ |>)
  end.
(** [flock(LOCK_EX|LOCK_NB)] on a file opened by this call *)
Definition acquireLockHandle (i : ino) (p : pid) : M LWorld unit := λ w,
  match lw_lock w !! i with
  | Some _ => (Err (Msg "resource temporarily unavailable"), w)
  | None => (Ret tt, w <| lw_lock ::= <[i := p]> |>)
  end.
Definition releaseLockHandle (i : ino) : M LWorld unit := modify (λ w, w <| lw_lock ::= delete i |>).
(** Closing the file drops a lock taken through it. *)
Definition close_locked (i : ino) : M LWorld unit := releaseLockHandle i.
Definition remove_lock : M LWorld unit := modify (λ w, w <| lw_path := None |>).

Definition AcquireLock (f : lock_faults) (path : string) (p : pid) : M LWorld ino :=
  r ← try (check (fail_mkdir f));
  match r with
  | inl e => fail (Wrap "create lock dir: %w" [] e)
  | inr _ =>
    r ← try (check (fail_open f);; open_lock);
    match r with
    | inl e => fail (Wrap "open lock file: %w" [] e)
    | inr i =>
      r ← try (acquireLockHandle i p);
      match r with
      | inl _ => fail (Fmt "daemon already running (lock held on %s)" [path])
      | inr _ =>
        r ← try (check (fail_truncate f);; modify (λ w, w <| lw_text ::= <[i := ""]> |>));
        match r with
        | inl e => close_locked i;; fail e
        | inr _ =>
          r ← try (check (fail_write f);; modify (λ w, w <| lw_text ::= <[i := Itoa p]> |>));
          match r with
          | inl e => close_locked i;; fail e
          | inr _ => mret i
          end
        end
      end
    end
  end.

(** [Release] of a lock that was acquired; a nil lock is [None].  An unlock that
    fails is made up for by the close; a name that cannot be removed stays. *)
Definition Release (f : lock_faults) (l : option ino) : M LWorld unit :=
  match l with
  | None => mret tt
  | Some i =>
    ignore (check (fail_unlock f);; releaseLockHandle i);;
    close_locked i;;
    ignore (check (fail_remove f);; remove_lock)
  end.

(** [strconv.Atoi], as far as [Itoa] of a process id goes *)
Definition Atoi (s : string) : option Z :=
  match s with
  | String a s' => if decide (a = "-"%char) then Z.opp <$> ParseUint s' 10 63 else ParseUint s 10 63
  | "" => None
  end.
Definition ReadPid : M LWorld Z := λ w,
  match lw_path w ≫= λ i, lw_text w !! i with
  | None => (Err (Msg "no such file or directory"), w)
  | Some s => match Atoi s with Some n => (Ret n, w) | None => (Err (Fmt "invalid pid" [s]), w) end
  end.

(** ** Waiting for the daemon *)
Definition poll_pause : Z := 150.     (* milliseconds *)
(** [clock n] is the time at the [n]-th look at the clock, [up n] whether the
    [n]-th dial connected. *)
Fixpoint WaitUntilListening (fuel : nat) (clock : nat → Z) (up : nat → bool) (n : nat) (deadline : Z)
    : option (error + unit) :=
  match fuel with
  | O => None
  | S fuel =>
    if bool_decide (clock n < deadline) then
      if up n then Some (inr tt) else WaitUntilListening fuel clock up (S n) deadline
    else Some (inl (Msg "timed out waiting for daemon to listen on "))
  end.

Definition DefaultPaths (UserConfigDir : error + string) : error + (string * string * string) :=
  match UserConfigDir with
  | inl e => inl e
  | inr cfg =>
    let dir := path_Join [cfg; "remote-shell-mcp"] in
    inr (path_Join [dir; "daemon.lock"], path_Join [dir; "state.json"], path_Join [dir; "daemon.json"])
  end.

(** ** The contract: a mutex *)

(** The process that holds the lock. *)
Definition holder (w : LWorld) : option pid := lw_path w ≫= λ i, lw_lock w !! i.

(** Locks are only held on the inode the path names. *)
Record lock_inv (w : LWorld) : Prop := {
  li_path : ∀ i p, lw_lock w !! i = Some p → lw_path w = Some i;
  li_next : ∀ i, lw_path w = Some i → (i < lw_next w)%positive;
}.

(** The abstract mutex: it is free, or a process has it. *)
Inductive mutex_op := MAcquire (p : pid) (ok : bool) | MRelease (p : pid).
Inductive mutex_step : option pid → mutex_op → option pid → Prop :=
  | mutex_take p : mutex_step None (MAcquire p true) (Some p)
  | mutex_refuse m p : mutex_step m (MAcquire p false) m
  | mutex_give p : mutex_step (Some p) (MRelease p) None.

Lemma lock_inv0 : lock_inv lworld0.
Proof. split; [intros i p H; simpl in H; by rewrite lookup_empty in H|done]. Qed.

Lemma open_lock_spec w : lock_inv w →
  ∃ i w', open_lock w = (Ret i, w') ∧ lock_inv w' ∧ lw_path w' = Some i ∧ lw_lock w' = lw_lock w ∧
    holder w' = holder w.
Proof.
  intros [Hp Hn]. unfold open_lock. destruct (lw_path w) as [i|] eqn:Hi.
  - exists i, w. split_and!; try done. split; [by rewrite Hi|by rewrite Hi].
  - assert (Hnone : ∀ j, lw_lock w !! j = None).
    { intros j. destruct (lw_lock w !! j) as [q|] eqn:Hj; [|done]. by apply Hp in Hj. }
    eexists _, _. split; [reflexivity|]. split_and!; try done.
    + split; simpl; [intros j q Hj; by rewrite Hnone in Hj|intros j [= <-]; lia].
    + unfold holder. rewrite Hi. simpl. by rewrite Hnone.
Qed.

(** Closing the file of a lock that was just taken gives the world before. *)
Lemma close_locked_holder w i : lw_path w = Some i → lock_inv w →
  lock_inv (close_locked i w).2 ∧ holder (close_locked i w).2 = None.
Proof.
  intros Hi [Hp Hn]. split.
  - split; simpl; [|done]. intros j q Hj. rewrite lookup_delete in Hj. case_decide; [done|by eapply Hp].
  - unfold holder. simpl. rewrite Hi. simpl. by rewrite lookup_delete_eq.
Qed.

Lemma AcquireLock_spec f path p w : lock_inv w →
  match AcquireLock f path p w with
  | (Ret i, w') => lock_inv w' ∧ holder w = None ∧ holder w' = Some p ∧
      lw_path w' = Some i ∧ lw_text w' !! i = Some (Itoa p)
  | (Err _, w') => lock_inv w' ∧ holder w' = holder w ∧ (f = no_faults → is_Some (holder w))
  | (Panic _, _) => False
  end.
Proof.
  intros Hw. unfold AcquireLock. destruct f as [fm fo ft fw]. simpl.
  destruct fm as [e|]; [done|]. rewrite (bind_ret _ _ _ (inr tt) w) by done.
  destruct fo as [e|]; [done|].
  destruct (open_lock_spec w Hw) as (i & w1 & Ho & Hw1 & Hi & Hl & Hh).
  rewrite (bind_ret _ _ _ (inr i) w1) by (unfold try, check, mbind, M_bind; simpl; by rewrite Ho).
  destruct (lw_lock w1 !! i) as [q|] eqn:Hq.
  { rewrite (bind_ret _ _ _ (inl (Msg "resource temporarily unavailable")) w1)
      by (unfold try, acquireLockHandle; by rewrite Hq).
    split_and!; try done. intros _. rewrite <- Hh. unfold holder. rewrite Hi. simpl. by rewrite Hq. }
  set (w2 := w1 <| lw_lock ::= <[i := p]> |>).
  rewrite (bind_ret _ _ _ (inr tt) w2) by (unfold try, acquireLockHandle; by rewrite Hq).
  assert (Hfree : holder w = None) by (rewrite <- Hh; unfold holder; rewrite Hi; simpl; by rewrite Hq).
  assert (Hinv : ∀ t, lock_inv (w2 <| lw_text ::= t |>)).
  { intros t. destruct Hw1 as [Hp Hn]. split; simpl; [|done]. intros j r. rewrite lookup_insert.
    case_decide; [naive_solver|apply Hp]. }
  assert (Hclose : ∀ w3, lw_path w3 = Some i → lock_inv w3 →
    lock_inv (close_locked i w3).2 ∧ holder (close_locked i w3).2 = holder w).
  { intros w3 Hi3 Hw3. rewrite Hfree. by apply close_locked_holder. }
  assert (Hid : w2 = w2 <| lw_text ::= id |>) by (by destruct w1).
  destruct ft as [e|].
  { rewrite (bind_ret _ _ _ (inl e) w2) by done. destruct (Hclose w2 Hi) as [H1 H2].
    { rewrite Hid. apply Hinv. }
    split_and!; try done. }
  set (w3 := w2 <| lw_text ::= (λ t : gmap ino string, <[i := ""]> t) |>).
  rewrite (bind_ret _ _ _ (inr tt) w3) by done.
  destruct fw as [e|].
  { rewrite (bind_ret _ _ _ (inl e) w3) by done. destruct (Hclose w3 Hi (Hinv _)) as [H1 H2]. by split_and!. }
  rewrite (bind_ret _ _ _ (inr tt) (w3 <| lw_text ::= (λ t : gmap ino string, <[i := Itoa p]> t) |>)) by done.
  split_and!.
  - exact (Hinv (λ t, <[i := Itoa p]> (<[i := ""]> t))).
  - done.
  - unfold holder. simpl. rewrite Hi. simpl. by rewrite lookup_insert_eq.
  - done.
  - simpl. by rewrite lookup_insert_eq.
Qed.

Lemma Release_run f i w :
  Release f (Some i) w = (Ret tt, w <| lw_lock ::= delete i |>
    <| lw_path := match fail_remove f with Some _ => lw_path w | None => None end |>).
Proof.
  destruct f as [fm fo ft fw fu fr]. unfold Release. cbn [fail_unlock fail_remove].
  assert (E1 : (ignore (check fu;; releaseLockHandle i);; close_locked i) w = (Ret tt, w <| lw_lock ::= delete i |>)).
  { destruct fu as [e|]; [done|]. unfold ignore, try, mbind, M_bind, check, close_locked, releaseLockHandle, modify. simpl.
    destruct w. unfold upd, upd_lw_lock. simpl. by rewrite delete_delete_eq. }
  unfold mbind, M_bind in *. destruct (ignore _ w) as [[[]|e|p] w1]; [|done..].
  destruct (close_locked i w1) as [[[]|e|p] w2]; [|done..]. injection E1 as ->. by destruct fr, w.
Qed.
Lemma Release_spec f i p w : lock_inv w → lw_lock w !! i = Some p →
  ∃ w', Release f (Some i) w = (Ret tt, w') ∧ lock_inv w' ∧ holder w = Some p ∧ holder w' = None ∧
    (fail_remove f = None → lw_path w' = None).
Proof.
  intros [Hp Hn] Hi. pose proof (Hp i p Hi) as Hpath. rewrite Release_run. eexists. split; [reflexivity|].
  assert (Hnone : ∀ j q, delete i (lw_lock w) !! j = Some q → False).
  { intros j q Hj. rewrite lookup_delete in Hj. case_decide; [done|]. apply Hp in Hj. congruence. }
  split; [split|split; [|split]].
  - intros j q Hj. by apply Hnone in Hj.
  - simpl. destruct (fail_remove f); [apply Hn|done].
  - unfold holder. rewrite Hpath. exact Hi.
  - unfold holder. simpl. destruct (fail_remove f); [|done]. rewrite Hpath. simpl. by rewrite lookup_delete_eq.
  - simpl. by intros ->.
Qed.

(** What a daemon does to the lock, one call at a time. *)
Inductive lock_call := CAcquire (f : lock_faults) (path : string) (p : pid) | CRelease (f : lock_faults) (i : ino).
Definition run_lock (c : lock_call) : M LWorld unit :=
  match c with
  | CAcquire f path p => AcquireLock f path p;; mret tt
  | CRelease f i => Release f (Some i)
  end.
(** Only a lock that is held is released. *)
Definition lock_pre (c : lock_call) (w : LWorld) : Prop :=
  match c with CAcquire _ _ _ => True | CRelease f i => is_Some (lw_lock w !! i) end.
Definition lock_event (c : lock_call) (w : LWorld) (o : outcome unit) : mutex_op :=
  match c with
  | CAcquire _ _ p => MAcquire p (match o with Ret _ => true | _ => false end)
  | CRelease f i => MRelease (default 0 (lw_lock w !! i))
  end.
Inductive seq_lock : LWorld → LWorld → Prop :=
  | seq_call c w : lock_pre c w → seq_lock w (run_lock c w).2.

Lemma run_lock_refines c w : lock_inv w → lock_pre c w →
  lock_inv (run_lock c w).2 ∧
  mutex_step (holder w) (lock_event c w (run_lock c w).1) (holder (run_lock c w).2) ∧
  is_panic (run_lock c w).1 = false.
Proof.
  intros Hw Hpre. destruct c as [f path p|f i].
  - pose proof (AcquireLock_spec f path p w Hw) as H. unfold run_lock, lock_event, mbind, M_bind.
    destruct (AcquireLock f path p w) as [[j|e|q] w']; simpl in *; [| |done].
    + destruct H as (H1 & -> & -> & _). split; [done|]. split; [constructor|done].
    + destruct H as (H1 & -> & _). split; [done|]. split; [constructor|done].
  - destruct Hpre as [p Hi]. destruct (Release_spec f i p w Hw Hi) as (w' & Hr & Hw' & Hh & Hh' & _).
    unfold run_lock, lock_event. rewrite Hr, Hi. simpl. rewrite Hh, Hh'. split; [done|]. split; [constructor|done].
Qed.
Lemma seq_lock_inv w : rtc seq_lock lworld0 w → lock_inv w.
Proof.
  intros H. remember lworld0 as w0 eqn:E. assert (Hw0 : lock_inv w0) by (subst; apply lock_inv0). clear E.
  induction H as [|w1 w2 w3 Hst _ IH]; [done|]. apply IH. destruct Hst as [c w Hpre]. by apply run_lock_refines.
Qed.

(** C27: as long as daemons take and give the lock one at a time, the lock file
    behaves as a mutex: from every state they can reach, whichever system call
    fails, [AcquireLock] and [Release] are steps of the abstract mutex, and
    without a failing system call [AcquireLock] succeeds exactly when the mutex is
    free. *)
Theorem lock_refines_mutex w (Hreach : rtc seq_lock lworld0 w) c (Hpre : lock_pre c w) :
  mutex_step (holder w) (lock_event c w (run_lock c w).1) (holder (run_lock c w).2) ∧
  match c with
  | CAcquire f path p => f = no_faults → ((∃ i, (AcquireLock f path p w).1 = Ret i) ↔ holder w = None)
  | CRelease f i => True
  end.
Proof.
  apply seq_lock_inv in Hreach as Hw. split; [by apply run_lock_refines|]. destruct c as [f path p|f i]; [|done].
  intros ->. pose proof (AcquireLock_spec no_faults path p w Hw) as H.
  destruct (AcquireLock no_faults path p w) as [[j|e|q] w']; simpl; [| |done].
  - destruct H as (_ & H & _). split; [done|]. by exists j.
  - destruct H as (_ & _ & H). destruct (H eq_refl) as [q Hq]. split; [by intros []|congruence].
Qed.
Lemma lock_refines_mutex_witness :
  let w := (AcquireLock no_faults "l" 7 lworld0).2 in
  mutex_step (Some 7) (MAcquire 8 false) (Some 7) ∧ holder w = Some 7.
Proof.
  split; [|reflexivity].
  refine (proj1 (lock_refines_mutex (run_lock (CAcquire no_faults "l" 7) lworld0).2 _ (CAcquire no_faults "l" 8) I)).
  apply rtc_once. by constructor.
Defined.

(** ** Daemons that start and stop at the same time *)

(** Where a daemon is in [AcquireLock] or [Release]: it opened the file, it has the
    flock, [AcquireLock] returned, or it released the flock and has yet to remove
    the file. *)
Inductive phase := Opened (i : ino) | Locked (i : ino) | Held (i : ino) | Unlocked.
Abbreviation procs := (gmap pid phase).

(** The steps of starting daemons, and the ones of a stopping daemon. *)
Inductive start_step : LWorld * procs → LWorld * procs → Prop :=
  | st_open p i w w' ps : ps !! p = None → open_lock w = (Ret i, w') →
      start_step (w, ps) (w', <[p := Opened i]> ps)
  | st_flock p i w w' ps : ps !! p = Some (Opened i) → acquireLockHandle i p w = (Ret tt, w') →
      start_step (w, ps) (w', <[p := Locked i]> ps)
  | st_busy p i e w ps : ps !! p = Some (Opened i) → acquireLockHandle i p w = (Err e, w) →
      start_step (w, ps) (w, delete p ps)
  | st_written p i w ps : ps !! p = Some (Locked i) →
      start_step (w, ps) (w <| lw_text ::= <[i := Itoa p]> |>, <[p := Held i]> ps)
  | st_failed p i w ps : ps !! p = Some (Locked i) →
      start_step (w, ps) ((close_locked i w).2, delete p ps).
Inductive stop_step : LWorld * procs → LWorld * procs → Prop :=
  | st_unlock p i w ps : ps !! p = Some (Held i) →
      stop_step (w, ps) ((releaseLockHandle i w).2, <[p := Unlocked]> ps)
  | st_remove p w ps : ps !! p = Some Unlocked →
      stop_step (w, ps) ((remove_lock w).2, delete p ps).
Definition lstep (a b : LWorld * procs) : Prop := start_step a b ∨ stop_step a b.

Record start_inv (s : LWorld * procs) : Prop := {
  si_lock : ∀ i p, lw_lock s.1 !! i = Some p → lw_path s.1 = Some i;
  si_opened : ∀ p i, s.2 !! p = Some (Opened i) → lw_path s.1 = Some i;
  si_held : ∀ p i, s.2 !! p = Some (Locked i) ∨ s.2 !! p = Some (Held i) → lw_lock s.1 !! i = Some p;
}.
Lemma start_step_inv s s' : start_step s s' → start_inv s → start_inv s'.
Proof.
  intros Hst [Hl Ho Hh]. destruct Hst as [p i w w' ps Hp Hop|p i w w' ps Hp Hfl|p i e w ps Hp Hfl|p i w ps Hp|p i w ps Hp];
    simpl in *.
  - assert (H : lw_path w' = Some i ∧ lw_lock w' = lw_lock w ∧ ∀ j, lw_path w = Some j → lw_path w' = Some j).
    { unfold open_lock in Hop. destruct (lw_path w) eqn:E; injection Hop as <- <-; split_and!; simpl; naive_solver. }
    destruct H as (Hi & Hlk & Hpres). split; simpl.
    + intros j q. rewrite Hlk. intros Hj. by eapply Hpres, Hl.
    + intros q j. rewrite lookup_insert. case_decide; [by intros [= <-]|]. intros Hq. by eapply Hpres, Ho.
    + intros q j. rewrite Hlk, lookup_insert. case_decide; [naive_solver|]. apply Hh.
  - unfold acquireLockHandle in Hfl. destruct (lw_lock w !! i) as [r|] eqn:E; [done|]. injection Hfl as <-.
    split; simpl.
    + intros j q. rewrite lookup_insert. case_decide as Hj; [intros _; subst; by eapply Ho|apply Hl].
    + intros q j. rewrite lookup_insert. case_decide; [done|apply Ho].
    + intros q j. rewrite !lookup_insert. destruct (decide (p = q)) as [->|Hne].
      * intros [[= <-]|?]; [by rewrite decide_True|done].
      * intros Hq. apply Hh in Hq. destruct (decide (i = j)) as [->|]; [congruence|done].
  - split; simpl; [done| |]; intros q j; rewrite ?lookup_delete; case_decide; naive_solver.
  - split; simpl; [done| |]; intros q j; rewrite ?lookup_insert; case_decide as Hq; [done|apply Ho| |apply Hh].
    intros [?|[= <-]]; [done|]. subst. apply Hh. by left.
  - pose proof (Hh p i (or_introl Hp)) as Hown. split; simpl.
    + intros j q. rewrite lookup_delete. case_decide; [done|apply Hl].
    + intros q j. rewrite lookup_delete. case_decide; [done|apply Ho].
    + intros q j. rewrite !lookup_delete. destruct (decide (p = q)) as [->|Hne]; [naive_solver|].
      intros Hq. apply Hh in Hq. destruct (decide (i = j)) as [->|]; [congruence|done].
Qed.

(** When several daemons start at the same time, at most one of them gets the
    lock, however their system calls interleave and whichever of them fail. *)
Theorem start_race_exclusive w ps p q i j (Hreach : rtc start_step (lworld0, ∅) (w, ps))
    (Hp : ps !! p = Some (Held i)) (Hq : ps !! q = Some (Held j)) : p = q.
Proof.
  assert (Hinv : start_inv (w, ps)).
  { remember (lworld0, ∅) as s0 eqn:E0. remember (w, ps) as s1 eqn:E1. clear E1 Hp Hq.
    assert (H0 : start_inv s0).
    { subst. split; simpl; intros ? ?; rewrite ?lookup_empty; naive_solver. }
    clear E0. induction Hreach as [|a b c Hst _ IH]; [done|]. apply IH. by eapply start_step_inv. }
  destruct Hinv as [Hl _ Hh]. simpl in *.
  assert (Hi := Hh p i (or_intror Hp)). assert (Hj := Hh q j (or_intror Hq)).
  pose proof (Hl _ _ Hi) as H1. pose proof (Hl _ _ Hj) as H2. congruence.
Qed.

Ltac lrun c := eapply rtc_l; [c; vm_compute; reflexivity|].
(** The first daemon has the lock; the second has opened its file. *)
Lemma start_race_exclusive_witness :
  ∃ w ps, rtc start_step (lworld0, ∅) (w, ps) ∧ ps !! 1 = Some (Held 1%positive) ∧
    ps !! 2 = Some (Opened 1%positive) ∧ ∀ q j, ps !! q = Some (Held j) → 1 = q.
Proof.
  eexists _, _. match goal with |- ?P ∧ _ => assert (Hrun : P) end.
  - lrun ltac:(eapply (st_open 1)). lrun ltac:(eapply (st_open 2)). lrun ltac:(eapply (st_flock 1)).
    lrun ltac:(eapply (st_written 1)). apply rtc_refl.
  - split; [exact Hrun|]. split; [reflexivity|]. split; [reflexivity|].
    intros q j Hq. eapply (start_race_exclusive _ _ 1 q _ j Hrun); [reflexivity|exact Hq].
Defined.

(** A daemon that stops breaks the lock for the ones that start meanwhile.
    [Release] gives up the flock before it removes the file: a second daemon that
    opened the file earlier takes the flock in between, the file it holds is
    removed under it, and a third daemon creates a new one and locks that.  Two
    daemons then run. *)
Theorem release_race_two_daemons :
  ∃ s p q i j, rtc lstep (lworld0, ∅) s ∧ p ≠ q ∧ s.2 !! p = Some (Held i) ∧ s.2 !! q = Some (Held j).
Proof.
  eexists (_, _), 2, 3, 1%positive, 2%positive. split; [|split; [done|]].
  - lrun ltac:(left; eapply (st_open 1)). lrun ltac:(left; eapply (st_flock 1)).
    lrun ltac:(left; eapply (st_written 1)). lrun ltac:(left; eapply (st_open 2)).
    lrun ltac:(right; eapply (st_unlock 1)). lrun ltac:(left; eapply (st_flock 2)).
    lrun ltac:(left; eapply (st_written 2)). lrun ltac:(right; eapply (st_remove 1)).
    lrun ltac:(left; eapply (st_open 3)). lrun ltac:(left; eapply (st_flock 3)).
    lrun ltac:(left; eapply (st_written 3)). apply rtc_refl.
  - split; vm_compute; reflexivity.
Qed.

(** ** The process id in the file *)
Lemma Atoi_Itoa p : 0 ≤ p < 2 ^ 63 → Atoi (Itoa p) = Some p.
Proof.
  intros Hp. unfold Itoa. rewrite bool_decide_eq_false_2 by lia. unfold Atoi.
  pose proof (utoa_nonempty p ltac:(lia)) as Hne. pose proof (utoa_no "-"%char p ltac:(lia) eq_refl) as Hno.
  destruct (utoa p) as [|a s] eqn:E; [done|]. cbn [In_str] in Hno. apply orb_false_elim in Hno as [Ha _].
  apply bool_decide_eq_false in Ha. rewrite decide_False by done. rewrite <- E. by apply ParseUint_utoa.
Qed.

(** Whoever gets the lock can be found: after a successful [AcquireLock],
    [ReadPid] returns the process id of the holder. *)
Theorem ReadPid_holder w f path p i w' (Hw : lock_inv w) (Hp : 0 ≤ p < 2 ^ 63)
    (Hacq : AcquireLock f path p w = (Ret i, w')) :
  ReadPid w' = (Ret p, w') ∧ holder w' = Some p.
Proof.
  pose proof (AcquireLock_spec f path p w Hw) as H. rewrite Hacq in H.
  destruct H as (_ & _ & Hh & Hpath & Htext). split; [|done].
  unfold ReadPid. rewrite Hpath. simpl. rewrite Htext. by rewrite Atoi_Itoa.
Qed.
Lemma ReadPid_holder_witness :
  ∃ w', AcquireLock no_faults "l" 4711 lworld0 = (Ret 1%positive, w') ∧ ReadPid w' = (Ret 4711, w') ∧
        holder w' = Some 4711.
Proof.
  eexists. split; [reflexivity|].
  apply (ReadPid_holder lworld0 no_faults "l" 4711 1%positive); [apply lock_inv0|lia|reflexivity].
Defined.

(** ** The wait ends *)
Lemma wait_ends clock up deadline n k :
  (∀ m, clock m + poll_pause ≤ clock (S m)) → deadline - clock n < Z.of_nat k * poll_pause →
  ∃ r, WaitUntilListening (S k) clock up n deadline = Some r.
Proof.
  intros Hc. revert n. induction k as [|k IH]; intros n Hk; cbn [WaitUntilListening].
  - rewrite bool_decide_eq_false_2 by lia. by eexists.
  - case_bool_decide; [|by eexists]. destruct (up n); [by eexists|]. apply IH.
    specialize (Hc n). unfold poll_pause in *. lia.
Qed.
Lemma wait_result fuel clock up n deadline r :
  WaitUntilListening fuel clock up n deadline = Some r →
  (r = inr tt ↔ ∃ m, (n ≤ m)%nat ∧ up m = true ∧ (∀ k, (n ≤ k ≤ m)%nat → clock k < deadline)).
Proof.
  revert n. induction fuel as [|fuel IH]; intros n; cbn [WaitUntilListening]; [done|].
  case_bool_decide as Hd.
  - destruct (up n) eqn:Hu.
    + intros [= <-]. split; [|done]. intros _. exists n. split_and!; [lia|done|]. intros k Hk. assert (k = n) as -> by lia. done.
    + intros H. rewrite (IH _ H). split; intros (m & Hm & Hup & Hall).
      * exists m. split_and!; [lia|done|]. intros k Hk. destruct (decide (k = n)) as [->|]; [done|]. apply Hall. lia.
      * exists m. assert (m ≠ n) by congruence. split_and!; [lia|done|]. intros k Hk. apply Hall. lia.
  - intros [= <-]. split; [done|]. intros (m & Hm & _ & Hall). exfalso. apply Hd, Hall. lia.
Qed.

(** [WaitUntilListening] returns: when the clock advances by the pause between
    two looks at it, it looks at most [total / 150ms + 2] times, and it succeeds
    exactly when some dial connected while the deadline had not passed. *)
Theorem wait_terminates clock up total (Hclock : ∀ m, clock m + poll_pause ≤ clock (S m)) (Htotal : 0 ≤ total) :
  ∃ r, WaitUntilListening (Z.to_nat (total / poll_pause) + 2) clock up 1 (clock 0%nat + total) = Some r ∧
    (r = inr tt ↔ ∃ m, (1 ≤ m)%nat ∧ up m = true ∧ ∀ k, (1 ≤ k ≤ m)%nat → clock k < clock 0%nat + total).
Proof.
  replace (Z.to_nat (total / poll_pause) + 2)%nat with (S (S (Z.to_nat (total / poll_pause)))) by lia.
  destruct (wait_ends clock up (clock 0%nat + total) 1 (S (Z.to_nat (total / poll_pause))) Hclock) as [r Hr].
  { rewrite Nat2Z.inj_succ, Z2Nat.id by (apply Z.div_pos; unfold poll_pause; lia).
    pose proof (Z.mul_succ_div_gt total poll_pause ltac:(done)). specialize (Hclock 0%nat). unfold poll_pause in *. lia. }
  exists r. split; [done|]. by eapply wait_result.
Qed.
Lemma wait_terminates_witness :
  ∃ r, WaitUntilListening 35 (λ n, 200 * Z.of_nat n) (λ n, bool_decide (n = 7)%nat) 1 5000 = Some r ∧
    (r = inr tt ↔ ∃ m, (1 ≤ m)%nat ∧ bool_decide (m = 7)%nat = true ∧ ∀ k, (1 ≤ k ≤ m)%nat → 200 * Z.of_nat k < 5000).
Proof.
  apply (wait_terminates (λ n, 200 * Z.of_nat n) (λ n, bool_decide (n = 7)%nat) 5000); [|lia].
  intros m. unfold poll_pause. lia.
Defined.
