(* ===== verification/Daemon.v ===== *)
(** * The daemon's HTTP front door and rendezvous file (internal/daemon)

    auth.go (the bearer token), rpc.go (the one-shot JSON-RPC endpoint) and
    handle.go (the file that tells the launcher where the daemon listens).  The
    MCP server behind the endpoint and the JSON codec are parameters. *)

From S2P Require Import Prelude GoStrings External Files.
From Stdlib Require Import Ascii String.
From Stdlib Require Strings.Byte.

(** ** auth.go *)
Definition tokenBytes : nat := 32.

(** [hex.EncodeToString] *)
Definition hex_char (n : Z) : ascii :=
  ascii_of_N (Z.to_N (if bool_decide (n < 10) then n + 48 else n + 87)).
Definition byte_val (b : Byte.byte) : Z := Z.of_N (Byte.to_N b).
Fixpoint EncodeToString (b : bytes) : string :=
  match b with
  | [] => ""
  | x :: b =>
    String (hex_char (byte_val x / 16)) (String (hex_char (byte_val x mod 16)) (EncodeToString b))
  end.

(** What [rand.Read] fills the buffer with is the argument. *)
Definition GenerateToken (rand : error + bytes) : error + string :=
  match rand with inl e => inl e | inr buf => inr (EncodeToString buf) end.

(** [subtle.ConstantTimeCompare]: the differences of all bytes are gathered
    before the result is looked at. *)
Fixpoint ct_diff (x y : string) (v : Z) : Z :=
  match x, y with
  | String a x, String b y => ct_diff x y (Z.lor v (Z.lxor (code a) (code b)))
  | _, _ => v
  end.
Definition ConstantTimeCompare (x y : string) : Z :=
  if bool_decide (String.length x ≠ String.length y) then 0
  else if bool_decide (ct_diff x y 0 = 0) then 1 else 0.

(** The argument is the [Authorization] header, empty when absent. *)
Definition bearer_prefix : string := "bearer ".
Definition checkBearer (h expected : string) : bool :=
  let n := String.length bearer_prefix in
  if bool_decide (String.length h < n)%nat then false else
  if negb (EqualFold (take_str n h) bearer_prefix) then false else
  let got := drop_str n h in
  if bool_decide (String.length got ≠ String.length expected) then false else
  bool_decide (ConstantTimeCompare got expected = 1).

Record Request := mkRequest {
  rq_Method : string;
  rq_Authorization : string;
  rq_Body : error + string;        (* what reading it to the end gives *)
  rq_Path : string;
}.
Record Response := mkResponse {
  rs_Status : Z;
  rs_Headers : list (string * string);
  rs_Body : string;
}.
(** [http.Error] *)
Definition http_Error (headers : list (string * string)) (msg : string) (status : Z) : Response :=
  mkResponse status (headers ++ [("Content-Type", "text/plain; charset=utf-8"); ("X-Content-Type-Options", "nosniff")])
    (msg +:+ String "010" "")%string.

(** A handler serves a request in the state [S] of what is behind it. *)
Abbreviation Handler S := (Request → M S Response).

Definition AuthMiddleware {S} (token : string) (next : Handler S) : Handler S := λ r,
  if negb (checkBearer (rq_Authorization r) token) then
    mret (http_Error [("WWW-Authenticate", "Bearer realm=" +:+ String "034" ("remote-shell-mcp" +:+ String "034" ""))%string]
            "unauthorized" 401)
  else next r.

(** ** rpc.go *)
Section rpc.
Context {S Resp : Type}.
Variable HandleMessage : string → M S (option Resp).   (* [None]: a notification *)
Variable Encode : Resp → error + string.               (* [json.NewEncoder(w).Encode] *)
Variable error_text : error → string.

Definition maxBody : Z := 4 * 1024 * 1024.
(** [io.ReadAll(http.MaxBytesReader(w, r.Body, maxBody))] *)
Definition read_body (r : Request) : error + string :=
  match rq_Body r with
  | inl e => inl e
  | inr b => if bool_decide (Z.of_nat (String.length b) > maxBody)
             then inl (Msg "http: request body too large") else inr b
  end.

Definition RPCHandler : Handler S := λ r,
  if decide (rq_Method r ≠ "POST") then mret (http_Error [("Allow", "POST")] "method not allowed" 405) else
  match read_body r with
  | inl e => mret (http_Error [] ("read body: " +:+ error_text e)%string 400)
  | inr body =>
    resp ← HandleMessage body;
    let headers := [("Content-Type", "application/json")] in
    match resp with
    | None => mret (mkResponse 204 headers "")
    | Some m => mret (mkResponse 200 headers (match Encode m with inr s => s | inl _ => "" end))
    end
  end.
End rpc.

(** ** handle.go *)
Record Handle := mkHandle { Addr : string; Token : string; PID : Z }.

(** The codec, with the law its clients rely on. *)
Class HandleCodec := mkHandleCodec {
  marshal_handle : Handle → error + string;
  unmarshal_handle : string → error + Handle;
  handle_codec : ∀ h data, marshal_handle h = inr data → unmarshal_handle data = inr h;
}.

Section handle.
Context {C : HandleCodec}.
Variable io : fate.

Definition WriteHandle (path : string) (h : Handle) : M FS unit :=
  r ← try (MkdirAll io);
  match r with
  | inl e => fail (Wrap "create handle dir: %w" [] e)
  | inr _ =>
    data ← of_sum (marshal_handle h);
    replace_file io path data
  end.

Definition ReadHandle (path : string) : M FS Handle :=
  f ← Open io path;
  match f with
  | None => fail (Msg "file does not exist")
  | Some data =>
    match unmarshal_handle data with
    | inl e => fail (Wrap "parse handle %s: %w" [path] e)
    | inr h =>
      if decide (Addr h = "" ∨ Token h = "") then fail (Fmt "handle %s missing addr or token" [path])
      else mret h
    end
  end.
End handle.

(** ** Facts *)
Lemma lor_zero a b : 0 ≤ a → 0 ≤ b → Z.lor a b = 0 ↔ a = 0 ∧ b = 0.
Proof. intros. apply Z.lor_eq_0_iff. Qed.
Lemma code_range a : 0 ≤ code a < 256.
Proof. unfold code. pose proof (N_ascii_bounded a). lia. Qed.
Lemma code_inj a b : code a = code b → a = b.
Proof.
  unfold code. intros H. apply N2Z.inj in H.
  by rewrite <- (ascii_N_embedding a), <- (ascii_N_embedding b), H.
Qed.
Lemma ct_diff_spec x y v : String.length x = String.length y →
  ct_diff x y v = 0 ↔ v = 0 ∧ x = y.
Proof.
  revert y v. induction x as [|a x IH]; intros [|b y] v Hl; simpl in *; try done; [naive_solver|].
  rewrite IH by congruence. rewrite Z.lor_eq_0_iff, Z.lxor_eq_0_iff. split.
  - intros [[-> Hab] ->]. by rewrite (code_inj _ _ Hab).
  - by intros [-> [= -> ->]].
Qed.
(** The constant-time comparison decides equality. *)
Lemma ConstantTimeCompare_spec x y : ConstantTimeCompare x y = 1 ↔ x = y.
Proof.
  unfold ConstantTimeCompare. case_bool_decide as Hl.
  - split; [done|by intros ->].
  - case_bool_decide as Hd; rewrite ct_diff_spec in Hd by done; naive_solver.
Qed.

Lemma length_ToLower s : String.length (ToLower s) = String.length s.
Proof. induction s as [|a s IH]; simpl; [done|]. by rewrite IH. Qed.

Lemma checkBearer_spec h token :
  checkBearer h token = true ↔ ∃ scheme, ToLower scheme = "bearer " ∧ h = scheme +:+ token.
Proof.
  unfold checkBearer, EqualFold. cbv zeta. split.
  - repeat case_bool_decide as Hc; try done; simpl; try done; repeat case_bool_decide; try done.
    intros _. exists (take_str 7 h). split; [done|].
    match goal with Hx : ConstantTimeCompare _ _ = 1 |- _ => apply ConstantTimeCompare_spec in Hx; rewrite <- Hx end.
    by rewrite take_drop_str.
  - intros (scheme & Hs & ->).
    assert (Hlen : String.length scheme = 7%nat) by (rewrite <- length_ToLower, Hs; done).
    rewrite bool_decide_eq_false_2 by (rewrite length_app_str, Hlen; simpl; lia).
    change (String.length bearer_prefix) with 7%nat. rewrite <- Hlen, take_app_str, drop_app_str.
    rewrite (bool_decide_eq_true_2 (ToLower scheme = _)) by (by rewrite Hs). simpl.
    rewrite bool_decide_eq_false_2 by tauto. apply bool_decide_eq_true_2. by apply ConstantTimeCompare_spec.
Qed.

Definition unauthorized : Response :=
  http_Error [("WWW-Authenticate", "Bearer realm=" +:+ String "034" ("remote-shell-mcp" +:+ String "034" ""))%string]
    "unauthorized" 401.

(** The middleware lets a request through exactly when its header is the
    scheme [Bearer], in any case, a space and the daemon's token; any other
    request is answered 401 and does not reach what is behind. *)
Theorem auth_exact {S} token (next : Handler S) r :
  ((∃ scheme, ToLower scheme = "bearer " ∧ rq_Authorization r = scheme +:+ token) →
   AuthMiddleware token next r = next r) ∧
  ((¬ ∃ scheme, ToLower scheme = "bearer " ∧ rq_Authorization r = scheme +:+ token) →
   AuthMiddleware token next r = mret unauthorized).
Proof.
  unfold AuthMiddleware. split; intros H.
  - apply checkBearer_spec in H. by rewrite H.
  - destruct (checkBearer (rq_Authorization r) token) eqn:Hc; [|done]. by apply checkBearer_spec in Hc.
Qed.
Lemma auth_exact_witness :
  AuthMiddleware "t0k" (λ r, modify (plus 1);; mret (mkResponse 200 [] "served"))
    (mkRequest "POST" "BEARER t0k" (inr "") "/sse") 0%nat = (Ret (mkResponse 200 [] "served"), 1%nat) ∧
  AuthMiddleware "t0k" (λ r, modify (plus 1);; mret (mkResponse 200 [] "served"))
    (mkRequest "POST" "Bearer t0k2" (inr "") "/sse") 0%nat = (Ret unauthorized, 0%nat).
Proof.
  split.
  - destruct (auth_exact "t0k" (λ r, modify (plus 1);; mret (mkResponse 200 [] "served"))
      (mkRequest "POST" "BEARER t0k" (inr "") "/sse")) as [H _]. rewrite H; [done|]. by exists "BEARER ".
  - destruct (auth_exact "t0k" (λ r, modify (plus 1);; mret (mkResponse 200 [] "served"))
      (mkRequest "POST" "Bearer t0k2" (inr "") "/sse")) as [_ H]. rewrite H; [done|].
    intros Hc. apply checkBearer_spec in Hc. vm_compute in Hc. discriminate Hc.
Defined.

(** ** Tokens *)
Definition unhex_char (a : ascii) : Z := if bool_decide (code a < 58) then code a - 48 else code a - 87.
Lemma hex_char_val n : 0 ≤ n < 16 → unhex_char (hex_char n) = n.
Proof.
  intros Hn. unfold unhex_char, hex_char, code. destruct (decide (n < 10)) as [H|H].
  - rewrite (bool_decide_eq_true_2 _ H), N_ascii_embedding by lia. rewrite bool_decide_eq_true_2 by lia. lia.
  - rewrite (bool_decide_eq_false_2 _ H), N_ascii_embedding by lia. rewrite bool_decide_eq_false_2 by lia. lia.
Qed.
Lemma byte_val_range b : 0 ≤ byte_val b < 256.
Proof. unfold byte_val. pose proof (Byte.to_N_bounded b). lia. Qed.
Lemma byte_val_inj a b : byte_val a = byte_val b → a = b.
Proof.
  unfold byte_val. intros H. apply N2Z.inj in H.
  pose proof (Byte.of_to_N a) as Ha. pose proof (Byte.of_to_N b) as Hb. rewrite H in Ha. congruence.
Qed.
Lemma length_hex b : String.length (EncodeToString b) = (2 * List.length b)%nat.
Proof. induction b as [|x b IH]; simpl; [done|]. rewrite IH. lia. Qed.
Lemma hex_inj b b' : EncodeToString b = EncodeToString b' → b = b'.
Proof.
  revert b'. induction b as [|x b IH]; intros [|y b'] H; [done|done|done|]. injection H as H1 H2 H3.
  apply (f_equal unhex_char) in H1, H2. pose proof (byte_val_range x). pose proof (byte_val_range y).
  assert (Hdiv : ∀ z, 0 ≤ z < 256 → 0 ≤ z / 16 < 16)
    by (intros z Hz; split; [apply Z.div_pos; lia|apply Z.div_lt_upper_bound; lia]).
  assert (Hmod : ∀ z, 0 ≤ z mod 16 < 16) by (intros z; apply Z.mod_pos_bound; lia).
  rewrite !hex_char_val in H1 by auto. rewrite !hex_char_val in H2 by auto.
  assert (byte_val x = byte_val y) as Hv.
  { rewrite (Z.div_mod (byte_val x) 16), (Z.div_mod (byte_val y) 16) by lia. congruence. }
  by rewrite (byte_val_inj _ _ Hv), (IH b').
Qed.

(** The token of a run opens that run's daemon and no other: a header made
    from the random bytes [buf] passes a daemon started with [buf'] exactly when
    they are the same bytes, and a token has 64 characters. *)
Theorem token_opens_its_daemon buf buf' tok tok'
    (Htok : GenerateToken (inr buf) = inr tok) (Htok' : GenerateToken (inr buf') = inr tok')
    (Hlen : List.length buf = tokenBytes) :
  String.length tok = 64%nat ∧ (checkBearer ("Bearer " +:+ tok)%string tok' = true ↔ buf = buf').
Proof.
  injection Htok as <-. injection Htok' as <-. rewrite length_hex, Hlen. split; [done|].
  rewrite checkBearer_spec. split.
  - intros (scheme & Hs & H). apply hex_inj.
    assert (Hl : String.length scheme = 7%nat) by (rewrite <- length_ToLower, Hs; done).
    apply (f_equal (drop_str 7)) in H. rewrite <- Hl in H at 2. by rewrite drop_app_str in H.
  - intros ->. by exists "Bearer ".
Qed.
Lemma token_opens_its_daemon_witness :
  let buf := repeat Byte.x1f 32 in
  String.length (EncodeToString buf) = 64%nat ∧
  (checkBearer ("Bearer " +:+ EncodeToString buf)%string (EncodeToString (repeat Byte.xa0 32)) = true ↔
   buf = repeat Byte.xa0 32).
Proof. apply token_opens_its_daemon; reflexivity. Defined.

(** ** The endpoint *)

(** The endpoint hands a request to the MCP server exactly once, and only a
    POST whose body could be read and is at most 4 MiB; a notification is answered
    204 without a body, any other message 200.  Every other request is answered
    405 or 400 and changes nothing. *)
Theorem rpc_exact {S Resp} (HandleMessage : string → M S (option Resp)) Encode error_text r s :
  match rq_Method r, rq_Body r with
  | "POST", inr body =>
    if bool_decide (Z.of_nat (String.length body) ≤ maxBody) then
      match HandleMessage body s with
      | (Ret m, s') => ∃ rs, RPCHandler HandleMessage Encode error_text r s = (Ret rs, s') ∧
          rs_Status rs = (match m with None => 204 | Some _ => 200 end) ∧ (m = None → rs_Body rs = "")
      | (Err e, s') => RPCHandler HandleMessage Encode error_text r s = (Err e, s')
      | (Panic p, s') => RPCHandler HandleMessage Encode error_text r s = (Panic p, s')
      end
    else ∃ rs, RPCHandler HandleMessage Encode error_text r s = (Ret rs, s) ∧ rs_Status rs = 400
  | "POST", inl _ => ∃ rs, RPCHandler HandleMessage Encode error_text r s = (Ret rs, s) ∧ rs_Status rs = 400
  | _, _ => ∃ rs, RPCHandler HandleMessage Encode error_text r s = (Ret rs, s) ∧ rs_Status rs = 405
  end.
Proof.
  unfold RPCHandler. destruct (decide (rq_Method r = "POST")) as [Hm|Hm].
  - rewrite Hm. rewrite decide_False by tauto. unfold read_body. destruct (rq_Body r) as [e|body]; [by eexists|].
    destruct (decide (Z.of_nat (String.length body) ≤ maxBody)) as [Hl|Hl].
    + rewrite (bool_decide_eq_true_2 _ Hl), bool_decide_eq_false_2 by lia. unfold mbind, M_bind.
      destruct (HandleMessage body s) as [[[m|]| |] s']; try done; by eexists.
    + rewrite (bool_decide_eq_false_2 _ Hl), bool_decide_eq_true_2 by lia. by eexists.
  - rewrite decide_True by done.
    assert (Hr : ∃ rs, (mret (http_Error [("Allow", "POST")] "method not allowed" 405) : M S Response) s = (Ret rs, s) ∧ rs_Status rs = 405)
      by by eexists.
    repeat (case_match; try exact Hr); done.
Qed.

(** ** The rendezvous file *)

(** A reader of the handle file never sees half of it: whatever fails and
    wherever the daemon dies while publishing, the file is the old one or the new
    one; and a published handle is read back as it was written. *)
Theorem handle_published {C : HandleCodec} io path h s s'
    (Hw : WriteHandle io path h s = (Ret tt, s')) (Ha : Addr h ≠ "") (Ht : Token h ≠ "")
    (Hio : ∀ n, (fs_tick s' ≤ n)%nat → io n = None) :
  ∃ data, marshal_handle h = inr data ∧ atomic path data s s' ∧ (ReadHandle io path s').1 = Ret h.
Proof.
  unfold WriteHandle in Hw.
  destruct (io (fs_tick s)) as [[e k]|] eqn:H0.
  { unfold mbind, M_bind, try, MkdirAll in Hw. by rewrite H0 in Hw. }
  assert (Hm : try (MkdirAll io) s = (Ret (inr tt), tick s)) by (unfold try, MkdirAll; by rewrite H0).
  rewrite (bind_ret _ _ _ _ _ Hm) in Hw.
  destruct (marshal_handle h) as [e|data] eqn:Hd; [by unfold mbind, M_bind in Hw|].
  rewrite (bind_ret _ _ _ data (tick s)) in Hw by done. cbv zeta in Hw.
  pose proof (replace_file_spec io path data (tick s)) as Hr. rewrite Hw in Hr. destruct Hr as [Hat Hf].
  exists data. split; [done|]. split; [exact Hat|].
  unfold ReadHandle. assert (Hopen : Open io path s' = (Ret (Some data), tick s')).
  { unfold Open. rewrite Hio by lia. by rewrite Hf. }
  rewrite (bind_ret _ _ _ _ _ Hopen). rewrite (handle_codec _ _ Hd). by rewrite decide_False by naive_solver.
Qed.

(** A codec for the example. *)
#[export] Instance Handle_eq_dec : EqDecision Handle. Proof. solve_decision. Defined.
Definition codec_ex : HandleCodec.
Proof.
  refine (mkHandleCodec
    (λ h, if decide (h = mkHandle "127.0.0.1:7800" "t0k" 42) then inr "h" else inl (Msg "unsupported"))
    (λ d, inr (mkHandle "127.0.0.1:7800" "t0k" 42)) _).
  intros h data. destruct (decide _) as [->|]; done.
Defined.

Lemma handle_published_witness :
  ∃ s' data, @WriteHandle codec_ex (λ _, None) "daemon.json" (mkHandle "127.0.0.1:7800" "t0k" 42)
      (mkFS ∅ [] 0) = (Ret tt, s') ∧
    atomic "daemon.json" data (mkFS ∅ [] 0) s' ∧
    (@ReadHandle codec_ex (λ _, None) "daemon.json" s').1 = Ret (mkHandle "127.0.0.1:7800" "t0k" 42).
Proof.
  eexists. match goal with |- ∃ _, ?P ∧ _ => assert (Hw : P) by reflexivity end.
  destruct (@handle_published codec_ex (λ _, None) "daemon.json" (mkHandle "127.0.0.1:7800" "t0k" 42)
    (mkFS ∅ [] 0) _ Hw) as (data & _ & Hat & Hr); [done|done|done|].
  exists data. split; [exact Hw|]. split; [exact Hat|exact Hr].
Defined.
