(* ===== verification/Tools.v ===== *)
(** * The tool server (internal/mcptools/server.go)

    What every tool handler shares: the state behind the tools, the request, the
    result and its encoding, the clamping of client-supplied times, and the request
    for a flush of the persisted state.  The handlers are in ToolsSsh.v and
    ToolsDocker.v, the flusher in Flush.v, the catalogue in Catalogue.v.

    [mcp-go] decodes requests: a [Request] is its accessors.  The text of results is
    made by [encoding/json] and toon-go, which are parameters; a [payload] is the
    value they are given. *)

From S2P Require Import Docker.
From S2P Require Import Prelude GoStrings Url External Spec SshConfig Auth Dial World Ledger Session Forward Shell Manager State Files Store Containers Disk Sftp.
From Stdlib Require Import Ascii String.

(** ** Argument structs (of all the handlers) *)
(** The slices of the spec as the request has them: decoding allocates them. *)
Record sshConnectArgs := mk_sshConnectArgs {
  sc_ID : string;
  sc_Addresses : list string;
  sc_JumpHosts : list JumpHost;
  sc_Spec : ConnectSpec;
}.
Record sshExecArgs := mk_sshExecArgs {
  se_SessionID : string;
  se_Command : string;
  se_Env : list (string * string);
  se_Stdin : string;
  se_TimeoutMs : Z;
}.
Record shellOpenArgs := mk_shellOpenArgs {
  so_SessionID : string;
  so_ShellID : string;
  so_Term : string;
  so_Rows : Z;
  so_Cols : Z;
  so_Command : string;
  so_Env : list (string * string);
}.
Record dockerConnectArgs := mk_dockerConnectArgs { dc_ID : string; dc_Spec : DockerSpec }.
Record dockerContainersArgs := mk_dockerContainersArgs {
  dl_HostID : string;
  dl_All : bool;
  dl_Limit : Z;
  dl_Filters : list (string * list string);
}.
Record dockerRunArgs := mk_dockerRunArgs { dr_HostID : string; dr_Spec : RunOptions }.
Record dockerExecArgs := mk_dockerExecArgs {
  dx_HostID : string;
  dx_Container : string;
  dx_Cmd : list string;
  dx_WorkingDir : string;
  dx_User : string;
  dx_Env : list (string * string);
  dx_Stdin : string;
  dx_TimeoutMs : Z;
}.
Record dockerShellOpenArgs := mk_dockerShellOpenArgs {
  dq_HostID : string;
  dq_ShellID : string;
  dq_Container : string;
  dq_Cmd : list string;
  dq_Env : list (string * string);
  dq_User : string;
  dq_WorkingDir : string;
  dq_Rows : Z;
  dq_Cols : Z;
}.
Inductive argty : Type → Type :=
  | ASshConnect : argty sshConnectArgs
  | ASshExec : argty sshExecArgs
  | AShellOpen : argty shellOpenArgs
  | ADockerConnect : argty dockerConnectArgs
  | ADockerContainers : argty dockerContainersArgs
  | ADockerRun : argty dockerRunArgs
  | ADockerExec : argty dockerExecArgs
  | ADockerShellOpen : argty dockerShellOpenArgs.

(** [mcp.CallToolRequest] *)
Record Request := mkRequest {
  BindArguments : ∀ T, argty T → error + T;
  RequireString : string → error + string;
  RequireInt : string → error + Z;
  GetString : string → string → string;
  GetInt : string → Z → Z;
  GetBool : string → bool → bool;
}.

(** ** Results *)
(** A field of a [map[string]any]. *)
Inductive field := FInt (n : Z) | FStr (s : string) | FBool (b : bool).
(** The values the handlers encode.  A slice that may be [nil] is an option. *)
Inductive payload :=
  | PSession (i : SessionInfo)
  | PSessions (l : list SessionRow)
  | PExec (r : Session.ExecResult)
  | PShell (i : ShellInfo)
  | PShells (l : option (list ShellInfo))
  | PForward (i : ForwardInfo)
  | PForwards (l : list ForwardInfo)
  | PFile (e : FileEntry)
  | PFiles (l : list FileEntry)
  | PHost (i : HostInfo)
  | PHosts (l : list HostRow)
  | PContainers (l : list ContainerRow)
  | PInspect (tty : option bool)
  | PImages (l : list ImageRow)
  | PRun (r : RunResult)
  | PDockerExec (r : Containers.ExecResult)
  | PDockerShell (i : DShellInfo)
  | PDockerShells (l : option (list DShellInfo))
  | PFields (l : list (string * field))
  | PStatus (uptime goroutines : Z) (state_path : string) (sessions : list SessionRow)
      (hosts : list HostRow) (forwards : list ForwardInfo).
Inductive ToolResult := TextResult (text : string) | ErrorResult (e : error).

Inductive OutputFormat := FormatJSON | FormatTOON.
Definition ParseFormat (s : string) : error + OutputFormat :=
  if decide (s = "") then inr FormatJSON
  else if decide (s = "json") then inr FormatJSON
  else if decide (s = "toon") then inr FormatTOON
  else inl (Fmt "unknown output format %q (want json or toon)" [s]).

(** What the tools use of other packages. *)
Class Lib := mkLib {
  lib_env :: Env;
  ParseKnownHosts : string → option (list string * option string * string);
  CfgGet : string → string → string;
  jump_depth : nat;                                (* how deep ProxyJump may nest *)
  PortFrom : Z → string → option DockerPort;
  lib_io : fate;                                   (* of the state file *)
  marshal_state : SnapView → error + string;
  unmarshal_state : string → error + SnapView;
  generic : Type;                                  (* [any] *)
  json_Marshal : payload → error + string;
  json_MarshalIndent : payload → error + string;
  json_Unmarshal : string → error + generic;
  toon_Marshal : generic → error + string;
}.

(** ** The state behind the tools *)
Record Server := mkServer {
  mw_ssh : RWorld;                 (* State.SSH, and the files on the servers *)
  mw_docker : DWorld;              (* State.Docker *)
  mw_files : gmap string string;   (* the local disk *)
  mw_dirs : gset string;
  mw_state : FS;                   (* the directory of the state file *)
  mw_flush : bool;                 (* [flushReqCh] holds a request *)
  mw_timeouts : list Z;            (* the timeouts of the contexts made so far *)
}.
Definition eta_Server w := mkServer (mw_ssh w) (mw_docker w) (mw_files w) (mw_dirs w) (mw_state w)
  (mw_flush w) (mw_timeouts w).
#[export] Instance upd_mw_ssh : Setter mw_ssh. Proof. mk_setter eta_Server. Defined.
#[export] Instance upd_mw_docker : Setter mw_docker. Proof. mk_setter eta_Server. Defined.
#[export] Instance upd_mw_files : Setter mw_files. Proof. mk_setter eta_Server. Defined.
#[export] Instance upd_mw_dirs : Setter mw_dirs. Proof. mk_setter eta_Server. Defined.
#[export] Instance upd_mw_state : Setter mw_state. Proof. mk_setter eta_Server. Defined.
#[export] Instance upd_mw_flush : Setter mw_flush. Proof. mk_setter eta_Server. Defined.
#[export] Instance upd_mw_timeouts : Setter mw_timeouts. Proof. mk_setter eta_Server. Defined.

(** The fields of [State] that do not change. *)
Record Config := mkConfig {
  st_Store : option string;        (* the path of the store *)
  st_Started : bool;               (* [flushReqCh != nil] *)
  st_Format : OutputFormat;
  st_startedAt : Z;
}.

Abbreviation TM := (M Server).

(** The parts of the state that the operations of the other components work on. *)
Definition worlds (w : Server) : Both := (rw_ssh (mw_ssh w), mw_docker w).
Definition onBoth {A} (m : M Both A) : TM A :=
  zoom worlds (λ b w, w <| mw_ssh ::= λ r, r <| rw_ssh := b.1 |> |> <| mw_docker := b.2 |>) m.
Definition viaSsh {A} (m : M World A) : TM A := onBoth (sshM m).
Definition viaDocker {A} (m : M DWorld A) : TM A := onBoth (dkM m).
Definition viaSftp {A} (m : SM A) : TM A :=
  zoom (λ w, mkLocal (mw_ssh w) (mw_files w) (mw_dirs w))
    (λ l w, w <| mw_ssh := lo_world l |> <| mw_files := lo_files l |> <| mw_dirs := lo_dirs l |>) m.
Definition viaCopy {A} (m : M (Local DWorld) A) : TM A :=
  zoom (λ w, mkLocal (mw_docker w) (mw_files w) (mw_dirs w))
    (λ l w, w <| mw_docker := lo_world l |> <| mw_files := lo_files l |> <| mw_dirs := lo_dirs l |>) m.

Section server.
Context {L : Lib} (C : Config).

(** ** Persistence *)
(** The snapshot as the codec reads it, through its slices. *)
Definition view_snapshot (m : Mem) (s : Snapshot) : SnapView :=
  mkSnapView (sn_Version s) (map (λ r, (r.1, view m r.2)) (sn_SSHSessions s)) (sn_Forwards s)
    (sn_DockerHosts s).
Definition PersistNow : TM unit :=
  match st_Store C with
  | None => mret tt
  | Some path =>
    snap ← onBoth Capture;
    m ← gets (λ w, w_mem (worlds w).1);
    zoom mw_state (λ f w, w <| mw_state := f |>) (Save lib_io marshal_state path (view_snapshot m snap))
  end.
(** The non-blocking send on [flushReqCh], or the write itself when there is no
    flusher. *)
Definition Persist : TM unit :=
  match st_Store C with
  | None => mret tt
  | Some _ => if st_Started C then modify (λ w, w <| mw_flush := true |>) else PersistNow
  end.

(** ** Results *)
Definition jsonResult (v : payload) : ToolResult :=
  match json_MarshalIndent v with
  | inl e => ErrorResult (Wrap "encode result" [] e)
  | inr data => TextResult data
  end.
Definition resultJSON (v : payload) : ToolResult :=
  match st_Format C with
  | FormatTOON =>
    match json_Marshal v with
    | inl _ => jsonResult v
    | inr raw =>
      match json_Unmarshal raw with
      | inl _ => jsonResult v
      | inr g => match toon_Marshal g with inl _ => jsonResult v | inr data => TextResult data end
      end
    end
  | FormatJSON => jsonResult v
  end.

(** [if err != nil { return resultErr(err) }] around a handler's body. *)
Definition answer (m : TM ToolResult) : TM ToolResult :=
  r ← try m; mret (match r with inr x => x | inl e => ErrorResult e end).

(** ** Times *)
Definition maxReadTimeout : Z := 5 * 60 * 1000.
Definition clampReadTimeout (ms : Z) : Z :=
  if bool_decide (ms < 0) then 0
  else if bool_decide (ms > maxReadTimeout) then maxReadTimeout else ms.
Definition millisecond : Z := 1000000.
(** The timeout of the context. *)
Definition execContext (timeoutMs defaultMs : Z) : Z :=
  let timeoutMs := if bool_decide (timeoutMs ≤ 0) then defaultMs else timeoutMs in
  let timeoutMs := if bool_decide (timeoutMs > 60 * 60 * 1000) then 60 * 60 * 1000 else timeoutMs in
  timeoutMs * millisecond.
(** [cctx, cancel := ...; defer cancel()] *)
Definition with_timeout {A} (timeout : Z) (m : TM A) : TM A :=
  modify (λ w, w <| mw_timeouts ::= λ l, l ++ [timeout] |>);; m.

(** ** Arguments *)
Definition bind {A} (req : Request) (t : argty A) : TM A := of_sum (BindArguments req A t).
Definition requireString (req : Request) (k : string) : TM string := of_sum (RequireString req k).
Definition requireInt (req : Request) (k : string) : TM Z := of_sum (RequireInt req k).
End server.

Lemma answer_run (m : TM ToolResult) w : answer m w =
  match m w with
  | (Ret r, w') => (Ret r, w')
  | (Err e, w') => (Ret (ErrorResult e), w')
  | (Panic p, w') => (Panic p, w')
  end.
Proof. unfold answer, try, mbind, M_bind. by destruct (m w) as [[] ?]. Qed.
