(* ===== verification/ToolsSsh.v ===== *)
(** * The ssh tools (internal/mcptools/ssh.go, ssh_shell.go, forward.go, sftp.go)

    One definition per handler: it reads its arguments in the order of the code,
    runs the manager's operation and encodes the result; an error of any of them is
    the tool's result ([answer]). *)

From S2P Require Import Docker.
From S2P Require Import Prelude GoStrings Url External Spec Auth Dial World Session Forward Shell Manager State Containers Disk Sftp Tools.
From Stdlib Require Import Ascii String.

(** A double quote *)
Definition quot : string := String "034" "".

(** [parseOctalMode] *)
Definition parseOctalMode (s : string) : error + Z :=
  let s := TrimSpace s in
  if decide (s = "") then inl (Msg "empty mode") else
  let s := match strip "0o" s, strip "0O" s with Some r, _ | None, Some r => r | None, None => s end in
  match ParseUint s 8 32 with
  | None => inl (Msg ("mode must be octal: " +:+ quot +:+ "0755" +:+ quot +:+ ", " +:+ quot +:+ "755" +:+
                      quot +:+ ", or " +:+ quot +:+ "0o755" +:+ quot))
  | Some n => if bool_decide (n > 4095) then inl (Msg "mode out of permission-bit range") else inr n
  end.

(** A slice that was declared and only appended to is [nil] when nothing was. *)
Definition nil_if_empty {A} (l : list A) : option (list A) := match l with [] => None | _ => Some l end.
(** The text of what a [Read] returned, and whether it was an error. *)
Definition read_data (r : ReadResult) : string * bool :=
  match r with
  | Data b => (string_of_list_byte b, false)
  | Eof => ("", true)
  | TimedOut => ("", false)
  end.

Section ssh.
Context {L : Lib} (C : Config).
Abbreviation resultJSON v := (mret (resultJSON C v)).
Abbreviation text s := (mret (TextResult s)).
Abbreviation Persist := (ignore (Persist C)).

(** ** ssh.go *)
Definition handleSSHConnect (req : Request) : TM ToolResult := answer (
  args ← bind req ASshConnect;
  spec ← viaSsh (alloc_spec (sc_Addresses args) (sc_JumpHosts args) (sc_Spec args));
  sess ← viaSsh (Connect ParseKnownHosts CfgGet jump_depth (sc_ID args) spec);
  Persist;;
  i ← viaSsh (Info sess);
  resultJSON (PSession i)).

Definition handleSSHDisconnect (req : Request) : TM ToolResult := answer (
  id ← requireString req "id";
  viaSsh (Disconnect id);;
  Persist;;
  text ("disconnected " +:+ id)%string).

Definition handleSSHList (req : Request) : TM ToolResult := answer (
  full ← viaSsh List;
  resultJSON (PSessions (map Row full))).

Definition handleSSHInfo (req : Request) : TM ToolResult := answer (
  id ← requireString req "id";
  s ← viaSsh (Get id);
  i ← viaSsh (Info s);
  resultJSON (PSession i)).

Definition handleSSHReconnect (req : Request) : TM ToolResult := answer (
  id ← requireString req "id";
  s ← viaSsh (Reconnect ParseKnownHosts id);
  i ← viaSsh (Info s);
  resultJSON (PSession i)).

Definition handleSSHClone (req : Request) : TM ToolResult := answer (
  src ← requireString req "source_id";
  dst ← requireString req "new_id";
  s ← viaSsh (CloneSession ParseKnownHosts CfgGet jump_depth src dst);
  Persist;;
  i ← viaSsh (Info s);
  resultJSON (PSession i)).

Definition handleSSHExec (req : Request) : TM ToolResult := answer (
  args ← bind req ASshExec;
  s ← viaSsh (Get (se_SessionID args));
  with_timeout (execContext (se_TimeoutMs args) 30000) (
    '(res, err) ← viaSsh (Session.Exec s (se_Command args) (se_Env args) (se_Stdin args));
    match err with Some e => fail e | None => resultJSON (PExec res) end)).

(** ** ssh_shell.go *)
Definition handleShellOpen (req : Request) : TM ToolResult := answer (
  args ← bind req AShellOpen;
  s ← viaSsh (Get (so_SessionID args));
  sh ← viaSsh (OpenShell s (so_ShellID args)
         (mkShellOptions (so_Term args) (so_Rows args) (so_Cols args) (so_Env args) (so_Command args) 0));
  i ← viaSsh (shl_at sh);
  resultJSON (PShell (shl_Info i))).

Definition handleShellWrite (req : Request) : TM ToolResult := answer (
  sid ← requireString req "session_id";
  shid ← requireString req "shell_id";
  data ← requireString req "data";
  s ← viaSsh (Get sid);
  sh ← viaSsh (GetShell s shid);
  n ← viaSsh (shl_Write sh data);
  resultJSON (PFields [("bytes_written", FInt n)])).

Definition handleShellRead (req : Request) : TM ToolResult := answer (
  sid ← requireString req "session_id";
  shid ← requireString req "shell_id";
  let timeoutMs := clampReadTimeout (GetInt req "timeout_ms" 1000) in
  s ← viaSsh (Get sid);
  sh ← viaSsh (GetShell s shid);
  out ← viaSsh (shl_Read sh (timeoutMs * millisecond));
  let '(data, eof) := read_data out in
  resultJSON (PFields [("data", FStr data); ("eof", FBool eof)])).

Definition handleShellResize (req : Request) : TM ToolResult := answer (
  sid ← requireString req "session_id";
  shid ← requireString req "shell_id";
  rows ← requireInt req "rows";
  cols ← requireInt req "cols";
  if bool_decide (rows < 1 ∨ rows > 1000 ∨ cols < 1 ∨ cols > 1000)
  then fail (Msg "rows/cols must be in [1, 1000]") else
  s ← viaSsh (Get sid);
  sh ← viaSsh (GetShell s shid);
  viaSsh (shl_Resize sh rows cols);;
  text "ok").

Definition handleShellClose (req : Request) : TM ToolResult := answer (
  sid ← requireString req "session_id";
  shid ← requireString req "shell_id";
  s ← viaSsh (Get sid);
  viaSsh (CloseShell s shid);;
  text ("closed " +:+ shid)%string).

Fixpoint all_shells (ls : list loc) : M World (list ShellInfo) :=
  match ls with
  | [] => mret []
  | s :: ls => here ← ListShells s; rest ← all_shells ls; mret (here ++ rest)
  end.
Definition handleShellList (req : Request) : TM ToolResult := answer (
  let sid := GetString req "session_id" "" in
  if decide (sid = "") then
    m ← viaSsh Sessions;
    all ← viaSsh (all_shells (map_to_list m).*2);
    resultJSON (PShells (nil_if_empty all))
  else
    s ← viaSsh (Get sid);
    l ← viaSsh (ListShells s);
    resultJSON (PShells (Some l))).

(** ** forward.go *)
Definition bad_ports : error :=
  Msg "ports must be in [1, 65535] (bind_port also accepts 0 = pick free)".

Definition handleForwardLocal (req : Request) : TM ToolResult := answer (
  sid ← requireString req "session_id";
  fid ← requireString req "forward_id";
  bindPort ← requireInt req "bind_port";
  remoteHost ← requireString req "remote_host";
  remotePort ← requireInt req "remote_port";
  if bool_decide (bindPort < 0 ∨ bindPort > 65535 ∨ remotePort < 1 ∨ remotePort > 65535)
  then fail bad_ports else
  let spec := mkLocalSpec (GetString req "bind_addr" "") bindPort remoteHost remotePort in
  f ← viaSsh (OpenLocalForward sid fid spec);
  Persist;;
  F ← viaSsh (fwd_at f);
  resultJSON (PForward (fwd_Info F))).

Definition handleForwardRemote (req : Request) : TM ToolResult := answer (
  sid ← requireString req "session_id";
  fid ← requireString req "forward_id";
  bindPort ← requireInt req "bind_port";
  localPort ← requireInt req "local_port";
  if bool_decide (bindPort < 0 ∨ bindPort > 65535 ∨ localPort < 1 ∨ localPort > 65535)
  then fail bad_ports else
  let spec := mkRemoteSpec (GetString req "bind_addr" "") bindPort (GetString req "local_host" "") localPort in
  f ← viaSsh (OpenRemoteForward sid fid spec);
  Persist;;
  F ← viaSsh (fwd_at f);
  resultJSON (PForward (fwd_Info F))).

Definition handleForwardDynamic (req : Request) : TM ToolResult := answer (
  sid ← requireString req "session_id";
  fid ← requireString req "forward_id";
  bindPort ← requireInt req "bind_port";
  if bool_decide (bindPort < 0 ∨ bindPort > 65535)
  then fail (Msg "bind_port must be in [0, 65535]") else
  f ← viaSsh (OpenDynamicForward sid fid (mkDynamicSpec (GetString req "bind_addr" "") bindPort));
  Persist;;
  F ← viaSsh (fwd_at f);
  resultJSON (PForward (fwd_Info F))).

Definition handleForwardList (req : Request) : TM ToolResult := answer (
  list ← viaSsh (ListForwards (GetString req "session_id" ""));
  resultJSON (PForwards list)).

Definition handleForwardCancel (req : Request) : TM ToolResult := answer (
  sid ← requireString req "session_id";
  fid ← requireString req "forward_id";
  viaSsh (CloseForward sid fid);;
  Persist;;
  text ("cancelled " +:+ fid)%string).

(** ** sftp.go *)
Definition handleFileList (req : Request) : TM ToolResult := answer (
  sid ← requireString req "session_id";
  path ← requireString req "path";
  s ← viaSsh (Get sid);
  entries ← viaSftp (FileList s path);
  resultJSON (PFiles entries)).

Definition handleFileStat (req : Request) : TM ToolResult := answer (
  sid ← requireString req "session_id";
  path ← requireString req "path";
  s ← viaSsh (Get sid);
  info ← viaSftp (FileStat s path);
  resultJSON (PFile info)).

Definition handleFileRead (req : Request) : TM ToolResult := answer (
  sid ← requireString req "session_id";
  path ← requireString req "path";
  let offset := GetInt req "offset" 0 in
  let length := GetInt req "length" 0 in
  s ← viaSsh (Get sid);
  data ← viaSftp (FileRead s path offset length);
  resultJSON (PFields [("bytes", FInt (Z.of_nat (String.length data))); ("data", FStr data)])).

Definition handleFileWrite (req : Request) : TM ToolResult := answer (
  sid ← requireString req "session_id";
  path ← requireString req "path";
  data ← requireString req "data";
  let appendMode := GetBool req "append" false in
  s ← viaSsh (Get sid);
  viaSftp (FileWrite s path data appendMode);;
  resultJSON (PFields [("bytes_written", FInt (Z.of_nat (String.length data)))])).

Definition handleFileDelete (req : Request) : TM ToolResult := answer (
  sid ← requireString req "session_id";
  path ← requireString req "path";
  s ← viaSsh (Get sid);
  viaSftp (FileDelete s path);;
  text ("deleted " +:+ path)%string).

Definition handleFileMkdir (req : Request) : TM ToolResult := answer (
  sid ← requireString req "session_id";
  path ← requireString req "path";
  let recursive := GetBool req "recursive" false in
  s ← viaSsh (Get sid);
  viaSftp (FileMkdir s path recursive);;
  text ("created " +:+ path)%string).

(** The mode: a string in octal, or a number. *)
Definition chmod_mode (req : Request) : error + Z :=
  let modeStr := GetString req "mode" "" in
  if decide (modeStr ≠ "") then parseOctalMode modeStr else
  match RequireInt req "mode" with
  | inl _ => inl (Msg ("`mode` is required (use a string like " +:+ quot +:+ "0755" +:+ quot +:+ ")"))
  | inr n =>
    if bool_decide (n < 0 ∨ n > 4095)
    then inl (Msg ("`mode` out of permission-bit range; pass as a string like " +:+ quot +:+ "0755" +:+ quot))
    else inr n
  end.
Definition handleFileChmod (req : Request) : TM ToolResult := answer (
  sid ← requireString req "session_id";
  path ← requireString req "path";
  mode ← of_sum (chmod_mode req);
  s ← viaSsh (Get sid);
  viaSftp (FileChmod s path mode);;
  text "chmod ok").

Definition handleFileRename (req : Request) : TM ToolResult := answer (
  sid ← requireString req "session_id";
  from ← requireString req "from";
  to ← requireString req "to";
  s ← viaSsh (Get sid);
  viaSftp (FileRename s from to);;
  text "renamed").

Definition handleUpload (req : Request) : TM ToolResult := answer (
  sid ← requireString req "session_id";
  local ← requireString req "local_path";
  remote ← requireString req "remote_path";
  s ← viaSsh (Get sid);
  n ← viaSftp (Upload s local remote);
  resultJSON (PFields [("bytes", FInt n)])).

Definition handleDownload (req : Request) : TM ToolResult := answer (
  sid ← requireString req "session_id";
  remote ← requireString req "remote_path";
  local ← requireString req "local_path";
  s ← viaSsh (Get sid);
  n ← viaSftp (Download s remote local);
  resultJSON (PFields [("bytes", FInt n)])).
End ssh.
