(* ===== verification/ToolsDocker.v ===== *)
(** * The Docker tools and the meta tools (internal/mcptools/docker.go, docker_shell.go, meta.go) *)

From S2P Require Import Docker.
From S2P Require Import Prelude GoStrings Url External Spec Auth Dial World Session Forward Shell Manager State Containers Disk Copy Tools ToolsSsh.
From Stdlib Require Import Ascii String.

Section docker.
Context {L : Lib} (C : Config).
Abbreviation resultJSON v := (mret (resultJSON C v)).
Abbreviation text s := (mret (TextResult s)).
Abbreviation Persist := (ignore (Persist C)).

(** ** docker.go: hosts *)
Definition handleDockerConnect (req : Request) : TM ToolResult := answer (
  args ← bind req ADockerConnect;
  h ← viaDocker (Docker.Connect ParseKnownHosts (dc_ID args) (dc_Spec args));
  Persist;;
  H ← viaDocker (host_at h);
  resultJSON (PHost (host_Info H))).

Definition handleDockerDisconnect (req : Request) : TM ToolResult := answer (
  id ← requireString req "id";
  viaDocker (Docker.Disconnect id);;
  Persist;;
  text ("disconnected " +:+ id)%string).

Definition handleDockerListHosts (req : Request) : TM ToolResult := answer (
  full ← viaDocker Docker.List;
  resultJSON (PHosts (map host_Row full))).

(** ** docker.go: containers *)
Definition handleDockerContainers (req : Request) : TM ToolResult := answer (
  args ← bind req ADockerContainers;
  h ← viaDocker (Docker.Get (dl_HostID args));
  list ← viaDocker (ListContainers h (mkListContainersOptions (dl_All args) (dl_Limit args) (dl_Filters args)));
  resultJSON (PContainers (map container_Row list))).

(** The handlers that name a host and a container. *)
Definition handleDockerInspect (req : Request) : TM ToolResult := answer (
  hid ← requireString req "host_id";
  c ← requireString req "container";
  h ← viaDocker (Docker.Get hid);
  insp ← viaDocker (Inspect h c);
  resultJSON (PInspect insp)).

Definition handleDockerStart (req : Request) : TM ToolResult := answer (
  hid ← requireString req "host_id";
  c ← requireString req "container";
  h ← viaDocker (Docker.Get hid);
  viaDocker (Start h c);;
  text ("started " +:+ c)%string).

(** [var t *int; if ... { t = &v }] *)
Definition grace (req : Request) : option Z :=
  if bool_decide (0 ≤ GetInt req "timeout_sec" (-1)) then Some (GetInt req "timeout_sec" 0) else None.

Definition handleDockerStop (req : Request) : TM ToolResult := answer (
  hid ← requireString req "host_id";
  c ← requireString req "container";
  h ← viaDocker (Docker.Get hid);
  viaDocker (Stop h c (grace req));;
  text ("stopped " +:+ c)%string).

Definition handleDockerRestart (req : Request) : TM ToolResult := answer (
  hid ← requireString req "host_id";
  c ← requireString req "container";
  h ← viaDocker (Docker.Get hid);
  viaDocker (Restart h c (grace req));;
  text ("restarted " +:+ c)%string).

Definition handleDockerKill (req : Request) : TM ToolResult := answer (
  hid ← requireString req "host_id";
  c ← requireString req "container";
  let signal := GetString req "signal" "" in
  h ← viaDocker (Docker.Get hid);
  viaDocker (Kill h c signal);;
  text ("killed " +:+ c)%string).

Definition handleDockerRemove (req : Request) : TM ToolResult := answer (
  hid ← requireString req "host_id";
  c ← requireString req "container";
  let force := GetBool req "force" false in
  let removeVolumes := GetBool req "remove_volumes" false in
  h ← viaDocker (Docker.Get hid);
  viaDocker (Containers.Remove h c force removeVolumes);;
  text ("removed " +:+ c)%string).

Definition handleDockerLogs (req : Request) : TM ToolResult := answer (
  hid ← requireString req "host_id";
  c ← requireString req "container";
  h ← viaDocker (Docker.Get hid);
  let opts := mkLogsOptions (GetString req "tail" "all") (GetString req "since" "")
    (GetString req "until" "") (GetBool req "timestamps" false) (GetBool req "stdout" true)
    (GetBool req "stderr" true) in
  logs ← viaDocker (Logs h c opts);
  text logs).

(** ** docker.go: images, run, exec *)
Definition handleDockerImageList (req : Request) : TM ToolResult := answer (
  hid ← requireString req "host_id";
  h ← viaDocker (Docker.Get hid);
  out ← viaDocker (ListImages h (GetBool req "all" false));
  resultJSON (PImages (map image_Row out))).

Definition handleDockerImagePull (req : Request) : TM ToolResult := answer (
  hid ← requireString req "host_id";
  ref ← requireString req "image";
  h ← viaDocker (Docker.Get hid);
  status ← viaDocker (PullImage h ref);
  resultJSON (PFields [("image", FStr ref); ("status", FStr status)])).

Definition handleDockerImageRemove (req : Request) : TM ToolResult := answer (
  hid ← requireString req "host_id";
  ref ← requireString req "image";
  h ← viaDocker (Docker.Get hid);
  let force := GetBool req "force" false in
  let prune := GetBool req "prune_children" false in
  viaDocker (RemoveImage h ref force prune);;
  text ("removed " +:+ ref)%string).

Definition handleDockerRun (req : Request) : TM ToolResult := answer (
  args ← bind req ADockerRun;
  h ← viaDocker (Docker.Get (dr_HostID args));
  res ← viaDocker (Run PortFrom h (dr_Spec args));
  resultJSON (PRun res)).

Definition handleDockerExec (req : Request) : TM ToolResult := answer (
  args ← bind req ADockerExec;
  h ← viaDocker (Docker.Get (dx_HostID args));
  with_timeout (execContext (dx_TimeoutMs args) 30000) (
    res ← viaDocker (Containers.Exec h (dx_Container args)
            (mkExecOptions (dx_Cmd args) (dx_WorkingDir args) (dx_Env args) (dx_User args) (dx_Stdin args)));
    resultJSON (PDockerExec res))).

(** ** docker.go: copies *)
Definition handleDockerUpload (req : Request) : TM ToolResult := answer (
  hostID ← requireString req "host_id";
  container ← requireString req "container";
  local ← requireString req "local_path";
  remote ← requireString req "remote_path";
  h ← viaDocker (Docker.Get hostID);
  n ← viaCopy (Upload h container local remote);
  resultJSON (PFields [("bytes", FInt n)])).

Definition handleDockerDownload (req : Request) : TM ToolResult := answer (
  hostID ← requireString req "host_id";
  container ← requireString req "container";
  remote ← requireString req "remote_path";
  local ← requireString req "local_path";
  h ← viaDocker (Docker.Get hostID);
  n ← viaCopy (Download h container remote local);
  resultJSON (PFields [("bytes", FInt n)])).

(** ** docker_shell.go *)
Definition handleDockerShellOpen (req : Request) : TM ToolResult := answer (
  args ← bind req ADockerShellOpen;
  h ← viaDocker (Docker.Get (dq_HostID args));
  sh ← viaDocker (Docker.OpenShell h (dq_ShellID args)
         (mkDShellOptions (dq_Container args) (dq_Cmd args) (dq_Env args) (dq_User args)
            (dq_WorkingDir args) (dq_Rows args) (dq_Cols args) 0));
  i ← viaDocker (dshl_at sh);
  resultJSON (PDockerShell (dshl_Info i))).

Definition handleDockerShellWrite (req : Request) : TM ToolResult := answer (
  hid ← requireString req "host_id";
  shid ← requireString req "shell_id";
  data ← requireString req "data";
  h ← viaDocker (Docker.Get hid);
  sh ← viaDocker (Docker.GetShell h shid);
  n ← viaDocker (dshl_Write sh data);
  resultJSON (PFields [("bytes_written", FInt n)])).

Definition handleDockerShellRead (req : Request) : TM ToolResult := answer (
  hid ← requireString req "host_id";
  shid ← requireString req "shell_id";
  let timeoutMs := clampReadTimeout (GetInt req "timeout_ms" 1000) in
  h ← viaDocker (Docker.Get hid);
  sh ← viaDocker (Docker.GetShell h shid);
  out ← viaDocker (dshl_Read sh (timeoutMs * millisecond));
  let '(data, eof) := read_data out in
  resultJSON (PFields [("data", FStr data); ("eof", FBool eof)])).

Definition handleDockerShellResize (req : Request) : TM ToolResult := answer (
  hid ← requireString req "host_id";
  shid ← requireString req "shell_id";
  rows ← requireInt req "rows";
  cols ← requireInt req "cols";
  if bool_decide (rows < 1 ∨ rows > 1000 ∨ cols < 1 ∨ cols > 1000)
  then fail (Msg "rows/cols must be in [1, 1000]") else
  h ← viaDocker (Docker.Get hid);
  sh ← viaDocker (Docker.GetShell h shid);
  viaDocker (dshl_Resize sh rows cols);;
  text "ok").

Definition handleDockerShellClose (req : Request) : TM ToolResult := answer (
  hid ← requireString req "host_id";
  shid ← requireString req "shell_id";
  h ← viaDocker (Docker.Get hid);
  viaDocker (Docker.CloseShell h shid);;
  text ("closed " +:+ shid)%string).

Fixpoint all_dshells (ls : list loc) : M DWorld (list DShellInfo) :=
  match ls with
  | [] => mret []
  | h :: ls => here ← Docker.ListShells h; rest ← all_dshells ls; mret (here ++ rest)
  end.
Definition handleDockerShellList (req : Request) : TM ToolResult := answer (
  let hid := GetString req "host_id" "" in
  if decide (hid = "") then
    m ← viaDocker Docker.Hosts;
    all ← viaDocker (all_dshells (map_to_list m).*2);
    resultJSON (PDockerShells (nil_if_empty all))
  else
    h ← viaDocker (Docker.Get hid);
    l ← viaDocker (Docker.ListShells h);
    resultJSON (PDockerShells (Some l))).

(** ** meta.go *)
Definition store_path : string := default "" (st_Store C).
Definition handleSnapshot (req : Request) : TM ToolResult := answer (
  PersistNow C;;
  resultJSON (PFields [("saved", FBool true); ("path", FStr store_path)])).

Definition handleStatus (req : Request) : TM ToolResult := answer (
  sshList ← viaSsh List;
  dkList ← viaDocker Docker.List;
  fwds ← try (viaSsh (ListForwards ""));
  t ← viaSsh (netM now);
  g ← viaSsh (netM (try (call NumGoroutine)));
  resultJSON (PStatus (t - st_startedAt C) (match g with inr n => n | inl _ => 0 end) store_path
                (map Row sshList) (map host_Row dkList)
                (match fwds with inr l => l | inl _ => [] end))).
End docker.
