(* ===== verification/Catalogue.v ===== *)
(** * The tool catalogue (internal/mcptools: the Register functions and [Build])

    Every tool with its declared parameters and its handler, and what holds of all
    of them: a missing required argument or a number out of range changes nothing,
    and the time a call may take is bounded. *)

From S2P Require Import Docker.
From S2P Require Import Prelude GoStrings Url External Spec Auth Dial World Session Forward Shell Manager State Files Store Containers Disk Sftp Tools ToolsSsh ToolsDocker.
From Stdlib Require Import Ascii String.

(** [mcp.WithString], [WithNumber], ... with or without [mcp.Required()] *)
Inductive ptype := TString | TNumber | TBoolean | TObject | TArray.
Record param := mkParam { p_name : string; p_type : ptype; p_required : bool }.
Definition need (name : string) (t : ptype) : param := mkParam name t true.
Definition opt (name : string) (t : ptype) : param := mkParam name t false.

Record tool {L : Lib} := mkTool {
  t_name : string;
  t_params : list param;
  t_handler : Request → TM ToolResult;
}.

Section catalogue.
Context {L : Lib} (C : Config).

Definition RegisterSSH : list tool := [
  mkTool _ "ssh_connect" [need "id" TString; need "spec" TObject] (handleSSHConnect C);
  mkTool _ "ssh_disconnect" [need "id" TString] (handleSSHDisconnect C);
  mkTool _ "ssh_list" [] (handleSSHList C);
  mkTool _ "ssh_info" [need "id" TString] (handleSSHInfo C);
  mkTool _ "ssh_reconnect" [need "id" TString] (handleSSHReconnect C);
  mkTool _ "ssh_clone" [need "source_id" TString; need "new_id" TString] (handleSSHClone C);
  mkTool _ "ssh_exec"
    [need "session_id" TString; need "command" TString; opt "env" TObject; opt "stdin" TString;
     opt "timeout_ms" TNumber] (handleSSHExec C)
].
Definition RegisterSSHShell : list tool := [
  mkTool _ "ssh_shell_open"
    [need "session_id" TString; need "shell_id" TString; opt "term" TString; opt "rows" TNumber;
     opt "cols" TNumber; opt "command" TString; opt "env" TObject] (handleShellOpen C);
  mkTool _ "ssh_shell_write"
    [need "session_id" TString; need "shell_id" TString; need "data" TString] (handleShellWrite C);
  mkTool _ "ssh_shell_read"
    [need "session_id" TString; need "shell_id" TString; opt "timeout_ms" TNumber] (handleShellRead C);
  mkTool _ "ssh_shell_resize"
    [need "session_id" TString; need "shell_id" TString; need "rows" TNumber; need "cols" TNumber]
    handleShellResize;
  mkTool _ "ssh_shell_close" [need "session_id" TString; need "shell_id" TString] handleShellClose;
  mkTool _ "ssh_shell_list" [opt "session_id" TString] (handleShellList C)
].
Definition RegisterForward : list tool := [
  mkTool _ "ssh_forward_local"
    [need "session_id" TString; need "forward_id" TString; opt "bind_addr" TString;
     need "bind_port" TNumber; need "remote_host" TString; need "remote_port" TNumber]
    (handleForwardLocal C);
  mkTool _ "ssh_forward_remote"
    [need "session_id" TString; need "forward_id" TString; opt "bind_addr" TString;
     need "bind_port" TNumber; opt "local_host" TString; need "local_port" TNumber]
    (handleForwardRemote C);
  mkTool _ "ssh_forward_dynamic"
    [need "session_id" TString; need "forward_id" TString; opt "bind_addr" TString;
     need "bind_port" TNumber] (handleForwardDynamic C);
  mkTool _ "ssh_forwards_list" [opt "session_id" TString] (handleForwardList C);
  mkTool _ "ssh_forward_cancel" [need "session_id" TString; need "forward_id" TString]
    (handleForwardCancel C)
].
Definition RegisterSFTP : list tool := [
  mkTool _ "ssh_file_list" [need "session_id" TString; need "path" TString] (handleFileList C);
  mkTool _ "ssh_file_stat" [need "session_id" TString; need "path" TString] (handleFileStat C);
  mkTool _ "ssh_file_read"
    [need "session_id" TString; need "path" TString; opt "offset" TNumber; opt "length" TNumber]
    (handleFileRead C);
  mkTool _ "ssh_file_write"
    [need "session_id" TString; need "path" TString; need "data" TString; opt "append" TBoolean]
    (handleFileWrite C);
  mkTool _ "ssh_file_delete" [need "session_id" TString; need "path" TString] handleFileDelete;
  mkTool _ "ssh_file_mkdir"
    [need "session_id" TString; need "path" TString; opt "recursive" TBoolean] handleFileMkdir;
  mkTool _ "ssh_file_chmod"
    [need "session_id" TString; need "path" TString; need "mode" TString] handleFileChmod;
  mkTool _ "ssh_file_rename"
    [need "session_id" TString; need "from" TString; need "to" TString] handleFileRename;
  mkTool _ "ssh_upload"
    [need "session_id" TString; need "local_path" TString; need "remote_path" TString] (handleUpload C);
  mkTool _ "ssh_download"
    [need "session_id" TString; need "remote_path" TString; need "local_path" TString] (handleDownload C)
].
Definition RegisterDocker : list tool := [
  mkTool _ "docker_connect" [need "id" TString; need "spec" TObject] (handleDockerConnect C);
  mkTool _ "docker_disconnect" [need "id" TString] (handleDockerDisconnect C);
  mkTool _ "docker_list_hosts" [] (handleDockerListHosts C);
  mkTool _ "docker_containers"
    [need "host_id" TString; opt "all" TBoolean; opt "limit" TNumber; opt "filters" TObject]
    (handleDockerContainers C);
  mkTool _ "docker_container_inspect" [need "host_id" TString; need "container" TString]
    (handleDockerInspect C);
  mkTool _ "docker_container_start" [need "host_id" TString; need "container" TString] handleDockerStart;
  mkTool _ "docker_container_stop"
    [need "host_id" TString; need "container" TString; opt "timeout_sec" TNumber] handleDockerStop;
  mkTool _ "docker_container_restart"
    [need "host_id" TString; need "container" TString; opt "timeout_sec" TNumber] handleDockerRestart;
  mkTool _ "docker_container_kill"
    [need "host_id" TString; need "container" TString; opt "signal" TString] handleDockerKill;
  mkTool _ "docker_container_remove"
    [need "host_id" TString; need "container" TString; opt "force" TBoolean;
     opt "remove_volumes" TBoolean] handleDockerRemove;
  mkTool _ "docker_container_logs"
    [need "host_id" TString; need "container" TString; opt "tail" TString; opt "since" TString;
     opt "until" TString; opt "timestamps" TBoolean; opt "stdout" TBoolean; opt "stderr" TBoolean]
    handleDockerLogs;
  mkTool _ "docker_image_list" [need "host_id" TString; opt "all" TBoolean] (handleDockerImageList C);
  mkTool _ "docker_image_pull" [need "host_id" TString; need "image" TString] (handleDockerImagePull C);
  mkTool _ "docker_image_remove"
    [need "host_id" TString; need "image" TString; opt "force" TBoolean; opt "prune_children" TBoolean]
    handleDockerImageRemove;
  mkTool _ "docker_run" [need "host_id" TString; need "spec" TObject] (handleDockerRun C);
  mkTool _ "docker_exec"
    [need "host_id" TString; need "container" TString; need "cmd" TArray; opt "working_dir" TString;
     opt "user" TString; opt "env" TObject; opt "stdin" TString; opt "timeout_ms" TNumber]
    (handleDockerExec C);
  mkTool _ "docker_upload"
    [need "host_id" TString; need "container" TString; need "local_path" TString;
     need "remote_path" TString] (handleDockerUpload C);
  mkTool _ "docker_download"
    [need "host_id" TString; need "container" TString; need "remote_path" TString;
     need "local_path" TString] (handleDockerDownload C)
].
Definition RegisterDockerShell : list tool := [
  mkTool _ "docker_shell_open"
    [need "host_id" TString; need "shell_id" TString; need "container" TString; opt "cmd" TArray;
     opt "env" TObject; opt "user" TString; opt "working_dir" TString; opt "rows" TNumber;
     opt "cols" TNumber] (handleDockerShellOpen C);
  mkTool _ "docker_shell_write"
    [need "host_id" TString; need "shell_id" TString; need "data" TString] (handleDockerShellWrite C);
  mkTool _ "docker_shell_read"
    [need "host_id" TString; need "shell_id" TString; opt "timeout_ms" TNumber]
    (handleDockerShellRead C);
  mkTool _ "docker_shell_resize"
    [need "host_id" TString; need "shell_id" TString; need "rows" TNumber; need "cols" TNumber]
    handleDockerShellResize;
  mkTool _ "docker_shell_close" [need "host_id" TString; need "shell_id" TString]
    handleDockerShellClose;
  mkTool _ "docker_shell_list" [opt "host_id" TString] (handleDockerShellList C)
].
Definition RegisterMeta : list tool := [
  mkTool _ "snapshot" [] (handleSnapshot C);
  mkTool _ "status" [] (handleStatus C)
].
Definition Build : list tool :=
  RegisterSSH ++ RegisterSSHShell ++ RegisterSFTP ++ RegisterForward ++ RegisterDocker ++
  RegisterDockerShell ++ RegisterMeta.

(** A call by name: the server knows the tool, or refuses. *)
Definition find_tool (name : string) : option tool := List.find (λ t, bool_decide (t_name t = name)) Build.
End catalogue.

(** Names are unique: [AddTool] never replaces a tool. *)
Lemma tool_names_unique {L : Lib} C : NoDup (map t_name (Build C)).
Proof. apply (bool_decide_eq_true_1 _). vm_compute. reflexivity. Qed.
Lemma tool_by_name {L : Lib} C t t' : t ∈ Build C → t' ∈ Build C → t_name t = t_name t' → t = t'.
Proof.
  intros [i Hi]%list_elem_of_lookup [j Hj]%list_elem_of_lookup Hn.
  assert (i = j); [|congruence]. eapply (NoDup_lookup _ _ _ (t_name t) (tool_names_unique C)).
  - change (map t_name (Build C)) with (t_name <$> Build C). by rewrite list_lookup_fmap, Hi.
  - change (map t_name (Build C)) with (t_name <$> Build C). by rewrite list_lookup_fmap, Hj, Hn.
Qed.

(** The tools whose arguments are decoded into a struct. *)
Definition struct_tools : list string :=
  ["ssh_connect"; "ssh_exec"; "ssh_shell_open"; "docker_connect"; "docker_containers"; "docker_run";
   "docker_exec"; "docker_shell_open"].

(** ** Arguments that are missing or out of range *)
(** The request has no argument [k]: every accessor reports it or falls back. *)
Definition lacks (req : Request) (k : string) : Prop :=
  (∃ e, RequireString req k = inl e) ∧ (∃ e, RequireInt req k = inl e) ∧
  (∀ d, GetString req k d = d) ∧ (∀ d, GetInt req k d = d) ∧ (∀ d, GetBool req k d = d).

(** The handler answers with an error and has changed nothing. *)
Definition refused {L : Lib} (h : Request → TM ToolResult) (req : Request) : Prop :=
  ∀ w, ∃ e, h req w = (Ret (ErrorResult e), w).

Section refused.
Context {L : Lib} (C : Config).

Lemma refused_fail e (m : TM ToolResult) w : m w = (Err e, w) → ∃ e, answer m w = (Ret (ErrorResult e), w).
Proof. intros H. exists e. unfold answer, try, mbind, M_bind. by rewrite H. Qed.
Lemma bind_err_or {A} (r : error + A) (k : A → TM ToolResult) w :
  (∀ a, r = inr a → ∃ e, k a w = (Err e, w)) → ∃ e, (of_sum r ≫= k) w = (Err e, w).
Proof. destruct r as [e|a]; intros H; [by exists e|by apply H]. Qed.
Lemma refused_answer (m : TM ToolResult) w : (∃ e, m w = (Err e, w)) → ∃ e, answer m w = (Ret (ErrorResult e), w).
Proof. intros [e H]. by eapply refused_fail. Qed.

Lemma chmod_mode_lacks req : lacks req "mode" → ∃ e, chmod_mode req = inl e.
Proof.
  intros (_ & [e He] & Hg & _). unfold chmod_mode. rewrite Hg, decide_False by (by intros H). rewrite He. by eexists.
Qed.
End refused.

(** Walk the arguments that a handler reads, up to the one that ends it. *)
Ltac head_of t := lazymatch t with ?f _ => head_of f | ?f => f end.
Ltac refuse :=
  lazymatch goal with |- ∃ e, ?h _ ?w = _ => let f := head_of h in unfold f end;
  apply refused_answer; unfold requireString, requireInt;
  repeat (apply bind_err_or; intros ? ?);
  first [ congruence | eexists; reflexivity | idtac ].

(** What is required of one tool. *)
Definition enforces {L : Lib} (req : Request) (t : tool) : Prop :=
  t_name t ∉ struct_tools → ∀ p, p ∈ t_params t → p_required p = true → lacks req (p_name p) →
  refused (t_handler t) req.

Ltac enforce :=
  rewrite !Forall_cons, Forall_nil; split_and!; try done;
  intros Hn p Hp Hreq Hl; cbn [t_name t_params t_handler] in *;
  try (exfalso; apply Hn; apply (bool_decide_eq_true_1 _); vm_compute; reflexivity);
  clear Hn; repeat (apply elem_of_cons in Hp as [->|Hp]); try (by apply elem_of_nil in Hp); try discriminate Hreq;
  cbn [p_name need] in Hl; try (apply chmod_mode_lacks in Hl as Hmode; destruct Hmode);
  destruct Hl as ((es & Hs) & (ei & Hi) & Hg & _); intros w; refuse.
Section enforce.
Context {L : Lib} (C : Config) (req : Request).
Lemma enforce_ssh : Forall (enforces req) (RegisterSSH C).
Proof. unfold RegisterSSH. enforce. Qed.
Lemma enforce_shell : Forall (enforces req) (RegisterSSHShell C).
Proof. unfold RegisterSSHShell. enforce. Qed.
Lemma enforce_sftp : Forall (enforces req) (RegisterSFTP C).
Proof. unfold RegisterSFTP. enforce. Qed.
Lemma enforce_forward : Forall (enforces req) (RegisterForward C).
Proof. unfold RegisterForward. enforce. Qed.
Lemma enforce_docker : Forall (enforces req) (RegisterDocker C).
Proof. unfold RegisterDocker. enforce. Qed.
Lemma enforce_dshell : Forall (enforces req) (RegisterDockerShell C).
Proof. unfold RegisterDockerShell. enforce. Qed.
Lemma enforce_meta : Forall (enforces req) (RegisterMeta C).
Proof. unfold RegisterMeta. enforce. Qed.
Lemma enforce_all : Forall (enforces req) (Build C).
Proof.
  unfold Build. rewrite !Forall_app.
  auto 10 using enforce_ssh, enforce_shell, enforce_sftp, enforce_forward, enforce_docker, enforce_dshell, enforce_meta.
Qed.
End enforce.

(** C24: the schema is enforced before anything happens: when a tool reads its
    arguments by name, a call without one of the parameters it declares as required
    is answered with an error and leaves the whole state as it was.  (The eight tools
    that decode their arguments into a struct do not check it, see
    [exec_without_command].) *)
Theorem required_enforced {L : Lib} C t p req w
    (Ht : t ∈ Build C) (Hstruct : t_name t ∉ struct_tools)
    (Hp : p ∈ t_params t) (Hreq : p_required p = true) (Hlacks : lacks req (p_name p)) :
  ∃ e, t_handler t req w = (Ret (ErrorResult e), w).
Proof.
  pose proof (enforce_all C req) as H. rewrite Forall_forall in H. exact (H t Ht Hstruct p Hp Hreq Hlacks w).
Qed.

(** ** Numbers out of range *)
Definition limits : list (string * string * (Z * Z)) := [
  ("ssh_forward_local", "bind_port", (0, 65535)); ("ssh_forward_local", "remote_port", (1, 65535));
  ("ssh_forward_remote", "bind_port", (0, 65535)); ("ssh_forward_remote", "local_port", (1, 65535));
  ("ssh_forward_dynamic", "bind_port", (0, 65535));
  ("ssh_shell_resize", "rows", (1, 1000)); ("ssh_shell_resize", "cols", (1, 1000));
  ("docker_shell_resize", "rows", (1, 1000)); ("docker_shell_resize", "cols", (1, 1000))].

Definition limited {L : Lib} (req : Request) (t : tool) : Prop := ∀ k lo hi n,
  (t_name t, k, (lo, hi)) ∈ limits → RequireInt req k = inr n → ¬ (lo ≤ n ≤ hi) → refused (t_handler t) req.

Lemma refused_limit {A} `{Decision P} (k : TM A) w e0 : P →
  ∃ e, (if bool_decide P then fail e0 else k) w = (Err e, w).
Proof. intros HP. rewrite (bool_decide_eq_true_2 _ HP). by eexists. Qed.

Ltac limit :=
  rewrite !Forall_cons, Forall_nil; split_and!; try done;
  intros k lo hi n Hin Hn Hout; cbn [t_name t_handler] in *;
  unfold limits in Hin;
  repeat (apply elem_of_cons in Hin as [Hin|Hin]; [first [discriminate Hin | injection Hin as -> -> ->]|]);
  try (by apply elem_of_nil in Hin);
  intros w; refuse;
  repeat match goal with
         | H : ?r = inr ?a, H' : ?r = inr ?b |- _ =>
           let E := fresh in assert (E : a = b) by congruence; subst b; clear H'
         end;
  apply refused_limit; lia.
Section limited.
Context {L : Lib} (C : Config) (req : Request).
Lemma limit_shell : Forall (limited req) (RegisterSSHShell C).
Proof. unfold RegisterSSHShell. limit. Qed.
Lemma limit_forward : Forall (limited req) (RegisterForward C).
Proof. unfold RegisterForward. limit. Qed.
Lemma limit_dshell : Forall (limited req) (RegisterDockerShell C).
Proof. unfold RegisterDockerShell. limit. Qed.
Lemma limit_ssh : Forall (limited req) (RegisterSSH C).
Proof. unfold RegisterSSH. limit. Qed.
Lemma limit_sftp : Forall (limited req) (RegisterSFTP C).
Proof. unfold RegisterSFTP. limit. Qed.
Lemma limit_docker : Forall (limited req) (RegisterDocker C).
Proof. unfold RegisterDocker. limit. Qed.
Lemma limit_meta : Forall (limited req) (RegisterMeta C).
Proof. unfold RegisterMeta. limit. Qed.
End limited.

(** A port outside [0, 65535] (or 0 for a port to connect to) and a terminal size
    outside [1, 1000] never reach a manager: the tool answers with an error and the
    whole state is as it was, however large or negative the number is. *)
Theorem out_of_range_refused {L : Lib} C t k lo hi n req w
    (Ht : t ∈ Build C) (Hk : (t_name t, k, (lo, hi)) ∈ limits)
    (Hn : RequireInt req k = inr n) (Hout : ¬ (lo ≤ n ≤ hi)) :
  ∃ e, t_handler t req w = (Ret (ErrorResult e), w).
Proof.
  assert (H : Forall (limited req) (Build C)).
  { unfold Build. rewrite !Forall_app.
    auto 10 using limit_ssh, limit_shell, limit_sftp, limit_forward, limit_docker, limit_dshell, limit_meta. }
  rewrite Forall_forall in H. exact (H t Ht k lo hi n Hk Hn Hout w).
Qed.

(** ** Times *)
(** The contexts made in between have a timeout of at most an hour. *)
Definition timely (w w' : Server) : Prop := ∀ x, x ∈ mw_timeouts w' → x ∈ mw_timeouts w ∨ 0 < x ≤ 3600 * second.
#[export] Instance timely_pre : PreOrder timely.
Proof.
  split; [intros w x; by left|]. intros w1 w2 w3 H12 H23 x [Hx|?]%H23; [by apply H12|by right].
Qed.
Lemma timely_same w w' : mw_timeouts w' = mw_timeouts w → timely w w'.
Proof. intros H x Hx. left. by rewrite <- H. Qed.

Section timely.
Context {L : Lib} (C : Config).
Lemma timely_viaSsh {A} (m : M World A) : stays timely (viaSsh m).
Proof. intros w. apply timely_same. unfold viaSsh, onBoth, sshM, zoom. by destruct (m _). Qed.
Lemma timely_viaDocker {A} (m : M DWorld A) : stays timely (viaDocker m).
Proof. intros w. apply timely_same. unfold viaDocker, onBoth, dkM, zoom. by destruct (m _). Qed.
Lemma timely_viaSftp {A} (m : SM A) : stays timely (viaSftp m).
Proof. intros w. apply timely_same. unfold viaSftp, zoom. by destruct (m _). Qed.
Lemma timely_viaCopy {A} (m : M (Local DWorld) A) : stays timely (viaCopy m).
Proof. intros w. apply timely_same. unfold viaCopy, zoom. by destruct (m _). Qed.
Lemma timely_PersistNow : stays timely (PersistNow C).
Proof.
  unfold PersistNow. destruct (st_Store C); [|apply stays_ret, _].
  apply stays_bind; [apply _| |intros snap; apply stays_bind; [apply _|apply stays_gets, _|intros m]].
  - intros w. apply timely_same. unfold onBoth, zoom. by destruct (Capture _).
  - intros w. apply timely_same. unfold zoom. by destruct (Save _ _ _ _ _).
Qed.
Lemma timely_Persist : stays timely (Persist C).
Proof.
  unfold Persist. destruct (st_Store C); [|apply stays_ret, _].
  destruct (st_Started C); [|apply timely_PersistNow]. apply stays_modify. intros w. by apply timely_same.
Qed.
Lemma execContext_bounds ms d : 0 < d → 0 < execContext ms d ≤ 3600 * second.
Proof. intros Hd. unfold execContext, second, millisecond. repeat case_bool_decide; lia. Qed.
Lemma timely_with_timeout {A} ms (m : TM A) : stays timely m → stays timely (with_timeout (execContext ms 30000) m).
Proof.
  intros Hm. apply stays_bind; [apply _| |intros _; exact Hm]. apply stays_modify. intros w x. simpl.
  rewrite elem_of_app, list_elem_of_singleton. intros [Hx| ->]; [by left|right]. by apply execContext_bounds.
Qed.
Lemma timely_answer (m : TM ToolResult) : stays timely m → stays timely (answer m).
Proof. intros Hm. apply stays_bind; [apply _|by apply stays_try|]. intros r. apply stays_ret, _. Qed.
End timely.
#[export] Hint Resolve timely_viaSsh timely_viaDocker timely_viaSftp timely_viaCopy timely_PersistNow
  timely_Persist : stays.

Ltac timed :=
  rewrite !Forall_cons, Forall_nil; split_and!; try done;
  intros req; cbn [t_handler];
  lazymatch goal with |- stays _ (?h _) => let f := head_of h in unfold f | |- stays _ ?h => let f := head_of h in unfold f end;
  apply timely_answer; unfold bind, requireString, requireInt;
  repeat first [apply timely_with_timeout | progress solve_stays].
Definition times_ok {L : Lib} (t : tool) : Prop := ∀ req, stays timely (t_handler t req).
Section timed.
Context {L : Lib} (C : Config).
Lemma timed_ssh : Forall times_ok (RegisterSSH C).
Proof. unfold RegisterSSH. timed. Qed.
Lemma timed_shell : Forall times_ok (RegisterSSHShell C).
Proof. unfold RegisterSSHShell. timed. Qed.
Lemma timed_sftp : Forall times_ok (RegisterSFTP C).
Proof. unfold RegisterSFTP. timed. Qed.
Lemma timed_forward : Forall times_ok (RegisterForward C).
Proof. unfold RegisterForward. timed. Qed.
Lemma timed_docker : Forall times_ok (RegisterDocker C).
Proof. unfold RegisterDocker. timed. Qed.
Lemma timed_dshell : Forall times_ok (RegisterDockerShell C).
Proof. unfold RegisterDockerShell. timed. Qed.
Lemma timed_meta : Forall times_ok (RegisterMeta C).
Proof. unfold RegisterMeta. timed. Qed.
Lemma timed_all : Forall times_ok (Build C).
Proof.
  unfold Build. rewrite !Forall_app.
  auto 10 using timed_ssh, timed_shell, timed_sftp, timed_forward, timed_docker, timed_dshell, timed_meta.
Qed.
End timed.

(** The tool of a name, by its place in the list. *)
Lemma tool_handler {L : Lib} C t name params h : t ∈ Build C → t_name t = name → mkTool _ name params h ∈ Build C → t_handler t = h.
Proof. intros Ht Hn H0. assert (H : t = mkTool _ name params h); [|by rewrite H]. by eapply tool_by_name. Qed.
Ltac by_position := repeat first [apply list_elem_of_here | apply list_elem_of_further].

(** *** Commands *)
Definition untimed (w w' : Server) : Prop := mw_timeouts w' = mw_timeouts w.
#[export] Instance untimed_pre : PreOrder untimed.
Proof. split; unfold untimed; [by intros w|]. intros w1 w2 w3 H1 H2. congruence. Qed.
Lemma untimed_viaSsh {A} (m : M World A) : stays untimed (viaSsh m).
Proof. intros w. unfold viaSsh, onBoth, sshM, zoom, untimed. by destruct (m _). Qed.
Lemma untimed_viaDocker {A} (m : M DWorld A) : stays untimed (viaDocker m).
Proof. intros w. unfold viaDocker, onBoth, dkM, zoom, untimed. by destruct (m _). Qed.
#[export] Hint Resolve untimed_viaSsh untimed_viaDocker : stays.

(** A command that runs in the context made for it, and in no other. *)
Definition under_context (m : M Server ToolResult) : Prop := ∀ w,
  (m w).2 = w ∨ ∃ x, 0 < x ≤ 3600 * second ∧ mw_timeouts (m w).2 = mw_timeouts w ++ [x].
Lemma under_context_answer (m : TM ToolResult) : under_context m → under_context (answer m).
Proof. intros Hm w. rewrite answer_run. specialize (Hm w). by destruct (m w) as [[] ?]. Qed.
Lemma under_context_pure {A} (m : TM A) (k : A → TM ToolResult) :
  (∀ w, (m w).2 = w) → (∀ a, under_context (k a)) → under_context (m ≫= k).
Proof.
  intros Hm Hk w. unfold mbind, M_bind. specialize (Hm w). destruct (m w) as [[a|e|p] w1]; simpl in Hm; subst w1; [apply Hk|by left..].
Qed.
Lemma under_context_timeout ms (m : TM ToolResult) : stays untimed m → under_context (with_timeout (execContext ms 30000) m).
Proof.
  intros Hm w. right. exists (execContext ms 30000). split; [by apply execContext_bounds|]. unfold with_timeout.
  rewrite (bind_ret _ _ _ tt (w <| mw_timeouts ::= λ l, l ++ [execContext ms 30000] |>)) by done. apply Hm.
Qed.
Lemma sshGet_pure id w : (viaSsh (Session.Get id) w).2 = w.
Proof.
  unfold viaSsh, onBoth, sshM, zoom, Session.Get. destruct (sessions (worlds w).1 !! id); simpl; by destruct w as [[] [] ? ? ? ? ?].
Qed.
Lemma dockerGet_pure id w : (viaDocker (Docker.Get id) w).2 = w.
Proof.
  unfold viaDocker, onBoth, dkM, zoom, Docker.Get, mbind, M_bind, gets. destruct (hosts (worlds w).2 !! id); simpl; by destruct w as [[] [] ? ? ? ? ?].
Qed.
Lemma exec_under_context {L : Lib} C req :
  under_context (handleSSHExec C req) ∧ under_context (handleDockerExec C req).
Proof.
  split; apply under_context_answer; (apply under_context_pure; [intros w; unfold bind, of_sum; by case_match|]); intros args;
    (apply under_context_pure; [by first [apply sshGet_pure|apply dockerGet_pure]|]); intros l; apply under_context_timeout.
  - apply stays_bind; [apply _|apply untimed_viaSsh|]. intros [res [e|]]; solve_stays.
  - solve_stays.
Qed.

(** *** Reads *)
(** The waits of a [Read] are within five minutes, all other calls are free. *)
Definition within {T} (c : ext T) : Prop := match c with ShellWaits t => 0 ≤ t ≤ 300 * second | _ => True end.
Definition with_env (L : Lib) (E : Env) : Lib := {|
  lib_env := E; ParseKnownHosts := @ParseKnownHosts L; CfgGet := @CfgGet L; jump_depth := @jump_depth L;
  PortFrom := @PortFrom L; lib_io := @lib_io L; marshal_state := @marshal_state L; unmarshal_state := @unmarshal_state L;
  generic := @generic L; json_Marshal := @json_Marshal L; json_MarshalIndent := @json_MarshalIndent L;
  json_Unmarshal := @json_Unmarshal L; toon_Marshal := @toon_Marshal L |}.
Definition same_within (E E' : Env) : Prop := ∀ T n (c : ext T), within c → E T n c = E' T n c.

Lemma clamp_bounds ms : 0 ≤ clampReadTimeout ms * millisecond ≤ 300 * second.
Proof. unfold clampReadTimeout, millisecond, maxReadTimeout, second. repeat case_bool_decide; lia. Qed.
Lemma shl_Read_within E E' h t w : same_within E E' → 0 ≤ t ≤ 300 * second → @shl_Read E h t w = @shl_Read E' h t w.
Proof.
  intros H Ht. unfold shl_Read, mbind, M_bind. destruct (shl_at h w) as [[s|e|p] w1]; [|done..].
  unfold netM, zoom, try, call, env. by rewrite (H _ (n_tick (w_net w1)) (ShellWaits t) Ht).
Qed.
Lemma dshl_Read_within E E' h t w : same_within E E' → 0 ≤ t ≤ 300 * second → @dshl_Read E h t w = @dshl_Read E' h t w.
Proof.
  intros H Ht. unfold dshl_Read, mbind, M_bind. destruct (dshl_at h w) as [[s|e|p] w1]; [|done..].
  unfold dnetM, zoom, try, call, env. by rewrite (H _ (n_tick (dw_net w1)) (ShellWaits t) Ht).
Qed.
Lemma via_eq {A} (m m' : M World A) w : (∀ v, m v = m' v) → viaSsh m w = viaSsh m' w.
Proof. intros H. unfold viaSsh, onBoth, sshM, zoom. by rewrite H. Qed.
Lemma viaDocker_eq {A} (m m' : M DWorld A) w : (∀ v, m v = m' v) → viaDocker m w = viaDocker m' w.
Proof. intros H. unfold viaDocker, onBoth, dkM, zoom. by rewrite H. Qed.
Lemma bind_eq {S A B} (m m' : M S A) (k k' : A → M S B) w : m w = m' w → (∀ a v, k a v = k' a v) → (m ≫= k) w = (m' ≫= k') w.
Proof. intros H Hk. unfold mbind, M_bind. rewrite H. by destruct (m' w) as [[] ?]. Qed.
Lemma answer_eq (m m' : TM ToolResult) w : m w = m' w → answer m w = answer m' w.
Proof. intros H. by rewrite !answer_run, H. Qed.
Lemma reads_within (L : Lib) C E' req w : same_within (@lib_env L) E' →
  @handleShellRead (with_env L E') C req w = @handleShellRead L C req w ∧
  @handleDockerShellRead (with_env L E') C req w = @handleDockerShellRead L C req w.
Proof.
  intros H. split; apply answer_eq; do 4 (apply bind_eq; [done|intros ? ?]).
  - apply bind_eq; [|done]. apply via_eq. intros u. symmetry. apply shl_Read_within; [done|apply clamp_bounds].
  - apply bind_eq; [|done]. apply viaDocker_eq. intros u. symmetry. apply dshl_Read_within; [done|apply clamp_bounds].
Qed.
Lemma exec_tools {L : Lib} C t : t ∈ Build C → t_name t ∈ ["ssh_exec"; "docker_exec"] →
  t_handler t = handleSSHExec C ∨ t_handler t = handleDockerExec C.
Proof.
  intros Ht [Hn|[Hn|[]%elem_of_nil]%elem_of_cons]%elem_of_cons; [left|right]; eapply (tool_handler C t); [exact Ht|exact Hn| |exact Ht|exact Hn|].
  - unfold Build, RegisterSSH. rewrite !elem_of_app. left. do 6 apply list_elem_of_further. apply list_elem_of_here.
  - unfold Build, RegisterDocker. rewrite !elem_of_app. do 4 right. left. by_position.
Qed.
Lemma read_tools {L : Lib} C t : t ∈ Build C → t_name t ∈ ["ssh_shell_read"; "docker_shell_read"] →
  (t_name t = "ssh_shell_read" ∧ t_handler t = handleShellRead C) ∨ (t_name t = "docker_shell_read" ∧ t_handler t = handleDockerShellRead C).
Proof.
  intros Ht [Hn|[Hn|[]%elem_of_nil]%elem_of_cons]%elem_of_cons; [left|right]; (split; [exact Hn|]);
    eapply (tool_handler C t); [exact Ht|exact Hn| |exact Ht|exact Hn|].
  - unfold Build, RegisterSSHShell. rewrite !elem_of_app. do 1 right. left. by_position.
  - unfold Build, RegisterDockerShell. rewrite !elem_of_app. do 5 right. left. by_position.
Qed.


(** ** The theorems on concrete requests *)
(** A request with these arguments, decoded as [encoding/json] decodes structs: a
    field that is not there is left zero. *)
Abbreviation args := (list (string * (string + Z))).
Definition arg (l : args) (k : string) : option (string + Z) :=
  snd <$> List.find (λ p : string * (string + Z), bool_decide (p.1 = k)) l.
Definition arg_string (l : args) (k d : string) : string :=
  match arg l k with Some (inl s) => s | _ => d end.
Definition arg_int (l : args) (k : string) (d : Z) : Z :=
  match arg l k with Some (inr n) => n | _ => d end.
Definition decode (l : args) (A : Type) (t : argty A) : error + A :=
  match t in argty A return error + A with
  | ASshExec => inr (mk_sshExecArgs (arg_string l "session_id" "") (arg_string l "command" "") []
                       (arg_string l "stdin" "") (arg_int l "timeout_ms" 0))
  | AShellOpen => inr (mk_shellOpenArgs (arg_string l "session_id" "") (arg_string l "shell_id" "")
                         (arg_string l "term" "") (arg_int l "rows" 0) (arg_int l "cols" 0)
                         (arg_string l "command" "") [])
  | _ => inl (Msg "unsupported")
  end.
Definition request (l : args) : Request := mkRequest (decode l)
  (λ k, match arg l k with Some (inl s) => inr s | _ => inl (Fmt "required argument %q not found" [k]) end)
  (λ k, match arg l k with Some (inr n) => inr n | _ => inl (Fmt "required argument %q not found" [k]) end)
  (arg_string l) (arg_int l) (λ _ d, d).

Definition payload_text (v : payload) : string :=
  match v with PFields (("bytes_written", FInt n) :: _) => utoa n | PExec _ => "exec" | PShells None => "null" | _ => "{}" end.
Definition lib_of (E : Env) : Lib := {|
  lib_env := E; ParseKnownHosts := λ _, None; CfgGet := λ _ _, ""; jump_depth := 5%nat;
  PortFrom := λ n p, Some (n, p); lib_io := λ _, None; marshal_state := λ _, inr "{}"; unmarshal_state := λ _, inl (Msg "unsupported"); generic := string;
  json_Marshal := λ v, inr (payload_text v); json_MarshalIndent := λ v, inr (payload_text v);
  json_Unmarshal := λ s, inr s; toon_Marshal := λ s, inr s |}.
Definition config_ex : Config := mkConfig (Some "state.json") true FormatJSON 0.
Definition server0 : Server :=
  mkServer (mkRWorld world0 ∅ ∅) dworld0 ∅ ∅ (mkFS ∅ [] 0) false [].
(** A server with the connected session "s". *)
Definition server_ex : Server := server0 <| mw_ssh ::= λ r : RWorld,
  r <| rw_ssh ::= λ w : World, w <| w_net := mkNet 0 3%positive {[2%positive]} |>
    <| sessions := {["s" := 1%positive]} |>
    <| w_sess := {[1%positive := session_ex <| client := Some 2%positive |> <| sftp := None |>]} |>
    <| w_next := 2%positive |> |> |>.

(** An exec without a command is not refused: the empty command is run. *)
Lemma exec_without_command :
  lacks (request [("session_id", inl "s")]) "command" ∧
  (@handleSSHExec (lib_of env_ok) config_ex (request [("session_id", inl "s")]) server_ex).1 =
    Ret (TextResult "exec").
Proof. split; [by split; [eexists|split; [eexists|]]|vm_compute; reflexivity]. Qed.

Lemma required_enforced_witness :
  ∃ e, @handleForwardLocal (lib_of env_ok) config_ex
         (request [("session_id", inl "s"); ("forward_id", inl "f"); ("bind_port", inr 8080); ("remote_port", inr 80)])
         server_ex = (Ret (ErrorResult e), server_ex).
Proof.
  apply (@required_enforced (lib_of env_ok) config_ex
    (mkTool _ "ssh_forward_local" [need "session_id" TString; need "forward_id" TString; opt "bind_addr" TString;
       need "bind_port" TNumber; need "remote_host" TString; need "remote_port" TNumber]
       (@handleForwardLocal (lib_of env_ok) config_ex)) (need "remote_host" TString)
    (request [("session_id", inl "s"); ("forward_id", inl "f"); ("bind_port", inr 8080); ("remote_port", inr 80)])
    server_ex).
  - unfold Build, RegisterForward. rewrite !elem_of_app. do 3 right. left. apply list_elem_of_here.
  - apply (bool_decide_eq_true_1 _). vm_compute. reflexivity.
  - do 4 apply list_elem_of_further. apply list_elem_of_here.
  - reflexivity.
  - by split; [eexists|split; [eexists|]].
Defined.

Lemma out_of_range_refused_witness :
  ∃ e, @handleForwardDynamic (lib_of env_ok) config_ex
         (request [("session_id", inl "s"); ("forward_id", inl "f"); ("bind_port", inr 65536)]) server_ex
       = (Ret (ErrorResult e), server_ex).
Proof.
  apply (@out_of_range_refused (lib_of env_ok) config_ex
    (mkTool _ "ssh_forward_dynamic" [need "session_id" TString; need "forward_id" TString; opt "bind_addr" TString;
       need "bind_port" TNumber] (@handleForwardDynamic (lib_of env_ok) config_ex)) "bind_port" 0 65535 65536
    (request [("session_id", inl "s"); ("forward_id", inl "f"); ("bind_port", inr 65536)]) server_ex).
  - unfold Build, RegisterForward. rewrite !elem_of_app. do 3 right. left. do 2 apply list_elem_of_further. apply list_elem_of_here.
  - do 4 apply list_elem_of_further. apply list_elem_of_here.
  - reflexivity.
  - lia.
Defined.

Definition exec_req : Request :=
  request [("session_id", inl "s"); ("command", inl "sleep 7200"); ("timeout_ms", inr (2 ^ 62))].
(** A read that asks for an hour, where a wait of more than five minutes would find the shell closed. *)
Definition read_tool {L : Lib} : tool := mkTool _ "ssh_shell_read"
  [need "session_id" TString; need "shell_id" TString; opt "timeout_ms" TNumber] (handleShellRead config_ex).
Definition read_req : Request :=
  request [("session_id", inl "s"); ("shell_id", inl "sh"); ("timeout_ms", inr 3600000)].
Definition env_late : Env := λ T n c,
  match c in ext T return error + T → error + T with
  | ShellWaits t => λ r, if bool_decide (t ≤ 300 * second) then r else inr [DoneClosed []]
  | _ => λ r, r
  end (env_ok T n c).
