(* ===== verification/Persistence.v ===== *)
(** * What the tools persist (internal/mcptools)

    The tools that change what is persisted end with [_ = st.Persist()].  Here: no
    call of any tool leaves a change behind that nobody was asked to write, with one
    exception, a cancelled forward whose listener reports an error when it is closed. *)

From S2P Require Import Docker.
From S2P Require Import Prelude GoStrings Url External Spec SshConfig Auth Dial World Ledger Session Forward Shell Manager State Files Store Containers Disk Copy Sftp Records Tools ToolsSsh ToolsDocker Catalogue.
From Stdlib Require Import Ascii String.

(** ** Both managers *)
Definition bkept (b b' : Both) : Prop := kept b.1 b'.1 ∧ dkept b.2 b'.2.
Definition bgrows (b b' : Both) : Prop := grows b.1 b'.1 ∧ dgrows b.2 b'.2.
#[export] Instance bkept_pre : PreOrder bkept.
Proof.
  split; [by intros b; split|]. intros b1 b2 b3 [] []. split; by etrans.
Qed.
#[export] Instance bgrows_pre : PreOrder bgrows.
Proof.
  split; [by intros b; split|]. intros b1 b2 b3 [] []. split; by etrans.
Qed.
Lemma bkept_bgrows b b' : bkept b b' → bgrows b b'.
Proof. intros []. split; [by apply kept_grows|by apply dkept_dgrows]. Qed.

Definition blight (b : Both) : Prop := light b.1 ∧ dlight b.2.

Lemma bind_ext {A B} (ls : list A) (f g : A → list B) : (∀ x, x ∈ ls → f x = g x) → ls ≫= f = ls ≫= g.
Proof.
  induction ls as [|x ls IH]; intros H; [done|]. change (f x ++ (ls ≫= f) = g x ++ (ls ≫= g)).
  rewrite H by apply list_elem_of_here. by rewrite IH by (intros y Hy; by apply H, list_elem_of_further).
Qed.
Lemma light_managers w d : light w → dlight d → managers_ok w d.
Proof. intros [] Hd. split; [done..|]. intros id l Hid. destruct (dl_reg d Hd id l Hid) as (h & ? & _). by exists h. Qed.

(** The snapshot does not see the difference. *)
Lemma bkept_capture b b' : blight b → bkept b b' → (Capture b').1 = (Capture b).1.
Proof.
  destruct b as [w d], b' as [w' d']. intros [Hl Hd] [Hk Hdk]. simpl in *.
  destruct (Hk Hl) as (Hl' & [Hs Hf] & Hss), (Hdk Hd) as (Hd' & Hhs & Hh).
  rewrite !Capture_run by by apply light_managers. simpl. rewrite Hss, Hhs. do 2 f_equal.
  - apply bind_ext. intros l [id Hid]%elem_of_listed. destruct (li_reg _ Hl id l Hid) as (s & Hls & _).
    destruct (Hs l s Hls) as (s' & Hls' & E). unfold ssh_record. rewrite Hls, Hls'. unfold rec_sess in E.
    by injection E as -> -> _.
  - apply bind_ext. intros l [id Hid]%elem_of_listed. destruct (li_reg _ Hl id l Hid) as (s & Hls & _).
    destruct (Hs l s Hls) as (s' & Hls' & E). unfold forward_records, session_forwards. rewrite Hls, Hls'.
    unfold rec_sess in E. injection E as -> -> Efw. rewrite Efw. destruct (Persistent (s_Spec s)); [|done].
    assert (Hin : ∀ f, f ∈ (map_to_list (forwards s)).*2 → ∃ k, forwards s !! k = Some f).
    { intros f Hfin. apply list_elem_of_fmap in Hfin as ([k f'] & -> & Hk'). apply elem_of_map_to_list in Hk'. by exists k. }
    induction (map_to_list (forwards s)).*2 as [|f fs IH]; [done|]. cbn [omap list_omap].
    destruct (Hin f (list_elem_of_here _ _)) as [k Hkf]. destruct (li_fwds _ Hl l s k f Hls Hkf) as (F & HF & _).
    destruct (Hf f F HF) as (F' & HF' & EF). rewrite HF, HF'. simpl. unfold rec_fwd in EF. injection EF as E1 E2.
    rewrite IH by (intros f' Hf'; by apply Hin, list_elem_of_further). f_equal.
    unfold record_of, fwd_Info. rewrite E2. by destruct (f_Spec F); simpl; rewrite E1.
  - apply bind_ext. intros l [id Hid]%elem_of_listed. destruct (dl_reg _ Hd id l Hid) as (h & Hlh & _).
    destruct (Hh l h Hlh) as (h' & Hlh' & E). unfold host_record. rewrite Hlh, Hlh'. unfold rec_host in E.
    by injection E as -> ->.
Qed.

(** ** The server *)
(** A flush was asked for, or there is nothing new to write. *)
Definition recorded (w w' : Server) : Prop :=
  (mw_flush w = true → mw_flush w' = true) ∧ bgrows (worlds w) (worlds w') ∧
  (mw_flush w' = true ∨ bkept (worlds w) (worlds w')).
#[export] Instance recorded_pre : PreOrder recorded.
Proof.
  split; [intros w; split_and!; [done|done|by right]|].
  intros w1 w2 w3 (A1 & A2 & A3) (B1 & B2 & B3). split_and!; [auto|by etrans|].
  destruct B3 as [?|B3]; [by left|]. destruct A3 as [?|A3]; [left; auto|]. right. by etrans.
Qed.
Definition asks {A} (m : TM A) : Prop := ∀ w, match m w with (Panic _, _) => True | (_, w') => recorded w w' end.

Lemma asks_stays {A} (m : TM A) : stays recorded m → asks m.
Proof. intros H w. specialize (H w). by destruct (m w) as [[] ?]. Qed.
Lemma asks_bind {A B} (m : TM A) (k : A → TM B) : asks m → (∀ a, asks (k a)) → asks (m ≫= k).
Proof.
  intros Hm Hk w. unfold mbind, M_bind. specialize (Hm w). destruct (m w) as [[a|e|p] w1]; [|done|done].
  specialize (Hk a w1). destruct (k a w1) as [[b|e|p] w2]; [by etrans|by etrans|done].
Qed.
Lemma asks_try {A} (m : TM A) : asks m → asks (try m).
Proof. intros Hm w. unfold try. specialize (Hm w). by destruct (m w) as [[] ?]. Qed.
Lemma asks_answer (m : TM ToolResult) : asks m → asks (answer m).
Proof. intros H. apply asks_bind; [by apply asks_try|]. intros r. by apply asks_stays, stays_ret, _. Qed.

Lemma recorded_worlds w w' : mw_flush w' = mw_flush w → bkept (worlds w) (worlds w') → recorded w w'.
Proof. intros E H. split_and!; [by rewrite E|by apply bkept_bgrows|by right]. Qed.
Lemma recorded_viaSsh {A} (m : M World A) : stays kept m → stays recorded (viaSsh m).
Proof.
  intros H w. unfold viaSsh, onBoth, sshM, zoom. specialize (H (worlds w).1).
  destruct (m (worlds w).1) as [o w1]. apply recorded_worlds; [done|]. by split.
Qed.
Lemma recorded_viaDocker {A} (m : M DWorld A) : stays dkept m → stays recorded (viaDocker m).
Proof.
  intros H w. unfold viaDocker, onBoth, dkM, zoom. specialize (H (worlds w).2).
  destruct (m (worlds w).2) as [o w1]. apply recorded_worlds; [done|]. by split.
Qed.
Definition lkept (l l' : Local RWorld) : Prop := kept (rw_ssh (lo_world l)) (rw_ssh (lo_world l')).
#[export] Instance lkept_pre : PreOrder lkept.
Proof. split; unfold lkept; [intros l; reflexivity|]. intros l1 l2 l3 H1 H2. by etrans. Qed.
Definition ldkept (l l' : Local DWorld) : Prop := dkept (lo_world l) (lo_world l').
#[export] Instance ldkept_pre : PreOrder ldkept.
Proof. split; unfold ldkept; [intros l; reflexivity|]. intros l1 l2 l3 H1 H2. by etrans. Qed.
Lemma recorded_viaSftp {A} (m : SM A) : stays lkept m → stays recorded (viaSftp m).
Proof.
  intros H w. unfold viaSftp, zoom. specialize (H (mkLocal (mw_ssh w) (mw_files w) (mw_dirs w))).
  destruct (m _) as [o w1]. apply recorded_worlds; [done|]. by split.
Qed.
Lemma recorded_viaCopy {A} (m : M (Local DWorld) A) : stays ldkept m → stays recorded (viaCopy m).
Proof.
  intros H w. unfold viaCopy, zoom. specialize (H (mkLocal (mw_docker w) (mw_files w) (mw_dirs w))).
  destruct (m _) as [o w1]. apply recorded_worlds; [done|]. by split.
Qed.

(** *** File transfers *)
Section transfers.
Context {E : Env}.
Lemma lkept_same w w' : rw_ssh (lo_world w') = rw_ssh (lo_world w) → lkept w w'.
Proof. unfold lkept. by intros ->. Qed.
Lemma lkept_onNet {A} (m : M Net A) : stays lkept (onNet (T := RWorld) m).
Proof. intros w. unfold onNet, onWorld, zoom. destruct (m _). unfold lkept. simpl. by apply kept_eq. Qed.
Lemma lkept_modify f : (∀ w, rw_ssh (lo_world (f w)) = rw_ssh (lo_world w)) → stays lkept (modify f : SM unit).
Proof. intros H. apply stays_modify. intros w. by apply lkept_same. Qed.
Lemma lkept_with_sftp {A} s (k : rid → SM A) : (∀ c, stays lkept (k c)) → stays lkept (with_sftp s k).
Proof.
  intros Hk. apply stays_bind; [apply _| |exact Hk]. intros w. unfold onSsh, onWorld, zoom.
  pose proof (kept_sftpClient s (rw_ssh (lo_world w))) as H.
  by destruct (sftpClient s (rw_ssh (lo_world w))).
Qed.
#[local] Hint Resolve lkept_onNet : stays.
#[local] Hint Extern 1 (stays lkept (modify _)) => by apply lkept_modify : stays.
Lemma lkept_MkdirAll p m : stays lkept (MkdirAll (T := RWorld) p m).
Proof. unfold MkdirAll. solve_stays. Qed.
Lemma lkept_OpenFile p m : stays lkept (OpenFile (T := RWorld) p m).
Proof. unfold OpenFile. solve_stays. Qed.
#[local] Hint Resolve lkept_MkdirAll lkept_OpenFile : stays.
Lemma lkept_list_entries c p l : stays lkept (list_entries c p l).
Proof. induction l; simpl; solve_stays. Qed.
Lemma lkept_send_body f r b : stays lkept (send_body f r b).
Proof.
  unfold send_body, onRemote. apply stays_bind; [apply _|solve_stays|]. intros x.
  destruct (match x with inr x => x | inl e => _ end). solve_stays.
Qed.
Lemma lkept_receive_body o l s : stays lkept (receive_body o l s).
Proof.
  unfold receive_body. apply stays_bind; [apply _|solve_stays|]. intros x.
  destruct (match x with inr x => x | inl e => _ end). solve_stays.
Qed.
#[local] Hint Resolve lkept_list_entries lkept_send_body lkept_receive_body : stays.
Lemma lkept_uploadFile c b r m : stays lkept (uploadFile c b r m).
Proof. unfold uploadFile, sftp_Create, onRemote. solve_stays. Qed.
Lemma lkept_sftp_MkdirAll c p : stays lkept (sftp_MkdirAll c p).
Proof. unfold sftp_MkdirAll. solve_stays. Qed.
Lemma lkept_downloadFile c r l : stays lkept (downloadFile c r l).
Proof. unfold downloadFile. solve_stays. Qed.
#[local] Hint Resolve lkept_uploadFile lkept_sftp_MkdirAll lkept_downloadFile : stays.
Lemma lkept_upload_walk c r n rel : stays lkept (upload_walk c r rel n).
Proof.
  revert rel. induction n as [perm x|perm kids IH|perm size t|e] using node_ind'; intros rel; simpl; [solve_stays| |solve_stays..].
  apply stays_bind; [apply _|solve_stays|]. intros _.
  induction IH as [|[name k] kids Hk _ IHk]; [solve_stays|].
  apply stays_bind; [apply _|by apply Hk|]. intros n. apply stays_bind; [apply _|exact IHk|]. intros m. solve_stays.
Qed.
Lemma lkept_download_walk c r l items total : stays lkept (download_walk c r l total items).
Proof. revert total. induction items as [|[e|[p st]] items IH]; intros total; simpl; solve_stays. Qed.
#[local] Hint Resolve lkept_upload_walk lkept_download_walk : stays.
Lemma lkept_sftp s :
  (∀ p, stays lkept (FileList s p)) ∧ (∀ p, stays lkept (FileStat s p)) ∧
  (∀ p o n, stays lkept (FileRead s p o n)) ∧ (∀ p d a, stays lkept (FileWrite s p d a)) ∧
  (∀ p, stays lkept (FileDelete s p)) ∧ (∀ p r, stays lkept (FileMkdir s p r)) ∧
  (∀ p m, stays lkept (FileChmod s p m)) ∧ (∀ p q, stays lkept (FileRename s p q)) ∧
  (∀ p q, stays lkept (Sftp.Upload s p q)) ∧ (∀ p q, stays lkept (Sftp.Download s p q)).
Proof. split_and!; intros; apply lkept_with_sftp; intros c; unfold read_file, read_up_to; solve_stays. Qed.

Lemma ldkept_onNet {A} (m : M Net A) : stays ldkept (onNet (T := DWorld) m).
Proof. intros w. unfold onNet, onWorld, zoom. destruct (m _). unfold ldkept. simpl. by apply dkept_eq. Qed.
Lemma ldkept_onWorld {A} (m : M DWorld A) : stays dkept m → stays ldkept (onWorld m).
Proof. intros H w. unfold onWorld, zoom. specialize (H (lo_world w)). by destruct (m _). Qed.
Lemma ldkept_modify f : (∀ w, lo_world (f w) = lo_world w) → stays ldkept (modify f : M (Local DWorld) unit).
Proof. intros H. apply stays_modify. intros w. unfold ldkept. by rewrite H. Qed.
#[local] Hint Resolve ldkept_onNet ldkept_onWorld : stays.
#[local] Hint Extern 1 (stays ldkept (modify _)) => by apply ldkept_modify : stays.
Lemma ldkept_copy_body f p b : stays ldkept (copy_body (T := DWorld) f p b).
Proof.
  unfold copy_body. apply stays_bind; [apply _|solve_stays|]. intros x.
  destruct (match x with inr x => x | inl e => _ end). solve_stays.
Qed.
#[local] Hint Resolve ldkept_copy_body : stays.
Lemma ldkept_extract rp l total es : stays ldkept (extract rp l total es).
Proof.
  revert total. induction es as [|e es IH]; intros total; simpl; [solve_stays|].
  apply stays_bind; [apply _| |intros; apply IH]. unfold extract_entry, MkdirAll, OpenFile. solve_stays.
Qed.
#[local] Hint Resolve ldkept_extract : stays.
Lemma ldkept_Upload l id p q : stays ldkept (Copy.Upload l id p q).
Proof.
  unfold Copy.Upload. apply stays_bind; [apply _|apply ldkept_onWorld, dkept_host_client|]. intros c.
  apply stays_bind; [apply _|apply ldkept_onNet|]. intros root. cbv zeta.
  destruct (writeTar _ _) as [[es err] n]. solve_stays.
Qed.
Lemma ldkept_Download l id p q : stays ldkept (Copy.Download l id p q).
Proof.
  unfold Copy.Download, download_file, MkdirAll, OpenFile.
  apply stays_bind; [apply _|apply ldkept_onWorld, dkept_host_client|]. intros c. solve_stays.
Qed.
End transfers.

(** *** Flushes *)
Section flush.
Context {L : Lib} (C : Config).

Lemma kept_capture_sessions ls snap : stays kept (capture_sessions ls snap).
Proof. revert snap. induction ls as [|l ls IH]; intros snap; simpl; solve_stays. Qed.
Lemma dkept_capture_hosts ls snap : stays dkept (capture_hosts ls snap).
Proof. revert snap. induction ls as [|l ls IH]; intros snap; simpl; solve_stays. Qed.
Lemma bkept_sshM {A} (m : M World A) : stays kept m → stays bkept (sshM m).
Proof. intros H b. unfold sshM, zoom. specialize (H b.1). destruct (m b.1). by split. Qed.
Lemma bkept_dkM {A} (m : M DWorld A) : stays dkept m → stays bkept (dkM m).
Proof. intros H b. unfold dkM, zoom. specialize (H b.2). destruct (m b.2). by split. Qed.
#[local] Hint Resolve kept_capture_sessions dkept_capture_hosts bkept_sshM bkept_dkM : stays.
Lemma bkept_Capture : stays bkept Capture.
Proof. unfold Capture. solve_stays. Qed.
Lemma recorded_PersistNow : stays recorded (PersistNow C).
Proof.
  unfold PersistNow. destruct (st_Store C); [|apply stays_ret, _].
  apply stays_bind; [apply _| |intros snap; apply stays_bind; [apply _|apply stays_gets, _|intros m]].
  - intros w. unfold onBoth, zoom. pose proof (bkept_Capture (worlds w)) as H.
    destruct (Capture (worlds w)) as [o b]. apply recorded_worlds; [done|exact H].
  - intros w. unfold zoom. destruct (Save _ _ _ _ _). apply recorded_worlds; [done|]. by split.
Qed.

Context (Hstore : is_Some (st_Store C)) (Hstart : st_Started C = true).
Lemma run_Persist w : ignore (Persist C) w = (Ret tt, w <| mw_flush := true |>).
Proof. unfold Persist. destruct Hstore as [p ->]. by rewrite Hstart. Qed.

(** What failed or asked for a flush has done its duty. *)
Lemma asks_flushed {A B} (op : TM A) (k : A → TM B) :
  (∀ w, match op w with (Ret _, w') => bgrows (worlds w) (worlds w') | (Err _, w') => recorded w w' | _ => True end) →
  (∀ a, asks (k a)) → asks (a ← op; ignore (Persist C);; k a).
Proof.
  intros Hop Hk w. unfold mbind at 1, M_bind. specialize (Hop w). destruct (op w) as [[a|e|p] w1]; [|done|done].
  rewrite (bind_ret _ _ _ _ _ (run_Persist w1)). set (w2 := w1 <| mw_flush := true |>).
  assert (H : recorded w w2) by (split_and!; [done|exact Hop|by left]).
  specialize (Hk a w2). destruct (k a w2) as [[b|e|p] w3]; [by etrans|by etrans|done].
Qed.
Lemma asks_ssh {A B} (op : M World A) (k : A → TM B) :
  tries op → (∀ a, asks (k a)) → asks (a ← viaSsh op; ignore (Persist C);; k a).
Proof.
  intros [Hg He]. apply asks_flushed. intros w. unfold viaSsh, onBoth, sshM, zoom.
  specialize (Hg (worlds w).1). specialize (He (worlds w).1).
  destruct (op (worlds w).1) as [[a|e|p] w1]; [by split|apply recorded_worlds; [done|by split]|done].
Qed.
Lemma asks_docker {A B} (op : M DWorld A) (k : A → TM B) :
  dtries op → (∀ a, asks (k a)) → asks (a ← viaDocker op; ignore (Persist C);; k a).
Proof.
  intros [Hg He]. apply asks_flushed. intros w. unfold viaDocker, onBoth, dkM, zoom.
  specialize (Hg (worlds w).2). specialize (He (worlds w).2).
  destruct (op (worlds w).2) as [[a|e|p] w1]; [by split|apply recorded_worlds; [done|by split]|done].
Qed.
Lemma recorded_with_timeout {A} t (m : TM A) : stays recorded m → stays recorded (with_timeout t m).
Proof.
  intros Hm. apply stays_bind; [apply _| |intros _; exact Hm]. apply stays_modify. intros w.
  apply recorded_worlds; [done|]. by split.
Qed.
Lemma kept_all_shells ls : stays kept (all_shells ls).
Proof. induction ls; simpl; solve_stays. Qed.
Lemma dkept_all_dshells ls : stays dkept (all_dshells ls).
Proof. induction ls; simpl; solve_stays. Qed.
End flush.
#[export] Hint Resolve recorded_viaSsh recorded_viaDocker recorded_viaSftp recorded_viaCopy
  recorded_PersistNow recorded_with_timeout kept_all_shells dkept_all_dshells ldkept_Upload ldkept_Download : stays.
#[export] Hint Extern 1 (stays lkept _) => eapply lkept_sftp : stays.

(** A handler that asks for a flush when it has to. *)
Definition flushes {L : Lib} (t : tool) : Prop := ∀ req, asks (t_handler t req).
Create HintDb attempts discriminated.
#[export] Hint Resolve tries_Connect tries_Clone tries_Disconnect tries_OpenLocalForward tries_OpenRemoteForward
  tries_OpenDynamicForward dtries_Connect dtries_Disconnect : attempts.
Ltac asked :=
  rewrite !Forall_cons, Forall_nil; split_and!; try done;
  intros req; cbn [t_handler];
  lazymatch goal with |- asks (?h _) => let f := head_of h in unfold f | |- asks ?h => let f := head_of h in unfold f end;
  apply asks_answer; unfold bind, requireString, requireInt;
  first [ solve [apply asks_stays; solve_stays]
        | repeat first [ apply asks_ssh; [done|done|solve [eauto with attempts]|]; intros
                       | apply asks_docker; [done|done|solve [eauto with attempts]|]; intros
                       | solve [apply asks_stays; solve_stays]
                       | apply asks_bind; [solve [apply asks_stays; solve_stays]|]; intros
                       | apply asks_stays, recorded_with_timeout; solve [solve_stays]
                       | case_match ] ].
Section asked.
Context {L : Lib} (C : Config) (Hstore : is_Some (st_Store C)) (Hstart : st_Started C = true).
Lemma asked_ssh : Forall flushes (RegisterSSH C).
Proof using Hstore Hstart. unfold RegisterSSH. asked. Qed.
Lemma asked_shell : Forall flushes (RegisterSSHShell C).
Proof using. unfold RegisterSSHShell. asked. Qed.
Lemma asked_sftp : Forall flushes (RegisterSFTP C).
Proof using. unfold RegisterSFTP. asked. Qed.
Lemma asked_docker : Forall flushes (RegisterDocker C).
Proof using Hstore Hstart. unfold RegisterDocker. asked. Qed.
Lemma asked_dshell : Forall flushes (RegisterDockerShell C).
Proof using. unfold RegisterDockerShell. asked. Qed.
Lemma asked_meta : Forall flushes (RegisterMeta C).
Proof using. unfold RegisterMeta. asked. Qed.
End asked.

Section tools.
Context {L : Lib} (C : Config) (Hstore : is_Some (st_Store C)) (Hstart : st_Started C = true).

Lemma asked_forward : Forall (λ t, t_name t ≠ "ssh_forward_cancel" → flushes t) (RegisterForward C).
Proof using Hstore Hstart.
  assert (H : Forall flushes (List.removelast (RegisterForward C))) by (unfold RegisterForward; cbn [List.removelast]; asked).
  unfold RegisterForward in *. cbn [List.removelast] in H. rewrite !Forall_cons, Forall_nil in *.
  destruct H as (? & ? & ? & ? & _). by split_and!.
Qed.
Lemma asked_all : Forall (λ t, t_name t ≠ "ssh_forward_cancel" → flushes t) (Build C).
Proof using Hstore Hstart.
  unfold Build. rewrite !Forall_app.
  assert (Hw : ∀ l, Forall flushes l → Forall (λ t : tool, t_name t ≠ "ssh_forward_cancel" → flushes t) l).
  { intros l H. by eapply Forall_impl. }
  split_and!; [by apply Hw, asked_ssh|apply Hw, asked_shell|apply Hw, asked_sftp|apply asked_forward|
    by apply Hw, asked_docker|apply Hw, asked_dshell|apply Hw, asked_meta].
Qed.
(** A cancelled forward, when [Close] reports no error. *)
Lemma cancel_run req w :
  match handleForwardCancel C req w with
  | (Ret (TextResult _), w') => recorded w w'
  | (Ret (ErrorResult _), w') => bgrows (worlds w) (worlds w')
  | _ => True
  end.
Proof using Hstore Hstart.
  unfold handleForwardCancel. rewrite answer_run. unfold requireString, of_sum.
  destruct (RequireString req "session_id") as [e|sid]; [done|]. rewrite (bind_ret _ _ _ sid w eq_refl).
  destruct (RequireString req "forward_id") as [e|fid]; [done|]. rewrite (bind_ret _ _ _ fid w eq_refl).
  unfold mbind at 1, M_bind at 1. unfold viaSsh, onBoth, sshM, zoom.
  pose proof (grows_CloseForward sid fid (worlds w).1) as Hg.
  destruct (CloseForward sid fid (worlds w).1) as [[[]|e|p] w1]; [|by split|done].
  rewrite (bind_ret _ _ _ _ _ (run_Persist C Hstore Hstart _)). split_and!; [done|by split|by left].
Qed.
End tools.

Lemma cancel_only {L : Lib} C t : t ∈ Build C → t_name t = "ssh_forward_cancel" → t_handler t = handleForwardCancel C.
Proof.
  intros Ht Hn. set (t0 := mkTool _ "ssh_forward_cancel" [need "session_id" TString; need "forward_id" TString] (handleForwardCancel C)).
  assert (H0 : t0 ∈ Build C).
  { unfold Build, RegisterForward. rewrite !elem_of_app. do 3 right. left. do 4 apply list_elem_of_further. apply list_elem_of_here. }
  assert (H : t = t0); [|by rewrite H]. eapply tool_by_name; [exact Ht|exact H0|done].
Qed.

(** What a call does to the two managers and to the pending flush. *)
Lemma tool_step {L : Lib} C t req w r w' (Hstore : is_Some (st_Store C)) (Hstart : st_Started C = true)
    (Ht : t ∈ Build C) (Hrun : t_handler t req w = (Ret r, w')) :
  bgrows (worlds w) (worlds w') ∧
  ((t_name t = "ssh_forward_cancel" → ∃ s, r = TextResult s) → recorded w w').
Proof.
  destruct (decide (t_name t = "ssh_forward_cancel")) as [Hn|Hn].
  - rewrite (cancel_only C t Ht Hn) in Hrun. pose proof (cancel_run C Hstore Hstart req w) as H. rewrite Hrun in H.
    destruct r as [s|e]; [|split; [done|intros Hc; by destruct (Hc Hn)]]. split; [apply H|done].
  - pose proof (asked_all C Hstore Hstart) as H. rewrite Forall_forall in H. specialize (H t Ht Hn req w).
    rewrite Hrun in H. split; [apply H|done].
Qed.

(** C10: on a daemon with a state file and a started flusher, no tool leaves a change
    that nobody was asked to write: if, after a call, no flush is pending, then the
    snapshot of the managers is the one from before the call, whatever tool was
    called, with whatever arguments, and however the outside world answered.  The one
    exception is an [ssh_forward_cancel] that reports an error, which is excluded
    ([Hcancel]); see [cancel_error_forgotten]. *)
Theorem tools_persist {L : Lib} C t req w r w' (Hstore : is_Some (st_Store C)) (Hstart : st_Started C = true)
    (Ht : t ∈ Build C) (Hl : light (worlds w).1) (Hd : dlight (worlds w).2)
    (Hrun : t_handler t req w = (Ret r, w'))
    (Hcancel : t_name t = "ssh_forward_cancel" → ∃ s, r = TextResult s)
    (Hquiet : mw_flush w' = false) :
  (Capture (worlds w')).1 = (Capture (worlds w)).1.
Proof.
  destruct (tool_step C t req w r w' Hstore Hstart Ht Hrun) as [_ H]. destruct (H Hcancel) as (_ & _ & [Hf|Hk]).
  - congruence.
  - by apply bkept_capture.
Qed.

(** Cancelling a forward whose listener reports an error when it is closed (a
    remote forward of a dead connection does) removes the forward and then forgets to
    persist it: the tool reports the error and asks for no flush, so the forward is
    back after a restart. *)
Theorem cancel_error_forgotten {L : Lib} C req sid fid w l s f F ln e
    (Hsid : RequireString req "session_id" = inr sid) (Hfid : RequireString req "forward_id" = inr fid)
    (Hl : sessions (worlds w).1 !! sid = Some l) (Hs : w_sess (worlds w).1 !! l = Some s)
    (Hf : forwards s !! fid = Some f) (HF : w_fwd (worlds w).1 !! f = Some F)
    (Hopen : f_closed F = false) (Hln : f_listener F = Some ln)
    (Hclose : ∀ n, env _ n (ListenerClose ln) = inl e) :
  ∃ w' s', handleForwardCancel C req w = (Ret (ErrorResult e), w') ∧ mw_flush w' = mw_flush w ∧
    mw_state w' = mw_state w ∧
    w_sess (worlds w').1 !! l = Some s' ∧ forwards s' = delete fid (forwards s).
Proof.
  set (w1 := (worlds w).1 <| w_sess ::= alter (λ s : Session, s <| forwards ::= delete fid |>) l |>).
  assert (Hrun : ∃ w2, CloseForward sid fid (worlds w).1 = (Err e, w2) ∧ w_sess w2 = w_sess w1).
  { unfold CloseForward. revert Hl Hs HF. subst w1. generalize (worlds w).1. intros v Hl Hs HF.
    set (w1 := v <| w_sess ::= alter (λ s : Session, s <| forwards ::= delete fid |>) l |>).
    rewrite (bind_ret _ _ _ l v) by (unfold Get; by rewrite Hl).
    rewrite (bind_ret _ _ _ s v) by (unfold sess_at; by rewrite Hs). rewrite Hf.
    rewrite (bind_ret _ _ _ tt w1) by done.
    rewrite (bind_ret _ _ _ F w1) by (unfold fwd_at; change (w_fwd w1) with (w_fwd v); by rewrite HF). rewrite Hopen, Hln.
    assert (Hcl : ∃ w2, fwd_Close f w1 = (Ret tt, w2) ∧ w_sess w2 = w_sess w1).
    { unfold fwd_Close. rewrite (bind_ret _ _ _ F w1) by (unfold fwd_at; change (w_fwd w1) with (w_fwd v); by rewrite HF). rewrite Hopen, Hln.
      by eexists. }
    destruct Hcl as (w2 & Hcl & <-). rewrite (bind_ret _ _ _ _ _ Hcl). eexists.
    unfold netM, zoom, call. rewrite Hclose. by split. }
  destruct Hrun as (w2 & Hrun & Hw2). eexists _, (s <| forwards ::= delete fid |>). split.
  { unfold handleForwardCancel. rewrite answer_run. unfold requireString. rewrite Hsid, Hfid.
    rewrite (bind_ret _ _ _ sid w eq_refl), (bind_ret _ _ _ fid w eq_refl).
    unfold mbind at 1, M_bind at 1. unfold viaSsh, onBoth, sshM, zoom. rewrite Hrun. reflexivity. }
  split_and!; [done|done| |done]. change (w_sess w2 !! l = Some (s <| forwards ::= delete fid |>)). rewrite Hw2.
  change (w_sess w1) with (alter (λ s : Session, s <| forwards ::= delete fid |>) l (w_sess (worlds w).1)).
  by rewrite lookup_alter_eq, Hs.
Qed.

(** ** The theorems on a concrete server *)
(** "s" has the remote forward "web", whose listener cannot be closed cleanly. *)
Definition fwd_ex : Forward :=
  mkForward "web" "s" (ForwardRemote (mkRemoteSpec "127.0.0.1" 8080 "127.0.0.1" 80)) 1%positive (Some 9%positive) 8080 false 0.
Definition server_fwd : Server := server_ex <| mw_ssh ::= λ r : RWorld, r <| rw_ssh ::= λ w : World,
  w <| w_sess := {[1%positive := session_ex <| client := Some 2%positive |> <| sftp := None |>
                                   <| forwards := {["web" := 2%positive]} |>]} |>
    <| w_fwd := {[2%positive := fwd_ex]} |> <| w_next := 3%positive |> |> |>.
Definition env_eof : Env := λ T n c,
  match c in ext T return error + T → error + T with
  | ListenerClose _ => λ _, inl (Msg "EOF")
  | _ => λ r, r
  end (env_ok T n c).

Lemma light_fwd_ex : light (worlds server_fwd).1.
Proof.
  split.
  - intros id l Hid. change (sessions (worlds server_fwd).1) with ({["s" := 1%positive]} : gmap string loc) in Hid.
    apply lookup_singleton_Some in Hid as [<- <-]. eexists. split; [vm_compute; reflexivity|done].
  - vm_compute. reflexivity.
  - intros l s id f Hs Hf.
    change (w_sess (worlds server_fwd).1) with ({[1%positive := session_ex <| client := Some 2%positive |> <| sftp := None |>
      <| forwards := {["web" := 2%positive]} |>]} : gmap loc Session) in Hs.
    apply lookup_singleton_Some in Hs as [<- <-]. simpl in Hf. apply lookup_singleton_Some in Hf as [<- <-].
    vm_compute. by eexists.
  - intros l s Hs.
    change (w_sess (worlds server_fwd).1) with ({[1%positive := session_ex <| client := Some 2%positive |> <| sftp := None |>
      <| forwards := {["web" := 2%positive]} |>]} : gmap loc Session) in Hs.
    apply lookup_singleton_Some in Hs as [<- _]. vm_compute. reflexivity.
  - intros f F HF. change (w_fwd (worlds server_fwd).1) with ({[2%positive := fwd_ex]} : gmap loc Forward) in HF.
    apply lookup_singleton_Some in HF as [<- _]. vm_compute. reflexivity.
Qed.
Lemma dlight_ex : dlight (worlds server_fwd).2.
Proof. by split. Qed.

Lemma tools_persist_witness :
  let w' := (@handleSSHExec (lib_of env_ok) config_ex exec_req server_fwd).2 in
  mw_flush w' = false ∧ (Capture (worlds w')).1 = (Capture (worlds server_fwd)).1.
Proof.
  assert (Hq : mw_flush (@handleSSHExec (lib_of env_ok) config_ex exec_req server_fwd).2 = false) by (vm_compute; reflexivity).
  split; [exact Hq|]. refine (@tools_persist (lib_of env_ok) config_ex
    (mkTool _ "ssh_exec" [need "session_id" TString; need "command" TString; opt "env" TObject; opt "stdin" TString;
       opt "timeout_ms" TNumber] (@handleSSHExec (lib_of env_ok) config_ex)) exec_req server_fwd (TextResult "exec") _
    _ _ _ light_fwd_ex dlight_ex _ _ Hq).
  - by eexists.
  - reflexivity.
  - unfold Build, RegisterSSH. rewrite !elem_of_app. left. do 6 apply list_elem_of_further. apply list_elem_of_here.
  - cbn [t_handler].
    assert (Ho : (@handleSSHExec (lib_of env_ok) config_ex exec_req server_fwd).1 = Ret (TextResult "exec")) by (vm_compute; reflexivity).
    destruct (@handleSSHExec (lib_of env_ok) config_ex exec_req server_fwd) as [o w']. simpl in *. by rewrite Ho.
  - done.
Defined.

Lemma cancel_error_forgotten_witness :
  ∃ w' s', @handleForwardCancel (lib_of env_eof) config_ex (request [("session_id", inl "s"); ("forward_id", inl "web")])
      server_fwd = (Ret (ErrorResult (Msg "EOF")), w') ∧ mw_flush w' = false ∧ mw_state w' = mw_state server_fwd ∧
    w_sess (worlds w').1 !! 1%positive = Some s' ∧ forwards s' = delete "web" {["web" := 2%positive]}.
Proof.
  exact (@cancel_error_forgotten (lib_of env_eof) config_ex (request [("session_id", inl "s"); ("forward_id", inl "web")])
    "s" "web" server_fwd 1%positive _ 2%positive fwd_ex 9%positive (Msg "EOF")
    ltac:(reflexivity) ltac:(reflexivity) ltac:(vm_compute; reflexivity) ltac:(vm_compute; reflexivity)
    ltac:(vm_compute; reflexivity) ltac:(vm_compute; reflexivity) ltac:(reflexivity) ltac:(reflexivity) ltac:(done)).
Defined.
