(* ===== verification/Flush.v ===== *)
(** * The flusher (internal/mcptools/server.go)

    The flusher writes the state some time after a tool asked for it.  It runs beside
    the tool calls: [fstep] is one turn of its loop, one call, the passing of time, or
    a step of [Stop].  A call is one step; what makes this harmless is that a handler
    asks for the flush after its change, so a flusher that runs in between only
    writes once more.  [flusher] is the loop alone, on the times of the requests. *)

From stdpp Require Import relations.
From S2P Require Import Docker.
From S2P Require Import Prelude GoStrings Url External Spec SshConfig Auth Dial World Ledger Session Forward Shell Manager ManagerProps State Files Store Containers Disk Copy Sftp Records Tools ToolsSsh ToolsDocker Catalogue Persistence.
From Stdlib Require Import Ascii String Sorted.

Definition debounce : Z := 200.     (* milliseconds *)

(** Where [Stop] is: not called, [flushStopCh] closed, the loop gone, returned. *)
Inductive phase := Serving | Stopping | LoopDone | Stopped.

(** ** The state file *)
Section disk.
Context {L : Lib} (C : Config).

Definition disk (w : Server) : option string :=
  match st_Store C with Some path => fs_files (mw_state w) !! path | None => None end.
(** The state file holds the encoding of what a capture gives now, the arrays of
    its specs read out of [m]. *)
Definition written (m : Mem) (w : Server) : Prop := ∃ snap data,
  (Capture (worlds w)).1 = Ret snap ∧
  marshal_state (with_version (view_snapshot m snap)) = inr data ∧ disk w = Some data.

Definition wkept (w w' : Server) : Prop := bkept (worlds w) (worlds w').
#[local] Instance wkept_pre : PreOrder wkept.
Proof. split; unfold wkept; [intros w; reflexivity|]. intros w1 w2 w3 H1 H2. by etrans. Qed.
Lemma PersistNow_worlds w : bkept (worlds w) (worlds (PersistNow C w).2).
Proof.
  revert w. change (stays wkept (PersistNow C)). unfold PersistNow. destruct (st_Store C); [|apply stays_ret, _].
  apply stays_bind; [apply _| |intros snap; apply stays_bind; [apply _|apply stays_gets, _|intros m]].
  - intros w. unfold onBoth, zoom. pose proof (bkept_Capture (worlds w)) as H. by destruct (Capture (worlds w)).
  - intros w. unfold zoom. destruct (Save _ _ _ _ _). unfold wkept. reflexivity.
Qed.
Lemma blight_kept b b' : blight b → bkept b b' → blight b'.
Proof. intros [Hl Hd] [Hk Hdk]. split; [by apply Hk in Hl as []|by apply Hdk in Hd as []]. Qed.
Lemma blight_grows b b' : blight b → bgrows b b' → blight b'.
Proof. intros [Hl Hd] [Hk Hdk]. split; auto. Qed.

Lemma run_onBoth {A} (m : M Both A) w :
  onBoth m w = (match m (worlds w) with (o, b) => (o, w <| mw_ssh ::= λ r, r <| rw_ssh := b.1 |> |> <| mw_docker := b.2 |>) end).
Proof. unfold onBoth, zoom. by destruct (m (worlds w)). Qed.

(** [PersistNow] writes what a capture gives, or fails and leaves the file. *)
Lemma PersistNow_spec path w : st_Store C = Some path → blight (worlds w) →
  match PersistNow C w with
  | (Ret _, w') => ∃ snap data, Capture (worlds w) = (Ret snap, worlds w') ∧
      marshal_state (with_version (view_snapshot (w_mem (worlds w').1) snap)) = inr data ∧
      fs_files (mw_state w') !! path = Some data
  | (_, w') => fs_files (mw_state w') !! path = fs_files (mw_state w) !! path
  end.
Proof.
  intros Hp [Hl Hd]. unfold PersistNow. rewrite Hp.
  pose proof (Capture_run _ _ (light_managers _ _ Hl Hd)) as Hc.
  rewrite <- (surjective_pairing (worlds w)) in Hc.
  unfold mbind at 1, M_bind. rewrite run_onBoth, Hc. cbn [fst snd].
  unfold mbind, M_bind, gets, zoom. cbn [fst snd].
  match goal with |- context [Save _ _ _ ?v ?f] => set (v0 := v); set (f0 := f) end.
  destruct (marshal_state (with_version v0)) as [e|data] eqn:Hm.
  - unfold Save. rewrite Hm. done.
  - pose proof (Save_spec lib_io marshal_state path v0 f0 data Hm) as Hs.
    destruct (Save lib_io marshal_state path v0 f0) as [[[]|e|p] f1]; [|apply Hs|by destruct Hs].
    eexists _, data. split; [reflexivity|]. split; [exact Hm|]. apply Hs.
Qed.
Lemma PersistNow_disk w : is_Some (st_Store C) → blight (worlds w) →
  match PersistNow C w with
  | (Ret _, w') => written (w_mem (worlds w').1) w'
  | (_, w') => disk w' = disk w
  end.
Proof.
  intros [path Hp] Hb. pose proof (PersistNow_spec path w Hp Hb) as H. pose proof (PersistNow_worlds w) as Hk.
  unfold written, disk. rewrite Hp. destruct (PersistNow C w) as [[[]|e|p] w']; [|done|done].
  destruct H as (snap & data & Hc & Hm & Hf). exists snap, data. split; [|done].
  cbn [snd] in Hk. rewrite (bkept_capture _ _ Hb Hk). by rewrite Hc.
Qed.

(** No tool but [snapshot] touches the file. *)
Definition same_disk (w w' : Server) : Prop := mw_state w' = mw_state w.
#[local] Instance same_disk_pre : PreOrder same_disk.
Proof. split; unfold same_disk; [done|]. intros w1 w2 w3 H1 H2. congruence. Qed.
Lemma disk_onBoth {A} (m : M Both A) : stays same_disk (onBoth m).
Proof. intros w. unfold onBoth, zoom. by destruct (m _). Qed.
Lemma disk_viaSftp {A} (m : SM A) : stays same_disk (viaSftp m).
Proof. intros w. unfold viaSftp, zoom. by destruct (m _). Qed.
Lemma disk_viaCopy {A} (m : M (Local DWorld) A) : stays same_disk (viaCopy m).
Proof. intros w. unfold viaCopy, zoom. by destruct (m _). Qed.
Lemma disk_Persist : st_Started C = true → stays same_disk (Persist C).
Proof. intros Hs. unfold Persist. destruct (st_Store C); [|apply stays_ret, _]. rewrite Hs. by apply stays_modify. Qed.
Lemma disk_answer m : stays same_disk m → stays same_disk (answer m).
Proof. intros H. unfold answer. solve_stays. Qed.
Lemma disk_with_timeout {A} t (m : TM A) : stays same_disk m → stays same_disk (with_timeout t m).
Proof. intros H. apply stays_bind; [apply _|by apply stays_modify|done]. Qed.
Context (Hstore : is_Some (st_Store C)) (Hstart : st_Started C = true).

#[local] Hint Resolve disk_onBoth disk_viaSftp disk_viaCopy disk_with_timeout : stays.
#[local] Hint Extern 1 (stays same_disk (viaSsh _)) => apply disk_onBoth : stays.
#[local] Hint Extern 1 (stays same_disk (viaDocker _)) => apply disk_onBoth : stays.
#[local] Hint Extern 1 (stays same_disk (Persist _)) => apply (disk_Persist Hstart) : stays.
Definition leaves (t : tool) : Prop := t_name t ≠ "snapshot" → ∀ req, stays same_disk (t_handler t req).
Ltac leaves_disk :=
  repeat (apply Forall_cons; split); try (apply Forall_nil; exact I);
  intros Hname req; cbn [t_handler];
  first [ by destruct Hname
        | lazymatch goal with |- stays _ (?h _) => let f := head_of h in unfold f | |- stays _ ?h => let f := head_of h in unfold f end;
          apply disk_answer; unfold bind, requireString, requireInt;
          repeat first [ solve [solve_stays] | apply disk_with_timeout | progress solve_stays | case_match ] ].
Lemma leaves_ssh : Forall leaves (RegisterSSH C).
Proof using Hstart. unfold RegisterSSH. leaves_disk. Qed.
Lemma leaves_shell : Forall leaves (RegisterSSHShell C).
Proof using. unfold RegisterSSHShell. leaves_disk. Qed.
Lemma leaves_sftp : Forall leaves (RegisterSFTP C).
Proof using. unfold RegisterSFTP. leaves_disk. Qed.
Lemma leaves_forward : Forall leaves (RegisterForward C).
Proof using Hstart. unfold RegisterForward. leaves_disk. Qed.
Lemma leaves_docker : Forall leaves (RegisterDocker C).
Proof using Hstart. unfold RegisterDocker. leaves_disk. Qed.
Lemma leaves_dshell : Forall leaves (RegisterDockerShell C).
Proof using. unfold RegisterDockerShell. leaves_disk. Qed.
Lemma leaves_meta : Forall leaves (RegisterMeta C).
Proof using. unfold RegisterMeta. leaves_disk. Qed.
Lemma leaves_all : Forall leaves (Build C).
Proof using Hstart.
  unfold Build. rewrite !Forall_app.
  split_and!; [apply leaves_ssh|apply leaves_shell|apply leaves_sftp|apply leaves_forward|apply leaves_docker
    |apply leaves_dshell|apply leaves_meta].
Qed.

Lemma snapshot_only t : t ∈ Build C → t_name t = "snapshot" → t_handler t = handleSnapshot C.
Proof.
  intros Ht Hn. set (t0 := mkTool _ "snapshot" [] (handleSnapshot C)).
  assert (H0 : t0 ∈ Build C).
  { unfold Build, RegisterMeta. rewrite !elem_of_app. do 6 right. apply list_elem_of_here. }
  assert (H : t = t0); [|by rewrite H]. eapply tool_by_name; [exact Ht|exact H0|done].
Qed.

(** A call leaves the file, or writes what a capture gives after it. *)
Lemma tool_disk t req w r w' : t ∈ Build C → blight (worlds w) → t_handler t req w = (Ret r, w') →
  disk w' = disk w ∨ written (w_mem (worlds w').1) w'.
Proof using Hstore Hstart.
  intros Ht Hb Hrun. destruct (decide (t_name t = "snapshot")) as [Hn|Hn].
  - rewrite (snapshot_only t Ht Hn) in Hrun. unfold handleSnapshot in Hrun. rewrite answer_run in Hrun.
    pose proof (PersistNow_disk w Hstore Hb) as H. unfold mbind, M_bind in Hrun.
    destruct (PersistNow C w) as [[[]|e|p] w1]; [|left|done].
    + right. by injection Hrun as _ <-.
    + by injection Hrun as _ <-.
  - pose proof leaves_all as H. rewrite Forall_forall in H. specialize (H t Ht Hn req w). rewrite Hrun in H.
    left. unfold disk. destruct (st_Store C); [|done]. simpl in H. by rewrite H.
Qed.
End disk.

Record fstate := mkF {
  fl_srv : Server;
  fl_timer : option Z;             (* when the timer fires; [None]: no timer *)
  fl_clock : Z;
  fl_phase : phase;
  fl_missed : bool;                (* a write failed, or a cancel forgot to ask, since the last write *)
  fl_late : bool;                  (* a tool was called after [Stop] had returned *)
  fl_mem : Mem;                    (* the arrays of the specs when the file was last changed *)
}.
Definition eta_fstate s := mkF (fl_srv s) (fl_timer s) (fl_clock s) (fl_phase s) (fl_missed s) (fl_late s) (fl_mem s).
#[export] Instance upd_fl_srv : Setter fl_srv. Proof. mk_setter eta_fstate. Defined.
#[export] Instance upd_fl_timer : Setter fl_timer. Proof. mk_setter eta_fstate. Defined.
#[export] Instance upd_fl_clock : Setter fl_clock. Proof. mk_setter eta_fstate. Defined.
#[export] Instance upd_fl_phase : Setter fl_phase. Proof. mk_setter eta_fstate. Defined.
#[export] Instance upd_fl_missed : Setter fl_missed. Proof. mk_setter eta_fstate. Defined.
#[export] Instance upd_fl_late : Setter fl_late. Proof. mk_setter eta_fstate. Defined.
#[export] Instance upd_fl_mem : Setter fl_mem. Proof. mk_setter eta_fstate. Defined.

Definition alive (p : phase) : bool := match p with Serving | Stopping => true | _ => false end.
Definition over (p : phase) : bool := match p with Stopped => true | _ => false end.

(** A cancel that reports an error asks for nothing. *)
Definition forgets (name : string) (r : ToolResult) : bool :=
  match r with ErrorResult _ => bool_decide (name = "ssh_forward_cancel") | TextResult _ => false end.

Section flush.
Context {L : Lib} (C : Config).

(** The server after a call or a write. *)
Definition serve (w' : Server) (s : fstate) : fstate :=
  s <| fl_srv := w' |>
    <| fl_mem := if decide (disk C w' = disk C (fl_srv s)) then fl_mem s else w_mem (worlds w').1 |>.
(** [PersistNow], its error dropped. *)
Definition write (s : fstate) : fstate :=
  match PersistNow C (fl_srv s) with
  | (Ret _, w') => s <| fl_srv := w' |> <| fl_mem := w_mem (worlds w').1 |> <| fl_missed := false |>
  | (_, w') => s <| fl_srv := w' |> <| fl_missed := true |>
  end.

Inductive fstep : fstate → fstate → Prop :=
  | fs_call t req r w' s : t ∈ Build C → t_handler t req (fl_srv s) = (Ret r, w') →
      fstep s (serve w' s <| fl_missed ::= λ b, b || forgets (t_name t) r |>
                          <| fl_late ::= λ b, b || over (fl_phase s) |>)
  | fs_request s : alive (fl_phase s) = true → mw_flush (fl_srv s) = true →
      fstep s (s <| fl_srv ::= (λ w : Server, w <| mw_flush := false |>) |>
                 <| fl_timer := Some (fl_clock s + debounce) |>)
  | fs_fire d s : alive (fl_phase s) = true → fl_timer s = Some d → d ≤ fl_clock s →
      fstep s (write (s <| fl_timer := None |>))
  | fs_tick n s : 0 < n → fstep s (s <| fl_clock ::= λ t, t + n |>)
  | fs_stop s : fl_phase s = Serving → fstep s (s <| fl_phase := Stopping |>)
  | fs_exit s : fl_phase s = Stopping → fstep s (s <| fl_phase := LoopDone |>)
  | fs_final s : fl_phase s = LoopDone → fstep s (write s <| fl_phase := Stopped |>).

Definition start (w : Server) : fstate := mkF w None 0 Serving false false (w_mem (worlds w).1).

(** The file is current: it holds what a capture gives now; or neither the file nor
    what a capture gives has changed since the flusher was started on [w0]. *)
Definition unchanged (w0 w : Server) : Prop :=
  disk C w = disk C w0 ∧ (Capture (worlds w)).1 = (Capture (worlds w0)).1.
Definition current (w0 : Server) (s : fstate) : Prop :=
  written C (fl_mem s) (fl_srv s) ∨ unchanged w0 (fl_srv s).
Definition pending (s : fstate) : Prop :=
  fl_phase s ≠ Stopped ∧ (mw_flush (fl_srv s) = true ∨ is_Some (fl_timer s)).
Record finv (w0 : Server) (s : fstate) : Prop := {
  fi_light : blight (worlds (fl_srv s));
  fi_current : fl_missed s = true ∨ fl_late s = true ∨ current w0 s ∨ pending s;
}.

Context (Hstore : is_Some (st_Store C)) (Hstart : st_Started C = true).

(** A write makes the file current, or is missed. *)
Lemma write_spec w0 s : blight (worlds (fl_srv s)) →
  blight (worlds (fl_srv (write s))) ∧ (fl_missed (write s) = true ∨ current w0 (write s)).
Proof using Hstore.
  intros Hl. pose proof (PersistNow_worlds C (fl_srv s)) as Hk.
  pose proof (PersistNow_disk C (fl_srv s) Hstore Hl) as Hd. unfold write, current.
  destruct (PersistNow C (fl_srv s)) as [[[]|e|p] w']; simpl in *;
    (split; [by eapply blight_kept|]); [right; by left|by left|by left].
Qed.

(** A call that changes nothing that is captured leaves a current file current. *)
Lemma current_kept w0 s w' : blight (worlds (fl_srv s)) → bkept (worlds (fl_srv s)) (worlds w') →
  disk C w' = disk C (fl_srv s) ∨ written C (w_mem (worlds w').1) w' →
  current w0 s → current w0 (serve w' s).
Proof using.
  intros Hl Hk Hd Hc. pose proof (bkept_capture _ _ Hl Hk) as E. unfold current, serve. simpl.
  destruct (decide (disk C w' = disk C (fl_srv s))) as [Ed|Hne]; [|left; by destruct Hd].
  destruct Hc as [(snap & data & H1 & H2 & H3)|[H1 H2]]; [left|right].
  - exists snap, data. by rewrite E, Ed.
  - unfold unchanged. by rewrite E, Ed.
Qed.

Lemma finv_step w0 s s' : fstep s s' → finv w0 s → finv w0 s'.
Proof using Hstore Hstart.
  intros Hstep [Hl Hp]. destruct Hstep as [t req r w' s Ht Hrun|s Ha Hfl|d s Ha Hd Hle|n s Hn|s Hph|s Hph|s Hph].
  - destruct (tool_step C t req _ r w' Hstore Hstart Ht Hrun) as [Hg Hrec].
    pose proof (tool_disk C Hstore Hstart t req _ r w' Ht Hl Hrun) as Hdisk.
    split; [by eapply blight_grows|].
    destruct (forgets (t_name t) r) eqn:Hforget; [left; apply orb_true_r|].
    destruct (over (fl_phase s)) eqn:Hover; [right; left; apply orb_true_r|].
    assert (Hph : fl_phase s ≠ Stopped) by (intros E; by rewrite E in Hover).
    assert (Hc : t_name t = "ssh_forward_cancel" → ∃ x, r = TextResult x).
    { intros Hn. unfold forgets in Hforget. destruct r as [x|e]; [by eexists|]. by rewrite bool_decide_eq_true_2 in Hforget. }
    destruct (Hrec Hc) as (Hmono & _ & Hk). unfold pending in *. simpl. rewrite !orb_false_r.
    destruct Hk as [Hf|Hk]; [by right; right; right; split; [|left]|].
    destruct Hp as [?|[?|[Hcur|[_ [?|?]]]]];
      [by left|by right; left| |right; right; right; split; [done|auto]..].
    right; right; left. pose proof (current_kept w0 s w' Hl Hk Hdisk Hcur) as H. exact H.
  - split; [exact Hl|]. unfold pending. simpl. destruct Hp as [?|[?|[Hcur|_]]]; [by left|by right; left|by right; right; left|].
    right; right; right. split; [by destruct (fl_phase s)|right; by eexists].
  - destruct (write_spec w0 (s <| fl_timer := None |>)) as (H1 & H2); [exact Hl|]. split; [exact H1|tauto].
  - split; [exact Hl|exact Hp].
  - split; [exact Hl|]. unfold pending in *. simpl. rewrite Hph in Hp. destruct Hp as [?|[?|[?|[_ ?]]]]; auto.
  - split; [exact Hl|]. unfold pending in *. simpl. rewrite Hph in Hp. destruct Hp as [?|[?|[?|[_ ?]]]]; auto.
  - destruct (write_spec w0 s Hl) as (H1 & [H2|H2]); (split; [exact H1|]); [by left|right; right; left; exact H2].
Qed.
End flush.


(** A disconnect, and a shutdown before the flusher had its turn. *)
Definition gone_req : Request := request [("id", inl "s")].
Definition server_gone : Server := (@handleSSHDisconnect (lib_of env_ok) config_ex gone_req server_fwd).2.
Definition gone_ex : fstate := serve config_ex server_gone (start server_fwd)
  <| fl_missed ::= λ b, b || forgets "ssh_disconnect" (TextResult "disconnected s") |>
  <| fl_late ::= λ b, b || over Serving |>.
Definition last_ex : fstate := gone_ex <| fl_phase := Stopping |> <| fl_phase := LoopDone |>.
Definition stop_ex : fstate := @write (lib_of env_ok) config_ex last_ex <| fl_phase := Stopped |>.
Lemma gone_run : @fstep (lib_of env_ok) config_ex (start server_fwd) gone_ex.
Proof.
  refine (@fs_call (lib_of env_ok) config_ex
    (mkTool _ "ssh_disconnect" [need "id" TString] (@handleSSHDisconnect (lib_of env_ok) config_ex))
    gone_req (TextResult "disconnected s") server_gone (start server_fwd) _ _).
  - unfold Build, RegisterSSH. rewrite !elem_of_app. left. apply list_elem_of_further, list_elem_of_here.
  - cbn [t_handler]. unfold server_gone.
    assert (Ho : (@handleSSHDisconnect (lib_of env_ok) config_ex gone_req server_fwd).1 = Ret (TextResult "disconnected s"))
      by (vm_compute; reflexivity).
    change (fl_srv (start server_fwd)) with server_fwd. revert Ho.
    generalize (@handleSSHDisconnect (lib_of env_ok) config_ex gone_req server_fwd). intros [o w']. cbn. by intros ->.
Qed.
Lemma stop_run : rtc (@fstep (lib_of env_ok) config_ex) (start server_fwd) stop_ex.
Proof.
  apply (rtc_l _ _ _ _ gone_run).
  refine (rtc_l _ _ _ _ (@fs_stop (lib_of env_ok) config_ex gone_ex eq_refl) _).
  refine (rtc_l _ _ _ _ (@fs_exit (lib_of env_ok) config_ex (gone_ex <| fl_phase := Stopping |>) eq_refl) _).
  refine (rtc_l _ _ _ _ (@fs_final (lib_of env_ok) config_ex last_ex eq_refl) _).
  apply rtc_refl.
Qed.

(** ** When the writes happen *)
(** The times of the writes for requests at the times [ts].  This flusher is an ideal
    one: its timer is never late, and when a request comes at the instant the timer
    fires, where Go's [select] may take either, the write comes first. *)
Fixpoint flusher (timer : option Z) (ts : list Z) : list Z :=
  match ts with
  | [] => option_list timer
  | t :: ts =>
    match timer with
    | Some d => if bool_decide (d ≤ t) then d :: flusher (Some (t + debounce)) ts
                else flusher (Some (t + debounce)) ts
    | None => flusher (Some (t + debounce)) ts
    end
  end.

Lemma flusher_elem d ts u : Sorted Z.le (d - debounce :: ts) →
  u ∈ flusher (Some d) ts ↔
  u - debounce ∈ d - debounce :: ts ∧ (∀ t, t ∈ d - debounce :: ts → t ≤ u - debounce ∨ u ≤ t).
Proof.
  revert d. induction ts as [|t ts IH]; intros d Hs.
  - change (flusher (Some d) []) with [d]. rewrite !list_elem_of_singleton. split.
    + intros ->. split; [done|]. intros t ->%list_elem_of_singleton. lia.
    + intros [? _]. lia.
  - apply Sorted_StronglySorted in Hs as Hss; [|intros x y z; lia].
    apply StronglySorted_inv in Hss as [_ Hall]. rewrite Forall_forall in Hall.
    pose proof (Hall t (list_elem_of_here t ts)) as Ht.
    apply Sorted_inv in Hs as [Hs _]. apply Sorted_StronglySorted in Hs as Hst; [|intros x y z; lia].
    apply StronglySorted_inv in Hst as [_ Htall]. rewrite Forall_forall in Htall.
    specialize (IH (t + debounce)). rewrite Z.add_simpl_r in IH. specialize (IH Hs). simpl.
    unfold debounce in *. destruct (decide (d ≤ t)) as [Hd|Hd].
    + rewrite (bool_decide_eq_true_2 _ Hd), elem_of_cons, IH. split.
      * intros [->|[Hu Hq]]; (split; [set_solver|]); intros x [->|[->|Hx]%elem_of_cons]%elem_of_cons; try lia.
        -- right. specialize (Htall x Hx). lia.
        -- apply elem_of_cons in Hu as [?|Hu]; [lia|]. specialize (Htall _ Hu). lia.
        -- apply Hq. set_solver.
        -- apply Hq. set_solver.
      * intros [[Hu|Hu]%elem_of_cons Hq]; [left; lia|right]. split; [done|]. intros x Hx. apply Hq. set_solver.
    + rewrite (bool_decide_eq_false_2 _ Hd), IH. split.
      * intros [Hu Hq]. split; [set_solver|]. intros x [->|Hx]%elem_of_cons; [|by apply Hq]. left.
        apply elem_of_cons in Hu as [?|Hu]; [lia|]. specialize (Htall _ Hu). lia.
      * intros [[Hu|Hu]%elem_of_cons Hq]; [|split; [done|]; intros x Hx; apply Hq; set_solver].
        destruct (Hq t); [set_solver|split; [|intros x Hx; apply Hq; set_solver]|lia].
        apply elem_of_cons. left. lia.
Qed.

Lemma flusher_pending d ts : Sorted Z.le (d - debounce :: ts) →
  ∀ t, t ∈ d - debounce :: ts → ∃ u, u ∈ flusher (Some d) ts ∧ t + debounce ≤ u.
Proof.
  revert d. induction ts as [|t ts IH]; intros d Hs x Hx.
  - apply list_elem_of_singleton in Hx as ->. exists d. split; [apply list_elem_of_here|lia].
  - apply Sorted_inv in Hs as [Hs Hhd]. inversion Hhd as [|? ? Hle]; subst.
    specialize (IH (t + debounce)). rewrite Z.add_simpl_r in IH. specialize (IH Hs).
    apply elem_of_cons in Hx as [->|Hx].
    + destruct (IH t (list_elem_of_here t ts)) as (u & Hu & Hge). exists u. split; [|lia].
      simpl. case_bool_decide; [by right|done].
    + destruct (IH x Hx) as (u & Hu & Hge). exists u. split; [|done]. simpl. case_bool_decide; [by right|done].
Qed.

(** C12: the debounce is exact, and every request is answered.  For requests at the
    times [ts], in order, a write happens at [u] exactly when there was a request at
    [u - 200ms] and none in between; and after every request, no sooner than 200ms
    later, there is a write. *)
Theorem flusher_exact ts (Hs : Sorted Z.le ts) :
  (∀ u, u ∈ flusher None ts ↔ u - debounce ∈ ts ∧ ∀ t, t ∈ ts → t ≤ u - debounce ∨ u ≤ t) ∧
  (∀ t, t ∈ ts → ∃ u, u ∈ flusher None ts ∧ t + debounce ≤ u).
Proof.
  destruct ts as [|t ts]; simpl.
  - split; [intros u; split; [intros Hu|intros [Hu _]]; by apply elem_of_nil in Hu|]. intros t Ht. by apply elem_of_nil in Ht.
  - pose proof (flusher_elem (t + debounce) ts) as H1. pose proof (flusher_pending (t + debounce) ts) as H2.
    rewrite Z.add_simpl_r in H1, H2. split; [intros u; by apply H1|by apply H2].
Qed.
Lemma flusher_exact_witness : Sorted Z.le [0; 100; 500] ∧ flusher None [0; 100; 500] = [300; 700] ∧
  ∃ u, u ∈ flusher None [0; 100; 500] ∧ 100 + debounce ≤ u.
Proof.
  assert (Hs : Sorted Z.le [0; 100; 500]) by (repeat (constructor; try lia)).
  split; [exact Hs|]. split; [reflexivity|].
  destruct (flusher_exact [0; 100; 500] Hs) as [_ H]. apply (H 100). right. left.
Defined.

(** The debounce has no limit: requests that keep coming less than 200ms apart
    postpone the write for as long as they come. *)
Fixpoint churn (n : nat) (t : Z) : list Z :=
  match n with O => [] | S n => t :: churn n (t + 199) end.
Lemma churn_starves n t d : t < d → flusher (Some d) (churn n t) = [if decide (n = O) then d else t + 199 * (Z.of_nat n - 1) + debounce].
Proof.
  revert t d. induction n as [|n IH]; intros t d Hd; [done|].
  cbn [churn flusher]. rewrite bool_decide_eq_false_2 by lia.
  rewrite (IH (t + 199)) by (unfold debounce; lia). f_equal.
  destruct n; simpl; lia.
Qed.
Lemma flush_postponed n : n ≠ O → flusher None (churn n 0) = [199 * (Z.of_nat n - 1) + debounce].
Proof.
  intros Hn. destruct n as [|n]; [done|]. cbn [churn flusher]. rewrite churn_starves by (unfold debounce; lia).
  f_equal. destruct n; simpl; lia.
Qed.
