(* ===== verification/Life.v ===== *)
(** * The two ends of the daemon (cmd/remote-shell-mcpd/main.go)

    [boot] loads the state file and restores what it holds; [shutdown] is what
    [main] does after the HTTP server has stopped: [Stop], whose last act is a
    synchronous write, and then [CloseAll] of both managers. *)

From S2P Require Import Docker.
From S2P Require Import Prelude GoStrings Url External Spec SshConfig Auth Dial World Ledger Session Forward Shell Manager ManagerProps State Files Store Containers Disk Copy Sftp Records Tools ToolsSsh ToolsDocker Catalogue Persistence Flush.
From Stdlib Require Import Ascii String.

Section life.
Context {L : Lib} (C : Config).

(** Decoding a record allocates its slices. *)
Definition decode_record (r : string * SpecView) : M World (string * ConnectSpec) :=
  spec ← alloc_spec (v_addrs r.2) (v_jumps r.2) (v_spec r.2);
  mret (r.1, spec).
Fixpoint decode_records (rs : list (string * SpecView)) : M World (list (string * ConnectSpec)) :=
  match rs with
  | [] => mret []
  | r :: rest => r ← decode_record r; rest ← decode_records rest; mret (r :: rest)
  end.
Definition decode_snapshot (v : SnapView) : M World Snapshot :=
  recs ← decode_records (sv_SSH v);
  mret (mkSnapshot (sv_Version v) recs (sv_Forwards v) (sv_Docker v)).

(** The counts that [Restore] logs; [None]: the file could not be loaded. *)
Definition boot (path : string) : TM (option Counts) :=
  r ← try (zoom mw_state (λ f w, w <| mw_state := f |>) (Load lib_io unmarshal_state path));
  match r with
  | inl _ => mret None
  | inr v =>
    snap ← viaSsh (decode_snapshot v);
    c ← onBoth (Restore ParseKnownHosts CfgGet jump_depth snap);
    mret (Some c)
  end.

(** [Stop]: the flusher has ended; the final write, its error dropped. *)
Definition Stop : TM unit := ignore (PersistNow C).
Definition shutdown : TM unit :=
  Stop;; viaSsh CloseAll;; viaDocker Docker.CloseAll.

(** ** What a write leaves in the file *)
(** A write that succeeds puts the encoding of the current snapshot in the file. *)
Lemma PersistNow_writes path w w' : st_Store C = Some path → blight (worlds w) →
  PersistNow C w = (Ret tt, w') →
  ∃ snap m data, Capture (worlds w) = (Ret snap, (m, (worlds w).2)) ∧
    marshal_state (with_version (view_snapshot (w_mem m) snap)) = inr data ∧
    fs_files (mw_state w') !! path = Some data.
Proof.
  intros Hp Hb Hrun. pose proof (PersistNow_spec C path w Hp Hb) as H. rewrite Hrun in H.
  destruct H as (snap & data & Hc & Hm & Hf). pose proof (light_managers _ _ (proj1 Hb) (proj2 Hb)) as Hok.
  apply Capture_run in Hok. rewrite <- (surjective_pairing (worlds w)), Hc in Hok. injection Hok as _ _ E.
  exists snap, (worlds w').1, data. split; [|done]. rewrite Hc. unfold worlds in *. simpl in *. by rewrite E.
Qed.

(** ** What [CloseAll] leaves *)
Lemma dlight_drop d id : dlight d → dlight (d <| Docker.hosts ::= delete id |>).
Proof.
  intros [H1 H2]. split; simpl; [|done]. intros id' l. intros [_ ?]%lookup_delete_Some. by eapply H1.
Qed.
Lemma dCloseAll_empty d d' : dlight d → Docker.CloseAll d = (Ret tt, d') → Docker.hosts d' = ∅.
Proof.
  intros Hl H. refine (drained dlight Docker.hosts _ d d' _ Hl H). intros [id l] s Hs.
  unfold mbind, M_bind. cbn [fst snd]. pose proof (dkept_host_close l s Hs) as Hk.
  destruct (Docker.host_close l s) as [[[]|e|p] s1]; [|done|done]. simpl in Hk. destruct Hk as (Hl1 & Hh & _).
  cbn. split; [by apply dlight_drop|]. by rewrite Hh.
Qed.

(** What [shutdown] does when it ends: the write, then both [CloseAll]s. *)
Lemma shutdown_run w w' : shutdown w = (Ret tt, w') →
  mw_state w' = mw_state (PersistNow C w).2 ∧
  sessions (worlds w').1 = ∅ ∧ (blight (worlds w) → Docker.hosts (worlds w').2 = ∅).
Proof.
  unfold shutdown, Stop, ignore, try. pose proof (PersistNow_worlds C w) as Hk. unfold mbind at 1 3, M_bind.
  destruct (PersistNow C w) as [o w1]. cbn [snd] in *.
  assert (H : (viaSsh CloseAll;; viaDocker Docker.CloseAll) w1 = (Ret tt, w') →
    mw_state w' = mw_state w1 ∧ sessions (worlds w').1 = ∅ ∧ (blight (worlds w) → Docker.hosts (worlds w').2 = ∅)).
  2:{ destruct o; [exact H|exact H|done]. }
  unfold viaSsh, viaDocker, mbind, M_bind. rewrite run_onBoth. unfold sshM, zoom. destruct (worlds w1) as [a d] eqn:Ew. cbn [fst snd].
  destruct (CloseAll a) as [[[]|e|p] a1] eqn:Ha; [|done|done]. rewrite run_onBoth. unfold dkM, zoom. cbn.
  destruct (Docker.CloseAll d) as [[[]|e|p] d1] eqn:Hd; [|done|done]. cbn.
  intros [= <-]. cbn. split; [done|]. split; [by eapply CloseAll_empty|].
  intros Hb. eapply dCloseAll_empty; [|exact Hd]. pose proof (blight_kept _ _ Hb Hk) as [_ Hd']. exact Hd'.
Qed.

(** ** What [boot] leaves *)
Lemma grows_Restore {E : Env} PKH Cfg depth snap : stays bgrows (Restore PKH Cfg depth snap).
Proof.
  assert (HsshM : ∀ A (m : M World A), stays grows m → stays bgrows (sshM m)).
  { intros A m Hm [a d]. unfold sshM, zoom. cbn [fst snd]. specialize (Hm a). destruct (m a). by split; [|cbn; reflexivity]. }
  assert (HdkM : ∀ A (m : M DWorld A), stays dgrows m → stays bgrows (dkM m)).
  { intros A m Hm [a d]. unfold dkM, zoom. cbn [fst snd]. specialize (Hm d). destruct (m d). by split; [cbn; reflexivity|]. }
  unfold Restore. repeat (apply stays_bind; [apply _| |intros []]); [apply HsshM|apply HsshM|apply HdkM|apply stays_ret, _];
    apply count_each_stays; try apply _; intros r.
  - apply stays_bind; [apply _|apply tries_Connect|intros; apply stays_ret, _].
  - unfold restoreForward. repeat case_match; try (apply stays_fail, _);
      (apply stays_bind; [apply _|first [apply tries_OpenLocalForward|apply tries_OpenRemoteForward|apply tries_OpenDynamicForward]|
       intros; apply stays_ret, _]).
  - apply stays_bind; [apply _|apply dtries_Connect|intros; apply stays_ret, _].
Qed.
Lemma kept_decode v : stays kept (decode_snapshot v).
Proof.
  unfold decode_snapshot. apply stays_bind; [apply _| |intros; apply stays_ret, _].
  induction (sv_SSH v) as [|r rs IH]; cbn [decode_records]; unfold decode_record; [apply stays_ret, _|].
  apply stays_bind; [apply _|apply stays_bind; [apply _|apply kept_alloc_spec|intros; apply stays_ret, _]|intros r'].
  apply stays_bind; [apply _|exact IH|intros; apply stays_ret, _].
Qed.
Lemma decode_length v w snap w' : decode_snapshot v w = (Ret snap, w') →
  List.length (sn_SSHSessions snap) = List.length (sv_SSH v) ∧ sn_DockerHosts snap = sv_Docker v.
Proof.
  unfold decode_snapshot, mbind at 1, M_bind.
  assert (H : ∀ rs w, match decode_records rs w with (Ret l, _) => List.length l = List.length rs | _ => False end).
  { clear. induction rs as [|r rs IH]; intros w; cbn [decode_records]; [done|].
    unfold mbind, M_bind. destruct (decode_record r w) as [[r'|e|p] w1] eqn:Hr;
      [|unfold decode_record, alloc_spec, mbind, M_bind in Hr; by simplify_eq/=..].
    specialize (IH w1). destruct (decode_records rs w1) as [[l|e|p] w2]; [|done|done]. simpl. by rewrite IH. }
  specialize (H (sv_SSH v) w). destruct (decode_records (sv_SSH v) w) as [[l|e|p] w1]; [|done|done].
  intros [= <- <-]. by split.
Qed.
End life.

Lemma length_bind_le {A B} (ls : list A) (f : A → list B) :
  (∀ x, (List.length (f x) ≤ 1)%nat) → (List.length (ls ≫= f) ≤ List.length ls)%nat.
Proof.
  intros Hf. induction ls as [|x ls IH]; [done|]. rewrite bind_cons, length_app. specialize (Hf x). simpl. lia.
Qed.
Lemma length_listed {V} (m : gmap string V) : List.length (listed m) = size m.
Proof. unfold listed. rewrite length_fmap. by apply length_map_to_list. Qed.
(** No more records than sessions and hosts. *)
Lemma Capture_bound b snap b' : blight b → Capture b = (Ret snap, b') →
  (List.length (sn_SSHSessions snap) ≤ size (sessions b.1))%nat ∧
  (List.length (sn_DockerHosts snap) ≤ size (Docker.hosts b.2))%nat.
Proof.
  destruct b as [w d]. intros [Hl Hd]. rewrite (Capture_run w d (light_managers w d Hl Hd)).
  intros [= <- <-]. cbn [sn_SSHSessions sn_DockerHosts fst snd]. rewrite <- !length_listed. split; apply length_bind_le.
  - intros l. unfold ssh_record. repeat case_match; simpl; lia.
  - intros l. unfold host_record. repeat case_match; simpl; lia.
Qed.

Section restart.
Context {L : Lib}.

(** A [boot] that loads the encoding of a snapshot decodes it and restores it. *)
Lemma boot_restores path v w c w' data :
  fs_files (mw_state w) !! path = Some data → unmarshal_state data = inr (with_version v) →
  boot path w = (Ret (Some c), w') →
  ∃ snap a, decode_snapshot (with_version v) (worlds w).1 = (Ret snap, a) ∧
    Restore ParseKnownHosts CfgGet jump_depth snap (a, (worlds w).2) = (Ret c, worlds w').
Proof.
  intros Hfile Hdec. unfold boot, mbind at 1, M_bind, try, zoom.
  destruct (Load _ _ _ _) as [[v'|e|p] f] eqn:Hload; [|done|done].
  apply (Load_reads _ _ _ _ _ _ _ Hfile) in Hload as (v2 & Hv2 & ->). rewrite Hdec in Hv2. injection Hv2 as <-.
  rewrite with_version_idem. unfold mbind at 1, M_bind, viaSsh. rewrite run_onBoth. unfold sshM, zoom.
  set (w1 := w <| mw_state := f |>). change (worlds w1) with (worlds w). destruct (worlds w) as [a d] eqn:Ew. cbn [fst snd] in *.
  destruct (decode_snapshot (with_version v) a) as [[snap|e|p] a1] eqn:Hsnap; [|done|done].
  unfold mbind, M_bind. rewrite run_onBoth. cbn [fst snd].
  match goal with |- context [Restore _ _ _ snap (worlds ?x)] => set (w2 := x) end. change (worlds w2) with (a1, d).
  destruct (Restore _ _ _ snap (a1, d)) as [[cs|e|p] [a2 d2]] eqn:Hres; [|done|done].
  unfold mret, M_ret. intros [= <- <-]. by exists snap, a1.
Qed.

(** [boot] from managers with nothing in them. *)
Lemma boot_run path w c w' : blight (worlds w) → sessions (worlds w).1 = ∅ → Docker.hosts (worlds w).2 = ∅ →
  boot path w = (Ret c, w') →
  blight (worlds w') ∧
  match c with
  | None => sessions (worlds w').1 = ∅ ∧ Docker.hosts (worlds w').2 = ∅
  | Some c => ∃ v, (Load lib_io unmarshal_state path (mw_state w)).1 = Ret v ∧
      sshOK c + sshFail c = Z.of_nat (List.length (sv_SSH v)) ∧
      dkOK c + dkFail c = Z.of_nat (List.length (sv_Docker v)) ∧
      Z.of_nat (size (sessions (worlds w').1)) = sshOK c ∧
      Z.of_nat (size (Docker.hosts (worlds w').2)) = dkOK c
  end.
Proof.
  intros Hb He Hh. unfold boot, mbind at 1, M_bind, try, zoom.
  destruct (Load _ _ _ _) as [[v|e|p] f]; [|by intros [= <- <-]|done].
  unfold mbind at 1, M_bind, viaSsh. rewrite run_onBoth. unfold sshM, zoom.
  set (w1 := w <| mw_state := f |>). change (worlds w1) with (worlds w).
  destruct (worlds w) as [a d] eqn:Ew. cbn [fst snd] in *.
  pose proof (kept_decode v a) as Hk. pose proof (decode_length v a) as Hlen.
  destruct (decode_snapshot v a) as [[snap|e|p] a1]; [|done|done]. simpl in Hk.
  destruct (Hlen snap a1 eq_refl) as [Hls Hld].
  assert (Hb1 : blight (a1, d) ∧ sessions a1 = ∅).
  { destruct Hb as [Hl Hd]. destruct (Hk Hl) as (Hl1 & _ & E1). cbn in E1. split; [by split|congruence]. }
  destruct Hb1 as [Hb1 He1]. unfold mbind, M_bind. rewrite run_onBoth. cbn [fst snd].
  match goal with |- context [Restore _ _ _ snap (worlds ?x)] => set (w2 := x) end. change (worlds w2) with (a1, d).
  pose proof (grows_Restore ParseKnownHosts CfgGet jump_depth snap (a1, d)) as Hg.
  destruct (Restore _ _ _ snap (a1, d)) as [[cs|e|p] [a2 d2]] eqn:Hres; [|done|done].
  apply Restore_spec in Hres as (H1 & _ & H2 & _ & _ & H3 & H4 & _). rewrite He1 in H3. rewrite Hh in H4.
  rewrite map_size_empty in H3, H4. unfold mret, M_ret. intros [= <- <-].
  split; [by eapply blight_grows|].
  exists v. cbn [worlds fst snd]. split_and!; [done|by rewrite H1, Hls|by rewrite H2, Hld|simpl; lia|simpl; lia].
Qed.
End restart.

(** The order of the shutdown.  The last write comes before the managers are
    emptied: when it succeeds, the state file holds, after the shutdown, the encoding
    of the snapshot that was current before it, although no session and no host is
    left by then. *)
Theorem shutdown_saves_first {L : Lib} C path w w1 w' (Hp : st_Store C = Some path)
    (Hl : light (worlds w).1) (Hd : dlight (worlds w).2)
    (Hwrite : PersistNow C w = (Ret tt, w1)) (Hrun : shutdown C w = (Ret tt, w')) :
  sessions (worlds w').1 = ∅ ∧ Docker.hosts (worlds w').2 = ∅ ∧
  ∃ snap m data, Capture (worlds w) = (Ret snap, (m, (worlds w).2)) ∧
    marshal_state (with_version (view_snapshot (w_mem m) snap)) = inr data ∧
    fs_files (mw_state w') !! path = Some data.
Proof.
  destruct (shutdown_run C w w' Hrun) as (Hs & He & Hh). split_and!; [done|by apply Hh|].
  rewrite Hs, Hwrite. eapply PersistNow_writes; [exact Hp|by split|exact Hwrite].
Qed.

(** What could not be restored is dropped.  A daemon that starts from a state
    file and is shut down cleanly, with no tool call in between, leaves a file with
    at most the records it could restore: each session or host whose connect failed
    (its machine was down, say) is gone for good, and a file that could not be loaded
    is replaced by one with no session and no host. *)
Theorem restart_drops_unrestored {L : Lib} C path w c w1 w2 w' (Hp : st_Store C = Some path)
    (Hl : light (worlds w).1) (Hd : dlight (worlds w).2)
    (He : sessions (worlds w).1 = ∅) (Hh : Docker.hosts (worlds w).2 = ∅)
    (Hboot : boot path w = (Ret c, w1))
    (Hwrite : PersistNow C w1 = (Ret tt, w2)) (Hrun : shutdown C w1 = (Ret tt, w')) :
  ∃ new data, fs_files (mw_state w') !! path = Some data ∧ marshal_state new = inr data ∧
    match c with
    | Some c => ∃ old, (Load lib_io unmarshal_state path (mw_state w)).1 = Ret old ∧
        Z.of_nat (List.length (sv_SSH new)) + sshFail c ≤ Z.of_nat (List.length (sv_SSH old)) ∧
        Z.of_nat (List.length (sv_Docker new)) + dkFail c ≤ Z.of_nat (List.length (sv_Docker old))
    | None => sv_SSH new = [] ∧ sv_Docker new = []
    end.
Proof.
  destruct (boot_run path w c w1) as [Hb1 Hc]; [by split|done..|].
  destruct (PersistNow_writes C path w1 w2 Hp Hb1 Hwrite) as (snap & m & data & Hcap & Hm & Hf).
  destruct (shutdown_run C w1 w' Hrun) as (Hs & _). rewrite Hs, Hwrite.
  destruct (Capture_bound _ _ _ Hb1 Hcap) as [Hn1 Hn2].
  eexists _, data. split; [exact Hf|]. split; [exact Hm|].
  assert (E1 : List.length (sv_SSH (with_version (view_snapshot (w_mem m) snap))) = List.length (sn_SSHSessions snap)).
  { unfold with_version. case_decide; simpl; apply length_map. }
  assert (E2 : List.length (sv_Docker (with_version (view_snapshot (w_mem m) snap))) = List.length (sn_DockerHosts snap)).
  { unfold with_version. by case_decide. }
  rewrite <- E1 in Hn1. rewrite <- E2 in Hn2. destruct c as [c|].
  - destruct Hc as (old & Hold & H1 & H2 & H3 & H4). exists old. split; [done|]. split; lia.
  - destruct Hc as [H1 H2]. rewrite H1, map_size_empty in Hn1. rewrite H2, map_size_empty in Hn2.
    split; apply nil_length_inv; lia.
Qed.

(** A state file with one session, on a network where nothing answers. *)
Definition spec_down : SpecView := mkView (spec_one <| Addresses := None |>) ["10.0.0.1"] [].
Definition lib_restart (E : Env) : Lib := {|
  lib_env := E; ParseKnownHosts := λ _, None; CfgGet := λ _ _, ""; jump_depth := 5%nat;
  PortFrom := λ n p, Some (n, p); lib_io := λ _, None;
  marshal_state := λ v, inr (match sv_SSH v with [] => "none" | _ => "one" end);
  unmarshal_state := λ d, if decide (d = "one") then inr (mkSnapView 1 [("a", spec_down)] [] []) else inl (Msg "syntax");
  generic := string;
  json_Marshal := λ v, inr (payload_text v); json_MarshalIndent := λ v, inr (payload_text v);
  json_Unmarshal := λ s, inr s; toon_Marshal := λ s, inr s |}.
Definition server_down : Server := server0 <| mw_state := mkFS {["state.json" := "one"]} [] 0 |>.

Lemma blight0 : light (worlds server0).1 ∧ dlight (worlds server0).2.
Proof. split; split; try done; intros; set_solver. Qed.

Lemma ret_eta {S} (r : outcome unit * S) : r.1 = Ret tt → r = (Ret tt, r.2).
Proof. by destruct r as [o s]; intros [= ->]. Qed.

Lemma shutdown_saves_first_witness :
  let w := (@boot (lib_restart env_ok) "state.json" server_down).2 in
  let w' := (@shutdown (lib_restart env_ok) config_ex w).2 in
  sessions (worlds w).1 !! "a" ≠ None ∧ sessions (worlds w').1 = ∅ ∧
  fs_files (mw_state w') !! "state.json" = Some "one".
Proof.
  destruct (@boot (lib_restart env_ok) "state.json" server_down) as [c w] eqn:Hb.
  pose proof (f_equal fst Hb : _ = c) as Ec. pose proof (f_equal snd Hb : _ = w) as Ew.
  assert (Hc : c = Ret (Some (mkCounts 1 0 0 0 0 0))) by (rewrite <- Ec; vm_compute; reflexivity).
  assert (Hw : (@PersistNow (lib_restart env_ok) config_ex w).1 = Ret tt)
    by (rewrite <- Ew; vm_compute; reflexivity).
  assert (Hs : (@shutdown (lib_restart env_ok) config_ex w).1 = Ret tt)
    by (rewrite <- Ew; vm_compute; reflexivity).
  assert (Ha : sessions (worlds w).1 !! "a" ≠ None)
    by (rewrite <- Ew; vm_compute; discriminate).
  rewrite Hc in Hb. destruct (@boot_run (lib_restart env_ok) "state.json" server_down (Some (mkCounts 1 0 0 0 0 0)) w) as [[Hl Hd] _];
    [exact blight0|reflexivity|reflexivity|exact Hb|].
  destruct (@shutdown_saves_first (lib_restart env_ok) config_ex "state.json" w _ _ eq_refl Hl Hd
    (ret_eta _ Hw) (ret_eta _ Hs)) as (He & _ & snap & m & data & _ & Hm & Hf).
  cbv zeta. cbn [snd]. split; [exact Ha|]. split; [exact He|].
  rewrite Hf. rewrite <- Ew in Hf. vm_compute in Hf. exact (eq_sym Hf).
Defined.

Lemma restart_drops_unrestored_witness :
  let w1 := (@boot (lib_restart env_refuse) "state.json" server_down).2 in
  let w' := (@shutdown (lib_restart env_refuse) config_ex w1).2 in
  fs_files (mw_state server_down) !! "state.json" = Some "one" ∧
  fs_files (mw_state w') !! "state.json" = Some "none".
Proof.
  destruct (@boot (lib_restart env_refuse) "state.json" server_down) as [c w] eqn:Hb.
  pose proof (f_equal fst Hb : _ = c) as Ec. pose proof (f_equal snd Hb : _ = w) as Ew.
  assert (Hc : c = Ret (Some (mkCounts 0 1 0 0 0 0))) by (rewrite <- Ec; vm_compute; reflexivity).
  assert (Hw : (@PersistNow (lib_restart env_refuse) config_ex w).1 = Ret tt)
    by (rewrite <- Ew; vm_compute; reflexivity).
  assert (Hs : (@shutdown (lib_restart env_refuse) config_ex w).1 = Ret tt)
    by (rewrite <- Ew; vm_compute; reflexivity).
  rewrite Hc in Hb. destruct blight0 as [Hl Hd].
  destruct (@restart_drops_unrestored (lib_restart env_refuse) config_ex "state.json" server_down _ _ _ _ eq_refl Hl Hd
    eq_refl eq_refl Hb (ret_eta _ Hw) (ret_eta _ Hs)) as (new & data & Hf & Hm & old & Hold & H1 & _).
  cbv zeta. cbn [snd]. split; [reflexivity|]. rewrite Hf. f_equal.
  assert (Hload : (Load (λ _, None) (@unmarshal_state (lib_restart env_refuse)) "state.json" (mw_state server_down)).1
    = Ret (mkSnapView 1 [("a", spec_down)] [] [])) by (vm_compute; reflexivity).
  assert (E1 : Ret (mkSnapView 1 [("a", spec_down)] [] []) = Ret old) by (rewrite <- Hload; exact Hold).
  injection E1 as <-. cbn in H1. injection Hm as <-. destruct (sv_SSH new); [reflexivity|simpl in H1; lia].
Defined.
