(* ===== verification/Resume.v ===== *)
(** * What a restored session connects to (state/sync.go, sshx/manager.go)

    A session that comes back after a restart was saved as a spec read out of its
    arrays, with its secrets erased, decoded into arrays of its own, and resolved
    once more against ssh_config by [Connect].  [resumes] says what that leaves of
    the spec; [boot_resumes] follows every record through the whole start. *)

From S2P Require Import Docker.
From S2P Require Import Prelude GoStrings Url External Spec SshConfig Auth Dial World Ledger Session Forward Shell Manager ManagerProps State Files Store Containers Disk Copy Sftp Records Tools ToolsSsh ToolsDocker Catalogue Persistence Flush Life.
From Stdlib Require Import Ascii.

(** The spec of a live session as it is saved. *)
Definition saved_view (m : Mem) (sp : ConnectSpec) : SpecView :=
  let v := view m sp in
  mkView (v_spec v <| Auth ::= scrub_auth |>) (v_addrs v) (map scrub_jump (v_jumps v)).

Definition fixed_fields (c : ConnectSpec) :=
  (KnownHostsPath c, Insecure c, Timeout c, Keepalive c, AutoReconnect c, Persistent c, ForwardAgent c,
   DisableSSHConfig c).
(** [v'] is [v] after one more resolution: the options are the same, so are a user, a
    way to authenticate, a jump chain and an explicit port that were there, and all
    the addresses but the host of the first; without ssh_config everything is. *)
Definition resumes (v v' : SpecView) : Prop :=
  fixed_fields (v_spec v') = fixed_fields (v_spec v) ∧
  (User (v_spec v) ≠ "" → User (v_spec v') = User (v_spec v)) ∧
  (KeyPath (Auth (v_spec v)) ≠ "" ∨ UseAgent (Auth (v_spec v)) = true ∨ Password (Auth (v_spec v)) ≠ "" →
     Auth (v_spec v') = Auth (v_spec v)) ∧
  (v_jumps v ≠ [] → v_jumps v' = v_jumps v) ∧
  (v_addrs v' = v_addrs v ∨ ∃ raw rest h p, v_addrs v = raw :: rest ∧ v_addrs v' = JoinHostPort h p :: rest ∧
     ((alias_of raw).2 ≠ "" → p = (alias_of raw).2)) ∧
  (DisableSSHConfig (v_spec v) = true →
     Auth (v_spec v') = Auth (v_spec v) ∧ v_addrs v' = v_addrs v ∧ v_jumps v' = v_jumps v).

(** ** One resolution *)
Lemma slice_ok_grows s m m' : (m_next m ≤ m_next m')%positive → slice_ok m s → slice_ok m' s.
Proof. destruct s; simpl; [lia|done]. Qed.

Section resolve.
Context (Get : string → string → string) (home : option string).

Lemma resolve_jumps_ok fuel spec m spec' m' : slice_ok m (JumpHosts spec) →
  resolveFromSSHConfig Get home fuel spec m = Some (spec', m') → slice_ok m' (JumpHosts spec').
Proof.
  intros Hok Hres. pose proof (resolve_shape _ _ _ _ _ _ _ Hres) as ((Hle & _) & _).
  assert (Hk : JumpHosts spec' = JumpHosts spec → slice_ok m' (JumpHosts spec')).
  { intros ->. by eapply slice_ok_grows. }
  destruct fuel as [|fuel]; [done|]. simpl in Hres. unfold resolve_body in Hres.
  destruct (DisableSSHConfig spec); [injection Hres as -> ->; by apply Hk|].
  destruct (addrs_at m (Addresses spec)) as [|raw ?]; [injection Hres as -> ->; by apply Hk|].
  destruct (alias_of raw) as [alias port]. destruct (decide (alias = "")); [injection Hres as -> ->; by apply Hk|].
  set (spec2 := resolve_auth _ _ _ _) in Hres.
  assert (HJ : JumpHosts spec2 = JumpHosts spec).
  { unfold spec2. rewrite resolve_auth_other, resolve_user_other. by destruct spec. }
  destruct (jumps_at _ (JumpHosts spec2)); [|injection Hres as <- <-; by apply Hk].
  destruct (decide _); [injection Hres as <- <-; by apply Hk|].
  destruct (parseHops _ _ _) as [[jhs m2]|]; simpl in Hres; [|done].
  destruct jhs; [injection Hres as <- <-; by apply Hk|]. injection Hres as <- <-. simpl. lia.
Qed.

Lemma resolve_resumes fuel spec m spec' m' : slice_ok m (Addresses spec) → slice_ok m (JumpHosts spec) →
  resolveFromSSHConfig Get home fuel spec m = Some (spec', m') →
  resumes (view m spec) (view m' spec') ∧ Addresses spec' = Addresses spec.
Proof.
  intros Ha Hj Hres. pose proof (resolve_addresses _ _ _ _ _ _ _ Ha Hres) as Haddr.
  destruct (resolve_shape _ _ _ _ _ _ _ Hres) as (Hm & Hs & HU & HA & HJ).
  assert (Hsl : Addresses spec' = Addresses spec) by (by rewrite Hs).
  split; [|done]. unfold resumes, view. cbn [v_spec v_addrs v_jumps]. split_and!.
  - by rewrite Hs.
  - exact HU.
  - exact HA.
  - intros Hne. rewrite (HJ Hne). by eapply mem_frame_jumps.
  - exact Haddr.
  - intros Hd. destruct fuel as [|fuel]; [done|]. simpl in Hres. unfold resolve_body in Hres.
    change (DisableSSHConfig spec = true) in Hd. rewrite Hd in Hres. by injection Hres as <- <-.
Qed.
End resolve.

(** ** Connect *)
(** What comes after the reservation of the id leaves the specs and their arrays. *)
Definition tail_kept (w w' : World) : Prop :=
  w_mem w' = w_mem w ∧ s_Spec <$> w_sess w' = s_Spec <$> w_sess w.
#[export] Instance tail_kept_pre : PreOrder tail_kept.
Proof. split; [done|]. intros ? ? ? [] []. split; congruence. Qed.

Section tail.
Context {E : Env} (PKH : string → option (list string * option string * string)).
Context (CfgGet : string → string → string) (depth : nat).

Lemma tail_upd l g : (∀ s, s_Spec (g s) = s_Spec s) → stays tail_kept (upd_sess l g).
Proof.
  intros Hg w. split; [done|]. apply map_eq. intros i. simpl. rewrite !lookup_fmap.
  destruct (decide (i = l)) as [->|Hne]; [|by rewrite lookup_alter_ne].
  rewrite lookup_alter_eq. destruct (_ !! l); simpl; by rewrite ?Hg.
Qed.
Lemma tail_netM {A} (m : M Net A) : stays tail_kept (netM m).
Proof. intros w. unfold netM, zoom. by destruct (m _). Qed.
Lemma tail_sess_at l : stays tail_kept (sess_at l).
Proof. intros w. unfold sess_at. by destruct (_ !! _). Qed.
Lemma tail_fwd_at l : stays tail_kept (fwd_at l).
Proof. intros w. unfold fwd_at. by destruct (_ !! _). Qed.
Lemma tail_Get id : stays tail_kept (Get id).
Proof. intros w. unfold Get. by destruct (_ !! _). Qed.
Lemma tail_close_opt o : stays tail_kept (close_opt o).
Proof. destruct o; [apply tail_netM|apply stays_ret, _]. Qed.
#[local] Hint Resolve tail_netM tail_sess_at tail_fwd_at tail_Get tail_close_opt : stays.
#[local] Hint Extern 1 (stays tail_kept (upd_sess _ _)) => apply tail_upd; by intros [] : stays.
#[local] Hint Extern 1 (stays tail_kept (modify _)) => by apply stays_modify : stays.

Lemma tail_setClient l c js a : stays tail_kept (setClient l c js a).
Proof. unfold setClient. solve_stays. Qed.
Lemma tail_markState l st e : stays tail_kept (markState l st e).
Proof. unfold markState. apply tail_upd. intros []. by destruct e. Qed.
#[local] Hint Resolve tail_setClient tail_markState : stays.
Lemma tail_connect_rest l sp : stays tail_kept (connect_rest l sp).
Proof. unfold connect_rest, enableAgentForwarding, startKeepalive, cancel. solve_stays. Qed.
Lemma tail_unreserve id : stays tail_kept (unreserve id).
Proof. by apply stays_modify. Qed.
Lemma tail_unreserve_own id l : stays tail_kept (unreserve_own id l).
Proof. apply stays_modify. intros w. by case_decide. Qed.
Lemma tail_restoreForward r : stays tail_kept (restoreForward r).
Proof.
  unfold restoreForward, OpenLocalForward, OpenRemoteForward, OpenDynamicForward, getClient. solve_stays.
Qed.

(** [Connect] up to the reservation: the spec is resolved. *)
Lemma connect_user_resumes id spec w : slice_ok (w_mem w) (Addresses spec) → slice_ok (w_mem w) (JumpHosts spec) →
  match connect_user CfgGet depth id spec w with
  | (Panic _, _) => True
  | (o, w') => sessions w' = sessions w ∧ w_sess w' = w_sess w ∧ w_next w' = w_next w ∧
     mem_frame (Addresses spec) (w_mem w) (w_mem w') ∧
     match o with
     | Ret sp => resumes (view (w_mem w) spec) (view (w_mem w') sp) ∧ Addresses sp = Addresses spec ∧
                 slice_ok (w_mem w') (JumpHosts sp)
     | _ => True
     end
  end.
Proof.
  intros Ha Hj. unfold connect_user. destruct (decide (id = "")) as [_|_].
  { split_and!; try done. }
  unfold mbind at 1, M_bind. unfold resolveSpec, mbind at 1, M_bind, netM at 1, zoom.
  destruct (try (call UserHomeDir) (w_net w)) as [[home|e|p] n]; [| |done].
  2:{ split_and!; done. }
  unfold mbind, M_bind, gets. cbn [w_mem].
  change (w_mem (w <| w_net := n |>)) with (w_mem w).
  destruct (resolveFromSSHConfig _ _ _ spec (w_mem w)) as [[sp m]|] eqn:Hres; [|done].
  destruct (resolve_resumes _ _ _ _ _ _ _ Ha Hj Hres) as [Hr HA].
  pose proof (resolve_jumps_ok _ _ _ _ _ _ _ Hj Hres) as Hj'.
  pose proof (resolve_shape _ _ _ _ _ _ _ Hres) as (Hm & _ & HU & _).
  unfold modify, mret, M_ret. destruct (decide (User sp = "")) as [Hu|_]; [|split_and!; done].
  unfold netM, zoom. destruct (getenv "USER" _) as [[u|e|p] n']; [|split_and!; done|done].
  destruct (decide (u = "")); split_and!; try done.
  destruct Hr as (R1 & R2 & R3 & R4 & R5 & R6). unfold resumes. split_and!; try done.
  intros Hne. cbn [view v_spec] in Hne. exfalso. apply Hne. rewrite <- Hu. symmetry. by apply HU.
Qed.

Lemma tail_lookup w w' l s : tail_kept w w' → w_sess w !! l = Some s →
  ∃ s', w_sess w' !! l = Some s' ∧ s_Spec s' = s_Spec s.
Proof.
  intros [_ E1] Hs. assert (H : (s_Spec <$> w_sess w') !! l = Some (s_Spec s)) by (by rewrite E1, lookup_fmap, Hs).
  rewrite lookup_fmap in H. by apply fmap_Some in H as (s' & -> & ->); exists s'.
Qed.

(** [Connect] once the id is reserved. *)
Definition connect_tail (id : string) (sp : ConnectSpec) (l : loc) : M World loc :=
  r ← try (dial PKH sp);
  match r with
  | inl e => unreserve id;; fail e
  | inr (c, jumps, addr) =>
    ok ← setClient l c jumps addr;
    if ok : bool then connect_rest l sp;; mret l
    else unreserve_own id l;; fail (Msg "session was disconnected during connect")
  end.
Lemma tail_connect_tail id sp l : stays tail_kept (connect_tail id sp l).
Proof.
  pose proof tail_connect_rest. pose proof tail_unreserve. pose proof tail_unreserve_own.
  unfold connect_tail, dial. solve_stays.
Qed.
Lemma connect_tail_loc id sp l w l' w' : connect_tail id sp l w = (Ret l', w') → l' = l.
Proof.
  unfold connect_tail, mbind, M_bind. destruct (try _ w) as [[[e|[[c js] addr]]|e|p] w1]; try done.
  destruct (setClient l c js addr w1) as [[[]|e|p] w2]; [| |done..].
  - destruct (connect_rest l sp w2) as [[[]|e|p] w3]; [|done..]. by intros [= <- _].
  - by destruct (unreserve_own id l w2) as [[[]|e|p] w3].
Qed.

(** [Connect] as a whole: it writes to the first array of its own spec and to new
    ones, and the session it makes has the spec it was given, resolved. *)
Lemma Connect_mem id spec w : light w →
  slice_ok (w_mem w) (Addresses spec) → slice_ok (w_mem w) (JumpHosts spec) →
  match Connect PKH CfgGet depth id spec w with
  | (Panic _, _) => True
  | (o, w') => mem_frame (Addresses spec) (w_mem w) (w_mem w') ∧
     (∀ l s, w_sess w !! l = Some s → ∃ s', w_sess w' !! l = Some s' ∧ s_Spec s' = s_Spec s) ∧
     match o with
     | Ret l => ∃ s, w_sess w' !! l = Some s ∧ resumes (view (w_mem w) spec) (view (w_mem w') (s_Spec s)) ∧
                Addresses (s_Spec s) = Addresses spec ∧ slice_ok (w_mem w') (JumpHosts (s_Spec s))
     | _ => True
     end
  end.
Proof.
  intros Hl Ha Hj. pose proof (connect_user_resumes id spec w Ha Hj) as Hu.
  change (Connect PKH CfgGet depth id spec) with
    (sp ← connect_user CfgGet depth id spec; l ← reserve id sp; connect_tail id sp l).
  unfold mbind at 1, M_bind at 1. destruct (connect_user CfgGet depth id spec w) as [[sp|e|p] w1]; [| |done].
  2:{ destruct Hu as (_ & Es & _ & Hm & _). split_and!; [done| |done]. intros l s Hs. exists s. by rewrite Es. }
  destruct Hu as (E1 & E2 & E3 & Hm & Hr & HA & Hj').
  unfold mbind at 1, M_bind at 1, reserve, new_sess, gets, modify, mret, M_ret. unfold mbind, M_bind.
  destruct (sessions w1 !! id) eqn:Hid.
  { split_and!; [done| |done]. intros l' s Hs. exists s. by rewrite E2. }
  set (l := w_next w1). set (w2 := w1 <| w_sess ::= _ |> <| w_next ::= _ |> <| sessions ::= _ |>).
  pose proof (tail_connect_tail id sp l w2) as Ht. pose proof (connect_tail_loc id sp l w2) as Hloc.
  assert (Hold : ∀ l0 s, w_sess w !! l0 = Some s → w_sess w2 !! l0 = Some s).
  { intros l0 s Hs. pose proof (li_sess _ Hl _ _ Hs). simpl. rewrite E2. rewrite lookup_insert_ne; [done|]. unfold l. rewrite E3. lia. }
  destruct (connect_tail id sp l w2) as [[l'|e|p] w'] eqn:Hrun; [| |done]; cbn [snd] in Ht; destruct Ht as [Em Es];
    (split_and!; [by rewrite Em|intros l0 s Hs; eapply (tail_lookup w2); [by split|by apply Hold]|]); [|done].
  rewrite (Hloc l' w' eq_refl).
  destruct (tail_lookup w2 w' l (Session0 id sp)) as (s & Hs & Esp); [by split|simpl; by rewrite lookup_insert_eq|].
  exists s. rewrite Esp, Em. by split_and!.
Qed.
End tail.

(** ** The whole start *)
Definition arrays (rs : list (string * ConnectSpec)) : list slice := map (λ r, Addresses r.2) rs.
(** What is known of a session that came from a record of [L], the file. *)
Definition from_file (L : list (string * SpecView)) (rest : list (string * ConnectSpec)) (m : Mem) (id : string) (sp : ConnectSpec) : Prop :=
  slice_ok m (Addresses sp) ∧ slice_ok m (JumpHosts sp) ∧ (Addresses sp ∉ arrays rest) ∧
  ∃ V, (id, V) ∈ L ∧ resumes V (view m sp).
(** [rest]: the records that are still to be connected. *)
Record resumed (L : list (string * SpecView)) (rest : list (string * ConnectSpec)) (w : World) : Prop := {
  re_light : light w;
  re_sess : ∀ id l s, sessions w !! id = Some l → w_sess w !! l = Some s → from_file L rest (w_mem w) id (s_Spec s);
  re_rest : ∀ r, r ∈ rest → slice_ok (w_mem w) (Addresses r.2) ∧ slice_ok (w_mem w) (JumpHosts r.2) ∧
    (r.1, view (w_mem w) r.2) ∈ L;
  re_nodup : NoDup (arrays rest);
}.

(** What [mem_frame] leaves of a spec with other addresses. *)
Lemma frame_view a m m' sp : mem_frame a m m' → slice_ok m (Addresses sp) → slice_ok m (JumpHosts sp) →
  Addresses sp ≠ a →
  slice_ok m' (Addresses sp) ∧ slice_ok m' (JumpHosts sp) ∧ view m' sp = view m sp.
Proof.
  intros Hm Ha Hj Hne. pose proof Hm as (Hle & _). split_and!; [by eapply slice_ok_grows..|].
  unfold view. by rewrite (mem_frame_addrs a m m'), (mem_frame_jumps a m m').
Qed.

(** A turn of the loop: a session of before is as it was, one that is new comes from
    the record [r]. *)
Lemma resumed_turn L r rest w w' : resumed L (r :: rest) w → light w' →
  mem_frame (Addresses r.2) (w_mem w) (w_mem w') →
  (∀ l s, w_sess w !! l = Some s → ∃ s', w_sess w' !! l = Some s' ∧ s_Spec s' = s_Spec s) →
  (∀ id l s, sessions w' !! id = Some l → w_sess w' !! l = Some s → sessions w !! id = Some l ∨
     id = r.1 ∧ Addresses (s_Spec s) = Addresses r.2 ∧ slice_ok (w_mem w') (JumpHosts (s_Spec s)) ∧
     resumes (view (w_mem w) r.2) (view (w_mem w') (s_Spec s))) →
  resumed L rest w'.
Proof.
  intros [Hl Hs Hr Hnd] Hl' Hf Hold Hnew. apply NoDup_cons in Hnd as [Hnotin Hnd].
  destruct (Hr r (list_elem_of_here _ _)) as (Ha & Hj & HL). split; [done| | |done].
  - intros id l s Hid Hls. destruct (Hnew id l s Hid Hls) as [Hid0|(-> & HA & HJ & HR)].
    + destruct (li_reg _ Hl id l Hid0) as (s1 & Hs1 & _). destruct (Hold l s1 Hs1) as (s1' & Hs1' & Esp).
      assert (s1' = s) as -> by congruence. rewrite Esp.
      destruct (Hs id l s1 Hid0 Hs1) as (H1 & H2 & H3 & V & HV & HR). apply not_elem_of_cons in H3 as [Hne H3].
      destruct (frame_view _ _ _ _ Hf H1 H2 Hne) as (G1 & G2 & G3). split_and!; [done..|]. exists V. by rewrite G3.
    + unfold from_file. rewrite HA. split_and!; [by eapply slice_ok_grows; [apply Hf|]|done|done|].
      by exists (view (w_mem w) r.2).
  - intros r' Hr'. destruct (Hr r' (list_elem_of_further _ _ _ Hr')) as (H1 & H2 & H3).
    assert (Hne : Addresses r'.2 ≠ Addresses r.2).
    { intros Heq. apply Hnotin. rewrite <- Heq. by apply (list_elem_of_fmap_2 (λ r, Addresses r.2)). }
    destruct (frame_view _ _ _ _ Hf H1 H2 Hne) as (G1 & G2 & G3). by rewrite G3.
Qed.

(** A loop that takes the records one by one. *)
Lemma count_each_takes {S A} (P : list A → S → Prop) (f : A → M S unit) :
  (∀ x l s, P (x :: l) s → match f x s with (Panic _, _) => True | (_, s') => P l s' end) →
  ∀ l ok failed s r s', P l s → count_each f l ok failed s = (Ret r, s') → P [] s'.
Proof.
  intros Hf. induction l as [|x l IH]; intros ok failed s r s' HP; cbn [count_each]; [by intros [= _ <-]|].
  unfold mbind, M_bind, try. specialize (Hf x l s HP). destruct (f x s) as [[[]|e|p] s1]; [| |done]; by apply IH.
Qed.

Section resumed.
Context {E : Env} (PKH : string → option (list string * option string * string)).
Context (CfgGet : string → string → string) (depth : nat).

Lemma resumed_connect L r rest w : resumed L (r :: rest) w →
  match (Connect PKH CfgGet depth r.1 r.2;; mret tt) w with
  | (Panic _, _) => True
  | (_, w') => resumed L rest w'
  end.
Proof.
  intros Hres. pose proof Hres as [Hl _ Hr _]. destruct (Hr r (list_elem_of_here _ _)) as (Ha & Hj & _).
  pose proof (Connect_mem PKH CfgGet depth r.1 r.2 w Hl Ha Hj) as Hm.
  pose proof (Connect_track PKH CfgGet depth r.1 r.2 w) as Ht. unfold wp in Ht.
  pose proof (holds_Connect PKH CfgGet depth r.1 r.2 w Hl) as [Hl' _].
  unfold mbind, M_bind. destruct (Connect PKH CfgGet depth r.1 r.2 w) as [[l|e|p] w']; [| |done]; cbn [fst snd] in *;
    destruct Hm as (Hf & Hold & Hnew); apply (resumed_turn L r rest w w' Hres Hl' Hf Hold); intros id l0 s Hid Hs.
  - destruct Ht as (_ & Hss & _). destruct Hnew as (sn & Hsn & HR & HA & HJ). rewrite Hss in Hid.
    apply lookup_insert_Some in Hid as [[<- <-]|[_ ?]]; [right|by left]. rewrite Hsn in Hs. by injection Hs as <-.
  - left. by rewrite <- Ht.
Qed.

Lemma Restore_resumes L snap w d c w' d' : resumed L (sn_SSHSessions snap) w →
  Restore PKH CfgGet depth snap (w, d) = (Ret c, (w', d')) →
  ∀ id l s, sessions w' !! id = Some l → w_sess w' !! l = Some s →
  ∃ V, (id, V) ∈ L ∧ resumes V (view (w_mem w') (s_Spec s)).
Proof.
  intros Hw Hres. unfold Restore, mbind, M_bind, sshM, dkM, zoom in Hres. simpl in Hres.
  destruct (count_each _ (sn_SSHSessions snap) 0 0 w) as [[[so sf]|e|p] w1] eqn:E1; [|done|done]. simpl in Hres.
  destruct (count_each _ (sn_Forwards snap) 0 0 w1) as [[[fo ff]|e|p] w2] eqn:E2; [|done|done]. simpl in Hres.
  destruct (count_each _ (sn_DockerHosts snap) 0 0 d) as [[[ko kf]|e|p] d1] eqn:E3; [|done|done].
  injection Hres as <- <- <-.
  apply (count_each_takes (resumed L) _ (λ r rest w, resumed_connect L r rest w)) in E1 as [Hl Hs _ _]; [|done].
  pose proof (count_each_stays same_sessions restoreForward (sn_Forwards snap) 0 0 same_restoreForward w1) as Hsame.
  pose proof (count_each_stays tail_kept restoreForward (sn_Forwards snap) 0 0 tail_restoreForward w1) as [Em Es].
  rewrite E2 in Hsame, Em, Es. unfold same_sessions in Hsame. cbn [snd] in *.
  intros id l s Hid Hls. rewrite Hsame in Hid. destruct (li_reg _ Hl id l Hid) as (s1 & Hs1 & _).
  destruct (tail_lookup w1 w2 l s1) as (s1' & Hs1' & Esp); [by split|done|].
  assert (s1' = s) as -> by congruence. rewrite Esp, Em. by destruct (Hs id l s1 Hid Hs1) as (_ & _ & _ & ?).
Qed.
End resumed.

(** ** What the file holds *)
Definition nil_slices (v : SpecView) : Prop :=
  v_spec v <| Addresses := None |> <| JumpHosts := None |> = v_spec v.

(** Decoding gives every record arrays of its own. *)
Lemma decode_record_run r w : nil_slices r.2 →
  ∃ a m, decode_record r w = (Ret a, w <| w_mem := m |>) ∧ a.1 = r.1 ∧ view m a.2 = r.2 ∧
    Addresses a.2 = Some (m_next (w_mem w)) ∧ (m_next (w_mem w) < m_next m)%positive ∧
    slice_ok m (JumpHosts a.2) ∧ mem_frame None (w_mem w) m.
Proof.
  intros Hnil. destruct r as [id [sp addrs jumps]]. unfold nil_slices in Hnil. cbn [fst snd v_spec] in *.
  unfold decode_record, alloc_spec, mbind, M_bind. cbn [fst snd v_spec v_addrs v_jumps].
  destruct (new_addrs addrs (w_mem w)) as [a m1] eqn:Ha. destruct (new_jumps jumps m1) as [j m2] eqn:Hj.
  eexists _, m2. split; [reflexivity|]. cbn [fst snd].
  pose proof (addrs_new _ _ _ _ Ha) as Ea. pose proof (jumps_new _ _ _ _ Hj) as Ej.
  pose proof (mem_frame_new_addrs None addrs (w_mem w)) as F1. pose proof (mem_frame_new_jumps None jumps m1) as F2.
  rewrite Ha in F1. rewrite Hj in F2. cbn [snd] in *.
  assert (Ha2 : addrs_at m2 a = addrs).
  { rewrite <- Ea. injection Ha as <- <-. injection Hj as <- <-. done. }
  split_and!; [done| | | | |by eapply mem_frame_trans].
  - unfold view. simpl. rewrite Ha2, Ej. f_equal. rewrite <- Hnil. by destruct sp.
  - simpl. by injection Ha as <- _.
  - injection Ha as _ <-. injection Hj as _ <-. simpl. lia.
  - injection Ha as _ <-. injection Hj as <- <-. simpl. lia.
Qed.

Lemma decode_records_run rs w : Forall (λ r, nil_slices r.2) rs →
  ∃ l m, decode_records rs w = (Ret l, w <| w_mem := m |>) ∧ mem_frame None (w_mem w) m ∧
    (∀ r, r ∈ l → slice_ok m (Addresses r.2) ∧ slice_ok m (JumpHosts r.2) ∧ (r.1, view m r.2) ∈ rs ∧
       ∃ a, Addresses r.2 = Some a ∧ (m_next (w_mem w) ≤ a)%positive) ∧
    NoDup (arrays l).
Proof.
  intros Hall. revert w. induction Hall as [|r rs Hr _ IH]; intros w; cbn [decode_records].
  { exists [], (w_mem w). unfold mret, M_ret. split_and!; [by destruct w|apply mem_frame_refl|by intros ? ?%elem_of_nil|constructor]. }
  destruct (decode_record_run r w Hr) as (a & m & Hrun & E1 & E2 & E3 & E4 & E5 & E6).
  destruct (IH (w <| w_mem := m |>)) as (l & m' & Hrun' & F & Hl & Hnd).
  exists (a :: l), m'. rewrite (bind_ret _ _ _ _ _ Hrun), (bind_ret _ _ _ _ _ Hrun'). change (w_mem (w <| w_mem := m |>)) with m in *.
  assert (Hown : slice_ok m (Addresses a.2)) by (rewrite E3; simpl; lia).
  destruct (frame_view None m m' a.2 F Hown E5) as (G1 & G2 & G3); [by rewrite E3|].
  split_and!; [done|by eapply mem_frame_trans| |].
  - intros r' [->|Hr']%elem_of_cons.
    + split_and!; [done|done| |exists (m_next (w_mem w)); split; [done|lia]].
      rewrite G3, E1, E2. destruct r. apply list_elem_of_here.
    + destruct (Hl r' Hr') as (H1 & H2 & H3 & b & H4 & H5). split_and!; [done|done|by apply list_elem_of_further|].
      exists b. split; [done|lia].
  - constructor; [|done]. intros (r' & E & Hr')%list_elem_of_fmap.
    destruct (Hl r' Hr') as (_ & _ & _ & b & H4 & H5). rewrite H4, E3 in E. injection E as E. lia.
Qed.

(** A record of the file is a persistent session, read out. *)
Lemma saved_records w d snap w' d' id V : light w → dlight d → Capture (w, d) = (Ret snap, (w', d')) →
  (id, V) ∈ sv_SSH (view_snapshot (w_mem w') snap) →
  nil_slices V ∧ ∃ l s, sessions w !! id = Some l ∧ w_sess w !! l = Some s ∧ Persistent (s_Spec s) = true ∧
    V = saved_view (w_mem w) (s_Spec s).
Proof.
  intros Hl Hd. rewrite (Capture_run w d (light_managers w d Hl Hd)). intros [= <- <- <-]. cbn [sv_SSH view_snapshot sn_SSHSessions].
  intros ([k sp] & [= -> ->] & (l & s & Hin & Hs & Hp & -> & ->)%elem_of_ssh_records)%list_elem_of_fmap.
  pose proof Hin as [k' Hk]%elem_of_listed. destruct (li_reg w Hl k' l Hk) as (s' & Hs' & <-). assert (s' = s) as -> by congruence.
  split; [by destruct (s_Spec s)|]. exists l, s. split_and!; [done..|]. unfold saved_view, view. cbn [v_spec v_addrs v_jumps].
  change (w_mem (w <| w_mem := scrub_all w |>)) with (scrub_all w). f_equal.
  - clear. unfold scrub_all. generalize (w_mem w). induction (listed (sessions w)) as [|l' ls IH]; intros m; [done|]. simpl.
    rewrite IH. unfold scrub_session. repeat case_match; try done. unfold scrub_array. by case_match.
  - apply (foldl_scrub_at w _ (w_mem w) l s Hin Hs Hp).
Qed.

Section boot.
Context {L : Lib}.
(** A start with empty managers on the file of a snapshot. *)
Lemma boot_resumes path v w c w' data : light (worlds w).1 → sessions (worlds w).1 = ∅ →
  fs_files (mw_state w) !! path = Some data → unmarshal_state data = inr (with_version v) →
  Forall (λ r, nil_slices r.2) (sv_SSH v) → boot path w = (Ret (Some c), w') →
  ∀ id l s, sessions (worlds w').1 !! id = Some l → w_sess (worlds w').1 !! l = Some s →
  ∃ V, (id, V) ∈ sv_SSH v ∧ resumes V (view (w_mem (worlds w').1) (s_Spec s)).
Proof.
  intros Hl He Hfile Hdec Hnil Hboot.
  destruct (boot_restores path v w c w' data Hfile Hdec Hboot) as (snap & a & Hsnap & Hres).
  assert (Ev : sv_SSH (with_version v) = sv_SSH v) by (unfold with_version; by case_decide).
  destruct (decode_records_run (sv_SSH v) (worlds w).1 Hnil) as (rs & m & Hrun & _ & Hrs & Hnd).
  unfold decode_snapshot in Hsnap. rewrite Ev, (bind_ret _ _ _ _ _ Hrun) in Hsnap. injection Hsnap as <- <-.
  destruct (worlds w') as [a2 d2].
  eapply (Restore_resumes ParseKnownHosts CfgGet jump_depth (sv_SSH v)); [|exact Hres]. split.
  - apply (kept_eq (worlds w).1); [done..|]. exact Hl.
  - intros id l s Hid. change (sessions (worlds w).1 !! id = Some l) in Hid. by rewrite He in Hid.
  - intros r Hr. destruct (Hrs r Hr) as (H1 & H2 & H3 & _). done.
  - exact Hnd.
Qed.
End boot.
