(* ===== verification/Restart.v ===== *)
(** * What comes back after a restart (mcptools/server.go, state, cmd/remote-shell-mcpd/main.go)

    The composition of the managers, the snapshot, the state file and the two ends of
    the daemon: what was persistent when a daemon was shut down is what the next one
    has when it has started, but for the records it counts as failed.  The state of the
    managers is compared through their registries, [abs] and [dabs]. *)

From S2P Require Import Docker.
From S2P Require Import Prelude GoStrings Url External Spec SshConfig Auth Dial World Ledger Session Forward Shell Manager ManagerProps State Files Store Containers Disk Copy Sftp Records Registry DRegistry Tools ToolsSsh ToolsDocker Catalogue Persistence Flush Life Resume.
From Stdlib Require Import Ascii.

(** ** A registry as the facts it states *)
Abbreviation fact := (prod string (option (prod string ForwardSpec))).
Definition states (R : registry) (y : fact) : Prop :=
  match y with
  | (id, None) => is_Some (R !! id)
  | (id, Some (fid, s)) => ∃ fs, R !! id = Some fs ∧ fs !! fid = Some s
  end.
Lemma states_eq R R' : (∀ y, states R y ↔ states R' y) → R = R'.
Proof.
  intros H. apply map_eq. intros id. pose proof (H (id, None)) as Hid. simpl in Hid.
  destruct (R !! id) as [fs|] eqn:E, (R' !! id) as [fs'|] eqn:E'; [|by destruct (proj1 Hid)|by destruct (proj2 Hid)|done].
  f_equal. apply map_eq. intros fid. apply option_eq. intros s. pose proof (H (id, Some (fid, s))) as Hs. simpl in Hs.
  rewrite E, E' in Hs. naive_solver.
Qed.
Lemma states_connect (R : registry) id y : R !! id = None → states (<[id := ∅]> R) y ↔ states R y ∨ y = (id, None).
Proof.
  intros Hid. destruct y as [k [[fid s]|]]; simpl.
  - split; [|intros [(fs & H1 & H2)|[=]]; exists fs; by rewrite lookup_insert_ne by congruence].
    intros (fs & [[<- <-]|[Hk Hfs]]%lookup_insert_Some & H2); [by rewrite lookup_empty in H2|left; by exists fs].
  - destruct (decide (k = id)) as [->|Hk]; [rewrite lookup_insert_eq; split; [by right|by eexists]|].
    rewrite lookup_insert_ne by done. split; [by left|]. by intros [?|[=]].
Qed.
Lemma states_open (R : registry) sid fid s fs y : R !! sid = Some fs → fs !! fid = None →
  states (<[sid := <[fid := s]> fs]> R) y ↔ states R y ∨ y = (sid, Some (fid, s)).
Proof.
  intros Hs Hf. destruct y as [k [[j t]|]]; simpl.
  - split.
    + intros (gs & [[<- <-]|[Hk Hg]]%lookup_insert_Some & H2); [|left; by exists gs].
      apply lookup_insert_Some in H2 as [[<- <-]|[_ H2]]; [by right|left; by exists fs].
    + intros [(gs & H1 & H2)|[= -> -> ->]]; [|exists (<[fid := s]> fs); by rewrite !lookup_insert_eq].
      destruct (decide (k = sid)) as [->|Hk]; [|exists gs; by rewrite lookup_insert_ne].
      exists (<[fid := s]> fs). rewrite lookup_insert_eq. split; [done|]. simplify_eq. rewrite lookup_insert_ne; [done|congruence].
  - destruct (decide (k = sid)) as [->|Hk]; [rewrite lookup_insert_eq, Hs; split; [by left|by eexists]|].
    rewrite lookup_insert_ne by done. split; [by left|]. by intros [?|[=]].
Qed.

(** ** A loop over records *)
(** Each turn that succeeds adds the facts [new x]; one that fails adds none. *)
Lemma count_each_facts {S A X} (P : S → Prop) (facts : S → X → Prop) (new : A → X → Prop) (f : A → M S unit) l :
  (∀ x s, P s → match f x s with
    | (Ret _, s') => P s' ∧ ∀ y, facts s' y ↔ facts s y ∨ new x y
    | (Err _, s') => P s' ∧ ∀ y, facts s' y ↔ facts s y
    | (Panic _, _) => True
    end) →
  ∀ ok failed s ok' failed' s', P s → count_each f l ok failed s = (Ret (ok', failed'), s') →
  P s' ∧ failed ≤ failed' ∧ (∀ y, facts s y → facts s' y) ∧
  (∀ y, facts s' y → facts s y ∨ ∃ x, x ∈ l ∧ new x y) ∧
  (failed' = failed → ∀ x y, x ∈ l → new x y → facts s' y).
Proof.
  intros Hf. induction l as [|x l IH]; intros ok failed s ok' failed' s' HP; cbn [count_each].
  { unfold mret, M_ret. intros [= <- <- <-]. split_and!; [done|done|done|by left|]. by intros _ x y ?%elem_of_nil. }
  unfold mbind, M_bind, try. specialize (Hf x s HP). destruct (f x s) as [[[]|e|p] s1]; [| |done]; destruct Hf as [HP1 Hf];
    intros (H1 & H2 & H3 & H4 & H5)%IH; try done.
  - split_and!; [done|done| | |].
    + intros y Hy. apply H3, Hf. by left.
    + intros y [[Hy|Hy]%Hf|(z & Hz & Hy)]%H4; [by left|right; exists x; split; [apply list_elem_of_here|done]|].
      right. exists z. split; [by apply list_elem_of_further|done].
    + intros E z y [->|Hz]%elem_of_cons Hy; [apply H3, Hf; by right|by eapply H5].
  - split_and!; [done|lia| | |intros; lia].
    + intros y Hy. by apply H3, Hf.
    + intros y [Hy%Hf|(z & Hz & Hy)]%H4; [by left|]. right. exists z. split; [by apply list_elem_of_further|done].
Qed.

(** Each turn that succeeds adds [k] to [mu]. *)
Lemma count_each_measure {S A} (P : S → Prop) (mu : S → nat) (k : nat) (f : A → M S unit) l :
  (∀ x s, P s → match f x s with
    | (Ret _, s') => P s' ∧ mu s' = (mu s + k)%nat
    | (Err _, s') => P s' ∧ mu s' = mu s
    | (Panic _, _) => True
    end) →
  ∀ ok failed s ok' failed' s', P s → count_each f l ok failed s = (Ret (ok', failed'), s') →
  P s' ∧ Z.of_nat (mu s') = Z.of_nat (mu s) + Z.of_nat k * (ok' - ok).
Proof.
  intros Hf. induction l as [|x l IH]; intros ok failed s ok' failed' s' HP; cbn [count_each].
  { unfold mret, M_ret. intros [= <- <- <-]. split; [done|lia]. }
  unfold mbind, M_bind, try. specialize (Hf x s HP). destruct (f x s) as [[[]|e|p] s1]; [| |done]; destruct Hf as [HP1 Hf];
    intros (H1 & H2)%IH; try done; (split; [done|nia]).
Qed.

(** ** Counting what a registry has *)
Definition fwd_count (R : registry) : nat := List.length (listed R ≫= listed).

Lemma listed_insert {V} (m : gmap string V) k x : m !! k = None → listed (<[k := x]> m) ≡ₚ x :: listed m.
Proof. intros Hk. unfold listed. by rewrite map_to_list_insert. Qed.
Lemma listed_update {V} (m : gmap string V) k x y : m !! k = Some x →
  listed m ≡ₚ x :: listed (delete k m) ∧ listed (<[k := y]> m) ≡ₚ y :: listed (delete k m).
Proof.
  intros Hk. rewrite <- (insert_delete_id m k x Hk) at 1. rewrite <- (insert_delete_eq m k y).
  by rewrite !listed_insert by apply lookup_delete_eq.
Qed.
(** The records made from the entries of a map, and the entries of what it maps to. *)
Lemma length_records {V W C D} (g : V → list C) (f : V → option W) (h : W → list D) (m : gmap string V) :
  (∀ k a, m !! k = Some a → List.length (g a) = match f a with Some b => List.length (h b) | None => 0%nat end) →
  List.length (listed m ≫= g) = List.length (listed (omap f m) ≫= h).
Proof.
  induction m as [|k a m Hk IH] using map_ind; intros Hg.
  { by rewrite omap_empty. }
  rewrite (listed_insert m k a Hk). cbn. rewrite length_app.
  rewrite IH by (intros k' a' Hk'; apply (Hg k' a'); rewrite lookup_insert_ne; [done|congruence]).
  rewrite (Hg k a) by apply lookup_insert_eq. destruct (f a) as [b|] eqn:Hf.
  - rewrite (omap_insert_Some f m k a b Hf), listed_insert by (by rewrite lookup_omap, Hk). cbn. by rewrite length_app.
  - rewrite (omap_insert_None f m k a Hf), delete_id; [done|]. by rewrite lookup_omap, Hk.
Qed.
Lemma length_ones {V} (l : list V) : List.length (l ≫= λ x, [x]) = List.length l.
Proof. induction l as [|x l IH]; [done|]. cbn. by rewrite IH. Qed.
Lemma omap_bind {A B} (f : A → option B) (l : list A) : omap f l = l ≫= (λ x, option_list (f x)).
Proof. induction l as [|x l IH]; [done|]. cbn. rewrite <- IH. by destruct (f x). Qed.

Lemma fwd_count_connect (R : registry) id : R !! id = None → fwd_count (<[id := ∅]> R) = fwd_count R.
Proof. intros Hid. unfold fwd_count. by rewrite (listed_insert R id ∅ Hid). Qed.
Lemma fwd_count_open (R : registry) sid fid s fs : R !! sid = Some fs → fs !! fid = None →
  fwd_count (<[sid := <[fid := s]> fs]> R) = S (fwd_count R).
Proof.
  intros Hs Hf. unfold fwd_count. destruct (listed_update R sid fs (<[fid := s]> fs) Hs) as [-> ->].
  cbn. rewrite !length_app, (listed_insert fs fid s Hf). done.
Qed.

(** ** Restore *)
(** The forward a record asks for, if it is of a known kind and has its spec. *)
Definition spec_of (r : ForwardRecord) : option ForwardSpec :=
  if decide (fr_Kind r = "local") then ForwardLocal <$> fr_LocalSpec r
  else if decide (fr_Kind r = "remote") then ForwardRemote <$> fr_RemoteSpec r
  else if decide (fr_Kind r = "dynamic") then ForwardDynamic <$> fr_DynamicSpec r
  else None.
Definition new_forward (r : ForwardRecord) (y : fact) : Prop :=
  ∃ s, spec_of r = Some s ∧ y = (fr_SessionID r, Some (fr_ID r, asked s)).
(** All that a snapshot asks for. *)
Definition asks_for (snap : Snapshot) (y : fact) : Prop :=
  match y with
  | (id, None) => id ∈ (sn_SSHSessions snap).*1
  | _ => ∃ r, r ∈ sn_Forwards snap ∧ new_forward r y
  end.

Section restore.
Context {E : Env} (PKH : string → option (list string * option string * string)).
Context (CfgGet : string → string → string) (depth : nat).

(** Restoring a forward is opening the one its record asks for, or nothing. *)
Lemma restoreForward_refines r :
  match spec_of r with
  | Some s => refines (QOpen (fr_SessionID r) (fr_ID r) s) (restoreForward r)
  | None => ∀ w, ∃ e, restoreForward r w = (Err e, w)
  end.
Proof.
  unfold spec_of, restoreForward. repeat case_decide; [| | |by eexists].
  - destruct (fr_LocalSpec r) as [s|]; [|by eexists]. apply refines_void, OpenLocal_refines.
  - destruct (fr_RemoteSpec r) as [s|]; [|by eexists]. apply refines_void, OpenRemote_refines.
  - destruct (fr_DynamicSpec r) as [s|]; [|by eexists]. apply refines_void, OpenDynamic_refines.
Qed.
Lemma restoreForward_abs r w : light w →
  match restoreForward r w with
  | (Ret _, w') => light w' ∧ ∃ s fs, spec_of r = Some s ∧ abs w !! fr_SessionID r = Some fs ∧ fs !! fr_ID r = None ∧
      abs w' = <[fr_SessionID r := <[fr_ID r := asked s]> fs]> (abs w)
  | (Err _, w') => light w' ∧ abs w' = abs w
  | (Panic _, _) => True
  end.
Proof.
  intros Hl. pose proof (restoreForward_refines r) as Hm. destruct (spec_of r) as [s|].
  - specialize (Hm w Hl). destruct (restoreForward r w) as [[a|e|p] w']; [| |done]; destruct Hm as [Hl' Hst]; (split; [done|]);
      inversion Hst; subst; [|done]. by eexists _, _.
  - destruct (Hm w) as [e ->]. done.
Qed.
Lemma restoreForward_states r w : light w →
  match restoreForward r w with
  | (Ret _, w') => light w' ∧ ∀ y, states (abs w') y ↔ states (abs w) y ∨ new_forward r y
  | (Err _, w') => light w' ∧ ∀ y, states (abs w') y ↔ states (abs w) y
  | (Panic _, _) => True
  end.
Proof.
  intros Hl. pose proof (restoreForward_abs r w Hl) as H. destruct (restoreForward r w) as [[a|e|p] w']; [| |done].
  - destruct H as (Hl' & s & fs & Es & H1 & H2 & ->). split; [done|]. intros y. rewrite (states_open _ _ _ _ _ _ H1 H2).
    unfold new_forward. rewrite Es. naive_solver.
  - destruct H as [Hl' ->]. by split.
Qed.
Lemma restoreForward_count r w : light w →
  match restoreForward r w with
  | (Ret _, w') => light w' ∧ fwd_count (abs w') = (fwd_count (abs w) + 1)%nat
  | (Err _, w') => light w' ∧ fwd_count (abs w') = fwd_count (abs w)
  | (Panic _, _) => True
  end.
Proof.
  intros Hl. pose proof (restoreForward_abs r w Hl) as H. destruct (restoreForward r w) as [[a|e|p] w']; [| |done].
  - destruct H as (Hl' & s & fs & Es & H1 & H2 & ->). split; [done|]. rewrite (fwd_count_open _ _ _ _ _ H1 H2). lia.
  - destruct H as [Hl' ->]. by split.
Qed.
Lemma connect_count (r : string * ConnectSpec) w : light w →
  match (Connect PKH CfgGet depth r.1 r.2;; mret tt) w with
  | (Ret _, w') => light w' ∧ fwd_count (abs w') = (fwd_count (abs w) + 0)%nat
  | (Err _, w') => light w' ∧ fwd_count (abs w') = fwd_count (abs w)
  | (Panic _, _) => True
  end.
Proof.
  intros Hl. pose proof (refines_void _ _ (Connect_refines PKH CfgGet depth r.1 r.2) w Hl) as H.
  destruct ((Connect PKH CfgGet depth r.1 r.2;; mret tt) w) as [[a|e|p] w']; [| |done]; destruct H as [Hl' Hst]; (split; [done|]);
    inversion Hst; subst; [|done]. rewrite fwd_count_connect by done. lia.
Qed.
Lemma connect_states (r : string * ConnectSpec) w : light w →
  match (Connect PKH CfgGet depth r.1 r.2;; mret tt) w with
  | (Ret _, w') => light w' ∧ ∀ y, states (abs w') y ↔ states (abs w) y ∨ y = (r.1, None)
  | (Err _, w') => light w' ∧ ∀ y, states (abs w') y ↔ states (abs w) y
  | (Panic _, _) => True
  end.
Proof.
  intros Hl. pose proof (refines_void _ _ (Connect_refines PKH CfgGet depth r.1 r.2) w Hl) as H.
  destruct ((Connect PKH CfgGet depth r.1 r.2;; mret tt) w) as [[a|e|p] w']; [| |done]; destruct H as [Hl' Hst]; split; try done;
    inversion Hst; subst; [|done]. intros y. by apply states_connect.
Qed.
Lemma dconnect_hosts (r : string * DockerSpec) d : dlight d →
  match (Docker.Connect PKH r.1 r.2;; mret tt) d with
  | (Ret _, d') => dlight d' ∧ ∀ y : string * DockerSpec, dabs d' !! y.1 = Some y.2 ↔ dabs d !! y.1 = Some y.2 ∨ y = r
  | (Err _, d') => dlight d' ∧ ∀ y : string * DockerSpec, dabs d' !! y.1 = Some y.2 ↔ dabs d !! y.1 = Some y.2
  | (Panic _, _) => True
  end.
Proof.
  intros Hl. destruct r as [id spec]. cbn [fst snd]. unfold mbind, M_bind. pose proof (Connect_dabs PKH id spec d Hl) as H.
  destruct (Docker.Connect PKH id spec d) as [[l|e|p] d']; [| |done]; (split; [by apply H|]).
  - destruct H as (_ & Hid & ->). intros [k sp]. simpl. rewrite lookup_insert_Some. split.
    + intros [[<- <-]|[_ ?]]; [by right|by left].
    + intros [Hk|[= -> ->]]; [|by left]. right. split; [congruence|done].
  - intros y. by rewrite (proj2 H).
Qed.

Lemma Restore_states snap w d c w' d' : light w → dlight d →
  Restore PKH CfgGet depth snap (w, d) = (Ret c, (w', d')) →
  (∀ y, states (abs w') y → states (abs w) y ∨ asks_for snap y) ∧
  (sshFail c = 0 → fwdFail c = 0 → ∀ y, asks_for snap y → states (abs w') y) ∧
  (∀ id sp, dabs d' !! id = Some sp → dabs d !! id = Some sp ∨ (id, sp) ∈ sn_DockerHosts snap) ∧
  (dkFail c = 0 → ∀ id sp, (id, sp) ∈ sn_DockerHosts snap → dabs d' !! id = Some sp).
Proof.
  intros Hl Hd Hres. unfold Restore, mbind, M_bind, sshM, dkM, zoom in Hres. simpl in Hres.
  destruct (count_each _ (sn_SSHSessions snap) 0 0 w) as [[[so sf]|e|p] w1] eqn:E1; [|done|done]. simpl in Hres.
  destruct (count_each _ (sn_Forwards snap) 0 0 w1) as [[[fo ff]|e|p] w2] eqn:E2; [|done|done]. simpl in Hres.
  destruct (count_each _ (sn_DockerHosts snap) 0 0 d) as [[[ko kf]|e|p] d1] eqn:E3; [|done|done].
  injection Hres as <- <- <-. simpl.
  apply (count_each_facts light (λ w, states (abs w)) (λ r y, y = (r.1, None)) _ _ connect_states) in E1 as (Hl1 & _ & A3 & A4 & A5); [|done].
  apply (count_each_facts light (λ w, states (abs w)) new_forward _ _ restoreForward_states) in E2 as (_ & _ & B3 & B4 & B5); [|done].
  apply (count_each_facts dlight (λ d (y : string * DockerSpec), dabs d !! y.1 = Some y.2) (λ r y, y = r) _ _ dconnect_hosts)
    in E3 as (_ & _ & _ & C4 & C5); [|done].
  split_and!.
  - intros y [[Hy|(r & Hr & ->)]%A4|(r & Hr & Hy)]%B4; [by left| |].
    + right. simpl. apply list_elem_of_fmap. by exists r.
    + right. destruct Hy as (s & Es & ->). exists r. split; [done|]. by exists s.
  - intros Hsf Hff [id [[fid s]|]] Hy.
    + destruct Hy as (r & Hr & Hy). by eapply B5.
    + apply B3. apply list_elem_of_fmap in Hy as (r & -> & Hr). by eapply A5.
  - intros id sp Hid. destruct (C4 (id, sp) Hid) as [?|(r & Hr & <-)]; [by left|by right].
  - intros Hkf id sp Hin. by apply (C5 Hkf (id, sp) (id, sp)).
Qed.
(** Every record is tried and counted once, and what succeeded is there. *)
Lemma Restore_counts snap w d c w' d' : light w →
  Restore PKH CfgGet depth snap (w, d) = (Ret c, (w', d')) →
  fwdOK c + fwdFail c = Z.of_nat (List.length (sn_Forwards snap)) ∧
  Z.of_nat (fwd_count (abs w')) = Z.of_nat (fwd_count (abs w)) + fwdOK c.
Proof.
  intros Hl Hres. unfold Restore, mbind, M_bind, sshM, dkM, zoom in Hres. simpl in Hres.
  destruct (count_each _ (sn_SSHSessions snap) 0 0 w) as [[[so sf]|e|p] w1] eqn:E1; [|done|done]. simpl in Hres.
  destruct (count_each _ (sn_Forwards snap) 0 0 w1) as [[[fo ff]|e|p] w2] eqn:E2; [|done|done]. simpl in Hres.
  destruct (count_each _ (sn_DockerHosts snap) 0 0 d) as [[[ko kf]|e|p] d1] eqn:E3; [|done|done].
  injection Hres as <- <- <-. cbn [fwdOK fwdFail].
  apply (count_each_measure light (λ w, fwd_count (abs w)) 0 _ _ connect_count) in E1 as (Hl1 & M1); [|done].
  pose proof (count_each_sum _ _ _ _ _ _ _ _ E2) as Hsum.
  apply (count_each_measure light (λ w, fwd_count (abs w)) 1 _ _ restoreForward_count) in E2 as (_ & M2); [|done].
  split; lia.
Qed.
End restore.

(** ** What a snapshot asks for *)
(** The persistent part of the registries; a Docker spec is kept without its secrets. *)
Definition persistent (w : World) : registry :=
  omap (λ l, match w_sess w !! l with Some s => if Persistent (s_Spec s) then Some (view w l) else None | None => None end)
    (sessions w).
Definition dpersistent (d : DWorld) : host_reg :=
  omap (λ sp, if d_Persistent sp then Some (ScrubDocker sp) else None) (dabs d).

Lemma persistent_Some w id fs : persistent w !! id = Some fs ↔
  ∃ l s, sessions w !! id = Some l ∧ w_sess w !! l = Some s ∧ Persistent (s_Spec s) = true ∧ fs = view w l.
Proof.
  unfold persistent. rewrite lookup_omap. split.
  - intros (l & Hl & Hv)%bind_Some. destruct (w_sess w !! l) as [s|] eqn:Hs; [|done].
    destruct (Persistent (s_Spec s)) eqn:Hp; [|done]. injection Hv as <-. by exists l, s.
  - intros (l & s & -> & Hs & Hp & ->). cbn. by rewrite Hs, Hp.
Qed.
Lemma dpersistent_Some d id sp : dlight d → dpersistent d !! id = Some sp ↔
  ∃ l h, Docker.hosts d !! id = Some l ∧ Docker.dw_host d !! l = Some h ∧ d_Persistent (Docker.h_Spec h) = true ∧
    sp = ScrubDocker (Docker.h_Spec h).
Proof.
  intros Hd. unfold dpersistent, dabs. rewrite !lookup_omap. split.
  - intros (sp' & (l & Hl & Hh)%bind_Some & Hv)%bind_Some. apply fmap_Some in Hh as (h & Hh & ->).
    destruct (d_Persistent (Docker.h_Spec h)) eqn:Hp; [|done]. injection Hv as <-. by exists l, h.
  - intros (l & h & -> & Hh & Hp & ->). cbn. rewrite Hh. cbn. by rewrite Hp.
Qed.
Lemma spec_of_record sid F : spec_of (record_of sid (fwd_Info F)) = Some (f_Spec F).
Proof. unfold spec_of, fwd_Info. by destruct (f_Spec F). Qed.
Lemma record_of_ids sid F : fr_SessionID (record_of sid (fwd_Info F)) = sid ∧ fr_ID (record_of sid (fwd_Info F)) = f_ID F.
Proof. unfold fwd_Info. by destruct (f_Spec F). Qed.

Lemma capture_asks w d snap b : light w → dlight d → Capture (w, d) = (Ret snap, b) →
  (∀ y, asks_for snap y ↔ states (persistent w) y) ∧
  (∀ id sp, (id, sp) ∈ sn_DockerHosts snap ↔ dpersistent d !! id = Some sp).
Proof.
  intros Hl Hd. rewrite (Capture_run w d (light_managers w d Hl Hd)). intros [= <- <-]. split.
  - intros [id [[fid t]|]]; simpl.
    + split.
      * intros (r & (k & l & s & fk & f & F & Hk & Hs & Hp & Hf & HF & ->)%elem_of_forward_records & s0 & Es & Ey); [|by apply Hl].
        rewrite spec_of_record in Es. destruct (record_of_ids k F) as [E1 E2]. rewrite E1, E2 in Ey. injection Es as <-. injection Ey as -> -> ->.
        destruct (li_fwds w Hl l s fk f Hs Hf) as (F' & HF' & HID & Ha). assert (F' = F) as -> by congruence. subst fk. rewrite Ha.
        exists (view w l). split; [apply persistent_Some; eauto 8|]. unfold view. rewrite Hs, lookup_omap, Hf. cbn. by rewrite HF.
      * intros (fs & (l & s & Hid & Hs & Hp & ->)%persistent_Some & Hv). unfold view in Hv. rewrite Hs, lookup_omap in Hv.
        apply bind_Some in Hv as (f & Hf & (F & HF & ->)%fmap_Some).
        destruct (li_fwds w Hl l s fid f Hs Hf) as (F' & HF' & HID & Ha). assert (F' = F) as -> by congruence.
        exists (record_of id (fwd_Info F)). split; [apply elem_of_forward_records; [by apply Hl|eauto 12]|].
        exists (f_Spec F). rewrite spec_of_record. destruct (record_of_ids id F) as [-> ->]. by rewrite Ha, HID.
    + rewrite list_elem_of_fmap. split.
      * intros ([k sp] & -> & (l & s & [k' Hid]%elem_of_listed & Hs & Hp & -> & _)%elem_of_ssh_records).
        destruct (li_reg w Hl k' l Hid) as (s' & Hs' & <-). simplify_eq. exists (view w l). apply persistent_Some. eauto 8.
      * intros [fs (l & s & Hid & Hs & Hp & ->)%persistent_Some]. destruct (li_reg w Hl id l Hid) as (s' & Hs' & <-). simplify_eq.
        exists (s_ID s, s_Spec s <| Auth ::= scrub_auth |>). split; [done|]. apply elem_of_ssh_records. exists l, s.
        split_and!; [apply elem_of_listed; by exists (s_ID s)|done..].
  - intros id sp. simpl. rewrite elem_of_host_records, dpersistent_Some by done. split.
    + intros (l & h & [k Hk]%elem_of_listed & Hh & Hp & -> & ->). destruct (dl_reg d Hd k l Hk) as (h' & Hh' & <-).
      simplify_eq. eauto 8.
    + intros (l & h & Hk & Hh & Hp & ->). destruct (dl_reg d Hd id l Hk) as (h' & Hh' & <-). simplify_eq.
      exists l, h. split_and!; [apply elem_of_listed; by exists (Docker.h_ID h)|done..].
Qed.

(** One record for each thing that is kept. *)
Lemma capture_counts w d snap b : light w → dlight d → Capture (w, d) = (Ret snap, b) →
  List.length (sn_SSHSessions snap) = size (persistent w) ∧
  List.length (sn_Forwards snap) = fwd_count (persistent w) ∧
  List.length (sn_DockerHosts snap) = size (dpersistent d).
Proof.
  intros Hl Hd. rewrite (Capture_run w d (light_managers w d Hl Hd)). intros [= <- <-]. cbn [sn_SSHSessions sn_Forwards sn_DockerHosts].
  split_and!.
  - rewrite <- length_listed, <- (length_ones (listed (persistent w))). apply (length_records (ssh_record w)). intros id l Hid.
    unfold ssh_record. destruct (li_reg w Hl id l Hid) as (s & -> & _). by destruct (Persistent (s_Spec s)).
  - apply (length_records (forward_records w)). intros id l Hid. unfold forward_records, session_forwards, view.
    destruct (li_reg w Hl id l Hid) as (s & Hs & _). rewrite Hs. destruct (Persistent (s_Spec s)); [|done].
    rewrite length_map, omap_bind, <- (length_ones (listed (omap _ _))).
    apply (length_records (λ f, option_list (fwd_Info <$> w_fwd w !! f))). intros fid f Hf.
    destruct (li_fwds w Hl l s fid f Hs Hf) as (F & -> & _). done.
  - rewrite <- length_listed, <- (length_ones (listed (dpersistent d))). unfold dpersistent, dabs.
    transitivity (List.length (listed (omap (λ l, host ← Docker.dw_host d !! l; if d_Persistent (Docker.h_Spec host) then Some (ScrubDocker (Docker.h_Spec host)) else None) (Docker.hosts d)) ≫= λ x, [x])).
    + apply (length_records (host_record d)). intros id l Hid.
      unfold host_record. destruct (dl_reg d Hd id l Hid) as (h & -> & _). cbn. by destruct (d_Persistent (Docker.h_Spec h)).
    + do 3 f_equal. apply map_eq. intros id. rewrite !lookup_omap. destruct (Docker.hosts d !! id) as [l|]; [|done]. cbn.
      by destruct (Docker.dw_host d !! l).
Qed.

(** What goes through the file. *)
Lemma decode_asks v w snap w' : decode_snapshot v w = (Ret snap, w') →
  (sn_SSHSessions snap).*1 = (sv_SSH v).*1 ∧ sn_Forwards snap = sv_Forwards v ∧ sn_DockerHosts snap = sv_Docker v.
Proof.
  unfold decode_snapshot, mbind at 1, M_bind.
  assert (H : ∀ rs w, match decode_records rs w with (Ret l, _) => l.*1 = rs.*1 | _ => False end).
  { clear. induction rs as [|r rs IH]; intros w; cbn [decode_records]; [done|].
    unfold mbind, M_bind. destruct (decode_record r w) as [[r'|e|p] w1] eqn:Hr;
      [|unfold decode_record, alloc_spec, mbind, M_bind in Hr; by simplify_eq/=..].
    assert (E1 : r'.1 = r.1).
    { unfold decode_record, mbind, M_bind in Hr. destruct (alloc_spec _ _ _ w) as [[sp|e|p] w2]; [|done|done]. by injection Hr as <- _. }
    specialize (IH w1). destruct (decode_records rs w1) as [[l|e|p] w2]; [|done|done]. cbn. by rewrite IH, E1. }
  specialize (H (sv_SSH v) w). destruct (decode_records (sv_SSH v) w) as [[l|e|p] w1]; [|done|done].
  intros [= <- <-]. by split.
Qed.
Definition file_asks (v : SnapView) (y : fact) : Prop :=
  match y with
  | (id, None) => id ∈ (sv_SSH v).*1
  | _ => ∃ r, r ∈ sv_Forwards v ∧ new_forward r y
  end.

Lemma with_version_fields v : sv_SSH (with_version v) = sv_SSH v ∧ sv_Forwards (with_version v) = sv_Forwards v ∧
  sv_Docker (with_version v) = sv_Docker v.
Proof. unfold with_version. by case_decide. Qed.
Lemma size_abs w : size (abs w) = size (sessions w).
Proof. unfold abs. apply map_size_fmap. Qed.
Lemma size_dabs d : dlight d → size (dabs d) = size (Docker.hosts d).
Proof.
  intros Hd. rewrite <- !length_listed, <- (length_ones (listed (dabs d))), <- (length_ones (listed (Docker.hosts d))).
  symmetry. apply (length_records (λ l, [l])). intros id l Hid. by destruct (dl_reg d Hd id l Hid) as (h & -> & _).
Qed.

Section boot.
Context {L : Lib}.
(** A start with empty managers and the file of a snapshot. *)
Lemma boot_states path v w c w' data : light (worlds w).1 → dlight (worlds w).2 →
  sessions (worlds w).1 = ∅ → Docker.hosts (worlds w).2 = ∅ →
  fs_files (mw_state w) !! path = Some data → unmarshal_state data = inr (with_version v) →
  boot path w = (Ret (Some c), w') →
  (∀ y, states (abs (worlds w').1) y → file_asks v y) ∧
  (sshFail c = 0 → fwdFail c = 0 → ∀ y, file_asks v y → states (abs (worlds w').1) y) ∧
  (∀ id sp, dabs (worlds w').2 !! id = Some sp → (id, sp) ∈ sv_Docker v) ∧
  (dkFail c = 0 → ∀ id sp, (id, sp) ∈ sv_Docker v → dabs (worlds w').2 !! id = Some sp).
Proof.
  intros Hl Hd He Hh Hfile Hdec Hboot.
  destruct (boot_restores path v w c w' data Hfile Hdec Hboot) as (snap & a & Hsnap & Hres).
  pose proof (kept_decode (with_version v) (worlds w).1) as Hk. rewrite Hsnap in Hk. cbn [snd] in Hk.
  apply decode_asks in Hsnap as (S1 & S2 & S3). destruct (Hk Hl) as (Hl1 & Hheap & Es1).
  pose proof (heap_abs _ a Hl Hheap Es1) as E1. destruct (worlds w') as [a2 d2].
  apply Restore_states in Hres as (H1 & H2 & H3 & H4); [|done|done].
  cbn [fst snd] in *. assert (E0 : abs a = ∅) by (rewrite E1; unfold abs; rewrite He; apply fmap_empty).
  destruct (with_version_fields v) as (V1 & V2 & V3).
  assert (Hasks : ∀ y, asks_for snap y ↔ file_asks v y).
  { intros [id [[fid s]|]]; simpl; by rewrite ?S1, ?S2, ?V1, ?V2. }
  split_and!.
  - intros y Hy. apply Hasks. destruct (H1 y Hy) as [Hx|]; [|done]. rewrite E0 in Hx.
    destruct y as [id [[fid s]|]]; simpl in Hx; [destruct Hx as (fs & Hx & _)|destruct Hx as [fs Hx]]; by rewrite lookup_empty in Hx.
  - intros F1 F2 y Hy. by apply H2, Hasks.
  - intros id sp Hid. rewrite <- V3, <- S3. destruct (H3 id sp Hid) as [Hx|]; [|done]. rewrite (dabs_empty _ Hh) in Hx. by rewrite lookup_empty in Hx.
  - intros F3 id sp Hin. apply H4; [done|]. by rewrite S3, V3.
Qed.

(** What is missing is what was counted as failed. *)
Lemma boot_counts path v w c w' data : light (worlds w).1 → dlight (worlds w).2 →
  sessions (worlds w).1 = ∅ → Docker.hosts (worlds w).2 = ∅ →
  fs_files (mw_state w) !! path = Some data → unmarshal_state data = inr (with_version v) →
  boot path w = (Ret (Some c), w') →
  Z.of_nat (size (abs (worlds w').1)) + sshFail c = Z.of_nat (List.length (sv_SSH v)) ∧
  Z.of_nat (fwd_count (abs (worlds w').1)) + fwdFail c = Z.of_nat (List.length (sv_Forwards v)) ∧
  Z.of_nat (size (dabs (worlds w').2)) + dkFail c = Z.of_nat (List.length (sv_Docker v)).
Proof.
  intros Hl Hd He Hh Hfile Hdec Hboot.
  destruct (boot_restores path v w c w' data Hfile Hdec Hboot) as (snap & a & Hsnap & Hres).
  pose proof (kept_decode (with_version v) (worlds w).1) as Hk. rewrite Hsnap in Hk. cbn [snd] in Hk.
  apply decode_asks in Hsnap as (S1 & S2 & S3). destruct (Hk Hl) as (Hl1 & Hheap & Es1).
  pose proof (heap_abs _ a Hl Hheap Es1) as E1. assert (E0 : abs a = ∅) by (rewrite E1; unfold abs; rewrite He; apply fmap_empty).
  pose proof (grows_Restore ParseKnownHosts CfgGet jump_depth snap (a, (worlds w).2)) as Hg. rewrite Hres in Hg.
  destruct (Hg) as [_ Hdk]. specialize (Hdk Hd). destruct (worlds w') as [a2 d2]. cbn [fst snd] in *.
  pose proof (Restore_counts _ _ _ _ _ _ _ _ _ Hl1 Hres) as (F1 & F2).
  apply Restore_spec in Hres as (H1 & _ & H3 & _ & _ & H6 & H7 & _).
  destruct (with_version_fields v) as (V1 & V2 & V3). rewrite S2, V2 in F1. rewrite S3, V3 in H3.
  assert (Elen : List.length (sn_SSHSessions snap) = List.length (sv_SSH v)).
  { rewrite <- V1, <- (length_fmap fst (sv_SSH (with_version v))), <- S1. by rewrite length_fmap. }
  rewrite Elen in H1. rewrite Es1, He, map_size_empty in H6. rewrite Hh, map_size_empty in H7. rewrite E0 in F2.
  change (fwd_count ∅) with 0%nat in F2. rewrite size_abs, (size_dabs d2 Hdk). split_and!; lia.
Qed.
End boot.

(** A start on the file that a write left. *)
Record brought_back (w w2 : Server) (c : Counts) : Prop := {
  (* nothing else came back *)
  bb_sessions : ∀ id fs, abs (worlds w2).1 !! id = Some fs →
    ∃ fs0, persistent (worlds w).1 !! id = Some fs0 ∧ fs ⊆ fs0;
  bb_hosts : dabs (worlds w2).2 ⊆ dpersistent (worlds w).2;
  (* what is missing is what was counted as failed *)
  bb_missing : Z.of_nat (size (abs (worlds w2).1)) + sshFail c = Z.of_nat (size (persistent (worlds w).1)) ∧
    Z.of_nat (fwd_count (abs (worlds w2).1)) + fwdFail c = Z.of_nat (fwd_count (persistent (worlds w).1)) ∧
    Z.of_nat (size (dabs (worlds w2).2)) + dkFail c = Z.of_nat (size (dpersistent (worlds w).2));
  bb_all : sshFail c = 0 → fwdFail c = 0 → abs (worlds w2).1 = persistent (worlds w).1;
  bb_all_hosts : dkFail c = 0 → dabs (worlds w2).2 = dpersistent (worlds w).2;
  (* a session that came back connects to what the old one did *)
  bb_specs : ∀ id l s, sessions (worlds w2).1 !! id = Some l → w_sess (worlds w2).1 !! l = Some s →
    ∃ l0 s0, sessions (worlds w).1 !! id = Some l0 ∧ w_sess (worlds w).1 !! l0 = Some s0 ∧
      Persistent (s_Spec s0) = true ∧
      resumes (saved_view (w_mem (worlds w).1) (s_Spec s0)) (Spec.view (w_mem (worlds w2).1) (s_Spec s));
}.
Lemma written_boot {L : Lib} C path w w1 b c w2 (Hp : st_Store C = Some path)
    (Hjson : ∀ v d, marshal_state v = inr d → unmarshal_state d = inr v)
    (Hl : light (worlds w).1) (Hd : dlight (worlds w).2) (Hwrite : PersistNow C w = (Ret tt, w1))
    (Hlb : light (worlds b).1) (Hdb : dlight (worlds b).2)
    (Hnew : sessions (worlds b).1 = ∅ ∧ Docker.hosts (worlds b).2 = ∅)
    (Hfile : fs_files (mw_state b) !! path = fs_files (mw_state w1) !! path)
    (Hboot : boot path b = (Ret (Some c), w2)) : brought_back w w2 c.
Proof.
  destruct (PersistNow_writes C path w w1 Hp (conj Hl Hd) Hwrite) as (snap & m & data & Hcap & Hm & Hdata).
  rewrite Hdata in Hfile. destruct Hnew as [He Hh]. pose proof (Hjson _ _ Hm) as Hdec.
  rewrite (surjective_pairing (worlds w)) in Hcap. destruct (capture_asks _ _ _ _ Hl Hd Hcap) as [Ha Hda].
  destruct (capture_counts _ _ _ _ Hl Hd Hcap) as (K1 & K2 & K3).
  destruct (boot_states path _ b c w2 data Hlb Hdb He Hh Hfile Hdec Hboot) as (H1 & H2 & H3 & H4).
  pose proof (boot_counts path _ b c w2 data Hlb Hdb He Hh Hfile Hdec Hboot) as Hn.
  assert (Hrec : ∀ id V, (id, V) ∈ sv_SSH (view_snapshot (w_mem m) snap) → nil_slices V ∧ ∃ l s,
    sessions (worlds w).1 !! id = Some l ∧ w_sess (worlds w).1 !! l = Some s ∧ Persistent (s_Spec s) = true ∧
    V = saved_view (w_mem (worlds w).1) (s_Spec s)).
  { intros id V. by apply (saved_records _ _ _ _ _ id V Hl Hd Hcap). }
  assert (Hnil : Forall (λ r, nil_slices r.2) (sv_SSH (view_snapshot (w_mem m) snap))).
  { apply Forall_forall. intros [id V] Hin. by apply (Hrec id V). }
  pose proof (boot_resumes path _ b c w2 data Hlb He Hfile Hdec Hnil Hboot) as Hsp.
  assert (Hv : ∀ y, file_asks (view_snapshot (w_mem m) snap) y ↔ states (persistent (worlds w).1) y).
  { intros y. rewrite <- Ha. destruct y as [id [[fid s]|]]; [done|]. cbn [asks_for file_asks sv_SSH view_snapshot].
    change (map (λ r, (r.1, Spec.view (w_mem m) r.2)) (sn_SSHSessions snap)) with
      ((λ r, (r.1, Spec.view (w_mem m) r.2)) <$> sn_SSHSessions snap). by rewrite <- list_fmap_compose. }
  split.
  - intros id fs Hid. assert (Hy : states (abs (worlds w2).1) (id, None)) by by exists fs.
    destruct (proj1 (Hv (id, None)) (H1 (id, None) Hy)) as [fs0 H0]. clear Hy. exists fs0. split; [done|].
    apply map_subseteq_spec. intros fid s Hfid. assert (Hy : states (abs (worlds w2).1) (id, Some (fid, s))) by (by exists fs).
    destruct (proj1 (Hv _) (H1 _ Hy)) as (fs1 & H5 & H6). congruence.
  - apply map_subseteq_spec. intros id sp Hid. by apply Hda, H3.
  - rewrite <- K1, <- K2, <- K3. cbn [sv_SSH sv_Forwards sv_Docker view_snapshot] in Hn. by rewrite length_map in Hn.
  - intros F1 F2. apply states_eq. intros y. rewrite <- Hv. split; [apply H1|by apply H2].
  - intros F3. apply map_eq. intros id. apply option_eq. intros sp. rewrite <- Hda. split; [apply H3|by apply H4].
  - intros id l s Hid Hs. destruct (Hsp id l s Hid Hs) as (V & HV & HR).
    destruct (Hrec id V HV) as (_ & l0 & s0 & G1 & G2 & G3 & ->). by exists l0, s0.
Qed.

(** C8: a restart brings back what was persistent.  A daemon is shut down, its last
    write having succeeded, and a new one starts with empty managers on the file that is
    left and loads it.  Then every session it has was a persistent one of the old
    daemon, with forwards that the old one had, as they were asked for; and every
    Docker host was a persistent one, with its spec but for the secrets.  What is
    missing is exactly as many sessions, forwards and hosts as are counted as failed:
    when none is, the new registries are the persistent part of the old.  Every
    session that came back connects to what the old one did ([resumes]): the options,
    the user, the way to authenticate (without the secrets), the jump chain and the
    addresses of the old spec, but for what ssh_config says about the host of the
    first address or fills in where the old spec was blank. *)
Theorem restart_restores {L : Lib} C path w w1 w' b c w2 (Hp : st_Store C = Some path)
    (Hjson : ∀ v d, marshal_state v = inr d → unmarshal_state d = inr v)
    (Hl : light (worlds w).1) (Hd : dlight (worlds w).2)
    (Hwrite : PersistNow C w = (Ret tt, w1)) (Hrun : shutdown C w = (Ret tt, w'))
    (Hlb : light (worlds b).1) (Hdb : dlight (worlds b).2)
    (Hnew : sessions (worlds b).1 = ∅ ∧ Docker.hosts (worlds b).2 = ∅)
    (Hfile : fs_files (mw_state b) !! path = fs_files (mw_state w') !! path)
    (Hboot : boot path b = (Ret (Some c), w2)) :
  brought_back w w2 c.
Proof.
  eapply (written_boot C path w w1 b); try done. destruct (shutdown_run C w w' Hrun) as (Hs & _). by rewrite Hfile, Hs, Hwrite.
Qed.

(** ** A restart *)
#[export] Instance AuthSpec_eq_dec : EqDecision AuthSpec. Proof. solve_decision. Defined.
#[export] Instance JumpHost_eq_dec : EqDecision JumpHost. Proof. solve_decision. Defined.
#[export] Instance ConnectSpec_eq_dec : EqDecision ConnectSpec. Proof. solve_decision. Defined.
#[export] Instance SpecView_eq_dec : EqDecision SpecView. Proof. solve_decision. Defined.
#[export] Instance ForwardRecord_eq_dec : EqDecision ForwardRecord. Proof. solve_decision. Defined.
#[export] Instance DockerSpec_eq_dec : EqDecision DockerSpec. Proof. solve_decision. Defined.
#[export] Instance SnapView_eq_dec : EqDecision SnapView. Proof. solve_decision. Defined.

(** A file with a session that has a forward, and a Docker host. *)
Definition spec_key : SpecView :=
  mkView (spec_one <| Addresses := None |> <| Auth := mkAuthSpec "id_ed25519" "" false "" "" |>) ["10.0.0.1:22"] [].
Definition docker_tcp : DockerSpec := mkDockerSpec "tcp://10.0.0.2:2375" "" "" "" "" "" "" false "" "" "" false true.
Definition saved_ex : SnapView := mkSnapView 1 [("a", spec_key)]
  [mkForwardRecord "socks" "a" "dynamic" None None (Some (mkDynamicSpec "127.0.0.1" 0))] [("d", docker_tcp)].
Definition lib_saved : Lib := {|
  lib_env := env_ok; ParseKnownHosts := λ _, None; CfgGet := λ _ _, ""; jump_depth := 5%nat;
  PortFrom := λ n p, Some (n, p); lib_io := λ _, None;
  marshal_state := λ v, if decide (v = saved_ex) then inr "saved" else inl (Msg "unsupported value");
  unmarshal_state := λ d, if decide (d = "saved") then inr saved_ex else inl (Msg "syntax");
  generic := string;
  json_Marshal := λ v, inr (payload_text v); json_MarshalIndent := λ v, inr (payload_text v);
  json_Unmarshal := λ s, inr s; toon_Marshal := λ s, inr s |}.
Definition server_saved : Server := server0 <| mw_state := mkFS {["state.json" := "saved"]} [] 0 |>.

Lemma restart_restores_witness :
  let w := (@boot lib_saved "state.json" server_saved).2 in
  let w' := (@shutdown lib_saved config_ex w).2 in
  let w2 := (@boot lib_saved "state.json" (server0 <| mw_state := mw_state w' |>)).2 in
  sessions (worlds w').1 = ∅ ∧
  abs (worlds w2).1 = {["a" := {["socks" := ForwardDynamic (mkDynamicSpec "127.0.0.1" 0)]}]} ∧
  dabs (worlds w2).2 = {["d" := docker_tcp]}.
Proof.
  cbv zeta. destruct (@boot lib_saved "state.json" server_saved) as [c w] eqn:Hb.
  pose proof (f_equal fst Hb : _ = c) as Ec. pose proof (f_equal snd Hb : _ = w) as Ew. cbn [snd].
  assert (Hc : c = Ret (Some (mkCounts 1 0 1 0 1 0))) by (rewrite <- Ec; vm_compute; reflexivity). rewrite Hc in Hb.
  destruct (@boot_run lib_saved "state.json" server_saved (Some (mkCounts 1 0 1 0 1 0)) w blight0 eq_refl eq_refl Hb) as [[Hl Hd] _].
  assert (Hw : (@PersistNow lib_saved config_ex w).1 = Ret tt) by (rewrite <- Ew; vm_compute; reflexivity).
  destruct (@shutdown lib_saved config_ex w) as [o w'] eqn:Hs. pose proof (f_equal snd Hs : _ = w') as Ew'.
  assert (Ho : o = Ret tt) by (pose proof (f_equal fst Hs : _ = o) as Eo; rewrite <- Eo, <- Ew; vm_compute; reflexivity).
  subst o. cbn [snd]. set (b := server0 <| mw_state := mw_state w' |>).
  destruct (@boot lib_saved "state.json" b) as [c2 w2] eqn:Hb2.
  assert (Hc2 : c2 = Ret (Some (mkCounts 1 0 1 0 1 0))).
  { pose proof (f_equal fst Hb2 : _ = c2) as E2. rewrite <- E2. unfold b. rewrite <- Ew', <- Ew. vm_compute. reflexivity. }
  rewrite Hc2 in Hb2. cbn [snd].
  assert (Hjson : ∀ v d, @marshal_state lib_saved v = inr d → @unmarshal_state lib_saved d = inr v).
  { intros v d. cbn. destruct (decide (v = saved_ex)) as [->|]; [|discriminate]. intros [= <-]. reflexivity. }
  destruct (@restart_restores lib_saved config_ex "state.json" w _ w' b _ w2 eq_refl Hjson Hl Hd (ret_eta _ Hw) Hs
    (proj1 blight0) (proj2 blight0) (conj eq_refl eq_refl) eq_refl Hb2) as [_ _ _ H1 H2 _].
  rewrite (H1 eq_refl eq_refl), (H2 eq_refl). rewrite <- Ew', <- Ew. split; [|split]; vm_compute; reflexivity.
Defined.
