(* ===== verification/ToolRegistry.v ===== *)
(** * What a tool call does to the registries (internal/mcptools)

    The composition of the tools with the two managers.  [tool_asks] is the table of
    what each tool asks of the registries, read off its arguments; a tool that is not in
    the table, or whose arguments do not parse, leaves both registries alone. *)

From S2P Require Import Docker.
From S2P Require Import Prelude GoStrings Url External Spec SshConfig Auth Dial World Ledger Session Forward Shell Manager ManagerProps State Files Store Containers Disk Copy Sftp Records Registry DRegistry Tools ToolsSsh ToolsDocker Catalogue Persistence.
From Stdlib Require Import Ascii String.

(** ** The table *)
Definition of_args {A B} (r : error + A) (f : A → B) : option B := match r with inr a => Some (f a) | inl _ => None end.
Definition string_args (req : Request) (k1 k2 : string) (q : string → string → Registry.request) : option Registry.request :=
  match RequireString req k1, RequireString req k2 with inr a, inr b => Some (q a b) | _, _ => None end.
Definition forward_args (req : Request) (spec : option ForwardSpec) : option Registry.request :=
  s ← spec; string_args req "session_id" "forward_id" (λ sid fid, QOpen sid fid s).
Definition bind_addr (req : Request) : string := GetString req "bind_addr" "".

Definition ssh_asks (name : string) (req : Request) : option Registry.request :=
  if decide (name = "ssh_connect") then of_args (BindArguments req _ ASshConnect) (λ a, QConnect (sc_ID a))
  else if decide (name = "ssh_disconnect") then of_args (RequireString req "id") QDisconnect
  else if decide (name = "ssh_clone") then string_args req "source_id" "new_id" QClone
  else if decide (name = "ssh_forward_local") then forward_args req
    (match RequireInt req "bind_port", RequireString req "remote_host", RequireInt req "remote_port" with
     | inr bp, inr rh, inr rp => Some (ForwardLocal (mkLocalSpec (bind_addr req) bp rh rp))
     | _, _, _ => None
     end)
  else if decide (name = "ssh_forward_remote") then forward_args req
    (match RequireInt req "bind_port", RequireInt req "local_port" with
     | inr bp, inr lp => Some (ForwardRemote (mkRemoteSpec (bind_addr req) bp (GetString req "local_host" "") lp))
     | _, _ => None
     end)
  else if decide (name = "ssh_forward_dynamic") then forward_args req
    (of_args (RequireInt req "bind_port") (λ bp, ForwardDynamic (mkDynamicSpec (bind_addr req) bp)))
  else if decide (name = "ssh_forward_cancel") then string_args req "session_id" "forward_id" QClose
  else None.
Definition docker_asks (name : string) (req : Request) : option hevent :=
  if decide (name = "docker_connect") then of_args (BindArguments req _ ADockerConnect) (λ a, HConnected (dc_ID a) (dc_Spec a))
  else if decide (name = "docker_disconnect") then of_args (RequireString req "id") HDisconnected
  else None.

(** ** What a computation does *)
Definition regs (w : Server) : registry * host_reg := (abs (worlds w).1, dabs (worlds w).2).
Definition idle (w w' : Server) : Prop := bkept (worlds w) (worlds w').
#[export] Instance idle_pre : PreOrder idle.
Proof. split; unfold idle; [intros w; reflexivity|]. intros w1 w2 w3 H1 H2. by etrans. Qed.
Lemma idle_regs w w' : blight (worlds w) → idle w w' → blight (worlds w') ∧ regs w' = regs w.
Proof.
  intros [Hl Hd] [Hk Hdk]. destruct (Hk Hl) as (Hl' & Hh & Es), (dkept_dabs _ _ Hd Hdk) as [Hd' Ed].
  split; [by split|]. unfold regs. by rewrite Ed, (heap_abs _ _ Hl Hh Es).
Qed.

Lemma idle_viaSsh {A} (m : M World A) : stays kept m → stays idle (viaSsh m).
Proof. intros H w. unfold viaSsh, onBoth, sshM, zoom. specialize (H (worlds w).1). destruct (m (worlds w).1). by split. Qed.
Lemma idle_viaDocker {A} (m : M DWorld A) : stays dkept m → stays idle (viaDocker m).
Proof. intros H w. unfold viaDocker, onBoth, dkM, zoom. specialize (H (worlds w).2). destruct (m (worlds w).2). by split. Qed.
Lemma idle_viaSftp {A} (m : SM A) : stays lkept m → stays idle (viaSftp m).
Proof.
  intros H w. unfold viaSftp, zoom. specialize (H (mkLocal (mw_ssh w) (mw_files w) (mw_dirs w))). destruct (m _). by split.
Qed.
Lemma idle_viaCopy {A} (m : M (Local DWorld) A) : stays ldkept m → stays idle (viaCopy m).
Proof.
  intros H w. unfold viaCopy, zoom. specialize (H (mkLocal (mw_docker w) (mw_files w) (mw_dirs w))). destruct (m _). by split.
Qed.
#[export] Hint Resolve idle_viaSsh idle_viaDocker idle_viaSftp idle_viaCopy : stays.

Section effects.
Context {L : Lib} (C : Config).
Lemma idle_modify f : (∀ w, worlds (f w) = worlds w) → stays idle (modify f).
Proof. intros H. apply stays_modify. intros w. unfold idle. by rewrite H. Qed.
Lemma idle_PersistNow : stays idle (PersistNow C).
Proof.
  unfold PersistNow. destruct (st_Store C); [|apply stays_ret, _].
  apply stays_bind; [apply _| |intros snap; apply stays_bind; [apply _|apply stays_gets, _|intros m]].
  - intros w. unfold onBoth, zoom. pose proof (bkept_Capture (worlds w)) as H. destruct (Capture (worlds w)). exact H.
  - intros w. unfold zoom. by destruct (Save _ _ _ _ _).
Qed.
Lemma idle_Persist : stays idle (Tools.Persist C).
Proof.
  unfold Tools.Persist. destruct (st_Store C); [|apply stays_ret, _]. destruct (st_Started C); [by apply idle_modify|apply idle_PersistNow].
Qed.
End effects.
#[export] Hint Resolve idle_Persist idle_PersistNow : stays.
#[export] Hint Extern 1 (stays idle (modify _)) => by apply idle_modify : stays.

(** A call that is the request [q] of the session manager, or the event [e] of the
    Docker manager. *)
Definition acts {A} (q : Registry.request) (m : TM A) : Prop := ∀ w, blight (worlds w) →
  match m w with
  | (Panic _, _) => True
  | (o, w') => (regs w').2 = (regs w).2 ∧ ∃ ok, reg_step (regs w).1 q ok (regs w').1 ∧ ∀ a, o = Ret a → ok = true
  end.
Definition dacts {A} (e : hevent) (m : TM A) : Prop := ∀ w, blight (worlds w) →
  match m w with
  | (Panic _, _) => True
  | (Ret _, w') => (regs w').1 = (regs w).1 ∧ hreg_step (regs w).2 e (regs w').2
  | (Err _, w') => (regs w').1 = (regs w).1 ∧ ((regs w').2 = (regs w).2 ∨ hreg_step (regs w).2 e (regs w').2)
  end.
(** What a handler promises about a request. *)
Definition one_step (t_name : string) (req : Request) (w : Server) (r : ToolResult) (w' : Server) : Prop :=
  match ssh_asks t_name req, docker_asks t_name req with
  | Some q, _ => (regs w').2 = (regs w).2 ∧ ∃ ok, reg_step (regs w).1 q ok (regs w').1 ∧ ∀ s, r = TextResult s → ok = true
  | None, Some e => (regs w').1 = (regs w).1 ∧
      (hreg_step (regs w).2 e (regs w').2 ∨ (regs w').2 = (regs w).2 ∧ ∃ err, r = ErrorResult err)
  | None, None => regs w' = regs w
  end.

Section acts.
Context {L : Lib}.
Lemma acts_fail {A} q e : (∀ R, reg_step R q false R) → acts q (fail e : TM A).
Proof. intros Hq w Hb. simpl. split; [done|]. exists false. by split; [apply Hq|]. Qed.
Lemma acts_got {A B} q (a : A) (k : A → TM B) : acts q (k a) → acts q (of_sum (inr a) ≫= k).
Proof. exact (λ H, H). Qed.
Lemma acts_pre {A B} q (m : TM A) (k : A → TM B) : stays idle m → (∀ R, reg_step R q false R) →
  (∀ a, acts q (k a)) → acts q (m ≫= k).
Proof.
  intros Hm Hq Hk w Hb. unfold mbind, M_bind. destruct (idle_regs w (m w).2 Hb (Hm w)) as [Hb1 E1].
  destruct (m w) as [[a|e|p] w1]; cbn [snd] in *; [|rewrite E1; split; [done|]; exists false; by split; [apply Hq|]|done].
  specialize (Hk a w1 Hb1). by rewrite E1 in Hk.
Qed.
Lemma dacts_got {A B} e (a : A) (k : A → TM B) : dacts e (k a) → dacts e (of_sum (inr a) ≫= k).
Proof. exact (λ H, H). Qed.
(** The call of the manager, and what the handler makes of its result. *)
Lemma acts_call {A B} q (op : M World A) (k : A → TM B) : refines q op → (∀ a, stays idle (k a)) → acts q (viaSsh op ≫= k).
Proof.
  intros Hop Hk w Hb. unfold viaSsh, onBoth, sshM, zoom, mbind, M_bind. destruct Hb as [Hl Hd]. specialize (Hop (worlds w).1 Hl).
  destruct (op (worlds w).1) as [[a|e|p] v]; [| |done]; destruct Hop as [Hl' Hst]; cbn [fst snd].
  - set (w1 := w <| mw_ssh ::= _ |> <| mw_docker := _ |>). assert (Hb1 : blight (worlds w1)) by by split.
    destruct (idle_regs w1 (k a w1).2 Hb1 (Hk a w1)) as [_ E1].
    destruct (k a w1) as [[b|e|p] w2]; cbn [snd] in E1; [| |done]; rewrite E1; (split; [done|]); exists true; by split.
  - split; [done|]. exists false. by split.
Qed.
Lemma dacts_call {A B} e (op : M DWorld A) (k : A → TM B) :
  (∀ d, dlight d → match op d with
    | (Ret _, d') => dlight d' ∧ hreg_step (dabs d) e (dabs d')
    | (Err _, d') => dlight d' ∧ dabs d' = dabs d
    | (Panic _, _) => True end) →
  (∀ a, stays idle (k a)) → dacts e (viaDocker op ≫= k).
Proof.
  intros Hop Hk w Hb. unfold viaDocker, onBoth, dkM, zoom, mbind, M_bind. destruct Hb as [Hl Hd]. specialize (Hop (worlds w).2 Hd).
  destruct (op (worlds w).2) as [[a|err|p] v]; [| |done]; destruct Hop as [Hd' Hst]; cbn [fst snd].
  - set (w1 := w <| mw_ssh ::= _ |> <| mw_docker := _ |>). assert (Hb1 : blight (worlds w1)) by by split.
    destruct (idle_regs w1 (k a w1).2 Hb1 (Hk a w1)) as [_ E1].
    destruct (k a w1) as [[b|e'|p] w2]; cbn [snd] in E1; [| |done]; rewrite E1; (split; [done|]); [done|by right].
  - split; [done|]. by left.
Qed.
Lemma by_answer name req m w r w' : blight (worlds w) → answer m w = (Ret r, w') →
  match ssh_asks name req, docker_asks name req with
  | Some q, _ => acts q m
  | None, Some e => dacts e m
  | None, None => stays idle m
  end → one_step name req w r w'.
Proof.
  intros Hb Hrun Hm. rewrite answer_run in Hrun. unfold one_step.
  destruct (ssh_asks name req) as [q|]; [|destruct (docker_asks name req) as [e|]].
  - specialize (Hm w Hb). destruct (m w) as [[a|e|p] w1]; [| |done]; injection Hrun as <- <-; destruct Hm as (H1 & ok & H2 & H3);
      (split; [done|]; exists ok; split; [done|]); [by intros; eapply H3|done].
  - specialize (Hm w Hb). destruct (m w) as [[a|e'|p] w1]; [| |done]; injection Hrun as <- <-; destruct Hm as (H1 & H2);
      (split; [done|]); [by left|]. destruct H2 as [H2|H2]; [right|by left]. split; [done|by eexists].
  - destruct (idle_regs w (m w).2 Hb (Hm w)) as [_ E1]. by destruct (m w) as [[a|e'|p] w1]; [| |done]; injection Hrun as _ <-.
Qed.
End acts.

(** ** The tools *)
Section tools.
Context {L : Lib} (C : Config).
Lemma idle_err {A B} e (k : A → TM B) : stays idle (of_sum (inl e) ≫= k).
Proof. intros w. simpl. reflexivity. Qed.
Lemma idle_got {A B} (a : A) (k : A → TM B) : stays idle (k a) → stays idle (of_sum (inr a) ≫= k).
Proof. exact (λ H, H). Qed.
(** Run the handler up to the first argument that is missing. *)
Ltac parsed :=
  cbn [mbind option_bind]; repeat lazymatch goal with
    | |- stays idle (of_sum (inl _) ≫= _) => apply idle_err
    | |- stays idle (of_sum (inr _) ≫= _) => apply idle_got
    | |- acts _ (of_sum (inr _) ≫= _) => apply acts_got
    | |- dacts _ (of_sum (inr _) ≫= _) => apply dacts_got
    end.

(** The handlers of the table. *)
Definition one {L : Lib} (name : string) (h : Request → TM ToolResult) : Prop := ∀ req w r w', blight (worlds w) →
  h req w = (Ret r, w') → one_step name req w r w'.
Ltac handled :=
  intros req w r w' Hb Hrun; apply (by_answer _ _ _ _ _ _ Hb Hrun); clear Hrun; unfold bind, requireString, requireInt.
(** The table at a name: [a] for the session manager, [d] for the Docker manager. *)
Ltac table a d :=
  lazymatch goal with
  | |- match ?x with Some _ => _ | None => match ?y with Some _ => _ | None => _ end end => change x with a; change y with d
  end; unfold forward_args, string_args, of_args.

Lemma one_connect : one "ssh_connect" (handleSSHConnect C).
Proof.
  handled.
  table (of_args (BindArguments req _ ASshConnect) (λ a, QConnect (sc_ID a))) (@None hevent).
  destruct (BindArguments req _ ASshConnect) as [e|a] eqn:E; parsed.
  apply acts_pre; [apply idle_viaSsh, kept_alloc_spec|constructor|]. intros sp. apply acts_call; [apply Connect_refines|]. solve_stays.
Qed.
Lemma one_disconnect : one "ssh_disconnect" (handleSSHDisconnect C).
Proof.
  handled.
  table (of_args (RequireString req "id") QDisconnect) (@None hevent).
  destruct (RequireString req "id") as [e|id] eqn:E; parsed. apply acts_call; [apply Disconnect_refines|]. solve_stays. Qed.
Lemma one_clone : one "ssh_clone" (handleSSHClone C).
Proof.
  handled.
  table (string_args req "source_id" "new_id" QClone) (@None hevent).
  destruct (RequireString req "source_id") as [e1|src] eqn:E1, (RequireString req "new_id") as [e2|dst] eqn:E2; parsed.
  apply acts_call; [apply CloneSession_refines|]. solve_stays.
Qed.
Lemma one_forward_local : one "ssh_forward_local" (handleForwardLocal C).
Proof.
  handled.
  table (forward_args req
    (match RequireInt req "bind_port", RequireString req "remote_host", RequireInt req "remote_port" with
     | inr bp, inr rh, inr rp => Some (ForwardLocal (mkLocalSpec (bind_addr req) bp rh rp)) | _, _, _ => None end)) (@None hevent).
  destruct (RequireString req "session_id") as [e1|sid] eqn:E1, (RequireString req "forward_id") as [e2|fid] eqn:E2,
    (RequireInt req "bind_port") as [e3|bp] eqn:E3, (RequireString req "remote_host") as [e4|rh] eqn:E4,
    (RequireInt req "remote_port") as [e5|rp] eqn:E5; parsed.
  case_match; [apply acts_fail; constructor|]. apply acts_call; [apply OpenLocal_refines|]. solve_stays.
Qed.
Lemma one_forward_remote : one "ssh_forward_remote" (handleForwardRemote C).
Proof.
  handled.
  table (forward_args req
    (match RequireInt req "bind_port", RequireInt req "local_port" with
     | inr bp, inr lp => Some (ForwardRemote (mkRemoteSpec (bind_addr req) bp (GetString req "local_host" "") lp)) | _, _ => None end)) (@None hevent).
  destruct (RequireString req "session_id") as [e1|sid] eqn:E1, (RequireString req "forward_id") as [e2|fid] eqn:E2,
    (RequireInt req "bind_port") as [e3|bp] eqn:E3, (RequireInt req "local_port") as [e5|lp] eqn:E5; parsed.
  case_match; [apply acts_fail; constructor|]. apply acts_call; [apply OpenRemote_refines|]. solve_stays.
Qed.
Lemma one_forward_dynamic : one "ssh_forward_dynamic" (handleForwardDynamic C).
Proof.
  handled.
  table (forward_args req
    (of_args (RequireInt req "bind_port") (λ bp, ForwardDynamic (mkDynamicSpec (bind_addr req) bp)))) (@None hevent).
  destruct (RequireString req "session_id") as [e1|sid] eqn:E1, (RequireString req "forward_id") as [e2|fid] eqn:E2,
    (RequireInt req "bind_port") as [e3|bp] eqn:E3; parsed.
  case_match; [apply acts_fail; constructor|]. apply acts_call; [apply OpenDynamic_refines|]. solve_stays.
Qed.
Lemma one_forward_cancel : one "ssh_forward_cancel" (handleForwardCancel C).
Proof.
  handled.
  table (string_args req "session_id" "forward_id" QClose) (@None hevent).
  destruct (RequireString req "session_id") as [e1|sid] eqn:E1, (RequireString req "forward_id") as [e2|fid] eqn:E2; parsed.
  apply acts_call; [apply CloseForward_refines|]. solve_stays.
Qed.
Lemma one_docker_connect : one "docker_connect" (handleDockerConnect C).
Proof.
  handled.
  table (@None Registry.request) (of_args (BindArguments req _ ADockerConnect) (λ a, HConnected (dc_ID a) (dc_Spec a))).
  destruct (BindArguments req _ ADockerConnect) as [e|a] eqn:E; parsed.
  apply dacts_call; [|solve_stays]. intros d Hd. pose proof (Connect_dabs ParseKnownHosts (dc_ID a) (dc_Spec a) d Hd) as H.
  destruct (Docker.Connect _ _ _ d) as [[l|e|p] d']; [|done|done]. destruct H as (H1 & H2 & ->). split; [done|by constructor].
Qed.
Lemma one_docker_disconnect : one "docker_disconnect" (handleDockerDisconnect C).
Proof.
  handled.
  table (@None Registry.request) (of_args (RequireString req "id") HDisconnected).
  destruct (RequireString req "id") as [e|id] eqn:E; parsed.
  apply dacts_call; [|solve_stays]. intros d Hd. pose proof (Disconnect_dabs id d Hd) as H.
  destruct (Docker.Disconnect id d) as [[l|e|p] d']; [|done|done]. destruct H as (H1 & H2 & ->). split; [done|by constructor].
Qed.

(** A tool that is not in the table. *)
Ltac idles :=
  handled; table (@None Registry.request) (@None hevent); solve_stays.
Ltac ones := rewrite !Forall_cons, Forall_nil; split_and!; try done; cbn [t_handler t_name].
Definition does_one (t : tool) : Prop := one (t_name t) (t_handler t).
Ltac all_one :=
  ones; lazymatch goal with
  | |- one "ssh_connect" _ => exact one_connect
  | |- one "ssh_disconnect" _ => exact one_disconnect
  | |- one "ssh_clone" _ => exact one_clone
  | |- one "ssh_forward_local" _ => exact one_forward_local
  | |- one "ssh_forward_remote" _ => exact one_forward_remote
  | |- one "ssh_forward_dynamic" _ => exact one_forward_dynamic
  | |- one "ssh_forward_cancel" _ => exact one_forward_cancel
  | |- one "docker_connect" _ => exact one_docker_connect
  | |- one "docker_disconnect" _ => exact one_docker_disconnect
  | |- one _ ?h => let f := head_of h in unfold f; idles
  end.
Lemma all_ssh : Forall does_one (RegisterSSH C).
Proof. unfold RegisterSSH, does_one. all_one. Qed.
Lemma all_shell : Forall does_one (RegisterSSHShell C).
Proof. unfold RegisterSSHShell, does_one. all_one. Qed.
Lemma all_forward : Forall does_one (RegisterForward C).
Proof. unfold RegisterForward, does_one. all_one. Qed.
Lemma all_sftp : Forall does_one (RegisterSFTP C).
Proof. unfold RegisterSFTP, does_one. all_one. Qed.
Lemma all_docker : Forall does_one (RegisterDocker C).
Proof. unfold RegisterDocker, does_one. all_one. Qed.
Lemma all_dshell : Forall does_one (RegisterDockerShell C).
Proof. unfold RegisterDockerShell, does_one. all_one. Qed.
Lemma all_meta : Forall does_one (RegisterMeta C).
Proof. unfold RegisterMeta, does_one. all_one. Qed.
End tools.

Lemma all_tools {L : Lib} C : Forall does_one (Build C).
Proof.
  unfold Build. rewrite !Forall_app. split_and!; [apply all_ssh|apply all_shell|apply all_sftp|apply all_forward|
    apply all_docker|apply all_dshell|apply all_meta].
Qed.

(** C6: every tool call is at most one step of one of the registries.  Whatever tool is
    called, with whatever arguments, and however the outside world answers: a tool of
    the table makes the one request its arguments name, to the one manager it is for,
    and says that it worked only if the request succeeded; every other tool, and a
    tool of the table whose arguments do not parse, change neither registry.  In
    particular no tool but a connect, a clone or a disconnect adds or removes a session
    or a host, and no call does two things. *)
Theorem tool_is_one_step {L : Lib} C t req w r w' (Ht : t ∈ Build C)
    (Hl : light (worlds w).1) (Hd : dlight (worlds w).2) (Hrun : t_handler t req w = (Ret r, w')) :
  match ssh_asks (t_name t) req, docker_asks (t_name t) req with
  | Some q, _ => dabs (worlds w').2 = dabs (worlds w).2 ∧
      ∃ ok, reg_step (abs (worlds w).1) q ok (abs (worlds w').1) ∧ ∀ s, r = TextResult s → ok = true
  | None, Some e => abs (worlds w').1 = abs (worlds w).1 ∧
      (hreg_step (dabs (worlds w).2) e (dabs (worlds w').2) ∨
       dabs (worlds w').2 = dabs (worlds w).2 ∧ ∃ err, r = ErrorResult err)
  | None, None => abs (worlds w').1 = abs (worlds w).1 ∧ dabs (worlds w').2 = dabs (worlds w).2
  end.
Proof.
  pose proof (all_tools C) as H. rewrite Forall_forall in H. specialize (H t Ht req w r w' (conj Hl Hd) Hrun).
  unfold one_step, regs in H. destruct (ssh_asks _ _); [exact H|]. destruct (docker_asks _ _); [exact H|]. by injection H.
Qed.

(** A forward is opened on the session "s". *)
Definition dynamic_req : Request :=
  Catalogue.request [("session_id", inl "s"); ("forward_id", inl "socks"); ("bind_port", inr 0)].
Lemma tool_is_one_step_witness :
  let w' := (@handleForwardDynamic (lib_of env_ok) config_ex dynamic_req server_fwd).2 in
  reg_step (abs (worlds server_fwd).1) (QOpen "s" "socks" (ForwardDynamic (mkDynamicSpec "" 0))) true (abs (worlds w').1).
Proof.
  assert (Ho : (@handleForwardDynamic (lib_of env_ok) config_ex dynamic_req server_fwd).1 = Ret (TextResult "{}"))
    by (vm_compute; reflexivity).
  cbv zeta. destruct (@handleForwardDynamic (lib_of env_ok) config_ex dynamic_req server_fwd) as [o w'] eqn:Hrun. simpl in Ho. subst o.
  set (t := mkTool (lib_of env_ok) "ssh_forward_dynamic" [need "session_id" TString; need "forward_id" TString; opt "bind_addr" TString;
    need "bind_port" TNumber] (@handleForwardDynamic (lib_of env_ok) config_ex)).
  assert (Ht : t ∈ @Build (lib_of env_ok) config_ex).
  { unfold Build, RegisterForward. rewrite !elem_of_app. do 3 right. left. do 2 apply list_elem_of_further. apply list_elem_of_here. }
  destruct (@tool_is_one_step (lib_of env_ok) config_ex t dynamic_req server_fwd _ w' Ht light_fwd_ex dlight_ex Hrun)
    as (_ & ok & H & Hok). rewrite (Hok _ eq_refl) in H. exact H.
Defined.
