(* ===== verification/Setup.v ===== *)
(** * Registering with MCP clients (internal/setup)

    [Run] finds the clients that are installed and merges an entry into the
    configuration file of each.  The decoded file is a tree of [any]; the JSON and
    TOML codecs are parameters, gathered with what differs between the two merge
    functions of clients.go in a [format].  Files are those of Files.v. *)

From S2P Require Import Prelude GoStrings Url Paths Files.
From Stdlib Require Import Ascii String.

(** ** Decoded values *)
(** A Go [any], as far as the code makes or inspects one; [AOther] is a number, a
    boolean, a date, ... and is only carried along. *)
Inductive any :=
  | ANil
  | AString (s : string)
  | AOther (text : string)
  | ASlice (l : list any)
  | AStrings (l : list string)                (* []string *)
  | AMap (m : gmap string any)
  | AStrMap (m : gmap string string).         (* map[string]string *)

(** [v.(map[string]any)] of a map lookup, with [nil] replaced by an empty map. *)
Definition as_map (v : option any) : gmap string any :=
  match v with Some (AMap m) => m | _ => ∅ end.

Record Result := mkResult { Path : string; Action : string; Backup : string; Snippet : string }.
Definition eta_Result r := mkResult (Path r) (Action r) (Backup r) (Snippet r).
#[export] Instance upd_Action : Setter Action. Proof. mk_setter eta_Result. Defined.
#[export] Instance upd_Backup : Setter Backup. Proof. mk_setter eta_Result. Defined.
#[export] Instance upd_Snippet : Setter Snippet. Proof. mk_setter eta_Result. Defined.
(** A Go function that returns a result next to its error. *)
Abbreviation MR := (M FS (Result * option error)).

(** What differs between JSON and TOML.  [Unmarshal] into a nil [map[string]any]:
    [None] is a map that is nil still ([null] in JSON). *)
Record format := mkFormat {
  Unmarshal : string → error + option (gmap string any);
  Marshal : gmap string any → error + string;             (* of the whole file *)
  textEqual : any → any → bool;                           (* of the encodings *)
  renderEntry : string → any → string;
  of_args : list string → any;
  of_env : gmap string string → any;
  bad_text : string;
}.

Section setup.
Variable io : fate.

(** [os.ReadFile] and [os.Stat]; [None] and [false] are [fs.ErrNotExist]. *)
Definition ReadFile (path : string) : M FS (option string) := Open io path.
Definition Stat (path : string) : M FS bool := f ← Open io path; mret (bool_decide (is_Some f)).

(** [if err != nil { return res, err }] *)
Definition or_return {A} (res : Result) (m : M FS A) (k : A → MR) : MR :=
  r ← try m; match r with inl e => mret (res, Some e) | inr a => k a end.

Definition backupFile (path : string) : M FS string :=
  there ← Stat path;
  if there : bool then
    data ← ReadFile path;
    match data with
    | None => fail (Msg "file does not exist")
    | Some data => WriteFile io (path +:+ ".bak")%string data;; mret (path +:+ ".bak")%string
    end
  else mret "".
Definition atomicWrite (path data : string) : M FS unit := replace_file io path data.

Section merge.
Variable F : format.

Definition read_root (path : string) : M FS (option (gmap string any)) :=
  r ← try (ReadFile path);
  match r with
  | inl e => fail (Wrap "read %s: %w" [path] e)
  | inr None => mret (Some ∅)
  | inr (Some data) =>
    if decide (data = "") then mret (Some ∅) else
    match Unmarshal F data with
    | inl e => fail (Wrap (bad_text F) [path] e)
    | inr root => mret root
    end
  end.

Definition new_entry (command : string) (args : list string) (env : gmap string string) : any :=
  let entry : gmap string any := {["command" := AString command]} in
  let entry := if decide (args = []) then entry else <["args" := of_args F args]> entry in
  let entry := if decide (env = ∅) then entry else <["env" := of_env F env]> entry in
  AMap entry.

(** The part that writes. *)
Definition write_root (path name key : string) (root servers : gmap string any) (entry : any) (action : string)
    (res : Result) : MR :=
  let root := <[key := AMap (<[name := entry]> servers)]> root in
  r ← try (MkdirAll io);
  match r with
  | inl e => mret (res, Some (Wrap "create %s: %w" [Dir path] e))
  | inr _ =>
    or_return res (backupFile path) (λ backup,
    let res := res <| Backup := backup |> in
    or_return res (of_sum (Marshal F root)) (λ out,
    or_return res (atomicWrite path out) (λ _,
    mret (res <| Action := action |> <| Snippet := renderEntry F name entry |>, None))))
  end.

Definition mergeServers (path name command : string) (args : list string) (env : gmap string string)
    (key : string) (dryRun : bool) : MR :=
  let res := mkResult path "" "" "" in
  or_return res (read_root path) (λ root,
  let servers := as_map (match root with Some m => m !! key | None => None end) in
  let entry := new_entry command args env in
  let same := match servers !! name with Some existing => textEqual F existing entry | None => false end in
  if same then
    mret (res <| Action := "unchanged" |> <| Snippet := renderEntry F name entry |>, None)
  else
  let '(action, dryAction) :=
    match servers !! name with Some _ => ("updated", "would-update") | None => ("added", "would-add") end in
  if dryRun then
    mret (res <| Action := dryAction |> <| Snippet := renderEntry F name entry |>, None)
  else
  match root with
  | None => panic "assignment to entry in nil map"
  | Some root => write_root path name key root servers entry action res
  end).
End merge.

(** ** The two formats *)
Variable json_Unmarshal : string → error + option (gmap string any).
Variable json_MarshalIndent : gmap string any → error + string.
Variable json_text : any → string.              (* json.Marshal, its error dropped *)
Variable json_render : string → any → string.
Variable toml_Unmarshal : string → error + option (gmap string any).
Variable toml_Marshal : gmap string any → error + string.
Variable toml_text : any → string.
Variable toml_render : string → any → string.

Definition jsonEqual (a b : any) : bool := bool_decide (json_text a = json_text b).
Definition tomlEqual (a b : any) : bool := bool_decide (toml_text a = toml_text b).
Definition toAnySlice (s : list string) : any := ASlice (map AString s).
Definition toAnyMap (m : gmap string string) : any := AMap (AString <$> m).
Definition newline : string := String "010" "".

Definition json_format : format := mkFormat json_Unmarshal
  (λ root, match json_MarshalIndent root with inr out => inr (out +:+ newline)%string | inl e => inl e end)
  jsonEqual json_render AStrings AStrMap
  "parse %s: %w (file exists but is not valid JSON — refusing to overwrite)".
Definition toml_format : format := mkFormat toml_Unmarshal toml_Marshal tomlEqual toml_render toAnySlice toAnyMap
  "parse %s: %w (file exists but is not valid TOML)".
Definition mergeJSONMCPServers := mergeServers json_format.
Definition mergeTOMLMCPServers path name command args env dryRun :=
  mergeServers toml_format path name command args env "mcp_servers" dryRun.

(** ** The clients *)
Record System := mkSystem {
  GOOS : string;
  UserHomeDir : error + string;
  APPDATA : string;
  is_dir : string → bool;          (* [os.Stat] of a directory succeeds *)
  Executable : error + string;
}.
Variable Sys : System.

Record Client := mkClient {
  Name : string;
  ConfigPath : error + string;
  Install : string → string → list string → gmap string string → bool → MR;
}.
Definition in_home (l : list string) : error + string :=
  match UserHomeDir Sys with inl e => inl e | inr home => inr (path_Join (home :: l)) end.
Definition in_appdata (l : list string) : error + string :=
  if decide (APPDATA Sys = "") then inl (Msg "APPDATA not set") else inr (path_Join (APPDATA Sys :: l)).
(** The [Install] of the clients that keep their servers in JSON. *)
Definition install_json (path : error + string) (key : string) name command args env dryRun : MR :=
  match path with
  | inl e => mret (mkResult "" "" "" "", Some e)
  | inr path => mergeJSONMCPServers path name command args env key dryRun
  end.

Definition ClaudeCode : Client :=
  let path := in_home [".claude.json"] in mkClient "Claude Code" path (install_json path "mcpServers").
Definition ClaudeDesktop : Client :=
  let path :=
    if decide (GOOS Sys = "darwin") then
      in_home ["Library"; "Application Support"; "Claude"; "claude_desktop_config.json"]
    else if decide (GOOS Sys = "windows") then in_appdata ["Claude"; "claude_desktop_config.json"]
    else in_home [".config"; "Claude"; "claude_desktop_config.json"] in
  mkClient "Claude Desktop" path (install_json path "mcpServers").
Definition CodexCLI : Client :=
  let path := in_home [".codex"; "config.toml"] in
  mkClient "Codex CLI" path (λ name command args env dryRun,
    match path with
    | inl e => mret (mkResult "" "" "" "", Some e)
    | inr path => mergeTOMLMCPServers path name command args env dryRun
    end).
Definition Cursor : Client :=
  let path := in_home [".cursor"; "mcp.json"] in mkClient "Cursor" path (install_json path "mcpServers").
Definition Windsurf : Client :=
  let path := in_home [".codeium"; "windsurf"; "mcp_config.json"] in
  mkClient "Windsurf" path (install_json path "mcpServers").
Definition Zed : Client :=
  let path := if decide (GOOS Sys = "windows") then in_appdata ["Zed"; "settings.json"]
              else in_home [".config"; "zed"; "settings.json"] in
  mkClient "Zed" path (install_json path "context_servers").
(** Skipped when only the YAML file of newer versions is there. *)
Definition Continue : Client :=
  let path := in_home [".continue"; "config.json"] in
  mkClient "Continue.dev" path (λ name command args env dryRun,
    match path with
    | inl e => mret (mkResult "" "" "" "", Some e)
    | inr p =>
      let yamlPath := path_Join [Dir p; "config.yaml"] in
      json ← try (Stat p);
      yaml ← (match json with inr false => try (Stat yamlPath) | _ => mret (inr false) end);
      match yaml with
      | inr true => mret (mkResult yamlPath "skipped" "" "",
          Some (Fmt "Continue.dev uses YAML config (%s); add the entry by hand for now" [yamlPath]))
      | _ => mergeJSONMCPServers p name command args env "mcpServers" dryRun
      end
    end).

(** ** setup.go *)
Definition AllClients : list Client := [ClaudeCode; ClaudeDesktop; CodexCLI; Cursor; Windsurf; Zed; Continue].

Record DetectedClient := mkDetected { dc_Client : Client; dc_Path : string; dc_Exists : bool }.

Fixpoint Detect (clients : list Client) : M FS (list DetectedClient) :=
  match clients with
  | [] => mret []
  | c :: rest =>
    match ConfigPath c with
    | inl _ => Detect rest
    | inr path =>
      r ← try (Stat path);
      match r with
      | inr true => out ← Detect rest; mret (mkDetected c path true :: out)
      | _ =>
        if is_dir Sys (Dir path) then out ← Detect rest; mret (mkDetected c path false :: out)
        else Detect rest
      end
    end
  end.

Record Options := mkOptions {
  SelfBinary : string;
  ServerName : string;
  Args : list string;
  Env : gmap string string;
  Yes : bool;
  DryRun : bool;
  OnlyClient : string;
  In : list string;                (* the lines of the input; then it ends *)
}.
Record ClientResult := mkClientResult { cr_Client : string; cr_Result : Result; cr_Err : option error }.

(** The answer to one prompt, and what is left of the input. *)
Definition accepts (line : string) : bool :=
  let line := TrimSpace (ToLower line) in
  bool_decide (line = "" ∨ line = "y" ∨ line = "yes").
Definition ask (input : list string) : bool * list string :=
  match input with
  | [] => (accepts "", [])          (* [ReadString] at the end of the input *)
  | line :: rest => (accepts line, rest)
  end.

Fixpoint install_each (o : Options) (ds : list DetectedClient) (input : list string) : M FS (list ClientResult) :=
  match ds with
  | [] => mret []
  | d :: rest =>
    let '(ok, input) := if Yes o then (true, input) else ask input in
    if ok : bool then
      '(res, err) ← Install (dc_Client d) (ServerName o) (SelfBinary o) (Args o) (Env o) (DryRun o);
      out ← install_each o rest input;
      mret (mkClientResult (Name (dc_Client d)) res err :: out)
    else
      out ← install_each o rest input;
      mret (mkClientResult (Name (dc_Client d)) (mkResult (dc_Path d) "skipped" "" "") None :: out)
  end.

Fixpoint Contains (s sub : string) : bool :=
  has_prefix sub s || match s with String _ s' => Contains s' sub | "" => false end.

(** [--client]: keep the clients whose name contains the word. *)
Definition selected (o : Options) (ds : list DetectedClient) : list DetectedClient :=
  if decide (OnlyClient o = "") then ds else
  List.filter (λ d, Contains (ToLower (Name (dc_Client d))) (ToLower (OnlyClient o))) ds.
(** What is printed is left out. *)
Definition Run (o : Options) : M FS (list ClientResult) :=
  self ← (if decide (SelfBinary o = "") then of_sum (Executable Sys) else mret (SelfBinary o));
  let name := if decide (ServerName o = "") then "remote-shell" else ServerName o in
  let o := mkOptions self name (Args o) (Env o) (Yes o) (DryRun o) (OnlyClient o) (In o) in
  detected ← Detect AllClients;
  install_each o (selected o detected) (In o).
End setup.

(** ** What is touched *)
(** The configuration file, its backup and its temporary file. *)
Definition files_of (path p : string) : Prop := p = path ∨ p = (path +:+ ".bak")%string ∨ p = (path +:+ ".tmp")%string.
Definition touches (P : string → Prop) (s s' : FS) : Prop := ∀ p, ¬ P p → fs_files s' !! p = fs_files s !! p.
#[export] Instance touches_pre P : PreOrder (touches P).
Proof. split; [by intros s p|]. intros a b c H1 H2 p Hp. by rewrite H2, H1. Qed.
Lemma touches_mono (P Q : string → Prop) s s' : (∀ p, P p → Q p) → touches P s s' → touches Q s s'.
Proof. intros H Ht p Hp. apply Ht. auto. Qed.
Lemma only_touches path (P : string → Prop) s s' : P path → only path s s' → touches P s s'.
Proof. intros HP [H _] p Hp. apply H. by intros ->. Qed.

Definition reads {A} (m : M FS A) : Prop := ∀ s, (m s).2 = s ∨ (m s).2 = tick s.
Lemma reads_touches {A} P (m : M FS A) : reads m → stays (touches P) m.
Proof. intros H s p _. by destruct (H s) as [->| ->]. Qed.
Lemma reads_Open io path : reads (Open io path).
Proof. intros s. unfold Open. right. by destruct (io (fs_tick s)) as [[? ?]|]. Qed.
Lemma reads_MkdirAll io : reads (MkdirAll io).
Proof. intros s. unfold MkdirAll. right. by destruct (io (fs_tick s)) as [[? ?]|]. Qed.

Section touched.
Context (io : fate).
#[local] Hint Resolve reads_touches reads_Open reads_MkdirAll : stays.

Lemma touches_ReadFile P path : stays (touches P) (ReadFile io path).
Proof. unfold ReadFile. auto with stays. Qed.
Lemma touches_Stat P path : stays (touches P) (Stat io path).
Proof. unfold Stat. solve_stays. Qed.
#[local] Hint Resolve touches_ReadFile touches_Stat : stays.
Lemma touches_WriteFile (P : string → Prop) path data : P path → stays (touches P) (WriteFile io path data).
Proof.
  intros HP s. pose proof (WriteFile_spec io path data s) as H.
  destruct (WriteFile io path data s) as [[] s']; simpl in *; [eapply only_touches; [exact HP|apply H]|by eapply only_touches|done].
Qed.
Lemma touches_backupFile (P : string → Prop) path : P (path +:+ ".bak")%string → stays (touches P) (backupFile io path).
Proof. intros HP. unfold backupFile. pose proof (touches_WriteFile P (path +:+ ".bak")%string). solve_stays. Qed.
Lemma touches_atomicWrite (P : string → Prop) path data : P path → P (path +:+ ".tmp")%string →
  stays (touches P) (atomicWrite io path data).
Proof.
  intros HP Ht. unfold atomicWrite, replace_file. cbv zeta.
  apply stays_bind; [apply _|by apply touches_WriteFile|intros _].
  apply stays_bind; [apply _|apply stays_try|].
  - intros s p Hp. unfold Rename. destruct (io (fs_tick s)) as [[? ?]|]; simpl; [done|].
    destruct (fs_files s !! _); [|done]. simpl. rewrite lookup_insert_ne, lookup_delete_ne; [done| |]; by intros <-.
  - intros [e|[]]; [|apply stays_ret, _]. apply stays_bind; [apply _| |intros; apply stays_fail, _].
    apply stays_ignore; [apply _|]. intros s. by eapply only_touches; [exact Ht|apply Remove_spec].
Qed.
Lemma touches_or_return {A} P res (m : M FS A) (k : A → MR) :
  stays (touches P) m → (∀ a, stays (touches P) (k a)) → stays (touches P) (or_return res m k).
Proof. intros Hm Hk. unfold or_return. apply stays_bind; [apply _|by apply stays_try|]. intros []; [apply stays_ret, _|done]. Qed.

Lemma touches_merge F path name command args env key dryRun :
  stays (touches (λ p, dryRun = false ∧ files_of path p)) (mergeServers io F path name command args env key dryRun).
Proof.
  unfold mergeServers. apply touches_or_return; [unfold read_root; solve_stays|].
  intros root. cbv zeta. destruct (match _ !! name with Some _ => _ | None => false end); [apply stays_ret, _|].
  destruct (match _ !! name with Some _ => _ | None => _ end) as [action dry].
  destruct dryRun; [apply stays_ret, _|]. destruct root as [root|]; [|apply stays_panic, _].
  unfold write_root. apply stays_bind; [apply _|apply stays_try; auto with stays|].
  intros [e|[]]; [apply stays_ret, _|].
  apply touches_or_return; [apply touches_backupFile; split; [done|by right; left]|]. intros backup.
  apply touches_or_return; [solve_stays|]. intros out.
  apply touches_or_return; [apply touches_atomicWrite; (split; [done|unfold files_of; tauto])|]. intros []. apply stays_ret, _.
Qed.
End touched.

(** ** What a merge does *)
(** The content of a file, decoded. *)
Definition decoded (F : format) (content : option string) : error + option (gmap string any) :=
  match content with
  | None => inr (Some ∅)
  | Some data => if decide (data = "") then inr (Some ∅) else Unmarshal F data
  end.
Definition bak (path : string) : string := (path +:+ ".bak")%string.
(** The root with the entry in it. *)
Definition with_entry (key name : string) (entry : any) (root : gmap string any) : gmap string any :=
  <[key := AMap (<[name := entry]> (as_map (root !! key)))]> root.

Lemma suffix_ne (path s : string) : s ≠ "" → (path +:+ s)%string ≠ path.
Proof. intros Hs H. apply (f_equal String.length) in H. rewrite length_app_str in H. destruct s; [done|simpl in H; lia]. Qed.
Lemma bak_tmp path : bak path ≠ (path +:+ ".tmp")%string.
Proof.
  unfold bak. intros H. apply (f_equal (drop_str (String.length path))) in H. by rewrite !drop_app_str in H.
Qed.

Section result.
Context (io : fate) (F : format).

Lemma or_return_run {A} res (m : M FS A) (k : A → MR) s :
  or_return res m k s = match m s with
  | (Ret a, s') => k a s'
  | (Err e, s') => (Ret (res, Some e), s')
  | (Panic p, s') => (Panic p, s')
  end.
Proof. unfold or_return, try, mbind, M_bind. by destruct (m s) as [[] ?]. Qed.

Lemma read_root_spec path s :
  match read_root io F path s with
  | (Ret root, s') => decoded F (fs_files s !! path) = inr root ∧ s' = tick s
  | (Err _, s') => s' = tick s
  | (Panic _, _) => False
  end.
Proof.
  unfold read_root, ReadFile, try, mbind, M_bind, Open.
  destruct (io (fs_tick s)) as [[e n]|]; [done|]. destruct (fs_files s !! path) as [d|]; [|done]. simpl.
  destruct (decide (d = "")); [done|]. by destruct (Unmarshal F d).
Qed.
Lemma backupFile_spec path s :
  match backupFile io path s with
  | (Ret b, s') => only (bak path) s s' ∧
      match fs_files s !! path with
      | None => b = "" ∧ fs_files s' = fs_files s
      | Some d => b = bak path ∧ fs_files s' !! bak path = Some d
      end
  | (Err _, s') => only (bak path) s s'
  | (Panic _, _) => False
  end.
Proof.
  unfold backupFile, Stat, ReadFile, mbind, M_bind, Open.
  destruct (io (fs_tick s)) as [[e n]|]; [apply only_tick|]. simpl.
  destruct (fs_files s !! path) as [d|] eqn:Hd; simpl; [|split; [apply only_tick|done]].
  destruct (io (S (fs_tick s))) as [[e n]|]; [apply (only_trans _ _ (tick s)); apply only_tick|]. rewrite Hd.
  pose proof (WriteFile_spec io (bak path) d (tick (tick s))) as H. fold (bak path).
  assert (Ht : only (bak path) s (tick (tick s))) by (apply (only_trans _ _ (tick s)); apply only_tick).
  destruct (WriteFile io (bak path) d (tick (tick s))) as [[[]|e|p] s']; [|by eapply only_trans|done].
  destruct H as [Ho Hb]. split; [by eapply only_trans|done].
Qed.

(** Every state a crash could have found has the old file, or the whole new one
    next to a backup of the old. *)
Definition safe (path : string) (out : option string) (s s' : FS) : Prop :=
  ∃ l, fs_seen s' = fs_seen s ++ l ∧ ∀ f, f ∈ l →
    f !! path = fs_files s !! path ∨
    (is_Some out ∧ f !! path = out ∧ ∀ d, fs_files s !! path = Some d → f !! bak path = Some d).
Lemma safe_only path out s s' : only (bak path) s s' → safe path out s s'.
Proof.
  intros [_ (l & El & Hl)]. exists l. split; [done|]. intros f Hf. left. apply Hl; [done|].
  intros H. by apply (suffix_ne path ".bak").
Qed.

Lemma write_root_spec path name key root entry action res s :
  match write_root io F path name key root (as_map (root !! key)) entry action res s with
  | (Ret (res', err), s') =>
    safe path (match Marshal F (with_entry key name entry root) with inr out => Some out | inl _ => None end) s s' ∧
    match err with
    | Some _ => fs_files s' !! path = fs_files s !! path
    | None => Action res' = action ∧
        ∃ out, Marshal F (with_entry key name entry root) = inr out ∧ fs_files s' !! path = Some out ∧
          match fs_files s !! path with
          | Some d => Backup res' = bak path ∧ fs_files s' !! bak path = Some d
          | None => Backup res' = ""
          end
    end
  | _ => False
  end.
Proof.
  assert (Hne : path ≠ bak path) by (intros H; by apply (suffix_ne path ".bak")).
  unfold write_root. fold (with_entry key name entry root).
  assert (Hmk : ∃ r, try (MkdirAll io) s = (Ret r, tick s)).
  { unfold try, MkdirAll. destruct (io (fs_tick s)) as [[? ?]|]; by eexists. }
  destruct Hmk as [r Hmk]. rewrite (bind_ret _ _ _ _ _ Hmk). destruct r as [e|[]].
  { split; [apply safe_only, only_tick|done]. }
  rewrite or_return_run. pose proof (backupFile_spec path (tick s)) as Hb.
  destruct (backupFile io path (tick s)) as [[b|e|p] s1]; [| |done]; change (fs_files (tick s)) with (fs_files s) in Hb.
  2:{ assert (Ho : only (bak path) s s1) by (eapply only_trans; [apply only_tick|exact Hb]).
      split; [by apply safe_only|]. by apply Ho. }
  destruct Hb as [Ho Hb]. assert (Ho1 : only (bak path) s s1) by (eapply only_trans; [apply only_tick|exact Ho]).
  rewrite or_return_run. unfold of_sum. destruct (Marshal F (with_entry key name entry root)) as [e|out] eqn:Hm.
  { split; [by apply safe_only|]. by apply Ho1. }
  unfold mret, M_ret. rewrite or_return_run. unfold atomicWrite.
  pose proof (replace_file_spec io path out s1) as Hr.
  assert (Hfin : ∀ s2, atomic path out s1 s2 → safe path (Some out) s s2).
  { intros s2 (l2 & E2 & H2). destruct Ho1 as [Hf (l1 & E1 & H1)]. exists (l1 ++ l2). rewrite E2, E1, (assoc_L (++)).
    split; [done|]. intros f [Hin|Hin]%elem_of_app; [left; by apply H1|].
    destruct (H2 f Hin) as [[Hold|Hnew] Hother]; [left; rewrite Hold; by apply Hf|right].
    split_and!; [by eexists|done|]. intros d Hd. rewrite Hd in Hb. destruct Hb as [_ Hb].
    rewrite Hother; [done|done|apply bak_tmp]. }
  assert (Hkeep : (replace_file io path out s1).1 = Ret tt →
    fs_files (replace_file io path out s1).2 !! bak path = fs_files s1 !! bak path).
  { intros _. pose proof (touches_atomicWrite io (λ p, p = path ∨ p = (path +:+ ".tmp")%string) path out
      (or_introl eq_refl) (or_intror eq_refl) s1) as Ht. apply Ht. intros [H|H]; [by apply Hne|by apply (bak_tmp path)]. }
  destruct (replace_file io path out s1) as [[[]|e|p] s2]; [| |by destruct Hr as [_ []]]; destruct Hr as [Hat Hr].
  - split; [by apply Hfin|]. split; [done|]. exists out. split_and!; [done|done|].
    destruct (fs_files s !! path) as [d|]; [|by destruct Hb]. destruct Hb as [-> Hb]. split; [done|].
    rewrite <- Hb. by apply Hkeep.
  - split; [by apply Hfin|]. rewrite Hr. by apply Ho1.
Qed.
End result.

(** The other keys of the file, and the other servers, stay. *)
Lemma with_entry_keeps key name entry root :
  (∀ k, k ≠ key → with_entry key name entry root !! k = root !! k) ∧
  (∀ n, n ≠ name → as_map (with_entry key name entry root !! key) !! n = as_map (root !! key) !! n) ∧
  as_map (with_entry key name entry root !! key) !! name = Some entry.
Proof.
  unfold with_entry. rewrite lookup_insert_eq. simpl. split_and!.
  - intros k Hk. by rewrite lookup_insert_ne.
  - intros n Hn. by rewrite lookup_insert_ne.
  - by rewrite lookup_insert_eq.
Qed.

(** C19: registering changes one entry of one file, or nothing.  Only the
    configuration file, its backup and its temporary file are touched.  On an error
    the configuration file is what it was.  Otherwise it is unchanged because an equal
    entry was there or the run is dry, or it holds the encoding of the old content
    with the one entry set, and the old content is in the backup.  Wherever a crash
    comes, the old file is there, or the whole new one next to the backup. *)
Theorem install_exact io F path name command args env key dryRun s :
  let entry := new_entry F command args env in
  match mergeServers io F path name command args env key dryRun s with
  | (Ret (res, err), s') =>
    (∀ p, ¬ files_of path p → fs_files s' !! p = fs_files s !! p) ∧
    (∃ out, safe path out s s') ∧
    match err with
    | Some _ => fs_files s' !! path = fs_files s !! path
    | None =>
      (fs_files s' = fs_files s ∧ (dryRun = true ∨ Action res = "unchanged" ∧
         ∃ root e, decoded F (fs_files s !! path) = inr (Some root) ∧
           as_map (root !! key) !! name = Some e ∧ textEqual F e entry = true)) ∨
      (dryRun = false ∧ ∃ root out, decoded F (fs_files s !! path) = inr (Some root) ∧
         Marshal F (with_entry key name entry root) = inr out ∧ fs_files s' !! path = Some out ∧
         ∀ d, fs_files s !! path = Some d → Backup res = bak path ∧ fs_files s' !! bak path = Some d)
    end
  | (Panic _, s') => dryRun = false ∧ decoded F (fs_files s !! path) = inr None ∧ fs_files s' = fs_files s
  | (Err _, _) => False
  end.
Proof.
  cbv zeta. pose proof (touches_merge io F path name command args env key dryRun s) as Ht. revert Ht.
  unfold mergeServers. rewrite or_return_run. pose proof (read_root_spec io F path s) as Hr.
  assert (Hquiet : ∀ out, safe path out s (tick s)) by (intros out; apply safe_only, only_tick).
  destruct (read_root io F path s) as [[root|e|p] s1]; [| |done].
  2:{ subst s1. intros _. split_and!; [done|by exists None|done]. }
  destruct Hr as [Hdec ->]. cbv zeta.
  set (servers := as_map _). set (entry := new_entry F command args env).
  assert (Hs : servers !! name = match root with Some r => as_map (r !! key) !! name | None => None end)
    by (subst servers; by destruct root).
  destruct (match servers !! name with Some existing => textEqual F existing entry | None => false end) eqn:Hsame.
  { intros _. split_and!; [done|by exists None|]. left. split; [done|]. right. split; [done|].
    destruct root as [r|]; [|by rewrite Hs in Hsame]. rewrite Hs in Hsame.
    destruct (as_map (r !! key) !! name) as [e|] eqn:He; [|done]. by exists r, e. }
  destruct (match servers !! name with Some _ => ("updated", "would-update") | None => ("added", "would-add") end) as [action dry].
  destruct dryRun; [intros _; split_and!; [done|by exists None|left; split; [done|by left]]|].
  destruct root as [r|]; [|by intros _]. subst servers.
  pose proof (write_root_spec io F path name key r entry action (mkResult path "" "" "") (tick s)) as Hw.
  destruct (write_root io F path name key r _ entry action _ (tick s)) as [[[res err]|e|p] s']; [|done|done].
  intros Ht. destruct Hw as [Hsafe Hw].
  split_and!; [intros p Hp; apply Ht; tauto|by eexists|]. destruct err; [done|]. right. split; [done|].
  destruct Hw as (_ & out & Hm & Hout & Hb). exists r, out. split_and!; [done|done|done|].
  intros d Hd. change (fs_files (tick s)) with (fs_files s) in Hb. by rewrite Hd in Hb.
Qed.

(** A file that decodes to nothing at all ([null]) makes setup panic. *)
Lemma null_config_panics io F path name command args env key data s :
  io (fs_tick s) = None → fs_files s !! path = Some data → data ≠ "" → Unmarshal F data = inr None →
  (mergeServers io F path name command args env key false s).1 = Panic "assignment to entry in nil map".
Proof.
  intros Hio Hf Hne Hu. unfold mergeServers. rewrite or_return_run.
  assert (Hr : read_root io F path s = (Ret None, tick s)).
  { unfold read_root, ReadFile, try, mbind, M_bind, Open. rewrite Hio, Hf. simpl. by rewrite decide_False, Hu. }
  rewrite Hr. cbv zeta. simpl. done.
Qed.

(** ** Who is asked *)
Section run.
Context (io : fate) (ju : string → error + option (gmap string any)) (jm : gmap string any → error + string)
  (jt : any → string) (jr : string → any → string) (tu : string → error + option (gmap string any))
  (tm : gmap string any → error + string) (tt_ : any → string) (tr : string → any → string) (Sys : System).
Local Abbreviation clients := (AllClients io ju jm jt jr tu tm tt_ tr Sys).

(** The clients that the answers select. *)
Fixpoint chosen (yes : bool) (ds : list DetectedClient) (input : list string) : list DetectedClient :=
  match ds with
  | [] => []
  | d :: rest =>
    let '(ok, input) := if yes then (true, input) else ask input in
    (if ok : bool then [d] else []) ++ chosen yes rest input
  end.

Lemma touches_install c path name command args env dryRun (Hc : c ∈ clients) (Hp : ConfigPath c = inr path) :
  stays (touches (λ p, dryRun = false ∧ files_of path p)) (Install c name command args env dryRun).
Proof.
  unfold AllClients in Hc. rewrite !elem_of_cons in Hc.
  destruct Hc as [->|[->|[->|[->|[->|[->|[->|Hc]]]]]]]; [..|by apply elem_of_nil in Hc]; simpl in *; try rewrite Hp;
    try apply touches_merge.
  apply stays_bind; [apply _|apply stays_try, touches_Stat|]. intros json.
  apply stays_bind; [apply _| |].
  - destruct json as [e|[]]; [apply stays_ret, _..|apply stays_try, touches_Stat].
  - intros [e|[]]; [apply touches_merge|apply stays_ret, _|apply touches_merge].
Qed.

Definition valid (d : DetectedClient) : Prop := dc_Client d ∈ clients ∧ ConfigPath (dc_Client d) = inr (dc_Path d).
Lemma touches_install_each o ds input : Forall valid ds →
  stays (touches (λ p, DryRun o = false ∧ ∃ d, d ∈ chosen (Yes o) ds input ∧ files_of (dc_Path d) p)) (install_each o ds input).
Proof.
  intros Hv. revert input. induction Hv as [|d ds [Hd Hp] Hv IH]; intros input; simpl; [apply stays_ret, _|].
  destruct (if Yes o then (true, input) else ask input) as [ok input'].
  assert (Hmono : ∀ s s', touches (λ p, DryRun o = false ∧ ∃ d, d ∈ chosen (Yes o) ds input' ∧ files_of (dc_Path d) p) s s' →
    touches (λ p, DryRun o = false ∧ ∃ d0, d0 ∈ (if ok then [d] else []) ++ chosen (Yes o) ds input' ∧ files_of (dc_Path d0) p) s s').
  { intros s s'. apply touches_mono. intros p (? & d' & Hin & ?). split; [done|]. exists d'. split; [|done]. apply elem_of_app. by right. }
  assert (IH' : stays (touches (λ p, DryRun o = false ∧ ∃ d0, d0 ∈ (if ok then [d] else []) ++ chosen (Yes o) ds input' ∧ files_of (dc_Path d0) p))
    (install_each o ds input')) by (intros s; apply Hmono, IH).
  destruct ok.
  - apply stays_bind; [apply _| |intros [res err]; apply stays_bind; [apply _|exact IH'|intros; apply stays_ret, _]].
    intros s. eapply touches_mono; [|by apply (touches_install (dc_Client d) (dc_Path d))].
    intros p [? ?]. split; [done|]. exists d. split; [by left|done].
  - apply stays_bind; [apply _|exact IH'|intros; apply stays_ret, _].
Qed.

Lemma Detect_valid cs s : (∀ c, c ∈ cs → c ∈ clients) →
  match Detect io Sys cs s with
  | (Ret ds, s') => Forall valid ds ∧ fs_files s' = fs_files s
  | _ => False
  end.
Proof.
  revert s. induction cs as [|c cs IH]; intros s Hcs; simpl; [by split; [constructor|]|].
  assert (IH' : ∀ s, match Detect io Sys cs s with (Ret ds, s') => Forall valid ds ∧ fs_files s' = fs_files s | _ => False end)
    by (intros; apply IH; intros; apply Hcs; by right).
  clear IH. destruct (ConfigPath c) as [e|path] eqn:Hp; [apply IH'|].
  assert (Hst : ∃ r s1, try (Stat io path) s = (Ret r, s1) ∧ fs_files s1 = fs_files s).
  { unfold try, Stat, mbind, M_bind, Open. destruct (io (fs_tick s)) as [[? ?]|]; by eexists _, _. }
  destruct Hst as (r & s1 & Hst & Hs1). rewrite (bind_ret _ _ _ _ _ Hst).
  assert (Hv : ∀ b, valid (mkDetected c path b)) by (intros b; split; [apply Hcs; left|done]).
  specialize (IH' s1). rewrite Hs1 in IH'.
  assert (Hgo : ∀ b, match (Detect io Sys cs ≫= λ out, mret (mkDetected c path b :: out)) s1 with
    (Ret ds, s') => Forall valid ds ∧ fs_files s' = fs_files s | _ => False end).
  { intros b. unfold mbind, M_bind. destruct (Detect io Sys cs s1) as [[ds|?|?] s2]; [|done|done].
    destruct IH' as [? ?]. split; [by constructor|done]. }
  destruct r as [e|[]]; [|apply Hgo|]; (destruct (is_dir Sys (Dir path)); [apply Hgo|exact IH']).
Qed.

Lemma Run_run o s :
  match (if decide (SelfBinary o = "") then Executable Sys else inr (SelfBinary o)) with
  | inl e => Run io ju jm jt jr tu tm tt_ tr Sys o s = (Err e, s)
  | inr self => ∃ ds s1, Detect io Sys clients s = (Ret ds, s1) ∧ fs_files s1 = fs_files s ∧ Forall valid (selected o ds) ∧
      ∃ o', Run io ju jm jt jr tu tm tt_ tr Sys o s = install_each o' (selected o ds) (In o) s1 ∧
        Yes o' = Yes o ∧ DryRun o' = DryRun o
  end.
Proof.
  unfold Run. pose proof (Detect_valid clients s (λ c H, H)) as Hd.
  assert (Hgo : ∀ self name, ∃ ds s1, Detect io Sys clients s = (Ret ds, s1) ∧ fs_files s1 = fs_files s ∧ Forall valid (selected o ds) ∧
    ∃ o', (let o := mkOptions self name (Args o) (Env o) (Yes o) (DryRun o) (OnlyClient o) (In o) in
           detected ← Detect io Sys clients; install_each o (selected o detected) (In o)) s =
          install_each o' (selected o ds) (In o) s1 ∧ Yes o' = Yes o ∧ DryRun o' = DryRun o).
  { intros self name. destruct (Detect io Sys clients s) as [[ds|e|p] s1] eqn:Hds; [|done|done]. destruct Hd as [Hv Hf].
    exists ds, s1. split_and!; [done|done| |].
    - unfold selected. destruct (decide _); [done|]. apply Forall_forall. intros d [Hin _]%list_elem_of_In%filter_In.
      rewrite Forall_forall in Hv. apply Hv. by apply list_elem_of_In.
    - exists (mkOptions self name (Args o) (Env o) (Yes o) (DryRun o) (OnlyClient o) (In o)).
      rewrite (bind_ret _ _ _ _ _ Hds). done. }
  destruct (decide (SelfBinary o = "")); [|apply Hgo]. unfold of_sum.
  destruct (Executable Sys) as [e'|self]; [done|apply Hgo].
Qed.
End run.

(** C20: setup touches nothing without consent.  If a file changed, the run was not
    dry, and the file is the configuration, the backup or the temporary file of a
    client that was detected, that [--client] did not exclude, and that was accepted
    at its prompt (or by [--yes]). *)
Theorem setup_consent io ju jm jt jr tu tm tt_ tr Sys o s p
    (Hchanged : fs_files (Run io ju jm jt jr tu tm tt_ tr Sys o s).2 !! p ≠ fs_files s !! p) :
  DryRun o = false ∧ ∃ ds s1 d, Detect io Sys (AllClients io ju jm jt jr tu tm tt_ tr Sys) s = (Ret ds, s1) ∧
    d ∈ chosen (Yes o) (selected o ds) (In o) ∧ files_of (dc_Path d) p.
Proof.
  pose proof (Run_run io ju jm jt jr tu tm tt_ tr Sys o s) as H.
  destruct (if decide (SelfBinary o = "") then _ else _) as [e|self]; [rewrite H in Hchanged; done|].
  destruct H as (ds & s1 & Hds & Hf & Hv & o' & Hrun & Hy & Hdry). rewrite Hrun in Hchanged.
  pose proof (touches_install_each io ju jm jt jr tu tm tt_ tr Sys o' _ (In o) Hv s1) as Ht.
  rewrite Hy, Hdry in Ht. rewrite <- Hf in Hchanged.
  set (P := λ d, files_of (dc_Path d) p) in *.
  assert (HP : ∀ d, Decision (P d)) by (intros d; subst P; unfold files_of; apply _).
  destruct (decide (DryRun o = false ∧ Exists P (chosen (Yes o) (selected o ds) (In o)))) as [[Hd Hex]|Hno].
  - apply Exists_exists in Hex as (d & Hin & Hp). split; [done|]. by exists ds, s1, d.
  - destruct Hchanged. apply Ht. intros (? & d & Hin & Hp). apply Hno. split; [done|]. apply Exists_exists. by exists d.
Qed.

(** A home with Claude Code, Cursor installed but unconfigured, and the answers yes and no. *)
Definition ju_ex (d : string) : error + option (gmap string any) :=
  if decide (d = "null") then inr None else inr (Some {["theme" := AString "dark"]}).
Definition jm_ex (m : gmap string any) : error + string := inr "new".
Definition jt_ex (v : any) : string := match v with AMap _ => "{}" | _ => "" end.
Definition home_ex : System :=
  mkSystem "linux" (inr "/h") "" (λ d, bool_decide (d = "/h/.cursor")) (inr "/bin/remote-shell-mcp").
Definition options_ex : Options := mkOptions "" "" [] ∅ false false "" ["y"; "n"].
Definition home_fs : FS := mkFS {["/h/.claude.json" := "old"]} [] 0.
Definition render_ex (n : string) (v : any) : string := n.
Definition run_ex := Run (λ _, None) ju_ex jm_ex jt_ex render_ex ju_ex jm_ex jt_ex render_ex home_ex options_ex home_fs.
Definition clients_ex := AllClients (λ _, None) ju_ex jm_ex jt_ex render_ex ju_ex jm_ex jt_ex render_ex home_ex.

Example run_results : match run_ex.1 with Ret l => map (λ r, (cr_Client r, Action (cr_Result r))) l | _ => [] end =
  [("Claude Code", "added"); ("Cursor", "skipped")].
Proof. vm_compute. reflexivity. Qed.

Lemma setup_consent_witness :
  fs_files run_ex.2 !! "/h/.claude.json" = Some ("new" +:+ newline)%string ∧
  ∃ ds s1 d, Detect (λ _, None) home_ex clients_ex home_fs = (Ret ds, s1) ∧
    d ∈ chosen false (selected options_ex ds) ["y"; "n"] ∧ files_of (dc_Path d) "/h/.claude.json".
Proof.
  assert (Hc : fs_files run_ex.2 !! "/h/.claude.json" ≠ fs_files home_fs !! "/h/.claude.json") by (vm_compute; discriminate).
  split; [vm_compute; reflexivity|]. unfold run_ex in Hc.
  exact (proj2 (setup_consent (λ _, None) ju_ex jm_ex jt_ex render_ex ju_ex jm_ex jt_ex render_ex home_ex options_ex home_fs
    "/h/.claude.json" Hc)).
Defined.

(** Installing twice is installing once: when the file that was written decodes back
    with an entry of the same text, the second run changes nothing. *)
Lemma install_idempotent io F path name command args env key s out root2 e2 :
  fs_files s !! path = Some out → out ≠ "" → io (fs_tick s) = None →
  Unmarshal F out = inr (Some root2) → as_map (root2 !! key) !! name = Some e2 →
  textEqual F e2 (new_entry F command args env) = true →
  ∃ res, mergeServers io F path name command args env key false s = (Ret (res, None), tick s) ∧ Action res = "unchanged".
Proof.
  intros Hf Hne Hio Hu He Heq. unfold mergeServers. rewrite or_return_run.
  assert (Hr : read_root io F path s = (Ret (Some root2), tick s)).
  { unfold read_root, ReadFile, try, mbind, M_bind, Open. rewrite Hio, Hf. simpl. by rewrite decide_False, Hu. }
  rewrite Hr. cbv zeta. rewrite He, Heq. by eexists.
Qed.
(** An input that ends counts as a yes at every prompt. *)
Lemma eof_is_consent ds : chosen false ds [] = ds.
Proof. induction ds as [|d ds IH]; simpl; [done|]. rewrite IH. reflexivity. Qed.
