(* ===== verification/Cli.v ===== *)
(** * The command line client (cmd/remote-shell-mcp/cli.go)

    One tool call from the command line: the arguments in httpie's syntax become the
    JSON object of a tools/call request, and the result becomes output and an exit
    code.  JSON, TOON, [strconv.ParseFloat], the daemon's answers and the launcher are
    the parameters of [CliLib]. *)

From S2P Require Import Prelude GoStrings.
From Stdlib Require Import Ascii String.

Inductive outputMode := outputAsIs | outputJSON | outputTOON.

Record rpcErr := mkRpcErr { e_Code : Z; e_Message : string }.
Record content := mkContent { c_Type : string; c_Text : string }.
Record toolInfo := mkToolInfo { ti_Name : string; ti_Description : string; ti_InputSchema : string }.

Class CliLib := mkCliLib {
  json : Type;                                             (* [any] *)
  json_string : string → json;
  json_bool : bool → json;
  json_null : json;
  json_int : Z → json;
  ParseFloat : string → option json;
  json_Unmarshal : string → error + json;
  json_MarshalIndent : json → error + string;
  json_Indent : string → string → string;                  (* the prefix, and what could be indented *)
  toon_Decode : string → error + json;
  toon_Marshal : json → error + string;
  ReadFile : string → error + string;
  encode_call : string → gmap string json → error + string;  (* the tools/call request *)
  encode_list : error + string;                            (* the tools/list request *)
  decode_response : string → error + (string * option rpcErr);
  decode_result : string → option (list content * bool);
  decode_tools : string → option (list toolInfo);
  pad : string → string;                                   (* %-32s *)
}.

(** What the client did: the requests with their Authorization header, and the
    lines it printed. *)
Record Out := mkOut {
  o_requests : list (option string * string);
  o_stdout : list string;
  o_stderr : list string;
}.
Definition eta_Out o := mkOut (o_requests o) (o_stdout o) (o_stderr o).
#[export] Instance upd_o_requests : Setter o_requests. Proof. mk_setter eta_Out. Defined.
#[export] Instance upd_o_stdout : Setter o_stdout. Proof. mk_setter eta_Out. Defined.
#[export] Instance upd_o_stderr : Setter o_stderr. Proof. mk_setter eta_Out. Defined.
Definition println (l : string) : M Out unit := modify (λ o, o <| o_stdout ::= λ x, x ++ [l] |>).
Definition eprintln (l : string) : M Out unit := modify (λ o, o <| o_stderr ::= λ x, x ++ [l] |>).

(** ** Arguments *)
Definition ident_start (a : ascii) : bool :=
  bool_decide (a = "_"%char ∨ 97 ≤ code a ≤ 122 ∨ 65 ≤ code a ≤ 90).
Definition ident_char (a : ascii) : bool := ident_start a || bool_decide (48 ≤ code a ≤ 57).

(** The loop over the key: the longest identifier at the start, and the rest. *)
Fixpoint span_ident (first : bool) (s : string) : string * string :=
  match s with
  | String a s' =>
    if (if first then ident_start a else ident_char a) then
      let '(k, rest) := span_ident false s' in (String a k, rest)
    else ("", s)
  | "" => ("", "")
  end.

Definition splitKVOp (s : string) : option (string * string * string) :=
  let '(key, rest) := span_ident true s in
  if decide (key = "") then None else
  match strip ":@=" rest, strip ":=" rest, strip "@=" rest, strip "=" rest with
  | Some v, _, _, _ => Some (key, ":@=", v)
  | None, Some v, _, _ => Some (key, ":=", v)
  | None, None, Some v, _ => Some (key, "@=", v)
  | None, None, None, Some v => Some (key, "=", v)
  | None, None, None, None => None
  end.

(** [strconv.ParseInt(v, 10, 64)] *)
Definition ParseInt (v : string) : option Z :=
  let '(neg, digits) := match v with
    | String a rest => if decide (a = "-"%char) then (true, rest)
                       else if decide (a = "+"%char) then (false, rest) else (false, v)
    | "" => (false, "")
    end in
  match ParseUint digits 10 64 with
  | None => None
  | Some n => if neg then if bool_decide (n > 2 ^ 63) then None else Some (- n)
              else if bool_decide (2 ^ 63 ≤ n) then None else Some n
  end.

Section cli.
Context {L : CliLib}.

Definition coerceLooseJSON (v : string) : option json :=
  if decide (v = "true") then Some (json_bool true)
  else if decide (v = "false") then Some (json_bool false)
  else if decide (v = "null") then Some json_null
  else match ParseInt v with
  | Some n => Some (json_int n)
  | None => ParseFloat v
  end.

(** The value of one argument. *)
Definition arg_value (k op v : string) : error + json :=
  if decide (op = "=") then inr (json_string v)
  else if decide (op = ":=") then
    match json_Unmarshal v with
    | inr parsed => inr parsed
    | inl e => match coerceLooseJSON v with
               | Some parsed => inr parsed
               | None => inl (Wrap "arg %s: not valid JSON: %v" [k] e)
               end
    end
  else
    match ReadFile v with
    | inl e => inl (Wrap "arg %s: %v" [k] e)
    | inr data =>
      if decide (op = "@=") then inr (json_string data) else
      match json_Unmarshal data with
      | inr parsed => inr parsed
      | inl e => inl (Wrap "arg %s: file is not valid JSON: %v" [k] e)
      end
    end.
Fixpoint parse_into (args : list string) (out : gmap string json) : error + gmap string json :=
  match args with
  | [] => inr out
  | a :: rest =>
    match splitKVOp a with
    | None => inl (Fmt "bad arg %q (expected key=value, key:=json, key@=file, or key:@=file)" [a])
    | Some (k, op, v) =>
      match arg_value k op v with
      | inl e => inl e
      | inr x => parse_into rest (<[k := x]> out)
      end
    end
  end.
Definition parseKVArgs (args : list string) : error + gmap string json := parse_into args ∅.

(** ** The request *)
Variable Post : option string → string → error + (Z * string).   (* status and body *)
Variable error_text : error → string.

Definition do (token : string) (body : error + string) : M Out string :=
  body ← of_sum body;
  let auth := if decide (token = "") then None else Some ("Bearer " +:+ token)%string in
  modify (λ o, o <| o_requests ::= λ x, x ++ [(auth, body)] |>);;
  '(status, respBody) ← of_sum (Post auth body);
  if bool_decide (status = 401) then fail (Msg "daemon returned 401 (token mismatch)")
  else if bool_decide (400 ≤ status) then
    fail (Fmt "daemon returned %d: %s" [Itoa status; TrimSpace respBody])
  else
    match decode_response respBody with
    | inl e => fail (Wrap "decode rpc response: %w (body=%s)" [respBody] e)
    | inr (_, Some e) => fail (Fmt "rpc error %d: %s" [Itoa (e_Code e); e_Message e])
    | inr (result, None) => mret result
    end.

Definition transcodeOutput (text : string) (mode : outputMode) : string :=
  match mode with
  | outputAsIs => text
  | _ =>
    match (match json_Unmarshal text with inr v => inr v | inl _ => toon_Decode text end) with
    | inl _ => text
    | inr v =>
      match (match mode with outputTOON => toon_Marshal v | _ => json_MarshalIndent v end) with
      | inl _ => text
      | inr s => s
      end
    end
  end.

(** [if err != nil { print it; return 1 }] *)
Definition or_exit (m : M Out string) (k : string → M Out Z) : M Out Z :=
  r ← try m;
  match r with
  | inl e => eprintln (error_text e);; mret 1
  | inr a => k a
  end.

Definition callTool (token name : string) (args : gmap string json) (mode : outputMode) : M Out Z :=
  or_exit (do token (encode_call name args)) (λ raw,
    match decode_result raw with
    | None => println raw;; mret 0
    | Some (cs, isError) =>
      let exit : Z := if isError : bool then 1 else 0 in
      forM_ cs (λ c,
        if decide (c_Type c ≠ "text") then mret tt
        else let line := transcodeOutput (c_Text c) mode in
             if decide (exit ≠ 0) then eprintln line else println line);;
      mret exit
    end).

(** The first line of a description. *)
Definition first_line (d : string) : string :=
  let d := TrimSpace d in match cut "010"%char d with Some (l, _) => l | None => d end.
Definition listTools (token : string) (asJSON : bool) : M Out Z :=
  or_exit (do token encode_list) (λ raw,
    if asJSON then println (json_Indent "" raw);; mret 0 else
    match decode_tools raw with
    | None => println raw;; mret 0
    | Some ts => forM_ ts (λ t, println (pad (ti_Name t) +:+ " " +:+ first_line (ti_Description t))%string);; mret 0
    end).

Definition toolHelp (token name : string) : M Out Z :=
  or_exit (do token encode_list) (λ raw,
    match decode_tools raw with
    | None => mret 1
    | Some ts =>
      match List.find (λ t, bool_decide (ti_Name t = name)) ts with
      | Some t =>
        println (ti_Name t);; println "";; println (TrimSpace (ti_Description t));; println "";;
        println "Input schema:";; println ("  " +:+ json_Indent "  " (ti_InputSchema t))%string;; mret 0
      | None => eprintln (error_text (Fmt "no tool named %q (try `remote-shell-mcp tools`)" [name]));; mret 1
      end
    end).

(** ** runCLI *)
Record flags := mkFlags { f_json : bool; f_toon : bool; f_help : bool; f_rest : list string }.
Fixpoint parse_flags (args : list string) : flags :=
  match args with
  | [] => mkFlags false false false []
  | a :: rest =>
    let f := parse_flags rest in
    if decide (a = "--json") then mkFlags true (f_toon f) (f_help f) (f_rest f)
    else if decide (a = "--toon") then mkFlags (f_json f) true (f_help f) (f_rest f)
    else if decide (a = "--help" ∨ a = "-h") then mkFlags (f_json f) (f_toon f) true (f_rest f)
    else mkFlags (f_json f) (f_toon f) (f_help f) (a :: f_rest f)
  end.

(** [ensure] is [EnsureDaemon] or [EnsureDaemonAt]: the token of the daemon to talk
    to. *)
Definition runCLI (ensure : error + string) (toolName : string) (args : list string) : M Out Z :=
  let f := parse_flags args in
  if f_json f && f_toon f then eprintln "cannot use --json and --toon together";; mret 2 else
  match ensure with
  | inl e => eprintln ("ensure daemon: " +:+ error_text e)%string;; mret 1
  | inr token =>
    if decide (toolName = "tools") then listTools token (f_json f)
    else if f_help f then toolHelp token toolName
    else
      match parseKVArgs (f_rest f) with
      | inl e => eprintln ("args: " +:+ error_text e)%string;; mret 2
      | inr argsObj =>
        callTool token toolName argsObj
          (if f_json f then outputJSON else if f_toon f then outputTOON else outputAsIs)
      end
  end.
End cli.

(** ** Arguments, read back *)
Fixpoint all_chars (p : ascii → bool) (s : string) : Prop :=
  match s with String a s' => p a = true ∧ all_chars p s' | "" => True end.
Definition ident (k : string) : Prop :=
  match k with String a s => ident_start a = true ∧ all_chars ident_char s | "" => False end.
Definition operators : list string := ["="; ":="; "@="; ":@="].
(** [s] does not go on with a character of [p]. *)
Definition stops (p : ascii → bool) (s : string) : Prop := match s with String a _ => p a = false | "" => True end.

Lemma span_ident_spec first s k rest : span_ident first s = (k, rest) →
  s = (k +:+ rest)%string ∧ (if first then k = "" ∨ ident k else all_chars ident_char k).
Proof.
  revert first k rest. induction s as [|a s IH]; intros first k rest; cbn [span_ident].
  - intros [= <- <-]. by destruct first; [split; [|left]|].
  - destruct (if first then ident_start a else ident_char a) eqn:Ha.
    + destruct (span_ident false s) as [k' rest'] eqn:Hs. intros [= <- <-]. destruct (IH _ _ _ Hs) as [-> Hk].
      split; [done|]. destruct first; [right|]; by split.
    + intros [= <- <-]. by destruct first; [split; [|left]|].
Qed.
Lemma span_ident_false k rest : all_chars ident_char k → stops ident_char rest →
  span_ident false (k +:+ rest) = (k, rest).
Proof.
  induction k as [|a k IH]; intros Hk Hr.
  - destruct rest as [|a rest]; [done|]. cbn in *. by rewrite Hr.
  - destruct Hk as [Ha Hk]. rewrite app_cons_str. cbn [span_ident]. by rewrite Ha, IH.
Qed.
Lemma span_ident_true k rest : ident k → stops ident_char rest → span_ident true (k +:+ rest) = (k, rest).
Proof.
  destruct k as [|a k]; [done|]. intros [Ha Hk] Hr. rewrite app_cons_str. cbn [span_ident].
  by rewrite Ha, span_ident_false.
Qed.

Lemma splitKVOp_app k op v : ident k → op ∈ operators → splitKVOp (k +:+ op +:+ v) = Some (k, op, v).
Proof.
  intros Hk Hop. unfold splitKVOp.
  assert (Hst : stops ident_char (op +:+ v)).
  { unfold operators in Hop. rewrite !elem_of_cons in Hop. destruct Hop as [->|[->|[->|[->|H]]]]; [done..|by apply elem_of_nil in H]. }
  rewrite span_ident_true by done. rewrite decide_False by (by destruct k).
  unfold operators in Hop. rewrite !elem_of_cons in Hop. destruct Hop as [->|[->|[->|[->|H]]]]; [done..|by apply elem_of_nil in H].
Qed.

(** An argument is taken apart in the one way it can be: into an identifier, one
    of the four operators and the rest, whatever characters the rest has; anything
    else is refused. *)
Theorem splitKVOp_exact s k op v :
  splitKVOp s = Some (k, op, v) ↔ s = (k +:+ op +:+ v)%string ∧ ident k ∧ op ∈ operators.
Proof.
  split; [|intros (-> & Hk & Hop); by apply splitKVOp_app].
  unfold splitKVOp. destruct (span_ident true s) as [key rest] eqn:Hs. destruct (span_ident_spec _ _ _ _ Hs) as [-> Hk].
  destruct (decide (key = "")) as [|Hne]; [done|]. destruct Hk as [?|Hk]; [done|].
  unfold operators. rewrite !elem_of_cons.
  destruct (strip ":@=" rest) as [v1|] eqn:E1; [apply strip_Some in E1 as ->; intros [= <- <- <-]; tauto|].
  destruct (strip ":=" rest) as [v2|] eqn:E2; [apply strip_Some in E2 as ->; intros [= <- <- <-]; tauto|].
  destruct (strip "@=" rest) as [v3|] eqn:E3; [apply strip_Some in E3 as ->; intros [= <- <- <-]; tauto|].
  destruct (strip "=" rest) as [v4|] eqn:E4; [apply strip_Some in E4 as ->; intros [= <- <- <-]; tauto|done].
Qed.

Lemma parse_into_strings {L : CliLib} (l : list (string * string)) (out : gmap string json) :
  Forall (λ kv, ident kv.1) l →
  parse_into (map (λ kv, kv.1 +:+ "=" +:+ kv.2)%string l) out =
  inr (foldl (λ m kv, <[kv.1 := json_string kv.2]> m) out l).
Proof.
  intros Hl. revert out. induction Hl as [|[k v] l Hk Hl IH]; intros out; [done|]. cbn [map parse_into].
  simpl in Hk. cbn [fst snd]. rewrite splitKVOp_app by (done || left). apply IH.
Qed.
Lemma foldl_insert {V} (l : list (string * V)) (m : gmap string V) k : NoDup l.*1 →
  foldl (λ m kv, <[kv.1 := kv.2]> m) m l !! k =
  match (list_to_map l : gmap string V) !! k with Some v => Some v | None => m !! k end.
Proof.
  revert m. induction l as [|[k' v] l IH]; intros m Hnd; [done|]. apply NoDup_cons in Hnd as [Hk Hnd]. cbn [foldl].
  rewrite IH by done. cbn [fst snd] in *. rewrite list_to_map_cons. destruct (decide (k = k')) as [->|Hne].
  - rewrite lookup_insert_eq. rewrite (not_elem_of_list_to_map_1 l k') by done. by rewrite lookup_insert_eq.
  - rewrite !lookup_insert_ne by done. done.
Qed.

(** C21: the arguments of a call survive the command line: a set of named strings
    written as [key=value] is parsed as those strings under those names, whatever
    characters the values have (operators, quotes and newlines among them). *)
Theorem kv_args_roundtrip {L : CliLib} (m : gmap string string) (Hm : ∀ k v, m !! k = Some v → ident k) :
  parseKVArgs (map (λ kv, kv.1 +:+ "=" +:+ kv.2)%string (map_to_list m)) = inr (json_string <$> m).
Proof.
  unfold parseKVArgs. rewrite parse_into_strings.
  2:{ apply Forall_forall. intros [k v] Hin. apply elem_of_map_to_list in Hin. by eapply Hm. }
  f_equal. apply map_eq. intros k.
  assert (E : ∀ (l : list (string * string)) (out : gmap string json), foldl (λ m kv, <[kv.1 := json_string kv.2]> m) out l =
    foldl (λ m (kv : string * json), <[kv.1 := kv.2]> m) out (map (λ kv, (kv.1, json_string kv.2)) l)).
  { clear. induction l as [|kv l IH]; intros out; [done|]. simpl. apply IH. }
  rewrite E. clear E. rewrite foldl_insert.
  2:{ assert (Ek : (map (λ kv : string * string, (kv.1, json_string kv.2)) (map_to_list m)).*1 = (map_to_list m).*1).
      { rewrite <- list_fmap_compose. done. }
      rewrite Ek. apply NoDup_fst_map_to_list. }
  rewrite lookup_empty, lookup_fmap.
  assert (El : ∀ l, (list_to_map (map (λ kv : string * string, (kv.1, json_string kv.2)) l) : gmap string json) =
    json_string <$> (list_to_map l : gmap string string)).
  { induction l as [|[k' v] l IH]; [symmetry; apply fmap_empty|].
    cbn [map list_to_map]. rewrite !list_to_map_cons. cbn [fst snd]. by rewrite IH, fmap_insert. }
  rewrite El, lookup_fmap, list_to_map_to_list. by destruct (m !! k).
Qed.

(** ** Exit codes *)
Definition prints_out (o o' : Out) : Prop := o_requests o' = o_requests o ∧ o_stderr o' = o_stderr o.
#[export] Instance prints_out_pre : PreOrder prints_out.
Proof. split; [by split|]. intros a b c [? ?] [? ?]. split; congruence. Qed.
Lemma println_out l : stays prints_out (println l).
Proof. by apply stays_modify. Qed.
#[local] Hint Resolve println_out : stays.
(** Printing never fails. *)
Definition smooth {A} (m : M Out A) : Prop := ∀ o, ∃ a, (m o).1 = Ret a.
Lemma smooth_forM {A} (l : list A) (f : A → M Out unit) : (∀ x, smooth (f x)) → smooth (forM_ l f).
Proof.
  intros Hf. induction l as [|x l IH]; cbn [forM_]; [intros o; by exists tt|]. intros o. unfold mbind, M_bind.
  destruct (Hf x o) as [a Ha]. destruct (f x o) as [r o']. simpl in Ha. subst r. apply IH.
Qed.

(** At least one line on the standard error. *)
Definition complains (o o' : Out) : Prop := ∃ l ls, o_stderr o' = o_stderr o ++ l :: ls.

Section exit.
Context {L : CliLib} (Post : option string → string → error + (Z * string)) (error_text : error → string).

(** The answers that end the client with 1 and no word: a list of tools that cannot be
    decoded when help was asked for, and the error of a tool that has no text. *)
Definition wordless (help : bool) (raw : string) : Prop :=
  if help then decode_tools raw = None
  else ∃ cs, decode_result raw = Some (cs, true) ∧ Forall (λ c, c_Type c ≠ "text") cs.
(** A use of the command line that is wrong in itself. *)
Definition misuse (ensure : error + string) (toolName : string) (args : list string) : Prop :=
  let f := parse_flags args in
  (f_json f = true ∧ f_toon f = true) ∨
  ((∃ token, ensure = inr token) ∧ toolName ≠ "tools" ∧ f_help f = false ∧ ∃ e, parseKVArgs (f_rest f) = inl e).
(** The exit code [n], from [o] to [o']. *)
Definition exits (help : bool) (o : Out) (n : Z) (o' : Out) : Prop :=
  (∃ reqs, o_requests o' = o_requests o ++ reqs ∧ (List.length reqs ≤ 1)%nat) ∧
  (n = 0 ∧ o_stderr o' = o_stderr o ∨
   n = 1 ∧ o_stdout o' = o_stdout o ∧
     (complains o o' ∨
      ∃ auth body status resp raw, o_requests o' = o_requests o ++ [(auth, body)] ∧ Post auth body = inr (status, resp) ∧
        decode_response resp = inr (raw, None) ∧ wordless help raw) ∨
   n = 2 ∧ o_stdout o' = o_stdout o ∧ o_requests o' = o_requests o ∧ ∃ l, o_stderr o' = o_stderr o ++ [l]).

Lemma do_run token body o :
  match do Post token body o with
  | (Panic _, _) => False
  | (Err _, o') => ∃ reqs, o' = o <| o_requests ::= λ x, x ++ reqs |> ∧ (List.length reqs ≤ 1)%nat
  | (Ret raw, o') => ∃ auth b status resp, o' = o <| o_requests ::= λ x, x ++ [(auth, b)] |> ∧
      Post auth b = inr (status, resp) ∧ decode_response resp = inr (raw, None)
  end.
Proof.
  unfold do, of_sum. destruct body as [e|body].
  { exists []. split; [|simpl; lia]. destruct o as [r out err].
    change (mkOut r out err = mkOut (r ++ []) out err). by rewrite app_nil_r. }
  cbv zeta. set (auth := if decide (token = "") then _ else _). unfold mbind, M_bind, mret, M_ret, modify.
  destruct (Post auth body) as [e|[status resp]] eqn:HP; [by exists [(auth, body)]|].
  destruct (bool_decide (status = 401)); [by exists [(auth, body)]|].
  destruct (bool_decide (400 ≤ status)); [by exists [(auth, body)]|].
  destruct (decode_response resp) as [e|[result [e|]]] eqn:Hd; [by exists [(auth, body)]..|].
  by exists auth, body, status, resp.
Qed.

(** What is done with an answer. *)
Definition ends (help : bool) (raw : string) (m : M Out Z) : Prop := ∀ o, match m o with
  | (Ret n, o') => o_requests o' = o_requests o ∧
      (n = 0 ∧ o_stderr o' = o_stderr o ∨ n = 1 ∧ o_stdout o' = o_stdout o ∧ (complains o o' ∨ wordless help raw))
  | _ => False
  end.
Lemma ends_println help raw l : ends help raw (println l;; mret 0).
Proof. intros o. simpl. split; [done|by left]. Qed.
Lemma ends_eprintln help raw l : ends help raw (eprintln l;; mret 1).
Proof. intros o. simpl. split; [done|]. right. split_and!; [done|done|]. left. by exists l, []. Qed.
Lemma ends_prints help raw (m : M Out unit) : smooth m → stays prints_out m → ends help raw (m;; mret 0).
Proof.
  intros Hs Hm o. unfold mbind, M_bind. destruct (Hs o) as [[] Ha]. specialize (Hm o).
  destruct (m o) as [r o']. simpl in *. subst r. destruct Hm. split; [done|by left].
Qed.
Lemma or_exit_ends help token body k o : (∀ raw, ends help raw (k raw)) →
  match or_exit error_text (do Post token body) k o with (Ret n, o') => exits help o n o' ∧ n ≠ 2 | _ => False end.
Proof.
  intros Hk. pose proof (do_run token body o) as Hd. unfold or_exit, try. unfold mbind at 1, M_bind at 1.
  destruct (do Post token body o) as [[raw|e|p] o1]; [| |done].
  - destruct Hd as (auth & b & status & resp & -> & HP & Hr). specialize (Hk raw (o <| o_requests ::= λ x, x ++ [(auth, b)] |>)).
    destruct (k raw _) as [[n|e|p] o']; [|done|done]. destruct Hk as (Hq & Hp).
    split; [|destruct Hp as [[-> _]|(-> & _)]; done]. split; [exists [(auth, b)]; rewrite Hq; split; [done|simpl; lia]|].
    destruct Hp as [[-> ?]|(-> & ? & [?|?])]; [by left|right; left; split_and!; [done|done|by left]|].
    right. left. split_and!; [done|done|]. right. by exists auth, b, status, resp, raw.
  - destruct Hd as (reqs & -> & Hlen). split; [|done]. split; [by exists reqs|]. right. left. split_and!; [done|done|]. left. by eexists _, [].
Qed.

(** The texts of a tool's answer, on the one stream. *)
Lemma print_texts (exit : Z) mode cs o :
  forM_ cs (λ c, if decide (c_Type c ≠ "text") then mret tt
    else let line := transcodeOutput (c_Text c) mode in if decide (exit ≠ 0) then eprintln line else println line) o =
  (Ret tt, let ls := map (λ c, transcodeOutput (c_Text c) mode) (filter (λ c, c_Type c = "text") cs) in
     if decide (exit ≠ 0) then o <| o_stderr ::= λ x, x ++ ls |> else o <| o_stdout ::= λ x, x ++ ls |>).
Proof.
  revert o. destruct (decide (exit ≠ 0)) as [He|He]; induction cs as [|c cs IH]; intros [r out err];
    [cbn; unfold upd, upd_o_stderr; cbn; by rewrite app_nil_r| |cbn; unfold upd, upd_o_stdout; cbn; by rewrite app_nil_r|];
    cbn [forM_]; unfold mbind, M_bind; rewrite filter_cons; destruct (decide (c_Type c = "text")) as [Ht|Ht];
    destruct (decide (c_Type c ≠ "text")); try done; cbn; rewrite IH; cbn; unfold upd, upd_o_stderr, upd_o_stdout; cbn;
    by rewrite <- ?(assoc_L (++)).
Qed.
Lemma callTool_exits token name args mode o :
  match callTool Post error_text token name args mode o with (Ret n, o') => exits false o n o' ∧ n ≠ 2 | _ => False end.
Proof.
  apply or_exit_ends. intros raw. destruct (decode_result raw) as [[cs isError]|] eqn:Hr; [|apply ends_println].
  intros o2. cbv zeta. unfold mbind at 1, M_bind at 1. rewrite print_texts. cbv zeta.
  set (ls := map _ (filter _ cs)). destruct isError; [rewrite decide_True by done|rewrite decide_False by (intros []; done)]; simpl.
  - split; [done|]. right. split_and!; [done|done|]. destruct ls as [|l ls'] eqn:El; [right|left; by exists l, ls'].
    exists cs. split; [done|]. apply Forall_forall. intros c Hc Ht. unfold ls in El. apply map_eq_nil in El.
    apply (not_elem_of_nil c). rewrite <- El. by apply list_elem_of_filter.
  - split; [done|by left].
Qed.
Lemma listTools_exits help token asJSON o :
  match listTools Post error_text token asJSON o with (Ret n, o') => exits help o n o' ∧ n ≠ 2 | _ => False end.
Proof.
  apply or_exit_ends. intros raw. destruct asJSON; [apply ends_println|].
  destruct (decode_tools raw) as [ts|]; [|apply ends_println].
  apply ends_prints; [apply smooth_forM; intros t o2; by exists tt|]. apply stays_forM; [apply _|]. intros t. apply println_out.
Qed.
Lemma toolHelp_exits token name o :
  match toolHelp Post error_text token name o with (Ret n, o') => exits true o n o' ∧ n ≠ 2 | _ => False end.
Proof.
  apply or_exit_ends. intros raw. destruct (decode_tools raw) as [ts|] eqn:Hr.
  - destruct (List.find _ ts) as [t|]; [|apply ends_eprintln]. intros o2. simpl. split; [done|by left].
  - intros o2. simpl. split; [done|]. right. split_and!; [done|done|by right].
Qed.
End exit.

(** C22: what the command line client tells its caller.  It always ends with 0, 1 or 2,
    after at most one request.  With 0 everything it printed is on the standard output,
    with 1 or 2 everything is on the standard error.  It ends with 2 exactly when the
    command line contradicts itself or its arguments are malformed; then it sent nothing
    and printed one complaint.  With 1 it printed a complaint, but for two answers of
    the daemon that it passes over without a word ([wordless]). *)
Theorem cli_exit_codes {L : CliLib} Post error_text ensure toolName args o :
  match runCLI Post error_text ensure toolName args o with
  | (Ret n, o') => exits Post (bool_decide (toolName ≠ "tools" ∧ f_help (parse_flags args) = true)) o n o' ∧
      (n = 2 ↔ misuse ensure toolName args)
  | _ => False
  end.
Proof.
  unfold runCLI, misuse. cbv zeta. set (f := parse_flags args).
  assert (Hk : ∀ help (m : M Out Z) (P : Prop), match m o with (Ret n, o') => exits Post help o n o' ∧ n ≠ 2 | _ => False end → ¬ P →
    match m o with (Ret n, o') => exits Post help o n o' ∧ (n = 2 ↔ P) | _ => False end)
    by (intros help m P Hm HP; destruct (m o) as [[n|e|p] o']; [|done|done]; destruct Hm; split; [done|tauto]).
  assert (Hmis : ∀ help l, exits Post help o 2 (o <| o_stderr ::= λ x, x ++ [l] |>)).
  { intros help l. split; [exists []; rewrite app_nil_r; split; [done|simpl; lia]|]. right. right. split_and!; [done..|]. by exists l. }
  assert (Hdown : ∀ help l, exits Post help o 1 (o <| o_stderr ::= λ x, x ++ [l] |>)).
  { intros help l. split; [exists []; rewrite app_nil_r; split; [done|simpl; lia]|]. right. left. split_and!; [done..|]. left. by exists l, []. }
  destruct (f_json f) eqn:Ej, (f_toon f) eqn:Et; cbn [andb]; [split; [apply Hmis|tauto]|..];
    (destruct ensure as [e|token]; [split; [apply Hdown|]; split; [done|]; intros [[? ?]|((? & ?) & _)]; done|]);
    (destruct (decide (toolName = "tools")) as [->|Ht]; [apply Hk; [apply listTools_exits|naive_solver]|]);
    (destruct (f_help f) eqn:Eh; [rewrite bool_decide_eq_true_2 by done; apply Hk; [apply toolHelp_exits|naive_solver]|]);
    rewrite bool_decide_eq_false_2 by naive_solver;
    (destruct (parseKVArgs (f_rest f)) as [e|argsObj]; [split; [apply Hmis|naive_solver]|]);
    (apply Hk; [apply callTool_exits|naive_solver]).
Qed.

(** A client whose JSON values are strings. *)
Definition cli_ex : CliLib := {|
  json := string; json_string := λ s, s; json_bool := λ b, if b then "true" else "false"; json_null := "null";
  json_int := utoa; ParseFloat := λ _, None; json_Unmarshal := λ _, inl (Msg "invalid character");
  json_MarshalIndent := λ v, inr v; json_Indent := λ _ v, v; toon_Decode := λ s, inr s; toon_Marshal := λ v, inr v;
  ReadFile := λ p, inl (Msg "no such file"); encode_call := λ name _, inr name; encode_list := inr "tools/list";
  decode_response := λ b, inr (b, None); decode_result := λ r, Some ([mkContent "text" r], false);
  decode_tools := λ _, None; pad := λ s, s |}.
Definition args_ex : gmap string string := {["command" := "a=b:=c"; "session_id" := "web"]}.

Lemma kv_args_roundtrip_witness :
  (∀ k v, args_ex !! k = Some v → ident k) ∧
  @parseKVArgs cli_ex (map (λ kv, kv.1 +:+ "=" +:+ kv.2)%string (map_to_list args_ex)) = inr args_ex.
Proof.
  assert (H : ∀ k v, args_ex !! k = Some v → ident k).
  { intros k v Hk. unfold args_ex in Hk. apply lookup_insert_Some in Hk as [[<- _]|[_ Hk]]; [by vm_compute|].
    apply lookup_singleton_Some in Hk as [<- _]. by vm_compute. }
  split; [exact H|]. rewrite (@kv_args_roundtrip cli_ex args_ex H). reflexivity.
Defined.

Example cli_run : (@runCLI cli_ex (λ auth b, inr (200, b)) (λ _, "") (inr "tok") "ssh_list" [] (mkOut [] [] [])).1 = Ret 0.
Proof. vm_compute. reflexivity. Qed.
Example loose_ints : map ParseInt ["7"; "-7"; "+7"; "007"; "9223372036854775807"; "9223372036854775808"; "-9223372036854775808"; ""; "-"; "7x"] =
  [Some 7; Some (-7); Some 7; Some 7; Some (2 ^ 63 - 1); None; Some (- 2 ^ 63); None; None; None].
Proof. vm_compute. reflexivity. Qed.
