(* ===== verification/Launcher.v ===== *)
(** * Finding or starting the daemon (internal/launcher/spawn.go)

    The launcher watches what other processes do: the handle file, the port, the pid
    in the lock file, whether a process lives.  [Sys] answers each look; what it sees
    may change from one look to the next, so every answer depends on the number of
    looks so far.  What the launcher does itself is the list of its [event]s. *)

From S2P Require Import Prelude GoStrings Url Paths External Files DaemonLock Daemon.
From Stdlib Require Import Ascii String.

Inductive signal := Interrupt | Kill.
Inductive event :=
  | RemoveFile (path : string)
  | Signal (p : pid) (s : signal)
  | StartProcess (bin : string) (args : list string).

Record LState := mkLState { l_now : Z; l_looks : nat; l_events : list event }.
Definition eta_LState s := mkLState (l_now s) (l_looks s) (l_events s).
#[export] Instance upd_l_now : Setter l_now. Proof. mk_setter eta_LState. Defined.
#[export] Instance upd_l_looks : Setter l_looks. Proof. mk_setter eta_LState. Defined.
#[export] Instance upd_l_events : Setter l_events. Proof. mk_setter eta_LState. Defined.

(** The answers to the looks. *)
Class Sys := mkSys {
  took : nat → Z;                                    (* how long the [n]-th look took, in milliseconds *)
  read_handle : nat → string → error + Handle;       (* daemon.ReadHandle *)
  listening : nat → string → bool;                   (* daemon.IsListening *)
  read_pid : nat → string → error + Z;               (* daemon.ReadPid *)
  find_process : Z → option error;
  lives : nat → Z → bool;                            (* Signal(0) reports no error *)
  exists_file : string → bool;                       (* os.Stat *)
  LookPath : string → error + string;
  Executable : error + string;
  start_process : string → list string → option error;
  release_process : option error;
  windows : bool;
}.

Definition defaultStartTimeout : Z := 10000.
Definition grace : Z := 2000.
Definition exit_pause : Z := 100.

Section launcher.
Context {S : Sys}.

Definition look {A} (f : nat → A) : M LState A := λ s,
  (Ret (f (l_looks s)), s <| l_now ::= Z.add (took (l_looks s)) |> <| l_looks ::= Datatypes.S |>).
(** [time.Now], and [time.Sleep], which may sleep longer. *)
Definition Now : M LState Z := λ s, (Ret (l_now s), s).
Definition Sleep (d : Z) : M LState unit := look (λ _, tt);; modify (λ s, s <| l_now ::= Z.add d |>).
Definition act (e : event) : M LState unit := modify (λ s, s <| l_events ::= λ l, l ++ [e] |>).

Definition tryUseExistingDaemon (handlePath : string) : M LState (option Handle) :=
  r ← look (λ n, read_handle n handlePath);
  match r with
  | inl _ => mret None
  | inr h =>
    up ← look (λ n, listening n (Addr h));
    mret (if up : bool then Some h else None)
  end.

(** [None]: still polling after [fuel] looks. *)
Fixpoint poll_exit (fuel : nat) (p : pid) (deadline : Z) : M LState (option bool) :=
  match fuel with
  | O => mret None
  | Datatypes.S fuel =>
    now ← Now;
    if bool_decide (now < deadline) then
      alive ← look (λ n, lives n p);
      if alive : bool then Sleep exit_pause;; poll_exit fuel p deadline else mret (Some true)
    else mret (Some false)
  end.
Definition waitForExit (fuel : nat) (p : pid) (total : Z) : M LState (option bool) :=
  if windows then Sleep total;; mret (Some true) else
  now ← Now; poll_exit fuel p (now + total).

Definition killStaleDaemon (fuel : nat) (lockPath handlePath : string) : M LState (option unit) :=
  act (RemoveFile handlePath);;
  r ← look (λ n, read_pid n lockPath);
  match r with
  | inl _ => mret (Some tt)
  | inr p =>
    if bool_decide (p ≤ 0) then mret (Some tt) else
    match find_process p with
    | Some e => fail e
    | None =>
      act (Signal p Interrupt);;
      gone ← waitForExit fuel p grace;
      match gone with
      | None => mret None
      | Some true => mret (Some tt)
      | Some false =>
        act (Signal p Kill);;
        gone ← waitForExit fuel p grace;
        mret (match gone with None => None | Some _ => Some tt end)
      end
    end
  end.

Definition daemonExeName : string := if windows then "remote-shell-mcpd.exe" else "remote-shell-mcpd".
(** The last element of a file name after a dot, and the name without it. *)
Definition strip_ext (base : string) : string :=
  match cut_last "."%char base with Some (b, _) => b | None => base end.
Definition beside (exe : string) : error + string :=
  let candidate := path_Join [Dir exe; daemonExeName] in
  if exists_file candidate then inr candidate else
  if bool_decide (strip_ext (Base exe) = "remote-shell-mcp") && exists_file candidate then inr candidate else
  inl (Msg "could not locate remote-shell-mcpd binary; set --daemon-binary or put it on PATH").
Definition on_path : error + string :=
  match LookPath "remote-shell-mcpd" with
  | inr p => inr p
  | inl _ => match Executable with inl e => inl e | inr exe => beside exe end
  end.
Definition resolveDaemonBinary (override : string) : error + string :=
  if decide (override = "") then on_path
  else if rooted override then
    if exists_file override then inr override else inl (Msg "no such file or directory")
  else match LookPath override with
  | inr p => inr p
  | inl _ => on_path
  end.

Fixpoint waitForHandle (fuel : nat) (path : string) (deadline : Z) : M LState (option Handle) :=
  match fuel with
  | O => mret None
  | Datatypes.S fuel =>
    now ← Now;
    if bool_decide (now < deadline) then
      h ← tryUseExistingDaemon path;
      match h with
      | Some h => mret (Some h)
      | None => Sleep exit_pause;; waitForHandle fuel path deadline
      end
    else fail (Fmt "daemon handle %s never appeared (daemon may have failed to start)" [path])
  end.

Definition spawnDaemon (fuel : nat) (daemonBinary : string) (extraArgs : list string) (handlePath : string)
    : M LState (option Handle) :=
  bin ← of_sum (resolveDaemonBinary daemonBinary);
  act (StartProcess bin extraArgs);;
  match start_process bin extraArgs with
  | Some e => fail (Wrap "spawn daemon %s: %w" [bin] e)
  | None =>
    match release_process with
    | Some e => fail (Wrap "release daemon process: %w" [] e)
    | None =>
      now ← Now;
      waitForHandle fuel handlePath (now + defaultStartTimeout)
    end
  end.

Definition EnsureDaemonAt (fuel : nat) (handlePath daemonBinary : string) (extraArgs : list string)
    : M LState (option Handle) :=
  let lockPath := path_Join [Dir handlePath; "daemon.lock"] in
  h ← tryUseExistingDaemon handlePath;
  match h with
  | Some h => mret (Some h)
  | None =>
    killed ← try (killStaleDaemon fuel lockPath handlePath);
    match killed with
    | inr None => mret None
    | _ => spawnDaemon fuel daemonBinary extraArgs handlePath
    end
  end.
Definition EnsureDaemon (UserConfigDir : error + string) (fuel : nat) (daemonBinary : string) (extraArgs : list string)
    : M LState (option Handle) :=
  match DefaultPaths UserConfigDir with
  | inl e => fail e
  | inr (_, _, handlePath) => EnsureDaemonAt fuel handlePath daemonBinary extraArgs
  end.
End launcher.

(** ** What the launcher does to other processes *)
Section ensure.
Context {S : Sys}.

(** A handle that was read and whose daemon then accepted a connection. *)
Definition seen_up (path : string) (h : Handle) : Prop :=
  ∃ n, read_handle n path = inr h ∧ listening (Datatypes.S n) (Addr h) = true.
(** The events that [m] adds are in [P], in every outcome. *)
Definition does (P : list event → Prop) (s s' : LState) : Prop := ∃ l, l_events s' = l_events s ++ l ∧ P l.
Abbreviation idle := (does (λ l, l = [])).
#[export] Instance idle_pre : PreOrder idle.
Proof.
  split; [intros s; exists []; by rewrite app_nil_r|]. intros a b c (l1 & E1 & ->) (l2 & E2 & ->).
  exists []. by rewrite E2, E1, !app_nil_r.
Qed.
Lemma idle_look {A} (f : nat → A) : stays idle (look f).
Proof. intros s. exists []. by rewrite app_nil_r. Qed.
Lemma idle_Now : stays idle Now.
Proof. intros s. exists []. by rewrite app_nil_r. Qed.
Lemma idle_Sleep d : stays idle (Sleep d).
Proof. intros s. exists []. by rewrite app_nil_r. Qed.
#[local] Hint Resolve idle_look idle_Now idle_Sleep : stays.
Lemma idle_try path : stays idle (tryUseExistingDaemon path).
Proof. unfold tryUseExistingDaemon. solve_stays. Qed.
Lemma idle_exit fuel p total : stays idle (waitForExit fuel p total).
Proof.
  unfold waitForExit. destruct windows; [solve_stays|]. apply stays_bind; [apply _|apply idle_Now|]. intros now.
  generalize (now + total). clear. induction fuel as [|fuel IH]; intros deadline; cbn [poll_exit]; [solve_stays|].
  pose proof IH. solve_stays.
Qed.
#[local] Hint Resolve idle_try idle_exit : stays.
Lemma idle_wait fuel path deadline : stays idle (waitForHandle fuel path deadline).
Proof.
  revert deadline. induction fuel as [|fuel IH]; intros deadline; cbn [waitForHandle]; [solve_stays|].
  pose proof IH. solve_stays.
Qed.
#[local] Hint Resolve idle_wait : stays.

Lemma does_bind {A B} (P Q R : list event → Prop) (m : M LState A) (k : A → M LState B) :
  stays (does P) m → (∀ a, stays (does Q) (k a)) → (∀ l, P l → R l) → (∀ l1 l2, P l1 → Q l2 → R (l1 ++ l2)) →
  stays (does R) (m ≫= k).
Proof.
  intros Hm Hk H1 H2 s. unfold mbind, M_bind. specialize (Hm s). destruct (m s) as [[a|e|p] s1]; destruct Hm as (l1 & E1 & HP); cbn [snd] in *.
  - destruct (Hk a s1) as (l2 & E2 & HQ). exists (l1 ++ l2). cbn [snd] in *. rewrite E2, E1, (assoc_L (++)). auto.
  - exists l1. auto.
  - exists l1. auto.
Qed.
(** After [m] that does nothing. *)
Lemma does_idle {A B} (R : list event → Prop) (m : M LState A) (k : A → M LState B) :
  stays idle m → (∀ a, stays (does R) (k a)) → R [] → stays (does R) (m ≫= k).
Proof. intros Hm Hk HR. eapply does_bind; [exact Hm|exact Hk|by intros l ->|by intros l1 l2 -> ?]. Qed.
Lemma does_look {A B} (R : list event → Prop) (f : nat → A) (k : A → M LState B) :
  (∀ n, stays (does R) (k (f n))) → stays (does R) (look f ≫= k).
Proof. intros Hk s. unfold mbind, M_bind, look.
  destruct (Hk (l_looks s) (look f s).2) as (l & El & HR). by exists l.
Qed.
Lemma does_act {A} (R : list event → Prop) e (k : unit → M LState A) :
  stays (does (λ l, R (e :: l))) (k tt) → stays (does R) (act e ≫= k).
Proof.
  intros Hk s. unfold mbind, M_bind, act, modify. destruct (Hk (s <| l_events ::= λ l, l ++ [e] |>)) as (l & El & HR).
  exists (e :: l). split; [|done]. change (l_events (s <| l_events ::= λ l, l ++ [e] |>)) with (l_events s ++ [e]) in El.
  by rewrite El, <- (assoc_L (++)).
Qed.
Lemma does_pure {A} (R : list event → Prop) (m : M LState A) : stays idle m → R [] → stays (does R) m.
Proof. intros Hm HR s. destruct (Hm s) as (l & El & ->). by exists []. Qed.
Lemma does_weaken {A} (P Q : list event → Prop) (m : M LState A) : (∀ l, P l → Q l) → stays (does P) m → stays (does Q) m.
Proof. intros H Hm s. destruct (Hm s) as (l & ? & ?). exists l. auto. Qed.

(** What cleaning up does: the handle file goes, and only the process that the lock
    file names gets signals, first an interrupt and then, if need be, a kill. *)
Definition cleanup (lockPath handlePath : string) (l : list event) : Prop :=
  ∃ sigs, l = RemoveFile handlePath :: sigs ∧
    (sigs = [] ∨ ∃ n p, read_pid n lockPath = inr p ∧ 0 < p ∧
       (sigs = [Signal p Interrupt] ∨ sigs = [Signal p Interrupt; Signal p Kill])).
Lemma does_kill fuel lockPath handlePath : stays (does (cleanup lockPath handlePath)) (killStaleDaemon fuel lockPath handlePath).
Proof.
  unfold killStaleDaemon. apply does_act, does_look. intros n.
  assert (H0 : cleanup lockPath handlePath [RemoveFile handlePath]) by (exists []; auto).
  destruct (read_pid n lockPath) as [e|p] eqn:Hn; [by apply does_pure; [apply stays_ret, _|]|].
  case_bool_decide as Hp; [by apply does_pure; [apply stays_ret, _|]|].
  destruct (find_process p); [by apply does_pure; [apply stays_fail, _|]|].
  assert (H1 : ∀ sigs, sigs = [Signal p Interrupt] ∨ sigs = [Signal p Interrupt; Signal p Kill] →
    cleanup lockPath handlePath (RemoveFile handlePath :: sigs)).
  { intros sigs Hs. exists sigs. split; [done|]. right. exists n, p. split_and!; [done|lia|done]. }
  apply does_act, does_idle; [apply idle_exit| |by apply H1; left].
  intros [[]|]; [by apply does_pure; [apply stays_ret, _|apply H1; left]| |by apply does_pure; [apply stays_ret, _|apply H1; left]].
  apply does_act, does_pure; [|by apply H1; right]. solve_stays.
Qed.

Definition starts (daemonBinary : string) (extraArgs : list string) (l : list event) : Prop :=
  l = [] ∨ ∃ bin, resolveDaemonBinary daemonBinary = inr bin ∧ l = [StartProcess bin extraArgs].
Lemma does_spawn fuel bin args path : stays (does (starts bin args)) (spawnDaemon fuel bin args path).
Proof.
  unfold spawnDaemon. unfold of_sum. destruct (resolveDaemonBinary bin) as [e|b] eqn:Hb.
  - apply does_pure; [|by left]. intros s. exists []. by rewrite app_nil_r.
  - assert (H : stays (does (starts bin args)) (act (StartProcess b args);;
      match start_process b args with
      | Some e => fail (Wrap "spawn daemon %s: %w" [b] e)
      | None => match release_process with
        | Some e => fail (Wrap "release daemon process: %w" [] e)
        | None => now ← Now; waitForHandle fuel path (now + defaultStartTimeout)
        end
      end)); [|exact H].
    apply does_act, does_pure; [|right; by exists b]. solve_stays.
Qed.

Context (Htook : ∀ n, 0 ≤ took n).

(** The result of the wait, and how long it takes. *)
Lemma look_run {A B} (f : nat → A) (k : A → M LState B) s :
  (look f ≫= k) s = k (f (l_looks s)) (look f s).2.
Proof. done. Qed.
Lemma look_time {A} (f : nat → A) s : l_now s ≤ l_now (look f s).2.
Proof using Htook. simpl. pose proof (Htook (l_looks s)). lia. Qed.
Lemma Now_run {B} (k : Z → M LState B) s : (Now ≫= k) s = k (l_now s) s.
Proof. done. Qed.
Lemma Sleep_run {B} d (k : unit → M LState B) s : ∃ s', (Sleep d ≫= k) s = k tt s' ∧ l_now s + d ≤ l_now s'.
Proof using Htook. eexists. split; [reflexivity|]. simpl. pose proof (Htook (l_looks s)). lia. Qed.

Lemma tryUse_run path s :
  (∃ h s', tryUseExistingDaemon path s = (Ret (Some h), s') ∧ seen_up path h) ∨
  ∃ s', tryUseExistingDaemon path s = (Ret None, s') ∧ l_now s ≤ l_now s'.
Proof using Htook.
  unfold tryUseExistingDaemon. rewrite look_run. pose proof (look_time (λ n, read_handle n path) s) as Ht.
  set (s1 := (look (λ n, read_handle n path) s).2) in *.
  destruct (read_handle (l_looks s) path) as [e|h] eqn:Hh; [right; by exists s1|].
  rewrite look_run. pose proof (look_time (λ n, listening n (Addr h)) s1) as Ht1.
  set (s2 := (look (λ n, listening n (Addr h)) s1).2) in *.
  destruct (listening (l_looks s1) (Addr h)) eqn:Hup.
  - left. exists h, s2. split; [done|]. by exists (l_looks s).
  - right. exists s2. split; [done|lia].
Qed.

Lemma poll_exit_ends fuel p deadline s : deadline - l_now s ≤ (Z.of_nat fuel - 1) * exit_pause → (0 < fuel)%nat →
  ∃ b, (poll_exit fuel p deadline s).1 = Ret (Some b).
Proof using Htook.
  revert s. induction fuel as [|fuel IH]; intros s Hd Hf; [lia|]. cbn [poll_exit]. rewrite Now_run.
  case_bool_decide as Hlt; [|by eexists]. rewrite look_run. pose proof (look_time (λ n, lives n p) s) as Ht.
  set (s1 := (look (λ n, lives n p) s).2) in *.
  destruct (lives _ p); [|by eexists]. destruct (Sleep_run exit_pause (λ _, poll_exit fuel p deadline) s1) as (s2 & -> & Hs2).
  unfold exit_pause in *. apply IH; lia.
Qed.
Lemma waitForExit_ends fuel p s : (21 ≤ fuel)%nat → ∃ b, (waitForExit fuel p grace s).1 = Ret (Some b).
Proof using Htook.
  intros Hf. unfold waitForExit. destruct windows; [by eexists|]. rewrite Now_run.
  apply poll_exit_ends; [|lia]. unfold grace, exit_pause in *. lia.
Qed.
Lemma waitForHandle_ends fuel path deadline s : deadline - l_now s ≤ (Z.of_nat fuel - 1) * exit_pause → (0 < fuel)%nat →
  match (waitForHandle fuel path deadline s).1 with Ret (Some h) => seen_up path h | Ret None | Panic _ => False | Err _ => True end.
Proof using Htook.
  revert s. induction fuel as [|fuel IH]; intros s Hd Hf; [lia|]. cbn [waitForHandle]. rewrite Now_run.
  case_bool_decide as Hlt; [|done].
  destruct (tryUse_run path s) as [(h & s' & Hrun & Hup)|(s' & Hrun & Hn)]; rewrite (bind_ret _ _ _ _ _ Hrun); [done|].
  destruct (Sleep_run exit_pause (λ _, waitForHandle fuel path deadline) s') as (s2 & -> & Hs2).
  unfold exit_pause in *. apply IH; lia.
Qed.

Lemma act_run {A} e (k : unit → M LState A) s : (act e ≫= k) s = k tt (s <| l_events ::= λ l, l ++ [e] |>).
Proof. done. Qed.
Lemma kill_ends fuel lockPath handlePath s : (21 ≤ fuel)%nat →
  match (killStaleDaemon fuel lockPath handlePath s).1 with Ret None | Panic _ => False | _ => True end.
Proof using Htook.
  intros Hf. unfold killStaleDaemon. rewrite act_run, look_run.
  match goal with |- context [read_pid ?n lockPath] => destruct (read_pid n lockPath) as [e|p] end; [done|].
  case_bool_decide; [done|]. destruct (find_process p); [done|]. rewrite act_run. unfold mbind, M_bind.
  match goal with |- context [waitForExit fuel p grace ?s0] => destruct (waitForExit_ends fuel p s0 Hf) as [b Hb];
    destruct (waitForExit fuel p grace s0) as [o s1] end. simpl in Hb. subst o. destruct b; [done|].
  unfold act, modify.
  match goal with |- context [waitForExit fuel p grace ?s0] => destruct (waitForExit_ends fuel p s0 Hf) as [b Hb];
    destruct (waitForExit fuel p grace s0) as [o s2] end. simpl in Hb. by subst o.
Qed.
Lemma spawn_ends fuel bin args path s : (101 ≤ fuel)%nat →
  match (spawnDaemon fuel bin args path s).1 with Ret (Some h) => seen_up path h | Ret None | Panic _ => False | Err _ => True end.
Proof using Htook.
  intros Hf. unfold spawnDaemon, of_sum. destruct (resolveDaemonBinary bin) as [e|b]; [done|].
  erewrite bind_ret by reflexivity. rewrite act_run. destruct (start_process b args); [done|]. destruct release_process; [done|].
  rewrite Now_run. apply waitForHandle_ends; [|lia]. unfold exit_pause, defaultStartTimeout in *. lia.
Qed.
End ensure.

(** C15: the launcher finds a daemon or says why not, in bounded time:
    about a hundred polls per wait are enough for a result.  A handle it returns was read from the handle file and its daemon accepted a
    connection after that.  If the first look finds one, nothing else is done.
    Otherwise the launcher removes the handle file, sends signals to no process but
    the one that the lock file names (an interrupt, then perhaps a kill), and starts
    at most one daemon. *)
Theorem launcher_exact {S : Sys} fuel handlePath bin args s
    (Htook : ∀ n, 0 ≤ took n) (Hfuel : (101 ≤ fuel)%nat) :
  let lockPath := path_Join [Dir handlePath; "daemon.lock"] in
  let '(o, s') := EnsureDaemonAt fuel handlePath bin args s in
  match o with Ret (Some h) => seen_up handlePath h | Ret None | Panic _ => False | Err _ => True end ∧
  ∃ l, l_events s' = l_events s ++ l ∧
    (l = [] ∧ is_Some (match o with Ret h => h | _ => None end) ∨
     ∃ l1 l2, l = l1 ++ l2 ∧ cleanup lockPath handlePath l1 ∧ starts bin args l2).
Proof.
  cbv zeta. unfold EnsureDaemonAt. cbv zeta. set (lockPath := path_Join [Dir handlePath; "daemon.lock"]).
  destruct (tryUse_run Htook handlePath s) as [(h & s1 & Hrun & Hup)|(s1 & Hrun & _)]; rewrite (bind_ret _ _ _ _ _ Hrun);
    pose proof (idle_try handlePath s) as (l0 & E0 & ->); rewrite Hrun in E0; cbn [snd] in E0; rewrite app_nil_r in E0.
  - split; [exact Hup|]. exists []. cbn [snd]. rewrite app_nil_r. split; [done|]. left. split; [done|by eexists].
  - pose proof (kill_ends Htook fuel lockPath handlePath s1 ltac:(lia)) as Hk.
    destruct (does_kill fuel lockPath handlePath s1) as (l1 & E1 & H1).
    unfold mbind, M_bind, try. destruct (killStaleDaemon fuel lockPath handlePath s1) as [r s2]. cbn [fst snd] in *.
    assert (H : ∃ u : unit, r = Ret (Some u) ∨ ∃ e, r = Err e)
      by (destruct r as [[u|]|e|p]; [exists u; by left|done|exists tt; right; by eexists|done]).
    pose proof (spawn_ends Htook fuel bin args handlePath s2 ltac:(lia)) as Hs.
    destruct (does_spawn fuel bin args handlePath s2) as (l2 & E2 & H2).
    assert (E : (let (o, s') := match r with Ret a => (Ret (inr a), s2) | Err e => (Ret (inl e), s2) | Panic p => (Panic p, s2) end in
      match o with
      | Ret a => match a with inr None => mret None | _ => spawnDaemon fuel bin args handlePath end s'
      | Err e => (Err e, s') | Panic p => (Panic p, s') end) = spawnDaemon fuel bin args handlePath s2)
      by (destruct H as [u [->|[e ->]]]; done).
    rewrite E. clear E. destruct (spawnDaemon fuel bin args handlePath s2) as [o s3]. cbn [fst snd] in *.
    split; [exact Hs|]. exists (l1 ++ l2). rewrite E2, E1, E0, (assoc_L (++)). split; [done|]. right. by exists l1, l2.
Qed.

(** The process that the lock file names need not be a daemon.  The lock file of
    a daemon that was killed stays behind, nobody holds its lock, and the launcher does
    not look: whatever process has that pid by now is interrupted (and killed when it
    is still there two seconds later). *)
Theorem stale_pid_signalled {S : Sys} fuel handlePath bin args s w i p
    (Htook : ∀ n, 0 ≤ took n) (Hpath : lw_path w = Some i) (Htext : lw_text w !! i = Some (Itoa p)) (Hfree : holder w = None) (Hp : 0 < p < 2 ^ 63)
    (Hpid : ∀ n, read_pid n (path_Join [Dir handlePath; "daemon.lock"]) =
       match (ReadPid w).1 with Ret p => inr p | _ => inl (Msg "no pid") end)
    (Hhandle : ∀ n, ∃ e, read_handle n handlePath = inl e) (Hproc : find_process p = None) :
  Signal p Interrupt ∈ l_events (EnsureDaemonAt fuel handlePath bin args s).2.
Proof.
  unfold EnsureDaemonAt. cbv zeta. set (lockPath := path_Join _) in *.
  destruct (tryUse_run Htook handlePath s) as [(h & s1 & Hrun & n & Hn & _)|(s1 & Hrun & _)].
  { destruct (Hhandle n) as [e He]. congruence. }
  rewrite (bind_ret _ _ _ _ _ Hrun).
  assert (Hk : stays (does (λ l, Signal p Interrupt ∈ l)) (killStaleDaemon fuel lockPath handlePath)).
  { unfold killStaleDaemon. apply does_act, does_look. intros n.
    assert (Hr : (ReadPid w).1 = Ret p) by (unfold ReadPid; rewrite Hpath; simpl; rewrite Htext, Atoi_Itoa by lia; done).
    rewrite Hpid, Hr. rewrite bool_decide_eq_false_2 by lia. rewrite Hproc.
    apply does_act, does_idle; [apply idle_exit| |right; left]. intros [[]|]; [apply does_pure; [apply stays_ret, _|right; left]| |apply does_pure; [apply stays_ret, _|right; left]].
    apply does_act, does_pure; [|right; left]. apply stays_bind; [apply _|apply idle_exit|intros; apply stays_ret, _]. }
  assert (Hall : stays (does (λ l, Signal p Interrupt ∈ l)) (
    killed ← try (killStaleDaemon fuel lockPath handlePath);
    match killed with inr None => mret None | _ => spawnDaemon fuel bin args handlePath end)).
  { eapply (does_bind (λ l, Signal p Interrupt ∈ l) (λ _, True)); [by apply stays_try| |done|].
    - intros [e|[u|]]; [| |by apply does_pure; [apply stays_ret, _|]];
        (eapply does_weaken; [|apply does_spawn]; done).
    - intros l1 l2 H _. apply elem_of_app. by left. }
  destruct (Hall s1) as (l & El & Hl). rewrite El. apply elem_of_app. by right.
Qed.

(** An explicit binary that is not found is replaced without a word. *)
Lemma override_ignored {S : Sys} override : override ≠ "" → rooted override = false →
  (∃ e, LookPath override = inl e) → resolveDaemonBinary override = resolveDaemonBinary "".
Proof. intros Hne Hr [e He]. unfold resolveDaemonBinary. rewrite decide_False, Hr, He by done. reflexivity. Qed.

(** A daemon that was killed: its pid, 4711, is in the lock file; a daemon that is
    started shows up at the fifth look. *)
Definition killed_lock : LWorld := mkLWorld (Some 1%positive) ∅ {[1%positive := "4711"]} 2%positive.
Definition handle_ex : Handle := mkHandle "127.0.0.1:5" "t" 9.
Definition sys_ex : Sys := {|
  took := λ n, 1;
  read_handle := λ n _, if (n <? 7)%nat then inl (Msg "no such file") else inr handle_ex;
  listening := λ _ _, true; read_pid := λ _ _, inr 4711; find_process := λ _, None; lives := λ _ _, false;
  exists_file := λ _, true; LookPath := λ n, inr n; Executable := inl (Msg "none");
  start_process := λ _ _, None; release_process := None; windows := false |}.
Definition lstate0 : LState := mkLState 0 0 [].
Definition run_ex := @EnsureDaemonAt sys_ex 101 "/c/daemon.json" "" [] lstate0.

Lemma launcher_exact_witness :
  run_ex.1 = Ret (Some handle_ex) ∧ @seen_up sys_ex "/c/daemon.json" handle_ex ∧
  l_events run_ex.2 = [RemoveFile "/c/daemon.json"; Signal 4711 Interrupt; StartProcess "remote-shell-mcpd" []].
Proof.
  assert (Ho : run_ex.1 = Ret (Some handle_ex)) by (vm_compute; reflexivity).
  split; [exact Ho|]. split; [|vm_compute; reflexivity].
  pose proof (@launcher_exact sys_ex 101 "/c/daemon.json" "" [] lstate0 ltac:(cbn; lia) ltac:(lia)) as H.
  unfold run_ex in Ho. destruct (@EnsureDaemonAt sys_ex 101 "/c/daemon.json" "" [] lstate0) as [o s'].
  cbn [fst] in Ho. rewrite Ho in H. exact (proj1 H).
Defined.

Definition sys_stale : Sys := {|
  took := λ n, 1; read_handle := λ _ _, inl (Msg "no such file");
  listening := λ _ _, true; read_pid := λ _ _, inr 4711; find_process := λ _, None; lives := λ _ _, true;
  exists_file := λ _, true; LookPath := λ n, inr n; Executable := inl (Msg "none");
  start_process := λ _ _, None; release_process := None; windows := false |}.
Lemma stale_pid_signalled_witness :
  holder killed_lock = None ∧
  Signal 4711 Interrupt ∈ l_events (@EnsureDaemonAt sys_stale 101 "/c/daemon.json" "" [] lstate0).2.
Proof.
  split; [reflexivity|].
  apply (@stale_pid_signalled sys_stale 101 "/c/daemon.json" "" [] lstate0 killed_lock 1%positive 4711);
    [cbn; lia|reflexivity|reflexivity|reflexivity|lia|intros; reflexivity|intros; by eexists|reflexivity].
Defined.
