(* ===== verification/Proxy.v ===== *)
(** * The stdio proxy (internal/launcher/proxy.go, cmd/remote-shell-mcp/main.go)

    Two directions.  [readSSE] turns the daemon's event stream into lines of the
    standard output: a function of the bytes that arrived.  The other way, lines of
    the standard input are posted to the daemon by the goroutines of a [Run]; a [Run]
    ends with its stream and main starts the next, and [pstep] is one step of any of
    them. *)

From stdpp Require Import relations.
From S2P Require Import Prelude GoStrings External.
From Stdlib Require Import Ascii String.

(** ** readSSE *)
Definition lf : ascii := "010"%char.
Definition cr : ascii := "013"%char.

Record SSE := mkSSE {
  sse_event : string;
  sse_data : string;
  sse_endpoint : option string;      (* what was sent on [endpointCh], once *)
  sse_printed : list string;         (* the lines written to [Stdout] *)
}.
Definition eta_SSE s := mkSSE (sse_event s) (sse_data s) (sse_endpoint s) (sse_printed s).
#[export] Instance upd_sse_event : Setter sse_event. Proof. mk_setter eta_SSE. Defined.
#[export] Instance upd_sse_data : Setter sse_data. Proof. mk_setter eta_SSE. Defined.
#[export] Instance upd_sse_endpoint : Setter sse_endpoint. Proof. mk_setter eta_SSE. Defined.
#[export] Instance upd_sse_printed : Setter sse_printed. Proof. mk_setter eta_SSE. Defined.

(** [strings.TrimRight(line, "\r\n")] and [strings.TrimSuffix(payload, "\n")] *)
Fixpoint drop_eol (s : string) : string :=
  match s with
  | String a s' => if bool_decide (a = lf ∨ a = cr) then drop_eol s' else s
  | "" => ""
  end.
Definition TrimRight_eol (s : string) : string := String.rev (drop_eol (String.rev s)).
Definition TrimSuffix_lf (s : string) : string :=
  match String.rev s with
  | String a s' => if decide (a = lf) then String.rev s' else s
  | "" => s
  end.

Definition flush (s : SSE) : SSE :=
  if decide (sse_data s = "") then s <| sse_event := "" |> else
  let evType := sse_event s in
  let payload := sse_data s in
  let s := s <| sse_event := "" |> <| sse_data := "" |> in
  if decide (evType = "endpoint") then
    s <| sse_endpoint ::= λ e, match e with None => Some (TrimSpace payload) | Some _ => e end |>
  else if decide (evType = "message" ∨ evType = "") then
    s <| sse_printed ::= λ l, l ++ [TrimSuffix_lf payload] |>
  else s.

(** One complete line, without its newline. *)
Definition feed_line (s : SSE) (line : string) : SSE :=
  let line := TrimRight_eol line in
  if decide (line = "") then flush s
  else if has_prefix ":" line then s
  else if has_prefix "event:" line then
    s <| sse_event ::= λ e, (e +:+ TrimSpace (TrimPrefix line "event:"))%string |>
  else if has_prefix "data:" line then
    let payload := TrimPrefix (TrimPrefix line "data:") " " in
    s <| sse_data ::= λ d, ((if decide (d = "") then "" else d +:+ String lf "") +:+ payload)%string |>
  else s.

(** The lines that were read whole, before the stream ended. *)
Definition whole_lines (body : string) : list string := removelast (Split lf body).
(** [readSSE] on the bytes that arrived before the end. *)
Definition readSSE (body : string) (s : SSE) : SSE := flush (foldl feed_line s (whole_lines body)).
Definition sse0 : SSE := mkSSE "" "" None [].

(** The errors of the stream's end, of the answer to the GET and of a POST. *)
Definition sse_error (err : option error) : error :=
  match err with None => Msg "sse stream ended (daemon crashed or restarted)" | Some e => e end.
Definition sse_status (status : Z) : option error :=
  if bool_decide (status = 401) then Some (Msg "daemon rejected auth (HTTP 401) — token mismatch or missing")
  else if bool_decide (status ≠ 200) then Some (Fmt "sse status %d" [Itoa status])
  else None.
Definition post_status (status : Z) : option error :=
  if bool_decide (status = 401) then Some (Msg "daemon returned 401 (token rotated or invalid)")
  else if bool_decide (400 ≤ status) then Some (Fmt "daemon returned %d" [Itoa status])
  else None.

(** ** The requests *)
(** [strings.TrimRight(p.BaseURL, "/") + "/sse"] *)
Fixpoint drop_slashes (s : string) : string :=
  match s with
  | String a s' => if decide (a = "/"%char) then drop_slashes s' else s
  | "" => ""
  end.
Definition sseURL (base : string) : string := (String.rev (drop_slashes (String.rev base)) +:+ "/sse")%string.
Definition bearer (token : string) : list (string * string) :=
  if decide (token = "") then [] else [("Authorization", ("Bearer " +:+ token)%string)].
Definition get_headers (token : string) : list (string * string) :=
  [("Accept", "text/event-stream"); ("Cache-Control", "no-cache")] ++ bearer token.

Section post.
Variable NewRequest : string → option error.
Variable Do : string → list (string * string) → string → error + Z.      (* the status *)
Definition postOne (token postURL payload : string) : option error :=
  match NewRequest postURL with
  | Some e => Some e
  | None =>
    match Do postURL ([("Content-Type", "application/json")] ++ bearer token) payload with
    | inl e => Some (Wrap "post message: %w" [] e)
    | inr status => post_status status
    end
  end.
(** A POST is good when it was answered with a status below 400. *)
Lemma postOne_good token postURL payload : postOne token postURL payload = None ↔
  NewRequest postURL = None ∧
  ∃ status, Do postURL ([("Content-Type", "application/json")] ++ bearer token) payload = inr status ∧ status < 400.
Proof.
  unfold postOne. destruct (NewRequest postURL); [split; [done|by intros [? _]]|].
  destruct (Do _ _ payload) as [e|status]; [split; [done|by intros (_ & ? & ? & _)]|]. unfold post_status.
  destruct (decide (status = 401)) as [->|H1]; [split; [done|intros (_ & ? & [= <-] & ?); lia]|].
  rewrite bool_decide_eq_false_2 by done. case_bool_decide as H2.
  - split; [done|]. intros (_ & ? & [= <-] & ?). lia.
  - split; [|done]. intros _. split; [done|]. exists status. split; [done|lia].
Qed.
End post.

(** The endpoint against the base; [net/url]'s functions are parameters. *)
Definition resolveURL {U} (Parse : string → error + U) (ResolveReference : U → U → U) (text : U → string)
    (base endpoint : string) : string :=
  if has_prefix "http://" endpoint || has_prefix "https://" endpoint then endpoint else
  match Parse base, Parse endpoint with
  | inr u, inr ref => text (ResolveReference u ref)
  | _, _ => endpoint
  end.

(** ** Run, until the endpoint is known
    What the first [select] sees after the GET was answered. *)
Inductive first_seen := SawEndpoint (url : string) | SawEnd (err : option error) | SawTimeout | SawCancel.
Definition canceled : error := Msg "context canceled".
Definition open_stream (get : error + Z) (seen : first_seen) : error + string :=
  match get with
  | inl e => inl (Wrap "open sse: %w" [] e)
  | inr status =>
    match sse_status status with
    | Some e => inl e
    | None =>
      match seen with
      | SawEndpoint url => inr url
      | SawEnd err => inl (sse_error err)
      | SawTimeout => inl (Msg "timed out waiting for sse endpoint event")
      | SawCancel => inl canceled
      end
    end
  end.

(** ** The watchdog
    Milliseconds since [Run] started; [arrivals] are the times at which [ReadString]
    returned a line. *)
Definition idleLimit : Z := 45000.
Definition tick_every : Z := 5000.
Definition last_seen (arrivals : list Z) (now : Z) : Z :=
  foldr (λ a m, if bool_decide (a ≤ now) then Z.max a m else m) 0 arrivals.
(** The time of the tick, the [k]-th or a later one, at which the body is closed;
    [None] when it was not in [fuel] ticks. *)
Fixpoint watchdog (fuel : nat) (arrivals : list Z) (k : Z) : option Z :=
  match fuel with
  | O => None
  | S fuel =>
    let now := k * tick_every in
    if bool_decide (now - last_seen arrivals now > idleLimit) then Some now else watchdog fuel arrivals (k + 1)
  end.

(** ** What the daemon sends *)
(** An event, with the type [ty] (no [event] line when it is empty) and one line of data,
    or a comment that keeps the connection alive.  Each line ends with a newline, or
    with a carriage return and a newline. *)
Inductive item := Event (ty p : string) (cr1 cr2 cr3 : bool) | Ping.
Definition with_cr (c : bool) (l : string) : string := if c then (l +:+ String cr "")%string else l.
Definition lines_of (i : item) : list string :=
  match i with
  | Event ty p c1 c2 c3 => (if decide (ty = "") then [] else [with_cr c1 ("event: " +:+ ty)%string]) ++
      [with_cr c2 ("data: " +:+ p)%string; with_cr c3 ""]
  | Ping => [": ping"; ""]
  end.
Definition unlines (ls : list string) : string := foldr (λ l s, (l +:+ String lf s)%string) "" ls.
Definition stream (l : list item) : string := unlines (l ≫= lines_of).
(** What is to be printed, and the endpoint, which is what the first event that names one says. *)
Definition payloads (l : list item) : list string :=
  omap (λ i, match i with Event ty p _ _ _ => if decide (ty = "message" ∨ ty = "") then Some p else None | Ping => None end) l.
Definition endpoints (l : list item) : list string :=
  omap (λ i, match i with Event ty p _ _ _ => if decide (ty = "endpoint") then Some (TrimSpace p) else None | Ping => None end) l.
(** A text on one line. *)
Definition one_line (p : string) : Prop := p ≠ "" ∧ In_str lf p = false ∧ TrimRight_eol p = p.
Definition sendable (i : item) : Prop :=
  match i with Event ty p _ _ _ => (ty = "" ∨ one_line ty ∧ TrimSpace ty = ty) ∧ one_line p | Ping => True end.

(** What mcp-go sends: the endpoint first, then messages and pings. *)
Definition stream_ex : list item :=
  [Event "endpoint" "/message?sessionId=1" false true true; Event "message" "{1}" false false false; Ping;
   Event "message" "{2}" false false false].
Example sse_ex : readSSE (stream stream_ex +:+ "event: message") sse0 = mkSSE "" "" (Some "/message?sessionId=1") ["{1}"; "{2}"].
Proof. vm_compute. reflexivity. Qed.

Lemma Split_nonempty c s : Split c s ≠ [].
Proof. destruct s as [|a s]; simpl; [done|]. destruct (decide (a = c)); [done|]. by destruct (Split c s). Qed.
Lemma whole_lines_cons l r : In_str lf l = false → whole_lines (l +:+ String lf r) = l :: whole_lines r.
Proof.
  intros Hl. unfold whole_lines. rewrite Split_app by done. pose proof (Split_nonempty lf r).
  by destruct (Split lf r).
Qed.
Lemma whole_lines_none l : In_str lf l = false → whole_lines l = [].
Proof. intros Hl. unfold whole_lines. by rewrite Split_no. Qed.
Lemma In_str_take c n s : In_str c s = false → In_str c (take_str n s) = false.
Proof.
  revert s. induction n as [|n IH]; intros [|a s]; simpl; try done.
  intros [Ha Hs]%orb_false_elim. by rewrite Ha, IH.
Qed.

(** ** What is printed *)
(** Between two events. *)
Definition between (s : SSE) : Prop := sse_event s = "" ∧ sse_data s = "".

Lemma length_rev_str x : String.length (String.rev x) = String.length x.
Proof. induction x as [|a x IH]; [done|]. rewrite rev_cons_str, length_app_str, IH. simpl. lia. Qed.
Lemma length_drop_eol x : (String.length (drop_eol x) ≤ String.length x)%nat.
Proof. induction x as [|a x IH]; simpl; [lia|]. case_bool_decide; simpl; lia. Qed.
(** A text that [TrimRight] leaves alone does not end with an end of line. *)
Lemma eol_last p a r : TrimRight_eol p = p → String.rev p = String a r → a ≠ lf ∧ a ≠ cr.
Proof.
  unfold TrimRight_eol. intros H Hr. rewrite Hr in H. cbn [drop_eol] in H. case_bool_decide as Ha; [|tauto].
  apply (f_equal String.length) in H, Hr. rewrite length_rev_str in H, Hr. pose proof (length_drop_eol r). simpl in Hr. lia.
Qed.
Lemma TrimSuffix_lf_id p : TrimRight_eol p = p → TrimSuffix_lf p = p.
Proof.
  intros H. unfold TrimSuffix_lf. destruct (String.rev p) as [|a r] eqn:Hr; [done|].
  destruct (eol_last p a r H Hr). by rewrite decide_False.
Qed.
Lemma TrimRight_eol_app q p : p ≠ "" → TrimRight_eol p = p → TrimRight_eol (q +:+ p) = (q +:+ p)%string.
Proof.
  intros Hne Hp. unfold TrimRight_eol. rewrite rev_app_str. destruct (String.rev p) as [|a r] eqn:Hr.
  { apply (f_equal String.rev) in Hr. by rewrite rev_rev_str in Hr. }
  destruct (eol_last p a r Hp Hr). rewrite app_cons_str. cbn [drop_eol]. rewrite bool_decide_eq_false_2 by tauto.
  rewrite <- app_cons_str, <- Hr, <- rev_app_str. apply rev_rev_str.
Qed.

Lemma TrimRight_eol_cr c l : TrimRight_eol (with_cr c l) = TrimRight_eol l.
Proof. destruct c; [|done]. unfold TrimRight_eol, with_cr. by rewrite rev_app_str. Qed.
Lemma feed_cr c l s : feed_line s (with_cr c l) = feed_line s l.
Proof. unfold feed_line. by rewrite TrimRight_eol_cr. Qed.
Lemma feed_event s ty : between s → one_line ty → TrimSpace ty = ty → feed_line s ("event: " +:+ ty) = s <| sse_event := ty |>.
Proof.
  intros [He Hd] (Hne & _ & Ht) Hsp. unfold feed_line. rewrite TrimRight_eol_app by done. cbv zeta.
  destruct s as [e d en pr]. simpl in He, Hd. subst. change (TrimSpace (TrimPrefix ("event: " +:+ ty) "event:")) with (TrimSpace ty).
  by rewrite Hsp.
Qed.
Lemma feed_data s p : sse_data s = "" → one_line p → feed_line s ("data: " +:+ p) = s <| sse_data := p |>.
Proof.
  intros Hd (Hne & _ & Ht). unfold feed_line. rewrite TrimRight_eol_app by done. cbv zeta.
  destruct s as [e d en pr]. simpl in Hd. subst d. reflexivity.
Qed.
Lemma flush_between s : between s → flush s = s.
Proof. intros [He Hd]. destruct s as [e d en pr]. simpl in *. by subst. Qed.

(** An event that was read to its end. *)
Definition after (s : SSE) (i : item) : SSE :=
  match i with
  | Event ty p _ _ _ =>
    if decide (ty = "endpoint") then s <| sse_endpoint ::= λ e, match e with None => Some (TrimSpace p) | Some _ => e end |>
    else if decide (ty = "message" ∨ ty = "") then s <| sse_printed ::= λ l, l ++ [p] |> else s
  | Ping => s
  end.
Lemma after_between s i : between s → between (after s i).
Proof. intros [He Hd]. unfold after. by repeat case_match. Qed.
Lemma flush_event s ty p c1 c2 c3 : between s → one_line p →
  flush (s <| sse_event := ty |> <| sse_data := p |>) = after s (Event ty p c1 c2 c3).
Proof.
  intros [He Hd] (Hne & _ & Ht). destruct s as [e d en pr]. simpl in He, Hd. subst. unfold flush, after. simpl.
  rewrite decide_False by done. repeat case_decide; try done. by rewrite TrimSuffix_lf_id.
Qed.
(** The lines of one event, all of them or cut short. *)
Lemma item_lines i s : sendable i → between s → foldl feed_line s (lines_of i) = after s i ∧
  ∀ ls, ls `prefix_of` lines_of i → flush (foldl feed_line s ls) = s ∨ flush (foldl feed_line s ls) = after s i.
Proof.
  intros Hi Hb. destruct i as [ty p c1 c2 c3|].
  2:{ split; [by apply flush_between|]. intros ls Hls. left. assert (E : foldl feed_line s ls = s); [|by rewrite E; apply flush_between].
      destruct ls as [|l1 ls]; [done|]. apply prefix_cons_inv_1 in Hls as Hl1. apply prefix_cons_inv_2 in Hls as Hls1. subst.
      destruct ls as [|l2 ls]; [done|]. apply prefix_cons_inv_1 in Hls1 as Hl2. apply prefix_cons_inv_2 in Hls1 as ->%prefix_nil_inv. subst.
      by apply flush_between. }
  destruct Hi as [Hty Hp]. set (s1 := s <| sse_event := ty |>). set (s2 := s1 <| sse_data := p |>).
  assert (E2 : feed_line s1 (with_cr c2 ("data: " +:+ p)) = s2) by (rewrite feed_cr; apply feed_data; [apply Hb|done]).
  assert (E3 : flush s2 = after s (Event ty p c1 c2 c3)) by by apply flush_event.
  assert (E4 : feed_line s2 (with_cr c3 "") = after s (Event ty p c1 c2 c3)) by (rewrite feed_cr; exact E3).
  assert (F1 : flush s1 = s) by (destruct Hb as [He Hd]; destruct s as [e d en pr]; simpl in *; by subst).
  assert (F3 : flush (after s (Event ty p c1 c2 c3)) = after s (Event ty p c1 c2 c3)) by (by apply flush_between, after_between).
  assert (Htail : ∀ ls, ls `prefix_of` [with_cr c2 ("data: " +:+ p)%string; with_cr c3 ""] →
    flush (foldl feed_line s1 ls) = s ∨ flush (foldl feed_line s1 ls) = after s (Event ty p c1 c2 c3)).
  { intros ls Hls. destruct ls as [|l1 ls]; [by left|]. apply prefix_cons_inv_1 in Hls as Hl1. apply prefix_cons_inv_2 in Hls as Hls1. subst l1.
    destruct ls as [|l2 ls]; [right; cbn [foldl]; by rewrite E2|].
    apply prefix_cons_inv_1 in Hls1 as Hl2. apply prefix_cons_inv_2 in Hls1 as ->%prefix_nil_inv. subst l2.
    right. cbn [foldl]. by rewrite E2, E4. }
  unfold lines_of. destruct (decide (ty = "")) as [->|Hne].
  - assert (E1 : s1 = s) by (destruct Hb as [He Hd]; subst s1; destruct s as [e d en pr]; simpl in *; by subst).
    rewrite E1 in *. split; [cbn [app foldl]; by rewrite E2, E4|exact Htail].
  - destruct Hty as [?|[Hty Hsp]]; [done|].
    assert (E1 : feed_line s (with_cr c1 ("event: " +:+ ty)) = s1) by (rewrite feed_cr; by apply feed_event).
    split; [cbn [app foldl]; by rewrite E1, E2, E4|]. intros ls Hls. destruct ls as [|l1 ls]; [left; by apply flush_between|].
    apply prefix_cons_inv_1 in Hls as Hl1. apply prefix_cons_inv_2 in Hls as Hls1. subst l1. cbn [foldl]. rewrite E1. by apply Htail.
Qed.

Lemma In_str_cr c l : In_str lf l = false → In_str lf (with_cr c l) = false.
Proof. intros H. destruct c; [|done]. unfold with_cr. by rewrite In_str_app, H. Qed.
Lemma whole_lines_unlines ls : Forall (λ l, In_str lf l = false) ls → whole_lines (unlines ls) = ls.
Proof. induction 1 as [|l ls Hl _ IH]; [done|]. cbn [unlines foldr]. fold (unlines ls). by rewrite whole_lines_cons, IH. Qed.
Lemma whole_lines_stream l : Forall sendable l → whole_lines (stream l) = l ≫= lines_of.
Proof.
  intros Hl. apply whole_lines_unlines. induction Hl as [|i l Hi _ IH]; [constructor|]. rewrite bind_cons. apply Forall_app. split; [|done].
  destruct i as [ty p c1 c2 c3|]; [|by repeat constructor]. destruct Hi as [Hty (_ & Hp & _)]. unfold lines_of. apply Forall_app. split.
  - case_decide as Hne; [constructor|]. destruct Hty as [?|[(_ & Ht & _) _]]; [done|]. apply Forall_singleton, In_str_cr. by rewrite In_str_app, Ht.
  - rewrite !Forall_cons. split_and!; [|by apply In_str_cr|done]. apply In_str_cr. by rewrite In_str_app, Hp.
Qed.
(** A text cut short has the first of its lines. *)
Lemma whole_lines_take n s : whole_lines (take_str n s) `prefix_of` whole_lines s.
Proof.
  remember (String.length s) as m eqn:Hm. revert n s Hm. induction m as [m IH] using lt_wf_ind. intros n s ->.
  destruct (cut lf s) as [[l r]|] eqn:Hc.
  - apply cut_Some in Hc as [-> Hl]. rewrite whole_lines_cons by done.
    destruct (decide (n ≤ String.length l)%nat) as [Hn|Hn].
    + rewrite whole_lines_none; [apply prefix_nil|].
      assert (E : take_str n (l +:+ String lf r) = take_str n l).
      { revert n Hn. clear. induction l as [|a l IH]; intros n Hn; simpl in *; [by assert (n = 0%nat) as -> by lia|].
        destruct n; [done|]. simpl. rewrite IH by lia. done. }
      rewrite E. by apply In_str_take.
    + assert (E : take_str n (l +:+ String lf r) = (l +:+ String lf (take_str (n - String.length l - 1) r))%string).
      { revert n Hn. clear. induction l as [|a l IH]; intros n Hn; simpl in *.
        - destruct n; [lia|]. simpl. by rewrite Nat.sub_0_r.
        - destruct n; [lia|]. simpl. rewrite IH by lia. done. }
      rewrite E, whole_lines_cons by done. apply prefix_cons. eapply IH; [|done].
      rewrite length_app_str. simpl. lia.
  - apply cut_None in Hc. rewrite whole_lines_none by (by apply In_str_take). apply prefix_nil.
Qed.

(** Lines cut short anywhere: the first events were read. *)
Lemma feed_prefix items s ls : Forall sendable items → between s → ls `prefix_of` (items ≫= lines_of) →
  ∃ k, flush (foldl feed_line s ls) = foldl after s (take k items) ∧
    (ls = items ≫= lines_of → (List.length items ≤ k)%nat).
Proof.
  intros Hs. revert s ls. induction Hs as [|i items Hi Hs IH]; intros s ls Hb Hls.
  { apply prefix_nil_inv in Hls as ->. exists 0%nat. by rewrite flush_between. }
  rewrite bind_cons in Hls |- *. destruct (item_lines i s Hi Hb) as [Hall Hcut].
  destruct (prefix_weak_total ls (lines_of i) _ Hls (prefix_app_r _ _ _ (reflexivity _))) as [H|[ls' ->]].
  - destruct (decide (ls = lines_of i)) as [->|Hne].
    { exists 1%nat. cbn [take foldl]. rewrite take_0. split; [rewrite Hall; by apply flush_between, after_between|].
      intros E. rewrite <- (app_nil_r (lines_of i)) in E at 1. apply app_inv_head in E. destruct items as [|j items]; [done|].
      exfalso. rewrite bind_cons in E. symmetry in E. apply app_nil in E as [E _]. destruct j as [ty p c1 c2 c3|]; [|done].
      unfold lines_of in E. by apply app_nil in E as [_ ?]. }
    assert (Hno : ls ≠ lines_of i ++ (items ≫= lines_of)).
    { intros ->. apply Hne, prefix_length_eq; [done|]. rewrite length_app. lia. }
    destruct (Hcut ls H) as [E|E]; rewrite E; [by exists 0%nat|exists 1%nat; cbn [take foldl]; by rewrite take_0].
  - apply prefix_app_inv in Hls. rewrite foldl_app, Hall.
    destruct (IH (after s i) ls' (after_between s i Hb) Hls) as (k & Hk & Hend). exists (S k). split; [exact Hk|].
    intros E. apply app_inv_head in E. specialize (Hend E). simpl. lia.
Qed.
Lemma after_run items s : sse_printed (foldl after s items) = sse_printed s ++ payloads items ∧
  sse_endpoint (foldl after s items) = match sse_endpoint s with Some e => Some e | None => head (endpoints items) end.
Proof.
  revert s. induction items as [|i items IH]; intros s; cbn [foldl]; [rewrite app_nil_r; by destruct (sse_endpoint s)|].
  destruct (IH (after s i)) as [-> ->]. destruct i as [ty p c1 c2 c3|]; [|done]. unfold payloads, endpoints. cbn [omap list_omap after].
  destruct (decide (ty = "endpoint")) as [->|]; [simpl; by destruct (sse_endpoint s)|].
  case_decide; simpl; [by rewrite <- (assoc_L (++))|done].
Qed.

(** C17: the client sees whole messages, in order, and none twice.  The daemon sends
    events, each with one line of data that is not empty: the endpoint, messages and
    events of other types, in any order, with pings in between and either end of line.
    However its stream is cut short, what the proxy has taken from it are the first
    [k] events, each complete: the messages among them were printed and nothing else,
    and the endpoint is known if it was among them.  From a stream that arrived whole
    every event was taken. *)
Theorem sse_messages_whole items n (Hitems : Forall sendable items) :
  ∃ k, sse_printed (readSSE (take_str n (stream items)) sse0) = payloads (take k items) ∧
    sse_endpoint (readSSE (take_str n (stream items)) sse0) = head (endpoints (take k items)) ∧
    (String.length (stream items) ≤ n → take k items = items)%nat.
Proof.
  unfold readSSE. destruct (feed_prefix items sse0 (whole_lines (take_str n (stream items)))) as (k & -> & Hall);
    [done|done|rewrite <- whole_lines_stream by done; apply whole_lines_take|].
  exists k. destruct (after_run (take k items) sse0) as [-> ->]. split_and!; [done|done|]. intros Hn. apply take_ge, Hall.
  rewrite <- whole_lines_stream by done. f_equal.
  clear -Hn. revert n Hn. induction (stream items) as [|a s IH]; intros [|n] Hn; simpl in *; [done..|lia|]. by rewrite IH by lia.
Qed.
Lemma sse_messages_whole_witness :
  Forall sendable stream_ex ∧
  (∃ k, sse_printed (readSSE (take_str 60 (stream stream_ex)) sse0) = payloads (take k stream_ex)) ∧
  readSSE (take_str 60 (stream stream_ex)) sse0 = mkSSE "" "" (Some "/message?sessionId=1") [] ∧
  sse_printed (readSSE (take_str 1000 (stream stream_ex)) sse0) = ["{1}"; "{2}"].
Proof.
  assert (H : Forall sendable stream_ex).
  { unfold stream_ex. rewrite !Forall_cons, Forall_nil. unfold sendable, one_line. split_and!; try exact I;
      first [right; split_and!; first [discriminate|reflexivity]|discriminate|reflexivity]. }
  split; [exact H|]. split; [destruct (sse_messages_whole _ 60 H) as (k & Hk & _); exists k; exact Hk|].
  split; [vm_compute; reflexivity|]. destruct (sse_messages_whole _ 1000 H) as (k & Hk & _ & Hw). rewrite Hk, Hw; vm_compute; [reflexivity|lia].
Defined.

(** ** What the watchdog does *)
Lemma last_seen_nonneg arrivals now : 0 ≤ last_seen arrivals now.
Proof. induction arrivals as [|a l IH]; simpl; [lia|]. case_bool_decide; lia. Qed.
Lemma last_seen_le arrivals now a : a ∈ arrivals → a ≤ now → a ≤ last_seen arrivals now.
Proof.
  induction arrivals as [|b l IH]; intros Ha Hle; [by apply not_elem_of_nil in Ha|]. simpl.
  apply elem_of_cons in Ha as [->|Ha]; [rewrite bool_decide_eq_true_2 by done; lia|].
  specialize (IH Ha Hle). case_bool_decide; lia.
Qed.
(** It is the time of a line, or of the start. *)
Lemma last_seen_in arrivals now : last_seen arrivals now = 0 ∨ (last_seen arrivals now ∈ arrivals ∧ last_seen arrivals now ≤ now).
Proof.
  induction arrivals as [|a l IH]; simpl; [by left|]. case_bool_decide as Ha.
  - destruct (Z.max_spec a (last_seen l now)) as [[? ->]|[? ->]].
    + destruct IH as [->|[? ?]]; [by left|right; split; [by right|done]].
    + right. split; [left|done].
  - destruct IH as [->|[? ?]]; [by left|right; split; [by right|done]].
Qed.
Lemma watchdog_spec fuel arrivals k :
  match watchdog fuel arrivals k with
  | Some t => ∃ j, k ≤ j < k + Z.of_nat fuel ∧ t = j * tick_every ∧ idleLimit < t - last_seen arrivals t ∧
      ∀ i, k ≤ i < j → i * tick_every - last_seen arrivals (i * tick_every) ≤ idleLimit
  | None => ∀ j, k ≤ j < k + Z.of_nat fuel → j * tick_every - last_seen arrivals (j * tick_every) ≤ idleLimit
  end.
Proof.
  revert k. induction fuel as [|fuel IH]; intros k; cbn [watchdog]; [intros; lia|]. cbv zeta. case_bool_decide as Hc.
  - exists k. split_and!; try lia.
  - specialize (IH (k + 1)). destruct (watchdog fuel arrivals (k + 1)) as [t|].
    + destruct IH as (j & Hj & Ht & Hi & Hfirst). exists j. split_and!; [lia..|done|done|].
      intros i Hi'. destruct (decide (i = k)) as [->|]; [lia|]. apply Hfirst. lia.
    + intros j Hj. destruct (decide (j = k)) as [->|]; [lia|]. apply IH. lia.
Qed.

(** A stream that hangs is closed, a healthy one is not.  The watchdog closes the
    body only when no line has come for 45 seconds; and when none comes after time
    [t], it has closed it by [t + 50] seconds. *)
Theorem watchdog_exact fuel arrivals (Hpos : Forall (Z.le 0) arrivals) :
  (∀ c, watchdog fuel arrivals 1 = Some c → idleLimit < c ∧ ∀ a, a ∈ arrivals → a ≤ c → a < c - idleLimit) ∧
  (∀ t, 0 ≤ t → (∀ a, a ∈ arrivals → a ≤ t) → t + idleLimit + tick_every ≤ Z.of_nat fuel * tick_every →
     ∃ c, watchdog fuel arrivals 1 = Some c ∧ c ≤ t + idleLimit + tick_every).
Proof.
  pose proof (watchdog_spec fuel arrivals 1) as H. split.
  - intros c Hc. rewrite Hc in H. destruct H as (j & Hj & -> & Hi & _). unfold idleLimit in *. split.
    + pose proof (last_seen_nonneg arrivals (j * tick_every)). lia.
    + intros a Ha Hle. pose proof (last_seen_le _ _ _ Ha Hle). lia.
  - intros t Ht Hlast Hfuel.
    set (j := (t + idleLimit) / tick_every + 1).
    assert (Hj : j * tick_every ≤ t + idleLimit + tick_every ∧ t + idleLimit < j * tick_every).
    { subst j. unfold idleLimit, tick_every in *. pose proof (Z.div_mod (t + 45000) 5000 ltac:(lia)).
      pose proof (Z.mod_pos_bound (t + 45000) 5000 ltac:(lia)). lia. }
    assert (Hjf : 1 ≤ j < 1 + Z.of_nat fuel) by (unfold idleLimit, tick_every in *; lia).
    assert (Hls : ∀ now, last_seen arrivals now ≤ t) by (intros now; destruct (last_seen_in arrivals now) as [->|[? ?]]; auto).
    destruct (watchdog fuel arrivals 1) as [c|] eqn:Hw; [|specialize (H j Hjf); specialize (Hls (j * tick_every)); lia].
    exists c. split; [done|]. destruct H as (i & Hi & -> & _ & Hfirst). destruct (decide (i ≤ j)); [unfold tick_every in *; lia|].
    specialize (Hfirst j ltac:(lia)). specialize (Hls (j * tick_every)). lia.
Qed.
Lemma watchdog_exact_witness :
  let arrivals := [1000; 16000; 31000] in
  Forall (Z.le 0) arrivals ∧ ∃ c, watchdog 20 arrivals 1 = Some c ∧ c ≤ 81000.
Proof.
  intros arrivals. assert (H : Forall (Z.le 0) arrivals) by (repeat constructor; lia). split; [exact H|].
  destruct (watchdog_exact 20 arrivals H) as [_ Hw]. apply (Hw 31000); [lia| |vm_compute; discriminate].
  intros a Ha. repeat (apply elem_of_cons in Ha as [->|Ha]; [lia|]). by apply not_elem_of_nil in Ha.
Defined.
