(* ===== verification/Bridge.v ===== *)
(** * The lines of the standard input (internal/launcher/proxy.go, cmd/remote-shell-mcp/main.go)

    main reads the standard input in one goroutine, into a channel that every [Run]
    of the proxy takes from.  A [Run] has three goroutines of its own on that path:
    the adapter of [lineSource], which moves lines to the queue [out]; [readStdin],
    which takes them from there and starts a POST for each; and the POSTs.  [Run]
    returns when its event stream ends or when [readStdin] does, and main starts the
    next one; the goroutines of a [Run] that returned go on, because the context they
    watch is main's.  [step] is one step of any goroutine; every order of steps that
    the code allows is a run of it.  Where a [select] has more than one case ready,
    there is a step for each. *)

From stdpp Require Import relations.
From S2P Require Import Prelude.

(** ** The state *)
Definition line := string.
(** The adapter of [lineSource]: at the channel, with a line for [out], returned
    (something is in [readDoneCh]). *)
Inductive adapter := Taking | Putting (l : line) | Stopped.
(** [readStdin]: at its [select], in [dispatch] before a slot of [sem] is free, in
    [wg.Wait()], returned. *)
Inductive reader := Reading | Holding (l : line) | Waiting | Returned.
#[export] Instance adapter_eq_dec : EqDecision adapter. Proof. solve_decision. Defined.
#[export] Instance reader_eq_dec : EqDecision reader. Proof. solve_decision. Defined.

Record run := mkRun {
  r_open : bool;               (* [Run] has not returned: its stream is read *)
  r_adapter : adapter;
  r_out : list line;           (* [out], 16 places *)
  r_reader : reader;
  r_posting : list line;       (* the POSTs under way, 128 at most *)
  r_fatal : bool;              (* [fatalCh] is closed *)
}.
Definition eta_run s := mkRun (r_open s) (r_adapter s) (r_out s) (r_reader s) (r_posting s) (r_fatal s).
#[export] Instance upd_r_open : Setter r_open. Proof. mk_setter eta_run. Defined.
#[export] Instance upd_r_adapter : Setter r_adapter. Proof. mk_setter eta_run. Defined.
#[export] Instance upd_r_out : Setter r_out. Proof. mk_setter eta_run. Defined.
#[export] Instance upd_r_reader : Setter r_reader. Proof. mk_setter eta_run. Defined.
#[export] Instance upd_r_posting : Setter r_posting. Proof. mk_setter eta_run. Defined.
#[export] Instance upd_r_fatal : Setter r_fatal. Proof. mk_setter eta_run. Defined.
Definition run0 : run := mkRun true Taking [] Reading [] false.

Record bridge := mkBridge {
  b_stdin : list line;         (* not read yet *)
  b_lines : list line;         (* [linesCh], 32 places *)
  b_closed : bool;
  b_runs : list run;           (* every [Run] that got its endpoint, oldest first *)
  b_posted : list line;        (* accepted by the daemon while the stream of its [Run] was read *)
  b_lost : list line;          (* dropped, refused, or answered on a stream nobody reads *)
  b_exited : bool;
}.
Definition bridge0 (input : list line) : bridge := mkBridge input [] false [] [] [] false.

Definition linesCap : nat := 32.
Definition outCap : nat := 16.
Definition maxInFlight : nat := 128.

(** ** The steps of a Run
    [run_step ls closed c ls' p x c']: with [ls] in the channel the run [c] becomes
    [c'], leaving [ls'], and has posted [p] and lost [x]. *)
Inductive run_step (ls : list line) (closed : bool) (c : run) : list line → list line → list line → run → Prop :=
  (* the adapter *)
  | R_take l ls' : r_adapter c = Taking → ls = l :: ls' →
      run_step ls closed c ls' [] [] (c <| r_adapter := Putting l |>)
  | R_put l : r_adapter c = Putting l → (length (r_out c) < outCap)%nat →
      run_step ls closed c ls [] [] (c <| r_out := r_out c ++ [l] |> <| r_adapter := Taking |>)
  | R_eof : r_adapter c = Taking → ls = [] → closed = true →
      run_step ls closed c ls [] [] (c <| r_adapter := Stopped |>)
  | R_stop : r_adapter c = Taking → r_fatal c = true →
      run_step ls closed c ls [] [] (c <| r_adapter := Stopped |>)
  | R_stop_putting l : r_adapter c = Putting l → r_fatal c = true →
      run_step ls closed c ls [] [l] (c <| r_adapter := Stopped |>)
  (* readStdin *)
  | R_next l out : r_reader c = Reading → r_out c = l :: out →
      run_step ls closed c ls [] [] (c <| r_out := out |> <| r_reader := Holding l |>)
  | R_dispatch l : r_reader c = Holding l → (length (r_posting c) < maxInFlight)%nat →
      run_step ls closed c ls [] [] (c <| r_posting := r_posting c ++ [l] |> <| r_reader := Reading |>)
  | R_drop l : r_reader c = Holding l → r_fatal c = true →
      run_step ls closed c ls [] [l] (c <| r_reader := Reading |>)
  | R_fatal : r_reader c = Reading → r_fatal c = true →
      run_step ls closed c ls [] [] (c <| r_reader := Waiting |>)
  | R_done : r_reader c = Reading → r_adapter c = Stopped →
      run_step ls closed c ls [] [] (c <| r_reader := Waiting |>)
  | R_return : r_reader c = Waiting → r_posting c = [] →
      run_step ls closed c ls [] [] (c <| r_reader := Returned |>)
  (* postOne *)
  | R_accept l a b : r_posting c = a ++ l :: b → r_open c = true →
      run_step ls closed c ls [l] [] (c <| r_posting := a ++ b |>)
  | R_unheard l a b : r_posting c = a ++ l :: b → r_open c = false →
      run_step ls closed c ls [] [l] (c <| r_posting := a ++ b |>)
  | R_refuse l a b : r_posting c = a ++ l :: b →
      run_step ls closed c ls [] [l] (c <| r_posting := a ++ b |> <| r_fatal := true |>)
  (* Run: the stream ends, or readStdin returned an error *)
  | R_stream_end : r_open c = true →
      run_step ls closed c ls [] [] (c <| r_open := false |>)
  | R_failed : r_open c = true → r_reader c = Returned → r_fatal c = true →
      run_step ls closed c ls [] [] (c <| r_open := false |>).

(** ** The steps of the process *)
Inductive step : bridge → bridge → Prop :=
  | S_read l inp ls rs p x : (length ls < linesCap)%nat →
      step (mkBridge (l :: inp) ls false rs p x false) (mkBridge inp (ls ++ [l]) false rs p x false)
  | S_close ls rs p x :
      step (mkBridge [] ls false rs p x false) (mkBridge [] ls true rs p x false)
  | S_run inp ls cl rs p x : Forall (λ c, r_open c = false) rs →
      step (mkBridge inp ls cl rs p x false) (mkBridge inp ls cl (rs ++ [run0]) p x false)
  | S_step inp ls cl rs p x i c ls' p' x' c' : rs !! i = Some c → run_step ls cl c ls' p' x' c' →
      step (mkBridge inp ls cl rs p x false) (mkBridge inp ls' cl (<[i := c']> rs) (p ++ p') (x ++ x') false)
  | S_exit inp ls cl rs p x i c : rs !! i = Some c → r_open c = true → r_reader c = Returned → r_fatal c = false →
      step (mkBridge inp ls cl rs p x false) (mkBridge inp ls cl rs p x true).

Definition reachable (input : list line) (s : bridge) : Prop := rtc step (bridge0 input) s.

(** ** Where the lines are *)
Definition adapter_lines (a : adapter) : list line := match a with Putting l => [l] | _ => [] end.
Definition reader_lines (r : reader) : list line := match r with Holding l => [l] | _ => [] end.
Definition run_lines (c : run) : list line :=
  adapter_lines (r_adapter c) ++ r_out c ++ reader_lines (r_reader c) ++ r_posting c.
Definition all_lines (s : bridge) : list line :=
  b_stdin s ++ b_lines s ++ (b_runs s ≫= run_lines) ++ b_posted s ++ b_lost s.

(** Equality of contents, whatever the order. *)
Ltac by_count := apply (Permutation_count_occ (decide_rel (=@{line}))); let y := fresh "y" in intros y;
  repeat match goal with H : _ ≡ₚ _ |- _ => rewrite (Permutation_count_occ (decide_rel (=@{line}))) in H end;
  repeat match goal with H : ∀ y, count_occ _ _ y = _ |- _ => specialize (H y) end;
  rewrite ?count_occ_app in *; simpl in *; rewrite ?count_occ_app in *; simpl in *; repeat destruct (decide_rel _ _ _); lia.

Lemma run_step_lines ls cl c ls' p x c' : run_step ls cl c ls' p x c' →
  ls ++ run_lines c ≡ₚ ls' ++ run_lines c' ++ p ++ x.
Proof.
  destruct c as [o a out r posting f]. unfold run_lines.
  inversion 1; simpl in *; subst; simpl; rewrite ?app_nil_r, <- ?(assoc_L (++)); simpl; by_count.
Qed.
Lemma runs_bind rs i c c' : rs !! i = Some c →
  ∃ rest, rs ≫= run_lines ≡ₚ run_lines c ++ rest ∧ <[i := c']> rs ≫= run_lines ≡ₚ run_lines c' ++ rest.
Proof.
  intros Hi. exists ((take i rs ++ drop (S i) rs) ≫= run_lines). split.
  - rewrite <- (take_drop_middle rs i c Hi) at 1. rewrite !bind_app, bind_cons. by_count.
  - rewrite (insert_take_drop rs i c') by (by eapply lookup_lt_Some). rewrite !bind_app, bind_cons. by_count.
Qed.

Definition run_bounded (c : run) : Prop := (length (r_out c) ≤ outCap ∧ length (r_posting c) ≤ maxInFlight)%nat.
(** A run that returned, or one of whose POSTs was refused. *)
Definition failed (c : run) : Prop := r_open c = false ∨ r_fatal c = true.

Lemma run_step_bounded ls cl c ls' p x c' : run_step ls cl c ls' p x c' → run_bounded c → run_bounded c'.
Proof.
  destruct c as [o a out r posting f]. unfold run_bounded.
  inversion 1; simpl in *; subst; simpl in *; rewrite ?length_app in *; simpl in *; lia.
Qed.
Lemma run_step_taken ls cl c ls' p x c' : run_step ls cl c ls' p x c' → (length ls' ≤ length ls)%nat.
Proof. inversion 1; subst; simpl; lia. Qed.
(** A [Run] does not open again, [fatalCh] stays closed, and nothing is lost before. *)
Lemma run_step_failed ls cl c ls' p x c' : run_step ls cl c ls' p x c' →
  (failed c → failed c') ∧ (r_open c' = true → r_open c = true) ∧ (x ≠ [] → failed c').
Proof.
  destruct c as [o a out r posting f]. unfold failed. inversion 1; simpl in *; subst; simpl; try tauto; naive_solver.
Qed.

(** An adapter that stopped has seen the end of the input, unless a POST was refused. *)
Definition eof_seen (ls : list line) (closed : bool) (c : run) : Prop :=
  r_adapter c = Stopped → r_fatal c = true ∨ (closed = true ∧ ls = []).
Lemma run_step_eof ls cl c ls' p x c' : run_step ls cl c ls' p x c' → eof_seen ls cl c → eof_seen ls' cl c'.
Proof.
  destruct c as [o a out r posting f]. unfold eof_seen. inversion 1; simpl in *; subst; simpl; intros; naive_solver.
Qed.
Lemma run_step_nil ls cl c ls' p x c' : run_step ls cl c ls' p x c' → ls = [] → ls' = [].
Proof. intros Hs%run_step_taken ->. by destruct ls'; [|simpl in *; lia]. Qed.

Record Inv (input : list line) (s : bridge) : Prop := {
  inv_lines : input ≡ₚ all_lines s;
  inv_queue : (length (b_lines s) ≤ linesCap)%nat;
  inv_runs : Forall run_bounded (b_runs s);
  inv_open : ∀ i c, b_runs s !! i = Some c → r_open c = true → S i = length (b_runs s);
  inv_lost : b_lost s ≠ [] → ∃ i c, b_runs s !! i = Some c ∧ failed c;
  inv_closed : b_closed s = true → b_stdin s = [];
  inv_eof : Forall (eof_seen (b_lines s) (b_closed s)) (b_runs s);
}.

Lemma Inv_init input : Inv input (bridge0 input).
Proof. split; unfold all_lines; simpl; [by rewrite !app_nil_r|unfold linesCap; lia|done..]. Qed.

Lemma Inv_run_step input inp ls cl rs p x i c ls' p' x' c' : rs !! i = Some c → run_step ls cl c ls' p' x' c' →
  Inv input (mkBridge inp ls cl rs p x false) →
  Inv input (mkBridge inp ls' cl (<[i := c']> rs) (p ++ p') (x ++ x') false).
Proof.
  intros Hi Hs [Hl Hq Hr Ho Hx Hc He]. unfold all_lines in *. simpl in *.
  assert (Hlt : (i < length rs)%nat) by (by eapply lookup_lt_Some).
  pose proof (run_step_failed _ _ _ _ _ _ _ Hs) as (Hf & Hop & Hlost).
  split; unfold all_lines; simpl.
  - destruct (runs_bind rs i c c' Hi) as (rest & E1 & E2). apply run_step_lines in Hs. by_count.
  - pose proof (run_step_taken _ _ _ _ _ _ _ Hs). lia.
  - apply Forall_insert; [done|]. eapply run_step_bounded; [done|]. by eapply Forall_lookup_1.
  - intros j d Hj Hd. rewrite length_insert. destruct (decide (i = j)) as [->|Hij].
    + rewrite list_lookup_insert_eq in Hj by done. injection Hj as <-. eauto.
    + rewrite list_lookup_insert_ne in Hj by done. eauto.
  - intros Hne. destruct (decide (x' = [])) as [->|Hx'].
    + rewrite app_nil_r in Hne. destruct (Hx Hne) as (j & d & Hj & Hd). destruct (decide (i = j)) as [->|Hij].
      * exists j, c'. rewrite list_lookup_insert_eq by done. split; [done|]. apply Hf. congruence.
      * exists j, d. by rewrite list_lookup_insert_ne.
    + exists i, c'. rewrite list_lookup_insert_eq by done. auto.
  - done.
  - apply Forall_insert; [|by eapply run_step_eof; [|eapply Forall_lookup_1]].
    eapply Forall_impl; [exact He|]. intros d Hd Hstop. destruct (Hd Hstop) as [|[? ?]]; [by left|].
    right. split; [done|]. by eapply run_step_nil.
Qed.

Lemma Inv_step input s t : step s t → Inv input s → Inv input t.
Proof.
  intros Hst HI. destruct Hst as [l inp ls rs p x Hlen|ls rs p x|inp ls cl rs p x Hno|
    inp ls cl rs p x i c ls' p' x' c' Hi Hs|inp ls cl rs p x i c Hi Ho' Hret Hf]; [..|by eapply Inv_run_step|].
  all: destruct HI as [Hl Hq Hr Ho Hx Hc He]; unfold all_lines in *; simpl in *.
  - split; unfold all_lines; simpl; try done; [by_count|rewrite length_app; simpl; lia|].
    eapply Forall_impl; [exact He|]. intros d Hd Hstop. by destruct (Hd Hstop) as [|[? ?]]; [left|].
  - split; try done. eapply Forall_impl; [exact He|]. intros d Hd Hstop. by destruct (Hd Hstop) as [|[? ?]]; [left|].
  - split; unfold all_lines; simpl.
    + rewrite bind_app. simpl. by_count.
    + done.
    + apply Forall_app_2; [done|]. repeat constructor; unfold outCap, maxInFlight; simpl; lia.
    + intros i c [Hi|[-> Hi]]%lookup_snoc_Some Hop; rewrite length_app; simpl; [|lia].
      destruct Hi as [_ Hi]. rewrite Forall_lookup in Hno. by rewrite (Hno _ _ Hi) in Hop.
    + intros (i & c & Hi & Hcf)%Hx. exists i, c. split; [by apply lookup_app_l_Some|done].
    + done.
    + by apply Forall_app_2; [|repeat constructor].
  - by split.
Qed.

Lemma reachable_Inv input s : reachable input s → Inv input s.
Proof.
  intros H. unfold reachable in H. assert (HI := Inv_init input). revert HI.
  induction H as [s|s t u Hst _ IH]; [done|]. intros HI. apply IH. by eapply Inv_step.
Qed.

(** C13: no line the host writes is handled twice or forgotten, over any number of
    restarts of the daemon.  At every moment each line is in one place: not read yet,
    in main's channel, in the hands of one [Run], accepted by the daemon, or lost.
    The queues are bounded.  One [Run] at a time is open, the newest.  No line is dropped
    before some [Run] has returned or has had a POST refused; what the process has in
    its hands when it exits is another matter ([eof_overtakes_line]). *)
Theorem lines_accounted input s (Hreach : reachable input s) :
  input ≡ₚ b_stdin s ++ b_lines s ++ (b_runs s ≫= run_lines) ++ b_posted s ++ b_lost s ∧
  (length (b_lines s) ≤ linesCap)%nat ∧
  Forall (λ c, length (r_out c) ≤ outCap ∧ length (r_posting c) ≤ maxInFlight)%nat (b_runs s) ∧
  (∀ i c, b_runs s !! i = Some c → r_open c = true → S i = length (b_runs s)) ∧
  (b_lost s ≠ [] → ∃ i c, b_runs s !! i = Some c ∧ (r_open c = false ∨ r_fatal c = true)).
Proof. by destruct (reachable_Inv input s Hreach). Qed.


(** ** Nothing is stuck *)
(** What is left to do with the lines of a state, in steps. *)
Definition adapter_work (a : adapter) : nat := match a with Putting _ => 4 | _ => 0 end.
Definition reader_work (r : reader) : nat := match r with Holding _ => 2 | _ => 0 end.
Definition run_work (c : run) : nat :=
  adapter_work (r_adapter c) + 3 * length (r_out c) + reader_work (r_reader c) + length (r_posting c).
Definition working (c : run) : Prop :=
  r_open c = true ∧ r_fatal c = false ∧ (r_reader c = Reading ∨ ∃ l, r_reader c = Holding l).

Lemma run_progress ls cl c : working c → run_lines c ≠ [] →
  ∃ p c', run_step ls cl c ls p [] c' ∧ working c' ∧ (run_work c' < run_work c)%nat.
Proof.
  destruct c as [o a out r posting f]. intros (Ho & Hf & Hr) Hne. simpl in *. subst o f.
  destruct posting as [|l posting].
  2:{ eexists _, _. split; [by eapply (R_accept _ _ _ l [])|]. by split; [|unfold run_work; simpl; lia]. }
  destruct Hr as [->|[l ->]].
  2:{ eexists _, _. split; [eapply R_dispatch; [done|unfold maxInFlight; simpl; lia]|].
      split; [split_and!; auto|unfold run_work; simpl; lia]. }
  destruct out as [|l out].
  2:{ eexists _, _. split; [by eapply R_next|]. split; [split_and!; eauto|unfold run_work; simpl; lia]. }
  destruct a as [|l|]; [done| |done].
  eexists _, _. split; [eapply R_put; [done|unfold outCap; simpl; lia]|].
  split; [split_and!; auto|unfold run_work; simpl; lia].
Qed.

Definition bridge_work (s : bridge) : nat :=
  6 * length (b_stdin s) + 5 * length (b_lines s) + foldr (λ c n, run_work c + n)%nat 0%nat (b_runs s).

Lemma bridge_progress input s c : Inv input s → b_exited s = false → b_runs s = [c] → working c →
  b_stdin s ++ b_lines s ++ run_lines c ≠ [] →
  ∃ t c', step s t ∧ b_exited t = false ∧ b_runs t = [c'] ∧ working c' ∧ (bridge_work t < bridge_work s)%nat.
Proof.
  destruct s as [inp ls cl rs p x ex]. simpl. intros HI -> -> Hw Hne.
  destruct (decide (run_lines c = [])) as [Hc|Hc].
  - assert (Ha : r_adapter c = Taking ∨ inp ++ ls = []).
    { pose proof (Forall_inv (inv_eof _ _ HI)) as He. destruct Hw as (_ & Hf & _).
      destruct (r_adapter c) as [|l|] eqn:Ea; [by left| |].
      - unfold run_lines in Hc. by rewrite Ea in Hc.
      - right. destruct (He Ea) as [?|[Hcl Hls]]; [congruence|]. apply (inv_closed _ _ HI) in Hcl. simpl in *. by subst. }
    rewrite Hc, app_nil_r in Hne. destruct Ha as [Ha|]; [|done].
    destruct ls as [|l ls].
    + rewrite app_nil_r in Hne. destruct inp as [|l inp]; [done|].
      destruct cl; [by pose proof (inv_closed _ _ HI eq_refl)|].
      eexists _, c. split; [apply S_read; unfold linesCap; simpl; lia|]. unfold bridge_work. simpl. split_and!; try done. lia.
    + eexists _, _. split; [by eapply (S_step _ _ _ _ _ _ 0); [|by eapply R_take]|].
      unfold bridge_work, run_work, working in *. simpl. rewrite Ha. simpl. split_and!; try tauto; try done. lia.
  - destruct (run_progress ls cl c Hw Hc) as (p' & c' & Hs & Hw' & Hlt).
    eexists _, _. split; [by eapply (S_step _ _ _ _ _ _ 0)|]. unfold bridge_work. simpl. split_and!; try done. lia.
Qed.

(** C14: nothing is stuck.  As long as the process runs, its first [Run] is the only
    one and is up, no POST was refused and [readStdin] is in its loop, the process can
    go on to post every line of the input, whatever the state of its queues. *)
Theorem bridge_can_finish input s c (Hreach : reachable input s) (Hup : b_exited s = false) (Hrun : b_runs s = [c])
    (Hopen : r_open c = true) (Hfatal : r_fatal c = false) (Hloop : r_reader c ≠ Waiting ∧ r_reader c ≠ Returned) :
  ∃ t, rtc step s t ∧ b_posted t ≡ₚ input.
Proof.
  assert (Hw : working c) by (split_and!; try done; destruct (r_reader c); naive_solver).
  apply reachable_Inv in Hreach as HI. clear Hreach Hopen Hfatal Hloop.
  remember (bridge_work s) as n eqn:Hn. revert s c HI Hup Hrun Hw Hn.
  induction n as [n IH] using lt_wf_ind. intros s c HI Hup Hrun Hw ->.
  destruct (decide (b_stdin s ++ b_lines s ++ run_lines c = [])) as [E|E].
  - exists s. split; [reflexivity|]. assert (Hx : b_lost s = []).
    { destruct (decide (b_lost s = [])) as [|Hx]; [done|]. apply (inv_lost _ _ HI) in Hx as (i & d & Hi & Hd).
      rewrite Hrun in Hi. apply list_lookup_singleton_Some in Hi as [-> <-]. destruct Hw as (? & ? & _).
      destruct Hd; congruence. }
    apply app_eq_nil in E as [E1 E]. apply app_eq_nil in E as [E2 E3]. rewrite (inv_lines _ _ HI). unfold all_lines.
    by rewrite E1, E2, Hrun, Hx, bind_cons, E3, !app_nil_r.
  - destruct (bridge_progress input s c) as (t & c' & Hst & Hup' & Hrun' & Hw' & Hlt); [done..|].
    destruct (IH _ Hlt t c') as (u & Hu & Hp); [by eapply Inv_step|done..|]. exists u. split; [by eapply rtc_l|done].
Qed.

(** ** Runs of the process *)
Ltac go_run i rule :=
  eapply rtc_l; [eapply (S_step _ _ _ _ _ _ i); [reflexivity|eapply rule; first [reflexivity|simpl; unfold outCap, maxInFlight; lia]]|simpl].
Ltac go_read := eapply rtc_l; [apply S_read; simpl; unfold linesCap; lia|simpl].
Ltac go_start := eapply rtc_l; [apply S_run; repeat constructor|simpl].

(** One line, from the standard input to the daemon. *)
Lemma one_line_run l : ∃ s, reachable [l] s ∧ b_posted s = [l] ∧ b_lost s = [].
Proof.
  eexists. split; [unfold reachable, bridge0|].
  - go_start. go_read. go_run 0%nat R_take. go_run 0%nat R_put. go_run 0%nat R_next. go_run 0%nat R_dispatch.
    eapply rtc_l; [eapply (S_step _ _ _ _ _ _ 0); [reflexivity|by eapply (R_accept _ _ _ l [] [])]|]. reflexivity.
  - done.
Qed.

Lemma lines_accounted_witness :
  reachable ["a"] (bridge0 ["a"]) ∧ ["a"] ≡ₚ b_stdin (bridge0 ["a"]) ++ [] ∧ (length (b_lines (bridge0 ["a"])) ≤ linesCap)%nat.
Proof.
  assert (H : reachable ["a"] (bridge0 ["a"])) by constructor. split; [exact H|].
  destruct (lines_accounted _ _ H) as (H1 & H2 & _). split; [exact H1|exact H2].
Defined.
Lemma bridge_can_finish_witness :
  let s := mkBridge ["a"; "b"] [] false [run0] [] [] false in
  reachable ["a"; "b"] s ∧ ∃ t, rtc step s t ∧ b_posted t ≡ₚ ["a"; "b"].
Proof.
  intros s. assert (H : reachable ["a"; "b"] s) by (unfold reachable, bridge0, s; go_start; reflexivity).
  split; [exact H|]. apply (bridge_can_finish ["a"; "b"] s run0 H); [reflexivity..|split; discriminate].
Defined.

(** A line can be lost to a [Run] that is over.  The adapter and [readStdin] of a
    [Run] whose stream ended go on taking from main's channel, so a line that the host
    writes after the new [Run] is up can be posted to the daemon that is gone, while
    the new [Run] has had no failure. *)
Theorem dead_run_eats_line l : ∃ s t dead,
  reachable [l] s ∧ b_stdin s = [l] ∧ b_runs s = [dead; run0] ∧ r_open dead = false ∧
  rtc step s t ∧ b_lost t = [l] ∧ b_runs t !! 1%nat = Some run0.
Proof.
  set (dead := run0 <| r_open := false |>).
  exists (mkBridge [l] [] false [dead; run0] [] [] false). eexists. exists dead.
  split; [|split; [reflexivity|split; [reflexivity|split; [reflexivity|split]]]].
  - unfold reachable, bridge0. go_start. go_run 0%nat R_stream_end. go_start. reflexivity.
  - go_read. go_run 0%nat R_take. go_run 0%nat R_put. go_run 0%nat R_next. go_run 0%nat R_dispatch.
    eapply rtc_l; [eapply (S_step _ _ _ _ _ _ 0); [reflexivity|by eapply (R_refuse _ _ _ l [] [])]|]. reflexivity.
  - by split.
Qed.

(** The end of the input can overtake the last lines.  [readStdin] returns as
    soon as it sees [readDoneCh], although lines are still in [out]: the process exits
    with a line that no POST was started for, and nothing has failed. *)
Theorem eof_overtakes_line l : ∃ s c,
  reachable [l] s ∧ b_exited s = true ∧ b_posted s = [] ∧ b_runs s = [c] ∧
  r_open c = true ∧ r_fatal c = false ∧ r_out c = [l].
Proof.
  eexists _, _. split; [unfold reachable, bridge0|].
  - go_start. go_read. go_run 0%nat R_take. go_run 0%nat R_put.
    eapply rtc_l; [apply S_close|simpl]. go_run 0%nat R_eof. go_run 0%nat R_done. go_run 0%nat R_return.
    eapply rtc_l; [eapply (S_exit _ _ _ _ _ _ 0); reflexivity|]. reflexivity.
  - by split_and!.
Qed.
