(* ===== verification/Main.v ===== *)
(** * The entry point (cmd/remote-shell-mcp/main.go)

    Which of the program's faces the arguments choose, how the proxy gets its daemon,
    how the standard input is cut into lines, and the loop that starts one [Run] of the
    proxy after another. *)

From S2P Require Import Prelude GoStrings External DaemonLock Daemon Setup Launcher.
From Stdlib Require Import Ascii.

(** ** main: the arguments *)
Inductive face :=
  | FaceSetup (args : list string)
  | FaceVersion
  | FaceUsage
  | FaceTool (name : string) (args : list string)
  | FaceProxy (args : list string).

Definition dash : ascii := "-"%char.
(** [args] is [os.Args[1:]]. *)
Definition main_face (args : list string) : face :=
  match args with
  | [] => FaceProxy []
  | first :: rest =>
    if decide (first = "setup") then FaceSetup rest
    else if decide (first = "version") then FaceVersion
    else if decide (first = "--help" ∨ first = "-h" ∨ first = "help") then FaceUsage
    else match first with
    | String a _ => if decide (a = dash) then FaceProxy args else FaceTool first rest
    | "" => FaceProxy args
    end
  end.

(** The environment's value when it is set and not empty. *)
Definition envOr (LookupEnv : string → option string) (key def : string) : string :=
  match LookupEnv key with Some v => if decide (v = "") then def else v | None => def end.

(** The exit code of [setup]. *)
Definition runSetup (r : outcome (list ClientResult)) : outcome Z :=
  match r with
  | Err _ => Ret 1
  | Panic p => Panic p
  | Ret results => Ret (if decide (List.filter (λ r, bool_decide (is_Some (cr_Err r))) results = []) then 0 else 1)
  end.

(** ** The daemon to talk to *)
Section resolve.
Context {S : Sys}.
Variable UserConfigDir : error + string.

Definition resolveDaemonHandle (fuel : nat) (daemonBin handlePath : string) (noSpawn : bool) : M LState (option Handle) :=
  handlePath ← (if decide (handlePath = "") then
      match DefaultPaths UserConfigDir with inl e => fail e | inr (_, _, def) => mret def end
    else mret handlePath);
  if noSpawn then r ← look (λ n, read_handle n handlePath); h ← of_sum r; mret (Some h)
  else EnsureDaemonAt fuel handlePath daemonBin [].

(** With [-no-spawn] the launcher only looks. *)
Lemma no_spawn_idle fuel daemonBin handlePath : stays (does (λ l, l = [])) (resolveDaemonHandle fuel daemonBin handlePath true).
Proof.
  unfold resolveDaemonHandle. apply stays_bind; [apply _| |].
  - destruct (decide (handlePath = "")); [|apply stays_ret, _].
    destruct (DefaultPaths UserConfigDir) as [err|[[a b] c]]; [apply stays_fail, _|apply stays_ret, _].
  - intros path. apply stays_bind; [apply _|apply idle_look|]. intros [err|h]; intros s; exists []; by rewrite app_nil_r.
Qed.
End resolve.

(** ** The standard input
    [ReadBytes('\n')] until the end: every line with its newline, and what follows the
    last newline when it is not empty. *)
Definition nl : ascii := "010"%char.
Fixpoint read_lines (cur s : string) : list string :=
  match s with
  | "" => if decide (cur = "") then [] else [cur]
  | String a s' =>
    let cur := (cur +:+ String a "")%string in
    if decide (a = nl) then cur :: read_lines "" s' else read_lines cur s'
  end.
Definition stdin_lines (s : string) : list string := read_lines "" s.
(** The reader that [lineSource] starts when there is no shared channel leaves out
    blank lines. *)
Definition local_lines (s : string) : list string :=
  List.filter (λ l, negb (bool_decide (TrimSpace l = ""))) (stdin_lines s).
(** main's does not. *)
Lemma blank_line_is_posted : stdin_lines (String nl "") = [String nl ""] ∧ local_lines (String nl "") = [].
Proof. by vm_compute. Qed.

(** ** The reconnect loop *)
(** How one turn of the loop ends: no handle, or [Run] returned. *)
Inductive result := RunNil | RunCanceled | RunFailed.
Inductive turn := NoHandle | Ran (r : result) (elapsed : Z).   (* milliseconds *)

Definition backoff : list Z := [200; 500; 1000; 2000; 5000].
Definition stableThreshold : Z := 30000.
Definition min (a b : nat) : nat := if decide (a < b)%nat then a else b.
(** [backoff[min(attempt, len(backoff)-1)]]; the index is in range. *)
Definition delay (attempt : nat) : Z := nth (min attempt (length backoff - 1)) backoff 0.

(** The sleeps of the loop, and whether it was left. *)
Fixpoint main_loop (attempt : nat) (turns : list turn) : list Z * bool :=
  match turns with
  | [] => ([], false)
  | NoHandle :: rest => let '(ds, x) := main_loop (Datatypes.S attempt) rest in (delay attempt :: ds, x)
  | Ran RunNil _ :: _ | Ran RunCanceled _ :: _ => ([], true)
  | Ran RunFailed elapsed :: rest =>
    let attempt := if bool_decide (elapsed > stableThreshold) then 0%nat else attempt in
    let '(ds, x) := main_loop (Datatypes.S attempt) rest in (delay attempt :: ds, x)
  end.

(** ** What the loop does *)
Definition fails (t : turn) : Prop := match t with NoHandle | Ran RunFailed _ => True | _ => False end.
Definition stable (t : turn) : Prop := ∃ e, t = Ran RunFailed e ∧ stableThreshold < e.
#[export] Instance stable_dec t : Decision (stable t).
Proof.
  destruct t as [|[] e]; [right; by intros (? & ? & ?)|right; by intros (? & ? & ?)..|].
  destruct (decide (stableThreshold < e)); [left; by exists e|right; intros (? & [= <-] & ?); lia].
Defined.
(** The failures since the last turn that was stable, that one not counted, after
    [n] that went before. *)
Fixpoint streak (n : nat) (turns : list turn) : nat :=
  match turns with [] => n | t :: rest => streak (if decide (stable t) then 1 else Datatypes.S n)%nat rest end.

(** [setup] succeeds when nothing failed. *)
Lemma runSetup_zero results : runSetup (Ret results) = Ret 0 ↔ ∀ r, r ∈ results → cr_Err r = None.
Proof.
  assert (E : List.filter (λ r, bool_decide (is_Some (cr_Err r))) results = [] ↔ ∀ r, r ∈ results → cr_Err r = None).
  { induction results as [|a l IH]; simpl; [split; [intros _ x Hx; by apply not_elem_of_nil in Hx|done]|].
    destruct (cr_Err a) as [e|] eqn:Ha; split; intros H.
    - done.
    - specialize (H a (list_elem_of_here _ _)). congruence.
    - intros x [->|Hx]%elem_of_cons; [done|]. by apply IH.
    - apply IH. intros x Hx. apply H. by right. }
  rewrite <- E. simpl. destruct (decide _); split; congruence.
Qed.

Lemma delay_bounds n : 200 ≤ delay n ≤ 5000.
Proof. unfold delay, min, backoff. simpl length. do 5 (destruct n as [|n]; [simpl; lia|]). simpl. lia. Qed.
Lemma delay_late n : (4 ≤ n)%nat → delay n = 5000.
Proof. intros H. do 4 (destruct n as [|n]; [lia|]). unfold delay, min, backoff. simpl length. by destruct (decide _); [lia|]. Qed.

(** C18: the proxy does not give up.  However often the daemon cannot be found or a
    [Run] fails, the loop goes on; it is left only when a [Run] ends without error or
    because of a signal.  Before the next turn it sleeps between 0.2 and 5 seconds:
    0.2 after a [Run] that was up for more than thirty seconds, 5 from the fifth
    failure in a row on. *)
Theorem reconnect_forever attempt turns (Hturns : Forall fails turns) :
  (main_loop attempt turns).2 = false ∧
  length (main_loop attempt turns).1 = length turns ∧
  ∀ i t, turns !! i = Some t → ∃ d, (main_loop attempt turns).1 !! i = Some d ∧ 200 ≤ d ≤ 5000 ∧
    (stable t → d = 200) ∧ (¬ stable t → (4 ≤ streak attempt (take i turns))%nat → d = 5000).
Proof.
  revert attempt. induction Hturns as [|t turns Ht _ IH]; intros attempt; [split_and!; [done..|intros i t; by rewrite lookup_nil]|].
  set (a := if decide (stable t) then 0%nat else attempt).
  assert (E : main_loop attempt (t :: turns) = (delay a :: (main_loop (Datatypes.S a) turns).1, (main_loop (Datatypes.S a) turns).2)).
  { subst a. destruct t as [|[] e]; try done.
    - cbn [main_loop]. destruct (decide (stable NoHandle)) as [(? & ? & ?)|]; [done|]. by destruct (main_loop _ turns).
    - cbn [main_loop]. destruct (decide (stable _)) as [(? & [= <-] & ?)|Hs].
      + rewrite bool_decide_eq_true_2 by lia. by destruct (main_loop _ turns).
      + rewrite bool_decide_eq_false_2; [by destruct (main_loop _ turns)|]. intros ?. apply Hs. exists e. split; [done|lia]. }
  rewrite E. destruct (IH (Datatypes.S a)) as (H1 & H2 & H3). cbn [fst snd]. split_and!; [done|simpl; by rewrite H2|].
  intros [|i] u Hu.
  - injection Hu as <-. exists (delay a). split; [done|]. split; [apply delay_bounds|]. subst a. simpl. split; intros Hs.
    + by rewrite decide_True.
    + rewrite decide_False by done. intros Hn. by apply delay_late.
  - simpl in Hu. destruct (H3 i u Hu) as (d & Hd & Hb & Hs & Hl). exists d. split_and!; [done|apply Hb|apply Hb|done|].
    intros Hns Hn. apply Hl; [done|]. subst a. simpl in Hn. by destruct (decide (stable t)).
Qed.
Lemma reconnect_forever_witness :
  let turns := [NoHandle; NoHandle; NoHandle; NoHandle; NoHandle; Ran RunFailed 60000; Ran RunFailed 10] in
  Forall fails turns ∧ main_loop 0 turns = ([200; 500; 1000; 2000; 5000; 200; 500], false) ∧ (main_loop 0 turns).2 = false.
Proof.
  intros turns. assert (H : Forall fails turns) by (repeat constructor; done).
  split; [exact H|]. split; [vm_compute; reflexivity|]. exact (proj1 (reconnect_forever 0 turns H)).
Defined.

Lemma app_singleton_str (c : string) a s : ((c +:+ String a "") +:+ s = c +:+ String a s)%string.
Proof. by rewrite app_assoc_str. Qed.
Lemma read_lines_concat cur s : (foldr String.append "" (read_lines cur s) = cur +:+ s)%string.
Proof.
  revert cur. induction s as [|a s IH]; intros cur; cbn [read_lines].
  - destruct (decide (cur = "")) as [->|]; [done|]. simpl. done.
  - cbv zeta. destruct (decide (a = nl)); [cbn [foldr]; rewrite IH|rewrite IH]; by rewrite app_singleton_str.
Qed.
Lemma read_lines_shape cur s : In_str nl cur = false → ∀ i l, read_lines cur s !! i = Some l →
  ∃ c, In_str nl c = false ∧ (l = (c +:+ String nl "")%string ∨ l = c ∧ c ≠ "" ∧ S i = length (read_lines cur s)).
Proof.
  revert cur. induction s as [|a s IH]; intros cur Hcur i l; cbn [read_lines]; cbv zeta.
  - destruct (decide (cur = "")) as [->|Hne]; [by rewrite lookup_nil|].
    intros [-> <-]%list_lookup_singleton_Some. exists cur. auto.
  - destruct (decide (a = nl)) as [->|Ha].
    + destruct i as [|i]; simpl; [intros [= <-]; exists cur; auto|]. intros (c & Hc & H)%IH; [|done].
      exists c. split; [done|]. destruct H as [->|(? & ? & ?)]; [by left|right; split_and!; try done; lia].
    + apply IH. rewrite In_str_app, Hcur. simpl. by rewrite bool_decide_false.
Qed.

(** The lines of the standard input are the input.  Put together they are what
    came in, and each is one line: its newline is its end; only the last may lack it. *)
Theorem stdin_lines_exact s :
  foldr String.append "" (stdin_lines s) = s ∧
  ∀ i l, stdin_lines s !! i = Some l →
    ∃ c, In_str nl c = false ∧ (l = (c +:+ String nl "")%string ∨ l = c ∧ c ≠ "" ∧ Datatypes.S i = length (stdin_lines s)).
Proof. split; [apply read_lines_concat|by apply read_lines_shape]. Qed.
