(* ===== verification/Mcpd.v ===== *)
(** * Starting and ending the daemon process (cmd/remote-shell-mcpd/main.go)

    Before it serves, the daemon takes the lock, binds its port and publishes its
    handle; [start] is that sequence, over the lock file, the directory and the
    listener.  A step that fails ends the process with [os.Exit], which runs none of
    the deferred functions: the kernel drops the flock and the listener, the files
    stay.  [finish] is what a clean end runs.  Between them are [Life.boot], the
    server and [Life.shutdown]. *)

From S2P Require Import Prelude GoStrings Url Paths External Files Tools DaemonLock Daemon Main Launcher.
From Stdlib Require Import Ascii.

Definition defaultAddr : string := "127.0.0.1:0".

Record DProc := mkDProc {
  dp_lock : LWorld;
  dp_files : FS;
  dp_listening : option string;      (* the address of the bound listener *)
}.
Definition eta_DProc s := mkDProc (dp_lock s) (dp_files s) (dp_listening s).
#[export] Instance upd_dp_lock : Setter dp_lock. Proof. mk_setter eta_DProc. Defined.
#[export] Instance upd_dp_files : Setter dp_files. Proof. mk_setter eta_DProc. Defined.
#[export] Instance upd_dp_listening : Setter dp_listening. Proof. mk_setter eta_DProc. Defined.
Definition lockM {A} : M LWorld A → M DProc A := zoom dp_lock (λ l s, s <| dp_lock := l |>).
Definition filesM {A} : M FS A → M DProc A := zoom dp_files (λ f s, s <| dp_files := f |>).

(** The values of the flags. *)
Record Flags := mkFlags {
  fl_addr : string;
  fl_state : string;
  fl_lock : string;
  fl_handle : string;
  fl_format : string;
}.
Definition or_default (v def : string) : string := if decide (v = "") then def else v.

Inductive begun :=
  | Exited (code : Z)
  | Running (lock : ino) (h : Handle) (handlePath statePath : string).

(** What the kernel does when the process [p] ends. *)
Definition drop_locks (p : pid) (w : LWorld) : LWorld := w <| lw_lock ::= filter (λ iq, iq.2 ≠ p) |>.
Definition exit (p : pid) (code : Z) : M DProc begun :=
  modify (λ s, s <| dp_lock ::= drop_locks p |> <| dp_listening := None |>);; mret (Exited code).

Section daemon.
Context {C : HandleCodec} (io : fate) (lf : lock_faults).
Variable UserConfigDir : error + string.
Variable rand : error + bytes.
Variable Listen : string → error + string.       (* the address that was bound *)
Variable p : pid.

(** state.go [NewStore] with a path: only the directory is made. *)
Definition NewStore (path : string) : M FS string :=
  r ← try (MkdirAll io);
  match r with inl e => fail (Wrap "create state dir: %w" [] e) | inr _ => mret path end.

Definition start (f : Flags) : M DProc begun :=
  match ParseFormat (fl_format f) with
  | inl _ => exit p 2
  | inr _ =>
  match DefaultPaths UserConfigDir with
  | inl _ => exit p 1
  | inr (defLock, defState, defHandle) =>
  let lockPath := or_default (fl_lock f) defLock in
  let statePath := or_default (fl_state f) defState in
  let handlePath := or_default (fl_handle f) defHandle in
  filesM (ignore (MkdirAll io));;
  lock ← try (lockM (AcquireLock lf lockPath p));
  match lock with
  | inl _ => exit p 1
  | inr lock =>
  match GenerateToken rand with
  | inl _ => exit p 1
  | inr token =>
  match Listen (fl_addr f) with
  | inl _ => exit p 1
  | inr boundAddr =>
  modify (λ s, s <| dp_listening := Some boundAddr |>);;
  let h := mkHandle boundAddr token p in
  written ← try (filesM (WriteHandle io handlePath h));
  match written with
  | inl _ => modify (λ s, s <| dp_listening := None |>);; exit p 1
  | inr _ =>
  store ← try (filesM (NewStore statePath));
  match store with
  | inl _ => exit p 1
  | inr store => mret (Running lock h handlePath store)
  end end end end end end end.

(** The deferred functions, last first. *)
Definition finish (lock : ino) (handlePath : string) : M DProc unit :=
  filesM (ignore (Remove io handlePath));; lockM (Release lf (Some lock));;
  modify (λ s, s <| dp_listening := None |>).
End daemon.

(** ** The server
    The mux: [/rpc] exactly, and everything else, which is the SSE server's or one of
    the mux's own redirects. *)
Definition mux {S} (rpc sse : Daemon.Handler S) : Daemon.Handler S := λ r,
  if decide (rq_Path r = "/rpc") then rpc r else sse r.
Definition authed {S Resp} (token : string) (HandleMessage : string → M S (option Resp)) Encode error_text
    (sseServer : Daemon.Handler S) : Daemon.Handler S :=
  AuthMiddleware token (mux (RPCHandler HandleMessage Encode error_text) sseServer).

(** ** The kernel's part *)
Lemma holder_lock w p : lock_inv w → holder w ≠ Some p ↔ ∀ i, lw_lock w !! i ≠ Some p.
Proof.
  intros [Hp _]. unfold holder. split.
  - intros H i Hi. apply H. by rewrite (Hp i p Hi).
  - intros H. destruct (lw_path w) as [i|]; simpl; [apply H|done].
Qed.
Lemma drop_locks_spec p w : lock_inv w →
  lock_inv (drop_locks p w) ∧ lw_path (drop_locks p w) = lw_path w ∧ lw_text (drop_locks p w) = lw_text w ∧
  holder (drop_locks p w) = if decide (holder w = Some p) then None else holder w.
Proof.
  intros [Hp Hn]. split; [|split; [done|split; [done|]]].
  - split; simpl; [|done]. intros i q [Hi _]%map_lookup_filter_Some. by eapply Hp.
  - unfold holder. cbn [drop_locks lw_path]. change (lw_path (drop_locks p w)) with (lw_path w).
    change (lw_lock (drop_locks p w)) with (filter (λ iq, iq.2 ≠ p) (lw_lock w)).
    destruct (lw_path w) as [i|]; cbn; [|by repeat case_match].
    apply option_eq. intros q. rewrite map_lookup_filter_Some. destruct (decide (lw_lock w !! i = Some p)) as [E|E].
    + rewrite E. split; [|done]. intros [[= <-] H]. by destruct H.
    + split; [by intros [? _]|]. intros Hq. split; [done|]. simpl. congruence.
Qed.

Lemma lockM_run {A} (m : M LWorld A) s : lockM m s = ((m (dp_lock s)).1, s <| dp_lock := (m (dp_lock s)).2 |>).
Proof. unfold lockM, zoom. by destruct (m (dp_lock s)). Qed.
Lemma filesM_run {A} (m : M FS A) s : filesM m s = ((m (dp_files s)).1, s <| dp_files := (m (dp_files s)).2 |>).
Proof. unfold filesM, zoom. by destruct (m (dp_files s)). Qed.
(** The outcome of a call whose error is looked at. *)
Definition seen {A} (o : outcome A) : error + A := match o with Ret a => inr a | Err e => inl e | Panic w => inl (Msg w) end.
Lemma try_lock {A B} (m : M LWorld A) (k : error + A → M DProc B) s : is_panic (m (dp_lock s)).1 = false →
  (try (lockM m) ≫= k) s = k (seen (m (dp_lock s)).1) (s <| dp_lock := (m (dp_lock s)).2 |>).
Proof. intros H. unfold mbind, M_bind, try. rewrite lockM_run. by destruct ((m (dp_lock s)).1). Qed.
Lemma try_files {A B} (m : M FS A) (k : error + A → M DProc B) s : is_panic (m (dp_files s)).1 = false →
  (try (filesM m) ≫= k) s = k (seen (m (dp_files s)).1) (s <| dp_files := (m (dp_files s)).2 |>).
Proof. intros H. unfold mbind, M_bind, try. rewrite filesM_run. by destruct ((m (dp_files s)).1). Qed.

Section started.
Context {C : HandleCodec} (io : fate) (lf : lock_faults) (UserConfigDir : error + string) (rand : error + bytes)
  (Listen : string → error + string) (p : pid).

Lemma WriteHandle_lands path h s :
  match WriteHandle io path h s with
  | (Ret _, s') => ∃ data, marshal_handle h = inr data ∧ fs_files s' !! path = Some data
  | (Err _, _) => True
  | (Panic _, _) => False
  end.
Proof.
  unfold WriteHandle. destruct (io (fs_tick s)) as [[e k]|] eqn:H0; [by unfold mbind, M_bind, try, MkdirAll; rewrite H0|].
  erewrite bind_ret by (unfold try, MkdirAll; by rewrite H0).
  destruct (marshal_handle h) as [e|data]; [done|]. erewrite bind_ret by reflexivity.
  pose proof (replace_file_spec io path data (tick s)) as H.
  destruct (replace_file io path data (tick s)) as [[[]|e|w] s']; [|done|by destruct H]. exists data. by destruct H.
Qed.
Lemma NewStore_run path s : (NewStore io path s).2 = tick s ∧ is_panic (NewStore io path s).1 = false.
Proof. unfold NewStore, mbind, M_bind, try, MkdirAll. by destruct (io (fs_tick s)) as [[e k]|]. Qed.

(** An exit: the lock is as it was before the process [p] came, nothing listens. *)
Definition exits_clean (w : LWorld) (o : outcome begun * DProc) : Prop :=
  ∃ c, o.1 = Ret (Exited c) ∧ (c = 1 ∨ c = 2) ∧ lock_inv (dp_lock o.2) ∧ holder (dp_lock o.2) = holder w ∧ dp_listening o.2 = None.
Lemma exit_clean w c s : c = 1 ∨ c = 2 → lock_inv (dp_lock s) → holder w ≠ Some p →
  (holder (dp_lock s) = Some p ∧ holder w = None ∨ holder (dp_lock s) = holder w) →
  exits_clean w (exit p c s).
Proof.
  intros Hc Hl Hw Hh. exists c. destruct (drop_locks_spec p _ Hl) as (H1 & _ & _ & H2). split; [done|]. split; [done|].
  split; [exact H1|]. split; [|done]. change (dp_lock (exit p c s).2) with (drop_locks p (dp_lock s)). rewrite H2.
  destruct Hh as [[-> ->]| ->]; [by rewrite decide_True|by rewrite decide_False].
Qed.

Lemma AcquireLock_safe path w : lock_inv w → is_panic (AcquireLock lf path p w).1 = false.
Proof. intros Hw. pose proof (AcquireLock_spec lf path p w Hw). by destruct (AcquireLock lf path p w) as [[]]. Qed.
Lemma WriteHandle_safe path h s : is_panic (WriteHandle io path h s).1 = false.
Proof. pose proof (WriteHandle_lands path h s). by destruct (WriteHandle io path h s) as [[]]. Qed.

(** What [start] leaves when it gets to the end. *)
Definition up (f : Flags) (w : LWorld) (i : ino) (h : Handle) (hp : string) (s : DProc) : Prop :=
  holder w = None ∧ lock_inv (dp_lock s) ∧ lw_path (dp_lock s) = Some i ∧ lw_lock (dp_lock s) !! i = Some p ∧
  lw_text (dp_lock s) !! i = Some (Itoa p) ∧
  Listen (fl_addr f) = inr (Addr h) ∧ dp_listening s = Some (Addr h) ∧ GenerateToken rand = inr (Token h) ∧ PID h = p ∧
  ∃ data, marshal_handle h = inr data ∧ fs_files (dp_files s) !! hp = Some data.
Lemma start_spec f s : lock_inv (dp_lock s) → holder (dp_lock s) ≠ Some p → dp_listening s = None →
  let r := start io lf UserConfigDir rand Listen p f s in
  exits_clean (dp_lock s) r ∨ ∃ i h hp sp, r.1 = Ret (Running i h hp sp) ∧ up f (dp_lock s) i h hp r.2.
Proof.
  intros Hl Hp Hn r. subst r. unfold start.
  destruct (ParseFormat _) as [e|fmt]; [left; apply exit_clean; auto|].
  destruct (DefaultPaths UserConfigDir) as [e|[[a b] c]]; [left; apply exit_clean; auto|]. cbv zeta.
  set (lockPath := or_default _ a). set (statePath := or_default _ b). set (handlePath := or_default _ c).
  set (m0 := ignore (MkdirAll io)).
  assert (E0 : filesM m0 s = (Ret tt, s <| dp_files := (m0 (dp_files s)).2 |>)).
  { rewrite filesM_run. unfold m0, ignore, try, MkdirAll, mbind, M_bind. by destruct (io _) as [[]|]. }
  rewrite (bind_ret _ _ _ _ _ E0). set (s0 := s <| dp_files := _ |>).
  rewrite try_lock by by apply AcquireLock_safe. change (dp_lock s0) with (dp_lock s).
  pose proof (AcquireLock_spec lf lockPath p (dp_lock s) Hl) as Ha.
  destruct (AcquireLock lf lockPath p (dp_lock s)) as [[i|e|w] l]; [| |done]; cbn [fst snd seen].
  2:{ destruct Ha as (Hl1 & Hh & _). left. apply exit_clean; auto. }
  destruct Ha as (Hl1 & Hfree & Hh & Hpath & Htext). set (s1 := s0 <| dp_lock := l |>).
  assert (Hi : lw_lock l !! i = Some p) by (unfold holder in Hh; rewrite Hpath in Hh; exact Hh).
  assert (Hexit : ∀ s', dp_lock s' = l → exits_clean (dp_lock s) (exit p 1 s')).
  { intros s' E. apply exit_clean; rewrite ?E; auto. }
  destruct (GenerateToken rand) as [e|token] eqn:Ht; [left; by apply Hexit|].
  destruct (Listen (fl_addr f)) as [e|bound] eqn:Hb; [left; by apply Hexit|].
  erewrite bind_ret by reflexivity. set (s2 := s1 <| dp_listening := Some bound |>). set (h := mkHandle bound token p).
  rewrite try_files by apply WriteHandle_safe. pose proof (WriteHandle_lands handlePath h (dp_files s2)) as Hw.
  destruct (WriteHandle io handlePath h (dp_files s2)) as [[[]|e|w] fs]; [| |done]; cbn [fst snd seen].
  2:{ left. erewrite bind_ret by reflexivity. by apply Hexit. }
  destruct Hw as (data & Hm & Hf). set (s3 := s2 <| dp_files := fs |>).
  destruct (NewStore_run statePath (dp_files s3)) as [Hs1 Hs2]. rewrite try_files by done. rewrite Hs1.
  destruct ((NewStore io statePath (dp_files s3)).1) as [st|e|w]; cbn [seen]; [|left; by apply Hexit|left; by apply Hexit].
  right. exists i, h, handlePath, st. split; [done|]. unfold up. split_and!; try done. by exists data.
Qed.
End started.

(** C16: a daemon that says it is up is up, and one that failed is gone.  [start]
    comes to its end only when nobody had the lock: then the process holds it, its pid
    is in the lock file, the port is bound, and the handle file, written after that,
    names the bound address, the fresh token and the pid.  Otherwise the process exits
    with 1 or 2, whoever had the lock still has it, and nothing listens. *)
Theorem daemon_start_exact {C : HandleCodec} io lf UserConfigDir rand Listen p f s
    (Hlock : lock_inv (dp_lock s)) (Hfresh : holder (dp_lock s) ≠ Some p) (Hidle : dp_listening s = None) :
  let '(o, s') := start io lf UserConfigDir rand Listen p f s in
  match o with
  | Ret (Running i h hp sp) =>
    holder (dp_lock s) = None ∧ holder (dp_lock s') = Some p ∧ lw_text (dp_lock s') !! i = Some (Itoa p) ∧
    Listen (fl_addr f) = inr (Addr h) ∧ dp_listening s' = Some (Addr h) ∧ GenerateToken rand = inr (Token h) ∧ PID h = p ∧
    ∃ data, fs_files (dp_files s') !! hp = Some data ∧ unmarshal_handle data = inr h
  | Ret (Exited c) => (c = 1 ∨ c = 2) ∧ holder (dp_lock s') = holder (dp_lock s) ∧ dp_listening s' = None
  | _ => False
  end.
Proof.
  pose proof (start_spec io lf UserConfigDir rand Listen p f s Hlock Hfresh Hidle) as H. cbv zeta in H.
  destruct (start io lf UserConfigDir rand Listen p f s) as [o s']. cbn [fst snd] in H.
  destruct H as [(c & E & Hc & _ & Hh & Hn)|(i & h & hp & sp & E & Hup)]; cbn [fst snd] in *; subst o; [done|].
  destruct Hup as (Hfree & Hl & Hpath & Hi & Htext & Hb & Hlis & Htok & Hpid & data & Hm & Hf).
  split_and!; try done; [unfold holder; by rewrite Hpath|]. exists data. split; [done|by apply handle_codec].
Qed.

(** The deferred functions, for the process that has the lock. *)
Lemma finish_spec io lf p i hp s : lock_inv (dp_lock s) → lw_lock (dp_lock s) !! i = Some p →
  ∃ s2, finish io lf i hp s = (Ret tt, s2) ∧ lock_inv (dp_lock s2) ∧ holder (dp_lock s2) = None ∧
    (fail_remove lf = None → lw_path (dp_lock s2) = None) ∧ dp_listening s2 = None ∧
    (∀ q, q ≠ hp → fs_files (dp_files s2) !! q = fs_files (dp_files s) !! q) ∧
    (io (fs_tick (dp_files s)) = None → fs_files (dp_files s2) !! hp = None).
Proof.
  intros Hl Hi. unfold finish. set (f := (Remove io hp (dp_files s)).2).
  assert (E1 : filesM (ignore (Remove io hp)) s = (Ret tt, s <| dp_files := f |>)).
  { rewrite filesM_run. unfold f, ignore, try, Remove, mbind, M_bind. by destruct (io _) as [[e n]|]. }
  rewrite (bind_ret _ _ _ _ _ E1). destruct (Release_spec lf i p (dp_lock s) Hl Hi) as (w & Hrel & Hw & _ & Hfree & Hgone).
  assert (E2 : lockM (Release lf (Some i)) (s <| dp_files := f |>) = (Ret tt, s <| dp_files := f |> <| dp_lock := w |>))
    by (rewrite lockM_run; simpl dp_lock; by rewrite Hrel).
  rewrite (bind_ret _ _ _ _ _ E2). eexists. split; [reflexivity|]. split; [exact Hw|]. split_and!; simpl.
  - exact Hfree.
  - exact Hgone.
  - done.
  - intros q Hq. unfold f, Remove. destruct (io _) as [[e n]|]; [done|]. simpl. by rewrite lookup_delete_ne.
  - intros Hio. unfold f, Remove. rewrite Hio. simpl. by rewrite lookup_delete_eq.
Qed.

(** A daemon that ends cleanly leaves nothing for a launcher to find.  After
    [finish] nobody holds the lock, and the lock file and the handle file are gone,
    each unless removing it failed. *)
Theorem daemon_finish_clean {C : HandleCodec} io lf UserConfigDir rand Listen p f s i h hp sp s1
    (Hlock : lock_inv (dp_lock s)) (Hfresh : holder (dp_lock s) ≠ Some p) (Hidle : dp_listening s = None)
    (Hstart : start io lf UserConfigDir rand Listen p f s = (Ret (Running i h hp sp), s1))
    (Hio : io (fs_tick (dp_files s1)) = None) :
  ∃ s2, finish io lf i hp s1 = (Ret tt, s2) ∧ lock_inv (dp_lock s2) ∧ holder (dp_lock s2) = None ∧
    (fail_remove lf = None → lw_path (dp_lock s2) = None) ∧
    fs_files (dp_files s2) !! hp = None ∧ dp_listening s2 = None.
Proof.
  pose proof (start_spec io lf UserConfigDir rand Listen p f s Hlock Hfresh Hidle) as H. cbv zeta in H. rewrite Hstart in H.
  destruct H as [(c & E & _)|(i' & h' & hp' & sp' & E & Hup)]; [done|]. injection E as <- <- <- <-. cbn [snd] in Hup.
  destruct Hup as (_ & Hl & Hpath & Hi & _). destruct (finish_spec io lf p i hp s1 Hl Hi) as (s2 & H1 & H2 & H3 & H4 & H5 & _ & H6).
  exists s2. split_and!; try done. by apply H6.
Qed.

(** A daemon that could not start can get another process killed.  When its port
    is taken it exits with 1 and its pid stays in the lock file, whose lock nobody
    holds; a launcher that comes later and finds no handle interrupts whatever process
    has that pid by then. *)
Theorem failed_start_signals {C : HandleCodec} {S : Sys} io UserConfigDir paths rand Listen p f s e token fuel hp bin args l
    (Hlock : lock_inv (dp_lock s)) (Hfree : holder (dp_lock s) = None) (Hp : 0 < p < 2 ^ 63)
    (Hformat : fl_format f = "toon") (Hpaths : DefaultPaths UserConfigDir = inr paths)
    (Htoken : GenerateToken rand = inr token) (Hport : Listen (fl_addr f) = inl e) :
  let '(o, s') := start io no_faults UserConfigDir rand Listen p f s in
  o = Ret (Exited 1) ∧ holder (dp_lock s') = None ∧ (ReadPid (dp_lock s')).1 = Ret p ∧
  ((∀ n, 0 ≤ took n) → (∀ n, ∃ e, read_handle n hp = inl e) → find_process p = None →
   (∀ n, read_pid n (path_Join [Dir hp; "daemon.lock"]) =
      match (ReadPid (dp_lock s')).1 with Ret q => inr q | _ => inl (Msg "no pid") end) →
   Signal p Interrupt ∈ l_events (EnsureDaemonAt fuel hp bin args l).2).
Proof.
  set (lockPath := or_default (fl_lock f) paths.1.1). set (m0 := ignore (MkdirAll io)).
  destruct paths as [[a b] c]. cbn [fst] in lockPath.
  pose proof (AcquireLock_spec no_faults lockPath p (dp_lock s) Hlock) as Ha.
  destruct (AcquireLock no_faults lockPath p (dp_lock s)) as [[i|e'|w] w1] eqn:Eq.
  2:{ destruct Ha as (_ & _ & H). destruct (H eq_refl) as [q Hq]. congruence. }
  2:{ done. }
  destruct Ha as (Hl1 & _ & Hh & Hpath & Htext).
  destruct (drop_locks_spec p w1 Hl1) as (Hd1 & Hd2 & Hd3 & Hd4). rewrite Hh, decide_True in Hd4 by done.
  assert (E : ∃ s', start io no_faults UserConfigDir rand Listen p f s = (Ret (Exited 1), s') ∧ dp_lock s' = drop_locks p w1).
  { unfold start. rewrite Hformat, Hpaths. change (ParseFormat "toon") with (inr FormatTOON : error + OutputFormat). cbv beta iota zeta.
    fold lockPath m0. assert (E0 : filesM m0 s = (Ret tt, s <| dp_files := (m0 (dp_files s)).2 |>)).
    { rewrite filesM_run. unfold m0, ignore, try, MkdirAll, mbind, M_bind. by destruct (io _) as [[]|]. }
    rewrite (bind_ret _ _ _ _ _ E0). set (s0 := s <| dp_files := _ |>).
    rewrite try_lock by by apply AcquireLock_safe. change (dp_lock s0) with (dp_lock s). rewrite Eq. cbn [fst snd seen].
    rewrite Htoken, Hport. eexists. by split. }
  destruct E as (s' & -> & ->).
  assert (Hpid : (ReadPid (drop_locks p w1)).1 = Ret p).
  { unfold ReadPid. rewrite Hd2, Hpath. cbn. rewrite Htext, Atoi_Itoa by lia. done. }
  split; [done|]. split; [exact Hd4|]. split; [exact Hpid|]. intros Htook Hhandle Hproc Hread.
  apply (stale_pid_signalled fuel hp bin args l (drop_locks p w1) i p); done.
Qed.

(** C28: the door of the daemon.  A request without the daemon's token is answered 401
    and changes nothing, whatever its path.  With the token, [/rpc] hands a POST of at
    most 4 MiB to the MCP server, once, and refuses every other request without
    changing anything; every other path is served by what is behind the mux. *)
Theorem front_door {S Resp} token (HandleMessage : string → M S (option Resp)) Encode error_text sse r s :
  let serve := authed token HandleMessage Encode error_text sse r s in
  let bearer := ∃ scheme, ToLower scheme = "bearer " ∧ rq_Authorization r = (scheme +:+ token)%string in
  (¬ bearer → serve = (Ret unauthorized, s)) ∧
  (bearer → rq_Path r ≠ "/rpc" → serve = sse r s) ∧
  (bearer → rq_Path r = "/rpc" →
   (∀ body, rq_Method r = "POST" → rq_Body r = inr body → Z.of_nat (String.length body) ≤ maxBody →
      serve.2 = (HandleMessage body s).2 ∧
      ∀ m, (HandleMessage body s).1 = Ret m → ∃ rs, serve.1 = Ret rs ∧ rs_Status rs = match m with None => 204 | Some _ => 200 end) ∧
   ((rq_Method r ≠ "POST" ∨ (∃ e, rq_Body r = inl e) ∨ ∃ body, rq_Body r = inr body ∧ maxBody < Z.of_nat (String.length body)) →
      ∃ rs, serve = (Ret rs, s) ∧ 400 ≤ rs_Status rs)).
Proof.
  cbv zeta. destruct (auth_exact token (mux (RPCHandler HandleMessage Encode error_text) sse) r) as [Hin Hout]. unfold authed.
  split; [intros H; by rewrite (Hout H)|].
  split; [intros H Hp; rewrite (Hin H); unfold mux; by rewrite decide_False|].
  intros H Hp. rewrite (Hin H). unfold mux. rewrite decide_True by done. unfold RPCHandler, read_body. split.
  - intros body Hm Hb Hlen. rewrite Hm, Hb, decide_False by tauto. rewrite bool_decide_eq_false_2 by lia.
    unfold mbind, M_bind. destruct (HandleMessage body s) as [[[m|]|e|p] s1]; split; try done; intros m' [= <-]; by eexists.
  - intros Hbad. destruct (decide (rq_Method r ≠ "POST")) as [|Hm]; [eexists; split; [reflexivity|simpl; lia]|].
    destruct Hbad as [?|[[e He]|(body & Hb & Hlen)]]; [done|rewrite He; eexists; split; [reflexivity|simpl; lia]|].
    rewrite Hb, bool_decide_eq_true_2 by lia. eexists; split; [reflexivity|simpl; lia].
Qed.
Definition echo (b : string) : M nat (option string) := modify Datatypes.S;; mret (Some b).
Lemma front_door_witness :
  let r := mkRequest "POST" "Bearer t0k" (inr "{}") "/rpc" in
  let bad := mkRequest "POST" "Bearer no" (inr "{}") "/rpc" in
  authed "t0k" echo inr (λ _, "") (λ _, mret (mkResponse 200 [] "")) bad 0%nat = (Ret unauthorized, 0%nat) ∧
  (authed "t0k" echo inr (λ _, "") (λ _, mret (mkResponse 200 [] "")) r 0%nat).2 = 1%nat.
Proof.
  intros r bad. split.
  - destruct (front_door "t0k" echo inr (λ _, "") (λ _, mret (mkResponse 200 [] "")) bad 0%nat) as [H _]. apply H.
    intros Hc. apply checkBearer_spec in Hc. vm_compute in Hc. discriminate Hc.
  - destruct (front_door "t0k" echo inr (λ _, "") (λ _, mret (mkResponse 200 [] "")) r 0%nat) as (_ & _ & H).
    destruct (H ltac:(by exists "Bearer ") eq_refl) as [H1 _]. destruct (H1 "{}" eq_refl eq_refl ltac:(vm_compute; discriminate)) as [H2 _].
    exact H2.
Defined.

(** ** Examples *)
Definition dproc0 : DProc := mkDProc lworld0 (mkFS ∅ [] 0) None.
Definition flags_ex : Flags := mkFlags defaultAddr "" "" "" "toon".
(** A codec with the token of 32 zero bytes. *)
Definition zeros : bytes := replicate 32 Byte.x00.
Definition handle_up : Handle := mkHandle "127.0.0.1:5" (EncodeToString zeros) 42.
Definition codec_up : HandleCodec.
Proof.
  refine (mkHandleCodec (λ h, if decide (h = handle_up) then inr "h" else inl (Msg "unsupported")) (λ d, inr handle_up) _).
  intros h data. destruct (decide _) as [->|]; done.
Defined.
Definition start_ex := @start codec_up (λ _, None) no_faults (inr "/c") (inr zeros) (λ _, inr "127.0.0.1:5") 42 flags_ex dproc0.

Lemma daemon_start_exact_witness :
  start_ex.1 = Ret (Running 1%positive handle_up "/c/remote-shell-mcp/daemon.json" "/c/remote-shell-mcp/state.json") ∧
  holder (dp_lock start_ex.2) = Some 42 ∧ dp_listening start_ex.2 = Some "127.0.0.1:5".
Proof.
  assert (E : start_ex.1 = Ret (Running 1%positive handle_up "/c/remote-shell-mcp/daemon.json" "/c/remote-shell-mcp/state.json"))
    by (vm_compute; reflexivity).
  split; [exact E|].
  pose proof (@daemon_start_exact codec_up (λ _, None) no_faults (inr "/c") (inr zeros) (λ _, inr "127.0.0.1:5") 42 flags_ex dproc0
    lock_inv0 ltac:(discriminate) eq_refl) as H.
  unfold start_ex in *. destruct (@start codec_up _ _ _ _ _ _ _ _) as [o s']. cbn [fst snd] in *. rewrite E in H.
  destruct H as (_ & Hh & _ & _ & Hl & _). split; [exact Hh|exact Hl].
Defined.

Lemma daemon_finish_clean_witness :
  ∃ s1 s2, start_ex = (Ret (Running 1%positive handle_up "/c/remote-shell-mcp/daemon.json" "/c/remote-shell-mcp/state.json"), s1) ∧
    finish (λ _, None) no_faults 1%positive "/c/remote-shell-mcp/daemon.json" s1 = (Ret tt, s2) ∧ lw_path (dp_lock s2) = None.
Proof.
  assert (E : start_ex.1 = Ret (Running 1%positive handle_up "/c/remote-shell-mcp/daemon.json" "/c/remote-shell-mcp/state.json"))
    by (vm_compute; reflexivity).
  assert (E1 : start_ex = (Ret (Running 1%positive handle_up "/c/remote-shell-mcp/daemon.json" "/c/remote-shell-mcp/state.json"), start_ex.2))
    by (rewrite <- E; apply surjective_pairing).
  exists start_ex.2.
  destruct (@daemon_finish_clean codec_up (λ _, None) no_faults (inr "/c") (inr zeros) (λ _, inr "127.0.0.1:5") 42 flags_ex dproc0
    _ _ _ _ _ lock_inv0 ltac:(discriminate) eq_refl E1 eq_refl) as (s2 & H1 & _ & _ & H2 & _).
  exists s2. split; [exact E1|]. split; [exact H1|exact (H2 eq_refl)].
Defined.

Definition failed_ex := @start codec_up (λ _, None) no_faults (inr "/c") (inr zeros) (λ _, inl (Msg "address already in use")) 4711 flags_ex dproc0.
Lemma failed_start_signals_witness :
  failed_ex.1 = Ret (Exited 1) ∧ Signal 4711 Interrupt ∈ l_events (@EnsureDaemonAt sys_stale 101 "/c/daemon.json" "" [] lstate0).2.
Proof.
  pose proof (@failed_start_signals codec_up sys_stale (λ _, None) (inr "/c") _ (inr zeros) (λ _, inl (Msg "address already in use")) 4711
    flags_ex dproc0 (Msg "address already in use") (EncodeToString zeros) 101 "/c/daemon.json" "" [] lstate0
    lock_inv0 eq_refl ltac:(lia) eq_refl eq_refl eq_refl eq_refl) as H.
  unfold failed_ex. destruct (@start codec_up _ _ _ _ _ _ _ _) as [o s']. destruct H as (Ho & _ & Hpid & H).
  split; [exact Ho|]. apply H; [cbn; lia|intros; by eexists|reflexivity|]. intros n. rewrite Hpid. reflexivity.
Defined.
