(* ===== verification/CommandLine.v ===== *)
(** * The command lines (the flags of cmd/remote-shell-mcp and cmd/remote-shell-mcpd)

    [Parse] is [FlagSet.Parse] of Go's package flag, as the three programs use it: flags
    with one or two dashes, a value after [=] or in the next argument, boolean flags
    that need none, [--] and the first argument that is no flag as the end.  The three
    flag sets are [mcpd_flags], [proxy_flags] and [setup_flags]; every set is of the kind
    that ends the process when an argument does not parse, with code 0 for a request
    for help and 2 otherwise.  [mcpd_main], [setup_main] and [proxy_turn] are what the
    programs do with the result. *)

From S2P Require Import Prelude GoStrings Url Paths External Files Tools DaemonLock Daemon Setup Launcher Main Mcpd.
From Stdlib Require Import Ascii.

(** ** Package flag *)
(** The value of a flag; its constructor is the kind of the flag. *)
Inductive value := VString (s : string) | VBool (b : bool).
#[export] Instance value_eq_dec : EqDecision value. Proof. solve_decision. Defined.
Abbreviation FlagSet := (gmap string value).

Inductive flag_error :=
  | ErrHelp
  | BadSyntax (arg : string)
  | NotDefined (name : string)
  | NeedsArgument (name : string)
  | InvalidBoolean (value name : string).

Definition eq_sign : ascii := "="%char.
(** [strconv.ParseBool] *)
Definition ParseBool (s : string) : option bool :=
  if decide (s ∈ ["1"; "t"; "T"; "true"; "TRUE"; "True"]) then Some true
  else if decide (s ∈ ["0"; "f"; "F"; "false"; "FALSE"; "False"]) then Some false
  else None.

(** How an argument reads before the set of flags is looked at. *)
Inductive shape :=
  | NotFlag
  | Terminator
  | Bad
  | Named (name : string) (val : option string).

Definition name_shape (n : string) : shape :=
  match n with
  | "" => Bad
  | String a r =>
    if decide (a = dash ∨ a = eq_sign) then Bad else
    match cut eq_sign r with
    | Some (l, v) => Named (String a l) (Some v)
    | None => Named n None
    end
  end%string.
Definition shape_of (s : string) : shape :=
  match s with
  | String a (String b r as n) =>
    if decide (a = dash) then
      if decide (b = dash) then match r with "" => Terminator | _ => name_shape r end
      else name_shape n
    else NotFlag
  | _ => NotFlag
  end%string.

(** [FlagSet.Parse]: the flags as they are set, and the arguments that are left. *)
Fixpoint Parse (fs : FlagSet) (args : list string) : flag_error + FlagSet * list string :=
  match args with
  | [] => inr (fs, [])
  | s :: rest =>
    match shape_of s with
    | NotFlag => inr (fs, args)
    | Terminator => inr (fs, rest)
    | Bad => inl (BadSyntax s)
    | Named name val =>
      match fs !! name with
      | None => inl (if decide (name = "help" ∨ name = "h") then ErrHelp else NotDefined name)
      | Some (VBool _) =>
        let t := default "true" val in
        match ParseBool t with
        | Some b => Parse (<[name := VBool b]> fs) rest
        | None => inl (InvalidBoolean t name)
        end
      | Some (VString _) =>
        match val, rest with
        | Some t, _ => Parse (<[name := VString t]> fs) rest
        | None, t :: rest' => Parse (<[name := VString t]> fs) rest'
        | None, [] => inl (NeedsArgument name)
        end
      end
    end
  end.

(** [flag.ExitOnError] *)
Definition exit_code (e : flag_error) : Z := match e with ErrHelp => 0 | _ => 2 end.

Definition flag_string (fs : FlagSet) (name : string) : string :=
  match fs !! name with Some (VString s) => s | _ => "" end.
Definition flag_bool (fs : FlagSet) (name : string) : bool :=
  match fs !! name with Some (VBool b) => b | _ => false end.

(** ** The three programs *)
Section programs.
Variable LookupEnv : string → option string.

Definition mcpd_flags : FlagSet := {[
  "addr" := VString (envOr LookupEnv "REMOTE_SHELL_MCP_ADDR" defaultAddr);
  "state" := VString (envOr LookupEnv "REMOTE_SHELL_MCP_STATE" "");
  "lock" := VString (envOr LookupEnv "REMOTE_SHELL_MCP_LOCK" "");
  "handle" := VString (envOr LookupEnv "REMOTE_SHELL_MCP_HANDLE" "");
  "log" := VString (envOr LookupEnv "REMOTE_SHELL_MCP_LOG" "text");
  "format" := VString (envOr LookupEnv "REMOTE_SHELL_MCP_FORMAT" "toon") ]}.

Definition proxy_flags : FlagSet := {[
  "daemon-binary" := VString (envOr LookupEnv "REMOTE_SHELL_MCP_DAEMON" "");
  "handle" := VString (envOr LookupEnv "REMOTE_SHELL_MCP_HANDLE" "");
  "no-spawn" := VBool false ]}.

Definition setup_flags : FlagSet := {[
  "name" := VString "remote-shell";
  "binary" := VString "";
  "client" := VString "";
  "yes" := VBool false;
  "dry-run" := VBool false ]}.

(** What the daemon is started with; the log format only chooses a handler. *)
Definition mcpd_settings (fs : FlagSet) : Flags :=
  mkFlags (flag_string fs "addr") (flag_string fs "state") (flag_string fs "lock") (flag_string fs "handle")
    (flag_string fs "format").
Definition mcpd_main {C : HandleCodec} (io : fate) (lf : lock_faults) UserConfigDir rand Listen (p : pid)
    (args : list string) : M DProc begun :=
  match Parse mcpd_flags args with
  | inl e => exit p (exit_code e)
  | inr (fs, _) => start io lf UserConfigDir rand Listen p (mcpd_settings fs)
  end.

(** [runSetup]: the options, with the lines of the standard input. *)
Definition setup_options (fs : FlagSet) (input : list string) : Options :=
  mkOptions (flag_string fs "binary") (flag_string fs "name") [] ∅ (flag_bool fs "yes") (flag_bool fs "dry-run")
    (flag_string fs "client") input.
Definition setup_main (Run : Options → M FS (list ClientResult)) (args input : list string) : M FS Z := λ s,
  match Parse setup_flags args with
  | inl e => (Ret (exit_code e), s)
  | inr (fs, _) => let '(r, s') := Run (setup_options fs input) s in (runSetup r, s')
  end.

(** The proxy: the settings one turn of the loop of main asks its daemon with. *)
Record ProxySettings := mkProxySettings { px_daemonBin : string; px_handlePath : string; px_noSpawn : bool }.
Definition proxy_settings (fs : FlagSet) : ProxySettings :=
  mkProxySettings (flag_string fs "daemon-binary") (flag_string fs "handle") (flag_bool fs "no-spawn").
Definition proxy_turn {S : Sys} UserConfigDir (fuel : nat) (args : list string) : M LState (Z + option Handle) :=
  match Parse proxy_flags args with
  | inl e => mret (inl (exit_code e))
  | inr (fs, _) =>
    let p := proxy_settings fs in
    h ← resolveDaemonHandle UserConfigDir fuel (px_daemonBin p) (px_handlePath p) (px_noSpawn p);
    mret (inr h)
  end.
End programs.

(** ** The grammar of a command line *)
(** One flag as it is written. *)
Inductive item :=
  | INext (two : bool) (name text : string)      (* -name text *)
  | IEq (two : bool) (name text : string)        (* -name=text *)
  | IBool (two : bool) (name : string).          (* -name *)
Definition dashes (two : bool) : string := if two then "--" else "-".
Definition render (i : item) : list string :=
  match i with
  | INext two n t => [dashes two +:+ n; t]
  | IEq two n t => [dashes two +:+ n +:+ "=" +:+ t]
  | IBool two n => [dashes two +:+ n]
  end%string.

(** What it sets, when the flag exists and is of the kind. *)
Definition set_item (fs : FlagSet) (i : item) : option FlagSet :=
  match i with
  | INext _ n t => match fs !! n with Some (VString _) => Some (<[n := VString t]> fs) | _ => None end
  | IEq _ n t =>
    match fs !! n with
    | Some (VString _) => Some (<[n := VString t]> fs)
    | Some (VBool _) => b ← ParseBool t; Some (<[n := VBool b]> fs)
    | None => None
    end
  | IBool _ n => match fs !! n with Some (VBool _) => Some (<[n := VBool true]> fs) | _ => None end
  end.
Fixpoint set_items (fs : FlagSet) (its : list item) : option FlagSet :=
  match its with [] => Some fs | i :: its => fs' ← set_item fs i; set_items fs' its end.

(** How the arguments go on after the last flag that was read. *)
Inductive ends (fs : FlagSet) : list string → flag_error + list string → Prop :=
  | ends_nil : ends fs [] (inr [])
  | ends_positional s rest : shape_of s = NotFlag → ends fs (s :: rest) (inr (s :: rest))
  | ends_terminator rest : ends fs ("--" :: rest) (inr rest)
  | ends_bad s rest : shape_of s = Bad → ends fs (s :: rest) (inl (BadSyntax s))
  | ends_help s name val rest : shape_of s = Named name val → fs !! name = None → name = "help" ∨ name = "h" →
    ends fs (s :: rest) (inl ErrHelp)
  | ends_unknown s name val rest : shape_of s = Named name val → fs !! name = None → ¬ (name = "help" ∨ name = "h") →
    ends fs (s :: rest) (inl (NotDefined name))
  | ends_needs s name t : shape_of s = Named name None → fs !! name = Some (VString t) →
    ends fs [s] (inl (NeedsArgument name))
  | ends_boolean s name b t rest : shape_of s = Named name (Some t) → fs !! name = Some (VBool b) → ParseBool t = None →
    ends fs (s :: rest) (inl (InvalidBoolean t name)).

Definition outcome_at (fs : FlagSet) (e : flag_error + list string) : flag_error + FlagSet * list string :=
  match e with inl e => inl e | inr rest => inr (fs, rest) end.

(** ** The shape of an argument *)
Definition good (n : string) : Prop :=
  match n with "" => False | String a r => a ≠ dash ∧ a ≠ eq_sign ∧ In_str eq_sign r = false end%string.
Definition named (fs : FlagSet) : Prop := ∀ n v, fs !! n = Some v → good n.

#[local] Arguments name_shape : simpl never.
Lemma shape_dashes two n : good n → shape_of (dashes two +:+ n) = name_shape n.
Proof.
  destruct n as [|a r]; [done|]. intros (Ha & _). destruct two; simpl; [by destruct r|].
  by rewrite decide_False.
Qed.
Lemma shape_next two n : good n → shape_of (dashes two +:+ n) = Named n None.
Proof.
  intros H. rewrite shape_dashes by done. destruct n as [|a r]; [done|]. destruct H as (Ha & He & Hr). unfold name_shape.
  rewrite decide_False by (by intros [?|?]). by rewrite (proj2 (cut_None _ _) Hr).
Qed.
Lemma shape_eq two n t : good n → shape_of (dashes two +:+ n +:+ String "=" t) = Named n (Some t).
Proof.
  destruct n as [|a r]; [done|]. intros (Ha & He & Hr).
  transitivity (name_shape (String a (r +:+ String eq_sign t))).
  - destruct two; simpl; [by destruct r|]. by rewrite decide_False.
  - unfold name_shape. rewrite decide_False by (by intros [?|?]). by rewrite cut_app.
Qed.

Lemma name_shape_named n m val : name_shape n = Named m val →
  n = match val with None => m | Some t => m +:+ "=" +:+ t end%string.
Proof.
  destruct n as [|a r]; [done|]. unfold name_shape. destruct (decide _); [done|]. destruct (cut eq_sign r) as [[l v]|] eqn:E.
  - intros [= <- <-]. apply cut_Some in E as [-> _]. done.
  - by intros [= <- <-].
Qed.
Lemma name_shape_ends n : name_shape n ≠ NotFlag ∧ name_shape n ≠ Terminator.
Proof. destruct n as [|a r]; [done|]. unfold name_shape. destruct (decide _); [done|]. by destruct (cut eq_sign r) as [[??]|]. Qed.
Lemma shape_named s m val : shape_of s = Named m val →
  ∃ two, s = (dashes two +:+ match val with None => m | Some t => m +:+ "=" +:+ t end)%string.
Proof.
  destruct s as [|a [|b r]]; [done..|]. simpl. destruct (decide (a = dash)) as [->|]; [|done].
  destruct (decide (b = dash)) as [->|].
  - destruct r as [|c r]; [done|]. intros H%name_shape_named. exists true. by rewrite H.
  - intros H%name_shape_named. exists false. by rewrite H.
Qed.
Lemma shape_terminator s : shape_of s = Terminator → s = "--".
Proof.
  destruct s as [|a [|b r]]; [done..|]. simpl. destruct (decide (a = dash)) as [->|]; [|done].
  destruct (decide (b = dash)) as [->|]; [destruct r as [|c r]; [done|]|]; by intros H%name_shape_ends.
Qed.

(** ** Reading is the inverse of writing *)
Lemma set_item_named fs i fs' : named fs → set_item fs i = Some fs' → named fs'.
Proof.
  intros Hn Hi m v. assert (Hin : ∀ n w, is_Some (fs !! n) → (<[n := w]> fs) !! m = Some v → good m).
  { intros n w [u Hu] [[<- _]|[_ H]]%lookup_insert_Some; [by eapply Hn|by eapply Hn]. }
  destruct i as [two n t|two n t|two n]; simpl in Hi; destruct (fs !! n) as [[u|u]|] eqn:E; try done;
    [..|destruct (ParseBool t); [|done]|]; injection Hi as <-; eapply Hin; by rewrite E.
Qed.

(** What one step of [Parse] does on a flag that is as it should be. *)
Lemma Parse_item fs i fs' rest : named fs → set_item fs i = Some fs' → Parse fs (render i ++ rest) = Parse fs' rest.
Proof.
  intros Hn Hi. destruct i as [two n t|two n t|two n]; simpl in *; destruct (fs !! n) as [[u|u]|] eqn:E; try done;
    assert (Hg : good n) by (by eapply Hn).
  - injection Hi as <-. by rewrite shape_next, E.
  - injection Hi as <-. by rewrite shape_eq, E.
  - destruct (ParseBool t) as [b|] eqn:Eb; [|done]. injection Hi as <-. rewrite shape_eq, E by done. simpl. by rewrite Eb.
  - injection Hi as <-. by rewrite shape_next, E.
Qed.
Lemma Parse_ends fs tail e : ends fs tail e → Parse fs tail = outcome_at fs e.
Proof.
  destruct 1 as [|s rest E|rest|s rest E|s n val rest E Hf Hh|s n val rest E Hf Hh|s n t E Hf|s n b t rest E Hf Hp]; simpl;
    try (rewrite E, ?Hf; simpl; rewrite ?Hp); try done; first [by rewrite decide_True|by rewrite decide_False].
Qed.

(** [Parse] reads exactly the sequences of flags of the set that are followed by an
    end, and what it returns is what they set. *)
Lemma Parse_written fs args : named fs →
  ∃ its tail fs1 e, args = concat (render <$> its) ++ tail ∧ set_items fs its = Some fs1 ∧ ends fs1 tail e ∧
    Parse fs args = outcome_at fs1 e.
Proof.
  intros Hn. remember (length args) as n eqn:Hlen. revert fs args Hn Hlen.
  induction n as [n IH] using lt_wf_ind. intros fs args Hn ->.
  assert (Hend : ∀ e, ends fs args e → ∃ its tail fs1 e, args = concat (render <$> its) ++ tail ∧ set_items fs its = Some fs1 ∧
    ends fs1 tail e ∧ Parse fs args = outcome_at fs1 e).
  { intros e H. exists [], args, fs, e. split_and!; try done. by apply Parse_ends. }
  assert (Hstep : ∀ i fs' rest, args = render i ++ rest → (0 < length (render i))%nat → set_item fs i = Some fs' →
    ∃ its tail fs1 e, args = concat (render <$> its) ++ tail ∧ set_items fs its = Some fs1 ∧
    ends fs1 tail e ∧ Parse fs args = outcome_at fs1 e).
  { intros i fs' rest -> Hpos Hi. destruct (IH (length rest)) with (fs := fs') (args := rest)
      as (its & tail & fs1 & e & -> & Hs & He & Hp); [rewrite length_app; lia|by eapply set_item_named|done|].
    exists (i :: its), tail, fs1, e. split_and!; [simpl; by rewrite app_assoc|simpl; by rewrite Hi|done|].
    by rewrite (Parse_item _ _ _ _ Hn Hi), Hp. }
  clear IH. destruct args as [|s rest]; [eapply Hend, ends_nil|]. destruct (shape_of s) as [| | |n val] eqn:E.
  - by eapply Hend, ends_positional.
  - apply shape_terminator in E as ->. eapply Hend, ends_terminator.
  - by eapply Hend, ends_bad.
  - destruct (fs !! n) as [v|] eqn:Ef.
    2:{ destruct (decide (n = "help" ∨ n = "h")); [by eapply Hend, ends_help|by eapply Hend, ends_unknown]. }
    destruct (shape_named _ _ _ E) as [two Hs]. destruct v as [u|u], val as [t|].
    + apply (Hstep (IEq two n t) (<[n := VString t]> fs) rest); [by rewrite Hs|simpl; lia|simpl; by rewrite Ef].
    + destruct rest as [|t rest]; [by eapply Hend, ends_needs|].
      apply (Hstep (INext two n t) (<[n := VString t]> fs) rest); [by rewrite Hs|simpl; lia|simpl; by rewrite Ef].
    + destruct (ParseBool t) as [b|] eqn:Eb; [|by eapply Hend, ends_boolean].
      apply (Hstep (IEq two n t) (<[n := VBool b]> fs) rest); [by rewrite Hs|simpl; lia|simpl; by rewrite Ef; simpl; rewrite Eb].
    + apply (Hstep (IBool two n) (<[n := VBool true]> fs) rest); [by rewrite Hs|simpl; lia|simpl; by rewrite Ef].
Qed.
Lemma Parse_items fs its tail fs1 e : named fs → set_items fs its = Some fs1 → ends fs1 tail e →
  Parse fs (concat (render <$> its) ++ tail) = outcome_at fs1 e.
Proof.
  revert fs. induction its as [|i its IH]; simpl; intros fs Hn Hs He; [injection Hs as ->; by apply Parse_ends|].
  destruct (set_item fs i) as [fs'|] eqn:Ei; [|done]. rewrite <- app_assoc, (Parse_item _ _ _ _ Hn Ei).
  apply IH; [by eapply set_item_named|done|done].
Qed.

(** ** The settings *)
(** The last text and the last truth value given for a flag. *)
Definition text_of (n : string) (i : item) : option string :=
  match i with INext _ m t | IEq _ m t => if decide (m = n) then Some t else None | IBool _ _ => None end.
Definition truth_of (n : string) (i : item) : option bool :=
  match i with
  | INext _ _ _ => None
  | IEq _ m t => if decide (m = n) then ParseBool t else None
  | IBool _ m => if decide (m = n) then Some true else None
  end.
Definition given (its : list item) (n def : string) : string := default def (last (omap (text_of n) its)).
Definition told (its : list item) (n : string) (def : bool) : bool := default def (last (omap (truth_of n) its)).

Lemma last_cons_default {A} (d x : A) l : default d (last (x :: l)) = default x (last l).
Proof. revert d x. induction l as [|y l IH]; [done|]. intros d x. exact (eq_trans (IH d y) (eq_sym (IH x y))). Qed.
Lemma given_set fs its fs1 n d : fs !! n = Some (VString d) → set_items fs its = Some fs1 → flag_string fs1 n = given its n d.
Proof.
  revert fs d. induction its as [|i its IH]; simpl; intros fs d Hd Hs; [injection Hs as <-; unfold flag_string; by rewrite Hd|].
  destruct (set_item fs i) as [fs'|] eqn:Ei; [|done]. simpl in Hs. unfold given in *. simpl.
  destruct i as [two m t|two m t|two m]; simpl in *; destruct (decide (m = n)) as [->|Hne];
    try rewrite Hd in Ei; try (injection Ei as <-; rewrite last_cons_default; eapply IH; [by rewrite lookup_insert_eq|done]); try done;
    (eapply IH; [|done]); destruct (fs !! m) as [[u|u]|]; try done; try (destruct (ParseBool t); [|done]); simpl in Ei;
    injection Ei as <-; by rewrite lookup_insert_ne.
Qed.
Lemma told_set fs its fs1 n d : fs !! n = Some (VBool d) → set_items fs its = Some fs1 → flag_bool fs1 n = told its n d.
Proof.
  revert fs d. induction its as [|i its IH]; simpl; intros fs d Hd Hs; [injection Hs as <-; unfold flag_bool; by rewrite Hd|].
  destruct (set_item fs i) as [fs'|] eqn:Ei; [|done]. simpl in Hs. unfold told in *. simpl.
  destruct i as [two m t|two m t|two m]; simpl in *; [| |]; [|destruct (decide (m = n)) as [->|Hne]..].
  - destruct (decide (m = n)) as [->|Hne]; [by rewrite Hd in Ei|]. eapply IH; [|done].
    destruct (fs !! m) as [[u|u]|]; try done. injection Ei as <-. by rewrite lookup_insert_ne.
  - rewrite Hd in Ei. destruct (ParseBool t) as [b|]; [|done]. injection Ei as <-. rewrite last_cons_default.
    eapply IH; [by rewrite lookup_insert_eq|done].
  - eapply IH; [|done]. destruct (fs !! m) as [[u|u]|]; [| |done]; [|destruct (ParseBool t); [|done]]; simpl in Ei;
      injection Ei as <-; by rewrite lookup_insert_ne.
  - rewrite Hd in Ei. injection Ei as <-. rewrite last_cons_default. eapply IH; [by rewrite lookup_insert_eq|done].
  - eapply IH; [|done]. destruct (fs !! m) as [[u|u]|]; [done| |done]. injection Ei as <-. by rewrite lookup_insert_ne.
Qed.

(** ** The programs' flags *)
Inductive program := Mcpd | Proxy | SetupCmd.
Definition flags_of (LookupEnv : string → option string) (g : program) : FlagSet :=
  match g with Mcpd => mcpd_flags LookupEnv | Proxy => proxy_flags LookupEnv | SetupCmd => setup_flags end.
Lemma named_insert fs n v : good n → named fs → named (<[n := v]> fs).
Proof. intros Hg Hn m w [[<- _]|[_ H]]%lookup_insert_Some; [done|by eapply Hn]. Qed.
Lemma flags_named LookupEnv g : named (flags_of LookupEnv g).
Proof.
  destruct g; unfold flags_of, mcpd_flags, proxy_flags, setup_flags;
    repeat (apply named_insert; [by vm_compute|]); intros n v H; by rewrite lookup_empty in H.
Qed.

(** The command lines of the three programs are read as they are written, and
    nothing else is read.  The result of parsing is [r] exactly when the arguments are
    a sequence of flags of the program, each in one of its forms, followed by an end
    (nothing, an argument that is no flag, [--], a request for help or a mistake), and
    [r] is what the flags set and what is left, or the mistake. *)
Theorem command_line_exact LookupEnv g args r :
  Parse (flags_of LookupEnv g) args = r ↔
  ∃ its tail fs e, args = concat (render <$> its) ++ tail ∧ set_items (flags_of LookupEnv g) its = Some fs ∧
    ends fs tail e ∧ r = outcome_at fs e.
Proof.
  pose proof (flags_named LookupEnv g) as Hn. split.
  - intros <-. by apply Parse_written.
  - intros (its & tail & fs & e & -> & Hs & He & ->). by apply Parse_items.
Qed.

(** C23: a flag beats the environment, and the environment beats the default.  With a
    command line that parses the daemon starts with, for each setting, the text of the
    last flag that gives it, or else the environment's value if that is not empty, or
    else the default; the proxy asks for its daemon and [setup] runs with theirs. *)
Theorem flag_beats_environment LookupEnv g its tail rest fs
    (Hset : set_items (flags_of LookupEnv g) its = Some fs) (Hend : ends fs tail (inr rest)) :
  let args := concat (render <$> its) ++ tail in
  let env key def := envOr LookupEnv key def in
  match g with
  | Mcpd => ∀ C io lf U rand Listen p s, @mcpd_main LookupEnv C io lf U rand Listen p args s =
      @start C io lf U rand Listen p (mkFlags (given its "addr" (env "REMOTE_SHELL_MCP_ADDR" defaultAddr))
        (given its "state" (env "REMOTE_SHELL_MCP_STATE" "")) (given its "lock" (env "REMOTE_SHELL_MCP_LOCK" ""))
        (given its "handle" (env "REMOTE_SHELL_MCP_HANDLE" "")) (given its "format" (env "REMOTE_SHELL_MCP_FORMAT" "toon"))) s
  | Proxy => ∀ S U fuel s, @proxy_turn LookupEnv S U fuel args s =
      (h ← @resolveDaemonHandle S U fuel (given its "daemon-binary" (env "REMOTE_SHELL_MCP_DAEMON" ""))
         (given its "handle" (env "REMOTE_SHELL_MCP_HANDLE" "")) (told its "no-spawn" false); mret (inr h)) s
  | SetupCmd => ∀ Run input s, setup_main Run args input s =
      let '(r, s') := Run (mkOptions (given its "binary" "") (given its "name" "remote-shell") [] ∅ (told its "yes" false)
        (told its "dry-run" false) (given its "client" "") input) s in (runSetup r, s')
  end.
Proof.
  cbv zeta. pose proof (Parse_items _ its tail fs _ (flags_named LookupEnv g) Hset Hend) as Hp.
  assert (Hg : ∀ n d, flags_of LookupEnv g !! n = Some (VString d) → flag_string fs n = given its n d) by (intros; by eapply given_set).
  assert (Ht : ∀ n d, flags_of LookupEnv g !! n = Some (VBool d) → flag_bool fs n = told its n d) by (intros; by eapply told_set).
  destruct g; simpl in Hp; intros.
  - unfold mcpd_main. rewrite Hp. unfold mcpd_settings.
    by rewrite (Hg "addr" _ eq_refl), (Hg "state" _ eq_refl), (Hg "lock" _ eq_refl), (Hg "handle" _ eq_refl), (Hg "format" _ eq_refl).
  - unfold proxy_turn. rewrite Hp. unfold proxy_settings. cbn [px_daemonBin px_handlePath px_noSpawn].
    by rewrite (Hg "daemon-binary" _ eq_refl), (Hg "handle" _ eq_refl), (Ht "no-spawn" _ eq_refl).
  - unfold setup_main. rewrite Hp. unfold setup_options.
    by rewrite (Hg "binary" _ eq_refl), (Hg "name" _ eq_refl), (Hg "client" _ eq_refl), (Ht "yes" _ eq_refl), (Ht "dry-run" _ eq_refl).
Qed.

(** A command line that does not parse does nothing.  The process ends with 0 if
    help was asked for and with 2 otherwise: the daemon has not touched a file, the lock
    or the network, the proxy has not looked for a daemon and [setup] has not looked for
    a client. *)
Theorem bad_command_line LookupEnv g args e (Hbad : Parse (flags_of LookupEnv g) args = inl e) :
  (exit_code e = 0 ∧ e = ErrHelp ∨ exit_code e = 2 ∧ e ≠ ErrHelp) ∧
  match g with
  | Mcpd => ∀ C io lf U rand Listen p s, lock_inv (dp_lock s) → holder (dp_lock s) ≠ Some p → dp_listening s = None →
      let '(o, s') := @mcpd_main LookupEnv C io lf U rand Listen p args s in
      o = Ret (Exited (exit_code e)) ∧ dp_files s' = dp_files s ∧ dp_listening s' = None ∧
      holder (dp_lock s') = holder (dp_lock s) ∧ lw_path (dp_lock s') = lw_path (dp_lock s) ∧ lw_text (dp_lock s') = lw_text (dp_lock s)
  | Proxy => ∀ S U fuel s, @proxy_turn LookupEnv S U fuel args s = (Ret (inl (exit_code e)), s)
  | SetupCmd => ∀ Run input s, setup_main Run args input s = (Ret (exit_code e), s)
  end.
Proof.
  split; [destruct e; [by left|by right..]|]. destruct g; simpl in Hbad; intros.
  - unfold mcpd_main. rewrite Hbad. unfold exit, modify, mbind, M_bind. simpl.
    destruct (drop_locks_spec p (dp_lock s)) as (_ & _ & _ & Hh); [done|].
    rewrite decide_False in Hh by done. by split_and!.
  - unfold proxy_turn. by rewrite Hbad.
  - unfold setup_main. by rewrite Hbad.
Qed.

Definition env_cmd (key : string) : option string := if decide (key = "REMOTE_SHELL_MCP_STATE") then Some "/var/s.json" else None.
Definition args_cmd : list string := ["-addr"; "127.0.0.1:1"; "--handle=/h"; "-addr=127.0.0.1:2"; "--"; "-x"].
Definition items_cmd : list item := [INext false "addr" "127.0.0.1:1"; IEq true "handle" "/h"; IEq false "addr" "127.0.0.1:2"].
Lemma flag_beats_environment_witness :
  args_cmd = concat (render <$> items_cmd) ++ ["--"; "-x"] ∧
  ∀ C io lf U rand Listen p s, @mcpd_main env_cmd C io lf U rand Listen p args_cmd s =
    @start C io lf U rand Listen p (mkFlags "127.0.0.1:2" "/var/s.json" "" "/h" "toon") s.
Proof.
  split; [vm_compute; reflexivity|]. intros.
  destruct (set_items (flags_of env_cmd Mcpd) items_cmd) as [fs|] eqn:E.
  - exact (flag_beats_environment env_cmd Mcpd items_cmd ["--"; "-x"] ["-x"] fs E (ends_terminator fs ["-x"])
      C io lf U rand Listen p s).
  - apply (f_equal (λ o : option FlagSet, match o with Some _ => true | None => false end)) in E. vm_compute in E. discriminate.
Defined.

Lemma bad_command_line_witness :
  (∀ Run input s, setup_main Run ["-yes=maybe"] input s = (Ret 2, s)) ∧
  ∀ S U fuel s, @proxy_turn env_cmd S U fuel ["--no-spawn"; "-h"] s = (Ret (inl 0), s).
Proof.
  split; intros.
  - exact (proj2 (bad_command_line env_cmd SetupCmd ["-yes=maybe"] (InvalidBoolean "maybe" "yes") eq_refl) Run input s).
  - exact (proj2 (bad_command_line env_cmd Proxy ["--no-spawn"; "-h"] ErrHelp eq_refl) S U fuel s).
Defined.
