(* ===== verification/DaemonMain.v ===== *)
(** * The daemon from its start to its exit (cmd/remote-shell-mcpd/main.go)

    [daemon] is [main]: [Mcpd.start], the managers of a fresh process, [Life.boot], the
    tool calls that the server hands on, one after the other, [Life.shutdown] and the
    deferred functions of [Mcpd.finish].  The state file and the handle file are in one
    directory tree, which the parts hand to each other.  Its theorem is about two
    daemons, one after the other. *)

From S2P Require Import Docker.
From S2P Require Import Prelude GoStrings Url External Spec SshConfig Auth Dial World Ledger Session Forward Shell Manager ManagerProps State Files Store Containers Disk Copy Sftp Records Registry DRegistry Tools ToolsSsh ToolsDocker Catalogue Persistence Flush Life Resume Restart DaemonLock Daemon.
From S2P Require Setup Main Mcpd.
From Stdlib Require Import Ascii.
Import Mcpd.

Section main.
Context {C : HandleCodec} {L : Lib} (lf : lock_faults).
Variable UserConfigDir : error + string.
Variable Listen : string → error + string.
Variable startedAt : Z.

(** [sshx.NewManager] and [dockerx.NewManager], in the world [host] that the process
    finds: the files of the machine and of the remote hosts. *)
Definition managers0 (host : Server) (files : FS) : Server :=
  host <| mw_ssh ::= (λ r : RWorld, r <| rw_ssh := world0 |>) |> <| mw_docker := dworld0 |>
       <| mw_state := files |> <| mw_flush := false |>.
(** [&mcptools.State{...}], with the flusher started. *)
Definition config (path : string) (f : Flags) : Config :=
  mkConfig (Some path) true (match ParseFormat (fl_format f) with inr x => x | inl _ => FormatJSON end) startedAt.

(** The server finds the tool by its name and answers itself when there is none. *)
Definition call_tool (K : Config) (c : string * Tools.Request) : TM (option ToolResult) :=
  match List.find (λ t : tool, bool_decide (t_name t = c.1)) (Build K) with
  | Some t => r ← t_handler t c.2; mret (Some r)
  | None => mret None
  end.
Definition serve (K : Config) (calls : list (string * Tools.Request)) : TM unit :=
  forM_ calls (λ c, ignore (call_tool K c)).
(** What goes on between the handle and the deferred functions; the result is the
    state the shutdown found. *)
Definition work (K : Config) (path : string) (calls : list (string * Tools.Request)) : TM Server :=
  boot path;; serve K calls;; w ← get; shutdown K;; mret w.

Definition daemon (rand : error + bytes) (p : pid) (f : Flags) (calls : list (string * Tools.Request)) (host : Server)
    : M DProc (Z * option (Server * Server)) :=
  b ← start lib_io lf UserConfigDir rand Listen p f;
  match b with
  | Exited c => mret (c, None)
  | Running lock h handlePath statePath => λ s,
    match work (config statePath f) statePath calls (managers0 host (dp_files s)) with
    | (Ret served, w) => (finish lib_io lf lock handlePath;; mret (0, Some (served, w))) (s <| dp_files := mw_state w |>)
    | (Err e, w) => (Err e, s <| dp_files := mw_state w |>)    (* never: [work_noerr] *)
    | (Panic q, w) => (Panic q, (exit p 2 (s <| dp_files := mw_state w |>)).2)
    end
  end.

(** The paths [main] settles on. *)
Definition state_path (f : Flags) : string :=
  match DefaultPaths UserConfigDir with inr (_, b, _) => or_default (fl_state f) b | inl _ => "" end.
Definition handle_path (f : Flags) : string :=
  match DefaultPaths UserConfigDir with inr (_, _, c) => or_default (fl_handle f) c | inl _ => "" end.

(** ** The start *)
(** What a computation may return. *)
Definition rets {S A} (P : A → Prop) (m : M S A) : Prop := ∀ s, match (m s).1 with Ret a => P a | _ => True end.
Lemma rets_bind {S A B} (Q : A → Prop) (P : B → Prop) (m : M S A) (k : A → M S B) :
  rets Q m → (∀ a, Q a → rets P (k a)) → rets P (m ≫= k).
Proof.
  intros Hm Hk s. unfold mbind, M_bind. specialize (Hm s). destruct (m s) as [[a|e|q] s1]; [|done|done]. by apply Hk.
Qed.
Lemma rets_any {S A B} (P : B → Prop) (m : M S A) (k : A → M S B) : (∀ a, rets P (k a)) → rets P (m ≫= k).
Proof. intros Hk. apply (rets_bind (λ _, True)); [|by intros a _]. intros s. by case_match. Qed.
Definition runs_at (f : Flags) (b : begun) : Prop :=
  match b with Running _ _ hp sp => hp = handle_path f ∧ sp = state_path f | Exited _ => True end.
Lemma rets_exit f p c : rets (runs_at f) (exit p c).
Proof. intros s. simpl. done. Qed.
Lemma start_paths rand p f : rets (runs_at f) (start lib_io lf UserConfigDir rand Listen p f).
Proof using.
  unfold start. destruct (ParseFormat (fl_format f)) as [e2|fmt]; [apply rets_exit|].
  destruct (DefaultPaths UserConfigDir) as [e|[[a b] c]] eqn:E; [apply rets_exit|]. cbv zeta.
  assert (Ep : handle_path f = or_default (fl_handle f) c ∧ state_path f = or_default (fl_state f) b)
    by (unfold handle_path, state_path; by rewrite E).
  destruct Ep as [<- <-]. apply rets_any. intros _. apply rets_any. intros [e|i]; [apply rets_exit|].
  destruct (GenerateToken rand) as [e0|token]; [apply rets_exit|]. destruct (Listen (fl_addr f)) as [e1|bound]; [apply rets_exit|].
  apply rets_any. intros _. apply rets_any. intros [e|[]]; [apply rets_any; intros _; apply rets_exit|].
  apply (rets_bind (λ r, match r with inr sp => sp = state_path f | inl _ => True end)).
  - intros s. unfold try. rewrite filesM_run. unfold Mcpd.NewStore, mbind, M_bind, try.
    by destruct (Files.MkdirAll lib_io (dp_files s)) as [[x|e|q] s1].
  - intros [e|sp] Hsp; [apply rets_exit|]. intros s. by split.
Qed.

(** No file but the handle and its temporary file is written. *)
#[local] Existing Instance Setup.touches_pre.
Definition writes (P : string → Prop) (s s' : DProc) : Prop := Setup.touches P (dp_files s) (dp_files s').
#[local] Instance writes_pre P : PreOrder (writes P).
Proof. split; unfold writes; [intros s; reflexivity|]. intros s1 s2 s3 H1 H2. by etrans. Qed.
Lemma writes_filesM {A} P (m : M FS A) : stays (Setup.touches P) m → stays (writes P) (filesM m).
Proof. intros H s. rewrite filesM_run. apply H. Qed.
Lemma writes_lockM {A} P (m : M LWorld A) : stays (writes P) (lockM m).
Proof. intros s. rewrite lockM_run. by intros q. Qed.
Lemma writes_exit P p c : stays (writes P) (exit p c).
Proof. intros s. by intros q. Qed.
Lemma start_writes rand p f :
  stays (writes (λ q, q = handle_path f ∨ q = (handle_path f +:+ ".tmp")%string)) (start lib_io lf UserConfigDir rand Listen p f).
Proof using.
  set (P := λ q, _). assert (Hmk : stays (Setup.touches P) (Files.MkdirAll lib_io)) by apply Setup.reads_touches, Setup.reads_MkdirAll.
  pose proof (writes_exit P p) as Hexit. pose proof (@writes_lockM) as Hlock. pose proof (@writes_filesM) as Hfiles.
  assert (Hmod : ∀ g : DProc → DProc, (∀ s, dp_files (g s) = dp_files s) → stays (writes P) (modify g)).
  { intros g Hg s q _. simpl. by rewrite Hg. }
  unfold start. destruct (ParseFormat (fl_format f)) as [e2|fmt]; [apply Hexit|].
  destruct (DefaultPaths UserConfigDir) as [e|[[a b] c]] eqn:E; [apply Hexit|]. cbv zeta.
  assert (Ep : or_default (fl_handle f) c = handle_path f) by (unfold handle_path; by rewrite E). rewrite Ep.
  apply stays_bind; [apply _|apply Hfiles, stays_ignore; [apply _|exact Hmk]|intros _].
  apply stays_bind; [apply _|apply stays_try, Hlock|intros [e|i]; [apply Hexit|]].
  destruct (GenerateToken rand) as [e0|token]; [apply Hexit|]. destruct (Listen (fl_addr f)) as [e1|bound]; [apply Hexit|].
  apply stays_bind; [apply _|by apply Hmod|intros _].
  apply stays_bind; [apply _|apply stays_try, Hfiles|intros [e|[]]].
  - unfold WriteHandle. apply stays_bind; [apply _|by apply stays_try|intros [e|[]]; [apply stays_fail, _|]].
    apply stays_bind; [apply _|apply stays_of_sum, _|intros data]. apply (Setup.touches_atomicWrite lib_io P); unfold P; auto.
  - apply stays_bind; [apply _|by apply Hmod|intros _; apply Hexit].
  - apply stays_bind; [apply _|apply stays_try, Hfiles|intros [e|sp]; [apply Hexit|apply stays_ret, _]].
    unfold Mcpd.NewStore. apply stays_bind; [apply _|by apply stays_try|intros [e|[]]; [apply stays_fail, _|apply stays_ret, _]].
Qed.

(** ** The work *)
Lemma tool_light K t req w : is_Some (st_Store K) → st_Started K = true → t ∈ Build K →
  match t_handler t req w with (Panic _, _) => True | (_, w') => bgrows (worlds w) (worlds w') end.
Proof.
  intros Hs Hf Ht. destruct (decide (t_name t = "ssh_forward_cancel")) as [Hn|Hn].
  - rewrite (cancel_only K t Ht Hn). pose proof (cancel_run K Hs Hf req w) as H.
    assert (Herr : ∀ e, (handleForwardCancel K req w).1 ≠ Err e)
      by (intros e; unfold handleForwardCancel; rewrite answer_run; by repeat case_match).
    destruct (handleForwardCancel K req w) as [[[r|e]|e|q] w']; [by destruct H as (_ & ? & _)|done|by destruct (Herr e)|done].
  - pose proof (asked_all K Hs Hf) as H. rewrite Forall_forall in H. specialize (H t Ht Hn req w).
    destruct (t_handler t req w) as [[r|e|q] w']; [by destruct H as (_ & ? & _)..|done].
Qed.
Lemma serve_light K calls w w' : is_Some (st_Store K) → st_Started K = true → blight (worlds w) →
  serve K calls w = (Ret tt, w') → blight (worlds w').
Proof.
  intros Hs Hf. revert w. induction calls as [|c calls IH]; intros w Hb Hrun; [by injection Hrun as <-|].
  unfold serve in *. cbn [forM_] in Hrun. unfold mbind at 1, M_bind, ignore, try, mbind, M_bind in Hrun.
  assert (Hc : match call_tool K c w with (Panic _, _) => True | (_, w1) => blight (worlds w1) end).
  { unfold call_tool. destruct (List.find _ (Build K)) as [t|] eqn:Ht; [|done]. apply List.find_some in Ht as [Ht _].
    pose proof (tool_light K t c.2 w Hs Hf (proj2 (list_elem_of_In _ _) Ht)) as H. unfold mbind, M_bind.
    destruct (t_handler t c.2 w) as [[r|e|q] w1]; [by eapply blight_grows..|done]. }
  destruct (call_tool K c w) as [[r|e|q] w1]; [by eapply IH..|done].
Qed.
Lemma work_run K path calls w0 served w : is_Some (st_Store K) → st_Started K = true → blight (worlds w0) →
  sessions (worlds w0).1 = ∅ → Docker.hosts (worlds w0).2 = ∅ → work K path calls w0 = (Ret served, w) →
  blight (worlds served) ∧ shutdown K served = (Ret tt, w).
Proof.
  intros Hs Hf Hb He Hh. unfold work, mbind, M_bind, get. destruct (boot path w0) as [[c|e|q] w1] eqn:Hboot; [|done|done].
  destruct (boot_run path w0 c w1 Hb He Hh Hboot) as [Hb1 _].
  destruct (serve K calls w1) as [[[]|e|q] w2] eqn:Hserve; [|done|done].
  pose proof (serve_light K calls w1 w2 Hs Hf Hb1 Hserve) as Hb2.
  destruct (shutdown K w2) as [[[]|e|q] w3] eqn:Hsd; [|done|done]. intros [= <- <-]. by split.
Qed.
Lemma managers0_fresh host files : blight (worlds (managers0 host files)) ∧ sessions (worlds (managers0 host files)).1 = ∅ ∧
  Docker.hosts (worlds (managers0 host files)).2 = ∅.
Proof. split; [split; [apply light_world0|apply dlight_dworld0]|done]. Qed.

(** No step of the daemon's work returns an error: what fails is logged or dropped. *)
Lemma noerr_decode_records rs : noerr (decode_records rs).
Proof.
  assert (Ha : ∀ a j c, noerr (alloc_spec a j c)) by (intros a j c w e; unfold alloc_spec; by repeat case_match).
  induction rs as [|r rs IH]; cbn [decode_records]; unfold decode_record; solve_noerr.
Qed.
Lemma noerr_count_each {S A} (f : A → M S unit) l : ∀ a b, noerr (count_each f l a b).
Proof. induction l as [|x l IH]; intros a b; cbn [count_each]; solve_noerr. Qed.
Lemma noerr_host_close l : noerr (Docker.host_close l).
Proof.
  unfold Docker.host_close, host_close_begin, close_dshells, close_conn, dshl_Close, upd_host.
  solve_noerr; intros d e; unfold host_at, dshl_at, mbind, M_bind, gets; simpl; by case_match.
Qed.
#[local] Hint Resolve noerr_decode_records noerr_count_each noerr_host_close noerr_close : noerr.
Lemma work_noerr K path calls : noerr (work K path calls).
Proof.
  unfold work, boot, serve, shutdown, Stop, ignore, viaSsh, viaDocker, onBoth, CloseAll, Docker.CloseAll, Restore,
    decode_snapshot, sshM, dkM. solve_noerr.
Qed.

(** A daemon that came up and ended. *)
Lemma daemon_run rand p f calls host s served w s1 :
  lock_inv (dp_lock s) → holder (dp_lock s) ≠ Some p → dp_listening s = None →
  daemon rand p f calls host s = (Ret (0, Some (served, w)), s1) →
  blight (worlds served) ∧ shutdown (config (state_path f) f) served = (Ret tt, w) ∧
  lock_inv (dp_lock s1) ∧ holder (dp_lock s1) = None ∧ (fail_remove lf = None → lw_path (dp_lock s1) = None) ∧
  dp_listening s1 = None ∧
  (∀ q, q ≠ handle_path f → fs_files (dp_files s1) !! q = fs_files (mw_state w) !! q).
Proof.
  intros Hl Hp Hn. unfold daemon, mbind at 1, M_bind. pose proof (start_paths rand p f s) as Hpaths.
  pose proof (start_spec lib_io lf UserConfigDir rand Listen p f s Hl Hp Hn) as Hst. cbv zeta in Hst.
  destruct (start lib_io lf UserConfigDir rand Listen p f s) as [[[c|lock h hp sp]|e|q] s0]; [done| |done|done].
  destruct Hpaths as [-> ->]. destruct Hst as [(c & [=] & _)|(i & h' & hp & sp & [= <- <- <- <-] & Hup)].
  destruct Hup as (_ & Hl0 & _ & Hlock & _). cbn [snd] in *.
  destruct (work _ _ _ _) as [[v|e|q] w'] eqn:Hwork; [|done|done]. destruct (managers0_fresh host (dp_files s0)) as (Hb & He & Hh).
  destruct (work_run (config (state_path f) f) _ _ _ _ _ (mk_is_Some _ _ eq_refl) eq_refl Hb He Hh Hwork) as [Hbs Hsd].
  set (s0' := s0 <| dp_files := mw_state w' |>).
  destruct (finish_spec lib_io lf p lock (handle_path f) s0' Hl0 Hlock) as (s2 & Hfin & H1 & H2 & H3 & H4 & H5 & _).
  unfold mbind, M_bind. rewrite Hfin. simpl. intros [= <- <- <-]. by split_and!.
Qed.
End main.


(** ** A restart of the example *)
Definition state_ex : string := "/c/remote-shell-mcp/state.json".
Definition disk_ex : DProc := dproc0 <| dp_files := mkFS {[state_ex := "saved"]} [] 0 |>.
Definition calls_ex : list (string * Tools.Request) :=
  [("ssh_list", request []); ("ssh_exec", request [("session_id", inl "a"); ("command", inl "id")]);
   ("ssh_forward_cancel", request [("session_id", inl "a"); ("forward_id", inl "none")]); ("no_such_tool", request [])].
Definition first_ex := @daemon codec_up lib_saved no_faults (inr "/c") (λ _, inr "127.0.0.1:5") 0 (inr zeros) 42 flags_ex calls_ex server0 disk_ex.
Definition second_ex := @start codec_up (λ _, None) no_faults (inr "/c") (inr zeros) (λ _, inr "127.0.0.1:5") 42 flags_ex first_ex.2.
Definition restored_ex := @boot lib_saved state_ex (managers0 server0 (dp_files second_ex.2)).
